(** * nearai_frame_manager: metadata fusion, sequence assignment and rendering

    A shallow embedding of the Python package [nearai_frame_manager]
    ([common.py], [exif_utils.py], [processing.py], [cli.py]) and the
    properties of its fusion / grouping / sequencing / emission pipeline.

    Conventions of the embedding.
    - Python values of type [Any] (the derived metadata tree, annotation
      payloads, trajectory rows, GeoJSON) are trees of type [value]; a
      Python [dict] is an association list in insertion order, updated the
      way [d[k] = v] updates a dict (in place when the key exists, appended
      otherwise).
    - A [float] is a rational: every float that reaches a comparison here is
      finite ([seconds_to_utc] rejects NaN and infinities when the pose CSV
      is loaded, [st_mtime] is finite), and finite floats compare as the
      rationals they denote.
    - A [str] is a [string] of UTF-8 bytes; byte-wise lexicographic order is
      code-point order.
    - Operations that raise in Python return [option] (or a sum with the
      exception) here.
    - Files written are recorded as a log of [event]s. *)

From Stdlib Require Import List String Ascii NArith ZArith QArith Bool Lia.
From Stdlib Require Import Permutation Sorted OrdersEx RelationClasses.
From Stdlib Require Import DecimalString DecimalZ DecimalN DecimalPos.
Import ListNotations.

Local Open Scope string_scope.
Local Open Scope Z_scope.
Local Open Scope list_scope.

(** ** Python values *)

Definition float := Q.

Unset Elimination Schemes.
Inductive value : Type :=
| VNone
| VBool (b : bool)
| VInt (z : Z)
| VFloat (x : float)
| VStr (s : string)
| VDict (items : list (string * value))
| VList (items : list value).
Set Elimination Schemes.

Definition dict := list (string * value).

(** Structural induction through the nested lists. *)
Section ValueInd.
Variable P : value -> Prop.
Hypothesis HNone : P VNone.
Hypothesis HBool : forall b, P (VBool b).
Hypothesis HInt : forall z, P (VInt z).
Hypothesis HFloat : forall x, P (VFloat x).
Hypothesis HStr : forall s, P (VStr s).
Hypothesis HDict : forall items, Forall (fun kv => P (snd kv)) items -> P (VDict items).
Hypothesis HList : forall items, Forall P items -> P (VList items).

Fixpoint value_ind (v : value) : P v :=
  match v with
  | VNone => HNone
  | VBool b => HBool b
  | VInt z => HInt z
  | VFloat x => HFloat x
  | VStr s => HStr s
  | VDict items =>
      HDict items ((fix go (l : list (string * value)) : Forall (fun kv => P (snd kv)) l :=
                match l with
                | [] => Forall_nil _
                | kv :: l' => Forall_cons kv (value_ind (snd kv)) (go l')
                end) items)
  | VList items =>
      HList items ((fix go (l : list value) : Forall P l :=
                match l with
                | [] => Forall_nil _
                | x :: l' => Forall_cons x (value_ind x) (go l')
                end) items)
  end.
End ValueInd.

(** [d.get(k)] as a lookup; [None] when the key is absent. *)
Fixpoint dict_get {A : Type} (k : string) (d : list (string * A)) : option A :=
  match d with
  | [] => None
  | (k', v) :: d' => if String.eqb k k' then Some v else dict_get k d'
  end.

(** [d[k] = v]: overwrite in place, or append a new key at the end. *)
Fixpoint dict_set {A : Type} (k : string) (v : A) (d : list (string * A))
  : list (string * A) :=
  match d with
  | [] => [(k, v)]
  | (k', v') :: d' =>
      if String.eqb k k' then (k, v) :: d' else (k', v') :: dict_set k v d'
  end.

(** [d.get(k)] on a dict of values: Python's [None] when the key is absent. *)
Definition py_get (d : dict) (k : string) : value :=
  match dict_get k d with
  | Some v => v
  | None => VNone
  end.

(** [v.get(k)] on an arbitrary value: only a dict has the method. *)
Definition attr_get (v : value) (k : string) : option value :=
  match v with
  | VDict d => Some (py_get d k)
  | _ => None
  end.

(** [v[k] = x] on an arbitrary value with a string key: only a dict accepts it. *)
Definition set_item (v : value) (k : string) (x : value) : option value :=
  match v with
  | VDict d => Some (VDict (dict_set k x d))
  | _ => None
  end.

Definition is_none (v : value) : bool :=
  match v with
  | VNone => true
  | _ => false
  end.

(** Python truth value. *)
Definition truthy (v : value) : bool :=
  match v with
  | VNone => false
  | VBool b => b
  | VInt z => negb (z =? 0)
  | VFloat x => negb (Qeq_bool x 0)
  | VStr s => negb (String.eqb s "")
  | VDict d => match d with [] => false | _ => true end
  | VList l => match l with [] => false | _ => true end
  end.

(** [a or b]. *)
Definition py_or (a b : value) : value := if truthy a then a else b.

Definition ofloat (o : option float) : value :=
  match o with
  | Some x => VFloat x
  | None => VNone
  end.

Definition ostr (o : option string) : value :=
  match o with
  | Some s => VStr s
  | None => VNone
  end.

Definition oint (o : option Z) : value :=
  match o with
  | Some z => VInt z
  | None => VNone
  end.

(** ** common.py *)

(** The three tests of [prune_none] that drop a pruned child:
    [sub is None], an empty dict, an empty list. *)
Definition is_blank (v : value) : bool :=
  match v with
  | VNone => true
  | VDict [] => true
  | VList [] => true
  | _ => false
  end.

Fixpoint prune_none (v : value) : value :=
  match v with
  | VDict items =>
      VDict (fold_left
               (fun out kv =>
                  let sub := prune_none (snd kv) in
                  if is_blank sub then out else dict_set (fst kv) sub out)
               items [])
  | VList items =>
      VList (fold_left
               (fun out_list item =>
                  let item' := prune_none item in
                  if is_blank item' then out_list else out_list ++ [item'])
               items [])
  | _ => v
  end.

(** No [None], empty dict or empty list is stored anywhere below [v]. *)
Fixpoint no_blank_inside (v : value) : bool :=
  match v with
  | VDict items =>
      forallb (fun kv => negb (is_blank (snd kv)) && no_blank_inside (snd kv)) items
  | VList items =>
      forallb (fun x => negb (is_blank x) && no_blank_inside x) items
  | _ => true
  end.

(** The loop bodies of [prune_none], named for the proofs. *)
Definition prune_dict_step (out : dict) (kv : string * value) : dict :=
  let sub := prune_none (snd kv) in
  if is_blank sub then out else dict_set (fst kv) sub out.

Definition prune_list_step (out_list : list value) (item : value) : list value :=
  let item' := prune_none item in
  if is_blank item' then out_list else out_list ++ [item'].

(** A value that pruning leaves alone and that is worth keeping. *)
Definition settled (v : value) : Prop :=
  prune_none v = v /\ is_blank v = false /\ no_blank_inside v = true.

(** ** Strings, number formatting and paths *)

(** [str(n)] for an int. *)
Definition str_of_int (n : Z) : string := NilZero.string_of_int (Z.to_int n).

(** The decimal digits of [|n|]. *)
Definition digits (n : Z) : string := NilZero.string_of_uint (N.to_uint (Z.abs_N n)).

Fixpoint zeros (k : nat) : string :=
  match k with
  | O => ""
  | S k' => String "0" (zeros k')
  end.

(** [s.zfill(w)] for a string of digits. *)
Definition zfill (w : nat) (s : string) : string :=
  (zeros (w - String.length s) ++ s)%string.

(** The format spec [0{w}d]: sign-aware zero padding to a minimum width. *)
Definition format_0d (w : nat) (n : Z) : string :=
  if n <? 0 then ("-" ++ zfill (w - 1) (digits n))%string else zfill w (digits n).

Definition is_digit (c : ascii) : bool :=
  let n := nat_of_ascii c in (48 <=? n)%nat && (n <=? 57)%nat.

Fixpoint all_digits (s : string) : bool :=
  match s with
  | "" => true
  | String c s' => is_digit c && all_digits s'
  end.

(** [s.isdigit()] on ASCII text. *)
Definition isdigit (s : string) : bool :=
  negb (String.eqb s "") && all_digits s.

(** [s.split(c)[0]]: the text before the first [c]. *)
Fixpoint before (c : ascii) (s : string) : string :=
  match s with
  | "" => ""
  | String a s' => if Ascii.eqb a c then "" else String a (before c s')
  end.

(** [str(ts).split("T")[0].split(" ")[0]]: the calendar-date part of a timestamp. *)
Definition date_part (s : string) : string := before " " (before "T" s).

Fixpoint ends_with_slash (s : string) : bool :=
  match s with
  | "" => false
  | String c "" => Ascii.eqb c "/"
  | String _ s' => ends_with_slash s'
  end.

Definition starts_with_slash (s : string) : bool :=
  match s with
  | String c _ => Ascii.eqb c "/"
  | "" => false
  end.

(** [os.path.join(a, b)] (POSIX). *)
Definition path_join (a b : string) : string :=
  if starts_with_slash b then b
  else if String.eqb a "" || ends_with_slash a then (a ++ b)%string
  else (a ++ "/" ++ b)%string.

(** [os.path.basename(p)] (POSIX): the text after the last slash. *)
Fixpoint basename_from (acc s : string) : string :=
  match s with
  | "" => acc
  | String c s' =>
      if Ascii.eqb c "/" then basename_from s' s' else basename_from acc s'
  end.

Definition basename (p : string) : string := basename_from p p.

(** Reading a zero-padded number back. *)
Definition read_digits (s : string) : option N :=
  option_map N.of_uint (NilEmpty.uint_of_string s).

(** ** processing.py: sequence and frame identifiers *)

(** [sequence_ids(index, max_per_seq)]; [None] is the [ZeroDivisionError]
    of [// 0]. Python's [//] and [%] on ints are [Z.div] and [Z.modulo]. *)
Definition sequence_ids (index max_per_seq : Z) : option (string * string * Z) :=
  if max_per_seq =? 0 then None
  else
    let sequence_index := (index - 1) / max_per_seq + 1 in
    let frame_index := (index - 1) mod max_per_seq + 1 in
    let sequence_id := ("S" ++ format_0d 3 sequence_index)%string in
    let frame_id := format_0d 6 frame_index in
    Some (sequence_id, frame_id, frame_index).

(** ** models.py *)

(** [PoseRow], with the nine keys [load_pose_csv] always stores; a field is
    [None] where the CSV cell was missing or unparseable. *)
Record PoseRow : Type := {
  file_name : string;
  gps_seconds : option float;
  timestamp : option string;
  gps_latitude : option float;
  gps_longitude : option float;
  gps_altitude_m : option float;
  heading_deg : option float;
  pitch_deg : option float;
  roll_deg : option float
}.

(** The row as the dict literal built by [load_pose_csv]. It is never
    empty, so a row is always truthy: [if csv_pose] tests [is not None]. *)
Definition pose_dict (p : PoseRow) : dict :=
  [ ("file_name", VStr (file_name p));
    ("gps_seconds", ofloat (gps_seconds p));
    ("timestamp", ostr (timestamp p));
    ("gps_latitude", ofloat (gps_latitude p));
    ("gps_longitude", ofloat (gps_longitude p));
    ("gps_altitude_m", ofloat (gps_altitude_m p));
    ("heading_deg", ofloat (heading_deg p));
    ("pitch_deg", ofloat (pitch_deg p));
    ("roll_deg", ofloat (roll_deg p)) ].

(** [info.get("csv_pose") or {}]. *)
Definition pose_or_empty (csv_pose : option PoseRow) : dict :=
  match csv_pose with
  | Some p => pose_dict p
  | None => []
  end.

Record ImageEntry : Type := {
  path : string;
  entry_mtime : float
}.

(** [Record] of models.py. *)
Record record : Type := {
  src : string;
  ext : string;
  original_name : string;
  acquisition_date : string;
  derived : dict;
  mtime : float;
  csv_pose : option PoseRow
}.

Definition PoseLookup := list (string * PoseRow).

Record AcquisitionPlan : Type := {
  folder : string;
  name : string;
  plan_acquisition_date : option string;
  pose_csv_path : option string;
  lidar_paths : list string;
  default_sensor : option string
}.

Record AcquisitionCandidate : Type := {
  cand_folder : string;
  cand_name : string;
  sample_image : string
}.

(** ** Library functions and the outside world *)

(** What the package takes from the Python library and does not define:
    calendar parsing and formatting, float literals, Unicode case and
    whitespace, extension splitting. *)
Class PyLib : Type := {
  (** [parse_exif_date(text)] of common.py: [decode_exif_text], then
      [strptime] with the three accepted formats, [strftime("%Y%m%d")]. *)
  parse_exif_date : string -> option string;
  (** The text branch of [parse_float]: strip, comma to dot, [float()];
      [None] for empty text or a [ValueError]. *)
  float_of_text : string -> option float;
  (** [datetime.fromtimestamp(t, tz=utc).strftime("%Y%m%d")]. *)
  utc_date_code : float -> string;
  str_lower : string -> string;
  str_strip : string -> string;
  (** [os.path.splitext]. *)
  splitext : string -> string * string;
  (** [date_from_folder_name(folder_name)] of common.py: the first run of
      eight digits that [strptime] accepts as a date. *)
  date_from_folder_name : string -> option string
}.

(** The tag values [extract_exif_metadata] decodes from one image file, each
    already passed through its converter ([gps_to_degrees],
    [rational_to_float], [gps_datetime_utc], [parse_exif_datetime],
    [decode_exif_text], [exif_to_int]); an unreadable file has none. *)
Record exif_tags : Type := {
  gps_lat : option float;
  gps_lon : option float;
  gps_alt : option float;
  gps_alt_ref_label : option string;
  gps_timestamp : option string;
  dt_text : option string;
  cam_make : option string;
  cam_model : option string;
  cam_serial_number : option string;
  cam_software : option string;
  cam_focal_length_mm : option float;
  cam_focal_length_35mm : option Z;
  cam_f_number : option float;
  (** the raw [GPSDateStamp] text *)
  gps_date_stamp : option string
}.

Inductive exn : Type :=
| OSError (msg : string)
| FileNotFoundError (msg : string)
| ValueError (msg : string)
| Crash (msg : string).   (* any exception no handler of the package names *)

Definition exn_msg (e : exn) : string :=
  match e with
  | OSError m | FileNotFoundError m | ValueError m | Crash m => m
  end.

(** [except (OSError, ValueError)]; [FileNotFoundError] is an [OSError]. *)
Definition is_os_or_value_error (e : exn) : bool :=
  match e with
  | OSError _ | FileNotFoundError _ | ValueError _ => true
  | Crash _ => false
  end.

(** [except (FileNotFoundError, ValueError)]. *)
Definition is_not_found_or_value_error (e : exn) : bool :=
  match e with
  | FileNotFoundError _ | ValueError _ => true
  | OSError _ | Crash _ => false
  end.

(** [except ValueError]. *)
Definition is_value_error (e : exn) : bool :=
  match e with
  | ValueError _ => true
  | _ => false
  end.

(** What one run writes, in order.  [WriteJson] and [WriteCsv] stand for
    [write_json] and [write_trajectory_csv]: the [ensure_dirs] each does on
    the parent directory is part of the event, and [WriteCsv] carries the
    rows as passed, before [DictWriter] fills in missing cells. Every
    event stands for an operation that succeeds: what a failing
    [os.makedirs], [shutil.copy2] or write raises is outside the model. *)
Inductive event : Type :=
| MakeDirs (paths : list string)
| CopyFile (source dest : string)
| WriteJson (file : string) (payload : value)
| WriteCsv (file : string) (rows : list dict)
| Print (line : string)
| PrintErr (line : string).

(** The file system and the console, as the package reads them. Each
    field gives what the call returns. [read_exif] and [getmtime] stand
    for the decoding in [extract_exif_metadata] and [extract_camera_model]
    when it returns, and [find_pose_csv_path] for a search that returns:
    the exceptions these calls can let through are outside the model. The
    prompts that [input] shows are not events of a log. *)
Class World : Type := {
  read_exif : string -> exif_tags;
  getmtime : string -> float;
  abspath : string -> string;
  (** [load_pose_csv(path, epoch)] of csv_utils.py *)
  load_pose_csv : string -> string -> exn + PoseLookup;
  (** [find_pose_csv_path(folder)] of csv_utils.py *)
  find_pose_csv_path : string -> option string;
  (** [collect_image_entries(folder)] of io_utils.py *)
  collect_image_entries : string -> list ImageEntry;
  find_first_image_path : string -> option string;
  find_lidar_paths : string -> list string;
  collect_lidar_paths : option string -> exn + list string;
  (** [resolve_region(raw, prompt)] with its console input *)
  resolve_region : option string -> exn + string;
  (** [resolve_sensor_id(raw, default_sensor, allow_prompt=...)] *)
  resolve_sensor_id : option string -> option string -> bool -> exn + string;
  (** [collect_batch_region_sensor(plans)] *)
  collect_batch_region_sensor : list AcquisitionPlan -> exn + list (string * string)
}.

Notation "x <- c1 ;; c2" :=
  (match c1 with
   | Some x => c2
   | None => None
   end)
  (at level 61, c1 at next level, right associativity).

Notation "' pat <- c1 ;; c2" :=
  (match c1 with
   | Some pat => c2
   | None => None
   end)
  (at level 61, pat pattern, c1 at next level, right associativity).

Section Pipeline.

Context {lib : PyLib} {world : World}.

(** ** common.py, continued *)

(** [prune_none] on a dict, as a dict. *)
Definition prune_dict (d : dict) : dict := fold_left prune_dict_step d [].

(** [parse_float(value)]. A bool is an int; the [str()] of a dict or list
    starts with a bracket and is never a float literal. *)
Definition parse_float (v : value) : option float :=
  match v with
  | VNone => None
  | VBool b => Some (if b then 1%Q else 0%Q)
  | VInt z => Some (inject_Z z)
  | VFloat x => Some x
  | VStr s => float_of_text s
  | VDict _ | VList _ => None
  end.

(** [normalize_image_key(value)]. *)
Definition normalize_image_key (v : string) : string :=
  str_lower (fst (splitext (basename (str_strip v)))).

(** ** exif_utils.py *)

(** [a or b] on two optional strings. *)
Definition ostr_or (a b : option string) : option string :=
  if truthy (ostr a) then a else b.

(** [extract_exif_metadata(img_path)], from the decoded tags on. *)
Definition extract_exif_metadata (img_path : string) : string * dict :=
  let t := read_exif img_path in
  let camera : dict :=
    [ ("make", ostr (cam_make t));
      ("model", ostr (cam_model t));
      ("serial_number", ostr (cam_serial_number t));
      ("software", ostr (cam_software t));
      ("focal_length_mm", ofloat (cam_focal_length_mm t));
      ("focal_length_35mm", oint (cam_focal_length_35mm t));
      ("f_number", ofloat (cam_f_number t)) ] in
  let gps_date_code :=
    match gps_date_stamp t with
    | Some s => parse_exif_date s
    | None => None
    end in
  let dt_date_code :=
    if truthy (ostr (dt_text t)) then
      match dt_text t with
      | Some s => parse_exif_date (date_part s)
      | None => None
      end
    else None in
  let date_code := ostr_or gps_date_code dt_date_code in
  let date_code :=
    match date_code with
    | Some d =>
        if String.eqb d "" || negb (Nat.eqb (String.length d) 8) || negb (isdigit d)
        then utc_date_code (getmtime img_path)
        else d
    | None => utc_date_code (getmtime img_path)
    end in
  let derived : dict :=
    [ ("datetime_original", ostr (dt_text t));
      ("gps", VDict [ ("latitude_deg", ofloat (gps_lat t));
                      ("longitude_deg", ofloat (gps_lon t));
                      ("altitude_m", ofloat (gps_alt t));
                      ("altitude_ref", ostr (gps_alt_ref_label t));
                      ("timestamp_utc", ostr (gps_timestamp t)) ]);
      ("camera", VDict camera) ] in
  (date_code, prune_dict derived).

(** ** processing.py *)

(** The tuple [(int, float, str)] returned by [record_sort_key]. *)
Definition sort_key : Type := Z * float * string.

Definition record_sort_key (r : record) : sort_key :=
  match csv_pose r with
  | Some pose =>
      match gps_seconds pose with
      | Some s => (0, s, src r)
      | None => (1, mtime r, src r)
      end
  | None => (1, mtime r, src r)
  end.

(** [a < b] on two keys: Python compares tuples at the first component
    where they differ. *)
Definition key_lt (a b : sort_key) : bool :=
  let '(ra, ta, sa) := a in
  let '(rb, tb, sb) := b in
  match ra ?= rb with
  | Lt => true
  | Gt => false
  | Eq =>
      match (ta ?= tb)%Q with
      | Lt => true
      | Gt => false
      | Eq =>
          match String_as_OT.compare sa sb with
          | Lt => true
          | _ => false
          end
      end
  end.

(** [records.sort(key=record_sort_key)]. [list.sort] is a stable sort that
    compares keys with [<]; every such sort returns the same list, given
    here by insertion: an element stays ahead of the later elements whose
    key is not smaller. *)
Fixpoint insert_record (x : record) (l : list record) : list record :=
  match l with
  | [] => [x]
  | y :: l' =>
      if key_lt (record_sort_key y) (record_sort_key x)
      then y :: insert_record x l'
      else x :: y :: l'
  end.

Definition sort_records (records : list record) : list record :=
  fold_right insert_record [] records.

Definition choose_acquisition_date (default_date : string) (csv_pose : option PoseRow)
  : string :=
  match csv_pose with
  | Some pose =>
      if truthy (py_get (pose_dict pose) "timestamp") then
        match timestamp pose with
        | Some ts =>
            match parse_exif_date (date_part ts) with
            | Some csv_date => if truthy (VStr csv_date) then csv_date else default_date
            | None => default_date
            end
        | None => default_date
        end
      else default_date
  | None => default_date
  end.

(** The three [(gps_key, csv_key)] pairs of [apply_csv_overrides]. *)
Definition gps_override_keys : list (string * string) :=
  [ ("latitude_deg", "gps_latitude");
    ("longitude_deg", "gps_longitude");
    ("altitude_m", "gps_altitude_m") ].

(** [apply_csv_overrides(derived, csv_pose)]; [None] is the [TypeError] of
    an item assignment into a ["gps"] entry that is not a dict. *)
Definition apply_csv_overrides (derived : dict) (csv_pose : option PoseRow)
  : option dict :=
  match csv_pose with
  | None => Some derived
  | Some pose =>
      let csv := pose_dict pose in
      let gps_info :=
        match dict_get "gps" derived with
        | Some g => g
        | None => VDict []
        end in
      gps_info <-
        fold_left
          (fun acc keys =>
             g <- acc ;;
             if negb (is_none (py_get csv (snd keys)))
             then set_item g (fst keys) (py_get csv (snd keys))
             else Some g)
          gps_override_keys (Some gps_info) ;;
      gps_info <-
        (if negb (is_none (py_get csv "timestamp"))
         then set_item gps_info "timestamp_utc" (py_get csv "timestamp")
         else Some gps_info) ;;
      Some (dict_set "gps" (prune_none gps_info) derived)
  end.

(** One iteration of the loop of [build_records]. *)
Definition build_record (pose_lookup : PoseLookup) (entry : ImageEntry) : option record :=
  let path := path entry in
  let csv_pose :=
    match pose_lookup with
    | [] => None
    | _ => dict_get (normalize_image_key path) pose_lookup
    end in
  let '(acquisition_date, derived) := extract_exif_metadata path in
  derived <- apply_csv_overrides derived csv_pose ;;
  let acquisition_date := choose_acquisition_date acquisition_date csv_pose in
  Some {| src := path;
          ext := str_lower (snd (splitext path));
          original_name := basename path;
          acquisition_date := acquisition_date;
          derived := derived;
          mtime := entry_mtime entry;
          csv_pose := csv_pose |}.

Fixpoint build_records (image_entries : list ImageEntry) (pose_lookup : PoseLookup)
  : option (list record) :=
  match image_entries with
  | [] => Some []
  | entry :: rest =>
      r <- build_record pose_lookup entry ;;
      records <- build_records rest pose_lookup ;;
      Some (r :: records)
  end.


(** [build_pose_entry(info, frame_index, image_name)]; [None] is the
    [AttributeError] of [.get] on a ["gps"] entry that is not a dict. *)
Definition build_pose_entry (info : record) (frame_index : Z) (image_name : string)
  : option dict :=
  let derived := derived info in
  let gps_info :=
    match dict_get "gps" derived with
    | Some g => g
    | None => VDict []
    end in
  let csv_pose := pose_or_empty (csv_pose info) in
  timestamp <-
    (if truthy (py_get csv_pose "timestamp") then Some (py_get csv_pose "timestamp")
     else
       gps_ts <- attr_get gps_info "timestamp_utc" ;;
       Some (py_or gps_ts (py_get derived "datetime_original"))) ;;
  latitude <- attr_get gps_info "latitude_deg" ;;
  longitude <- attr_get gps_info "longitude_deg" ;;
  altitude <- attr_get gps_info "altitude_m" ;;
  Some [ ("frame_index", VInt frame_index);
         ("image_name", VStr image_name);
         ("timestamp", timestamp);
         ("gps_latitude", latitude);
         ("gps_longitude", longitude);
         ("gps_altitude_m", altitude);
         ("heading_deg", py_get csv_pose "heading_deg");
         ("pitch_deg", py_get csv_pose "pitch_deg");
         ("roll_deg", py_get csv_pose "roll_deg") ].

(** constants.py *)
Definition POSE_FIELDS : list string :=
  [ "frame_index"; "image_name"; "timestamp"; "gps_latitude"; "gps_longitude";
    "gps_altitude_m"; "heading_deg"; "pitch_deg"; "roll_deg" ].

Definition POSE_DATA_FIELDS : list string :=
  [ "timestamp"; "gps_latitude"; "gps_longitude"; "gps_altitude_m";
    "heading_deg"; "pitch_deg"; "roll_deg" ].

(** [value != ""]. *)
Definition is_empty_str (v : value) : bool :=
  match v with
  | VStr "" => true
  | _ => false
  end.

Definition pose_has_data (entry : dict) : bool :=
  existsb
    (fun key =>
       let value := py_get entry key in
       negb (is_none value) && negb (is_empty_str value))
    POSE_DATA_FIELDS.

(** [build_annotation_payload(...)]; [None] is the [AttributeError] of
    [.get] on a truthy ["gps"] entry that is not a dict. *)
Definition build_annotation_payload (info : record)
    (acquisition_id sequence_id sensor_id : string) (frame_index : Z)
  : option value :=
  let derived := derived info in
  let gps_info := py_get derived "gps" in
  let csv_pose_d := pose_or_empty (csv_pose info) in
  gps_timestamp_utc <-
    (if truthy gps_info then attr_get gps_info "timestamp_utc" else Some VNone) ;;
  let payload :=
    VDict
      [ ("previous_name", VStr (original_name info));
        ("acquisition_id", VStr acquisition_id);
        ("sequence_id", VStr sequence_id);
        ("sensor_id", VStr sensor_id);
        ("frame_index", VInt frame_index);
        ("capture", VDict [ ("datetime_original", py_get derived "datetime_original");
                            ("gps_timestamp_utc", gps_timestamp_utc) ]);
        ("gps", gps_info);
        ("pose", VDict [ ("source", match csv_pose info with
                                    | Some _ => VStr "csv"
                                    | None => VNone
                                    end);
                         ("timestamp", py_get csv_pose_d "timestamp");
                         ("gps_seconds", py_get csv_pose_d "gps_seconds");
                         ("gps_latitude", py_get csv_pose_d "gps_latitude");
                         ("gps_longitude", py_get csv_pose_d "gps_longitude");
                         ("gps_altitude_m", py_get csv_pose_d "gps_altitude_m");
                         ("heading_deg", py_get csv_pose_d "heading_deg");
                         ("pitch_deg", py_get csv_pose_d "pitch_deg");
                         ("roll_deg", py_get csv_pose_d "roll_deg") ]) ] in
  Some (prune_none payload).

(** [build_intrinsics(records, sensor_id)]: Python's [None] is [VNone]; the
    outer [None] is the [AttributeError] on a truthy ["camera"] entry that
    is not a dict. *)
Fixpoint build_intrinsics (records : list record) (sensor_id : string) : option value :=
  match records with
  | [] => Some VNone
  | r :: rest =>
      let camera :=
        match dict_get "camera" (derived r) with
        | Some c => c
        | None => VDict []
        end in
      if negb (truthy camera) then build_intrinsics rest sensor_id
      else
        make <- attr_get camera "make" ;;
        model <- attr_get camera "model" ;;
        serial_number <- attr_get camera "serial_number" ;;
        software <- attr_get camera "software" ;;
        focal_length_mm <- attr_get camera "focal_length_mm" ;;
        focal_length_35mm <- attr_get camera "focal_length_35mm" ;;
        f_number <- attr_get camera "f_number" ;;
        let intrinsics :=
          prune_dict
            [ ("sensor_id", VStr sensor_id);
              ("camera_make", make);
              ("camera_model", model);
              ("serial_number", serial_number);
              ("software", software);
              ("focal_length_mm", focal_length_mm);
              ("focal_length_35mm", focal_length_35mm);
              ("f_number", f_number) ] in
        if (1 <? List.length intrinsics)%nat then Some (VDict intrinsics)
        else build_intrinsics rest sensor_id
  end.

(** [build_coordinate_systems(records)]. *)
Fixpoint build_coordinate_systems (records : list record) : option value :=
  match records with
  | [] => Some VNone
  | r :: rest =>
      let gps_info := py_get (derived r) "gps" in
      if negb (truthy gps_info) then build_coordinate_systems rest
      else
        latitude <- attr_get gps_info "latitude_deg" ;;
        longitude <- attr_get gps_info "longitude_deg" ;;
        if is_none latitude || is_none longitude then build_coordinate_systems rest
        else
          altitude_ref <- attr_get gps_info "altitude_ref" ;;
          let position : dict :=
            [ ("reference", VStr "WGS84");
              ("epsg", VInt 4326);
              ("units", VStr "degrees");
              ("altitude_units", VStr "meters") ] in
          let position :=
            if truthy altitude_ref
            then dict_set "altitude_reference" altitude_ref position
            else position in
          Some (VDict [ ("position", VDict position); ("source", VStr "EXIF GPS") ])
  end.

(** The first loop of [build_geojson_track]: the rows that have both
    coordinates, and how many of them have an altitude. *)
Definition track_step (acc : list (float * float * option float) * nat) (row : dict)
  : list (float * float * option float) * nat :=
  let '(positions, alt_count) := acc in
  let lat := parse_float (py_get row "gps_latitude") in
  let lon := parse_float (py_get row "gps_longitude") in
  let alt := parse_float (py_get row "gps_altitude_m") in
  match lat, lon with
  | Some lat, Some lon =>
      (positions ++ [(lon, lat, alt)],
       match alt with
       | Some _ => S alt_count
       | None => alt_count
       end)
  | _, _ => acc
  end.

(** One element of [coordinates]. *)
Definition coordinate (include_alt : bool) (p : float * float * option float)
  : list float :=
  let '(lon, lat, alt) := p in
  match alt with
  | Some a => if include_alt then [lon; lat; a] else [lon; lat]
  | None => [lon; lat]
  end.

(** [build_geojson_track(rows, acquisition_id, sequence_id, sensor_id)];
    Python's [None] is [VNone]. *)
Definition build_geojson_track (rows : list dict)
    (acquisition_id sequence_id sensor_id : string) : value :=
  let '(positions, alt_count) := fold_left track_step rows ([], O) in
  if (List.length positions <? 2)%nat then VNone
  else
    let include_alt := Nat.eqb alt_count (List.length positions) in
    let coordinates := map (coordinate include_alt) positions in
    let properties : dict :=
      [ ("acquisition_id", VStr acquisition_id);
        ("sequence_id", VStr sequence_id);
        ("sensor_id", VStr sensor_id);
        ("point_count", VInt (Z.of_nat (List.length coordinates))) ] in
    let properties :=
      if include_alt then dict_set "altitude_units" (VStr "meters") properties
      else properties in
    VDict
      [ ("type", VStr "FeatureCollection");
        ("features",
         VList
           [ VDict
               [ ("type", VStr "Feature");
                 ("properties", VDict properties);
                 ("geometry",
                  VDict [ ("type", VStr "LineString");
                          ("coordinates",
                           VList (map (fun c => VList (map VFloat c)) coordinates)) ]) ] ]) ].

(** [ensure_dirs] of common.py: empty paths are skipped. *)
Definition ensure_dirs (paths : list string) : event :=
  MakeDirs (filter (fun p => negb (String.eqb p "")) paths).

(** [d.setdefault(k, []).append(x)]. *)
Fixpoint dict_append {A : Type} (k : string) (x : A) (d : list (string * list A))
  : list (string * list A) :=
  match d with
  | [] => [(k, [x])]
  | (k', l) :: d' =>
      if String.eqb k k' then (k', l ++ [x]) :: d' else (k', l) :: dict_append k x d'
  end.

(** [s.add(x)] on a set of strings. *)
Fixpoint set_add (x : string) (s : list string) : list string :=
  match s with
  | [] => [x]
  | y :: s' => if String.eqb x y then s else y :: set_add x s'
  end.

(** [x in s]. *)
Definition set_mem (x : string) (s : list string) : bool :=
  existsb (String.eqb x) s.

(** [enumerate(l, start)]. *)
Fixpoint enumerate {A : Type} (start : Z) (l : list A) : list (Z * A) :=
  match l with
  | [] => []
  | x :: l' => (start, x) :: enumerate (start + 1) l'
  end.

(** The local variables of [process_acquisition] that its loop updates,
    and the files written so far. *)
Record acq_state : Type := {
  copied : Z;
  poses_by_sequence : list (string * list dict);
  sequences_with_pose : list string;
  sequence_dirs : list (string * (string * string));
  current_sequence : option string;
  current_count : Z;
  written : list event
}.

Definition sequence_done_line (sequence_id : string) (count : Z) : string :=
  ("Sequence " ++ sequence_id ++ " done (" ++ str_of_int count ++ " images).")%string.

(** The output naming key. *)
Definition new_base (acquisition_id sequence_id sensor_id frame_id : string) : string :=
  (acquisition_id ++ "_" ++ sequence_id ++ "_" ++ sensor_id ++ "_" ++ frame_id)%string.

(** The body of the frame loop of [process_acquisition]. *)
Definition render_frame (acquisition_id sensor_id : string) (max_per_seq : Z)
    (images_root annotations_root : string)
    (st : acq_state) (item : Z * record) : option acq_state :=
  let '(idx, info) := item in
  '(sequence_id, frame_id, frame_index) <- sequence_ids idx max_per_seq ;;
  let crossing :=
    match current_sequence st with
    | Some current =>
        negb (String.eqb current "") && negb (String.eqb sequence_id current)
    | None => false
    end in
  let log1 :=
    match current_sequence st with
    | Some current =>
        if crossing then [Print (sequence_done_line current (current_count st))] else []
    | None => []
    end in
  let current_count := if crossing then 0 else current_count st in
  let '(seq_img_dir, seq_ann_dir, sequence_dirs, log2) :=
    match dict_get sequence_id (sequence_dirs st) with
    | Some (img, ann) => (img, ann, sequence_dirs st, [])
    | None =>
        let seq_img_dir := path_join images_root sequence_id in
        let seq_ann_dir := path_join annotations_root sequence_id in
        (seq_img_dir, seq_ann_dir,
         dict_set sequence_id (seq_img_dir, seq_ann_dir) (sequence_dirs st),
         [ensure_dirs [seq_img_dir; seq_ann_dir]])
    end in
  let base := new_base acquisition_id sequence_id sensor_id frame_id in
  let dest_path := path_join seq_img_dir (base ++ ext info)%string in
  let annotation_path := path_join seq_ann_dir (base ++ ".json")%string in
  annotation_payload <-
    build_annotation_payload info acquisition_id sequence_id sensor_id frame_index ;;
  pose_entry <- build_pose_entry info frame_index (basename dest_path) ;;
  Some {| copied := copied st + 1;
          poses_by_sequence := dict_append sequence_id pose_entry (poses_by_sequence st);
          sequences_with_pose :=
            if pose_has_data pose_entry
            then set_add sequence_id (sequences_with_pose st)
            else sequences_with_pose st;
          sequence_dirs := sequence_dirs;
          current_sequence := Some sequence_id;
          current_count := current_count + 1;
          written := written st ++ log1 ++ log2
                     ++ [CopyFile (src info) dest_path;
                         WriteJson annotation_path annotation_payload] |}.

Fixpoint render_frames (acquisition_id sensor_id : string) (max_per_seq : Z)
    (images_root annotations_root : string)
    (st : acq_state) (items : list (Z * record)) : option acq_state :=
  match items with
  | [] => Some st
  | item :: rest =>
      st' <- render_frame acquisition_id sensor_id max_per_seq
               images_root annotations_root st item ;;
      render_frames acquisition_id sensor_id max_per_seq
        images_root annotations_root st' rest
  end.

Definition trajectory_csv_path (poses_root sequence_id : string) : string :=
  path_join poses_root (sequence_id ++ "_trajectory.csv")%string.

Definition trajectory_geojson_path (poses_root sequence_id : string) : string :=
  path_join poses_root (sequence_id ++ "_trajectory.geojson")%string.

(** The body of the last loop of [process_acquisition], for one item of
    [poses_by_sequence]. *)
Definition emit_sequence (acquisition_id sensor_id poses_root : string)
    (sequences_with_pose : list string) (item : string * list dict) : list event :=
  let '(sequence_id, rows) := item in
  if negb (set_mem sequence_id sequences_with_pose) then []
  else
    let geojson_payload := build_geojson_track rows acquisition_id sequence_id sensor_id in
    WriteCsv (trajectory_csv_path poses_root sequence_id) rows
    :: (if truthy geojson_payload
        then [WriteJson (trajectory_geojson_path poses_root sequence_id) geojson_payload]
        else []).

(** The state after the frame loop of [process_acquisition]: everything up
    to and including the last frame. *)
Definition render_acquisition (acquisition_id : string) (records : list record)
    (sensor_id : string) (max_per_seq : Z) (output_dir : string) : option acq_state :=
  let records := sort_records records in
  let acquisition_root := path_join output_dir acquisition_id in
  let images_root := path_join acquisition_root "01_images" in
  let calibration_root := path_join acquisition_root "03_calibration" in
  let annotations_root := path_join acquisition_root "04_annotations" in
  let poses_root := path_join acquisition_root "02_poses" in
  let log0 := [ensure_dirs [images_root; calibration_root; annotations_root; poses_root]] in
  coordinate_systems <- build_coordinate_systems records ;;
  let log1 :=
    if truthy coordinate_systems
    then [WriteJson (path_join poses_root "coordinate_systems.json") coordinate_systems]
    else [] in
  intrinsics <- build_intrinsics records sensor_id ;;
  let log2 :=
    if truthy intrinsics
    then [WriteJson (path_join calibration_root "intrinsics.json") intrinsics]
    else [] in
  render_frames acquisition_id sensor_id max_per_seq images_root annotations_root
    {| copied := 0;
       poses_by_sequence := [];
       sequences_with_pose := [];
       sequence_dirs := [];
       current_sequence := None;
       current_count := 0;
       written := log0 ++ log1 ++ log2 |}
    (enumerate 1 records).

(** [process_acquisition(...)]: the files written and the returned count;
    [None] when an exception escapes. *)
Definition process_acquisition (acquisition_id : string) (records : list record)
    (sensor_id : string) (max_per_seq : Z) (output_dir : string)
  : option (list event * Z) :=
  st <- render_acquisition acquisition_id records sensor_id max_per_seq output_dir ;;
  let poses_root := path_join (path_join output_dir acquisition_id) "02_poses" in
  let log3 :=
    match current_sequence st with
    | Some current =>
        if negb (String.eqb current "")
        then [Print (sequence_done_line current (current_count st))]
        else []
    | None => []
    end in
  let log4 :=
    flat_map (emit_sequence acquisition_id sensor_id poses_root (sequences_with_pose st))
      (poses_by_sequence st) in
  Some (written st ++ log3 ++ log4, copied st).

(** ** io_utils.py *)

(** [copy_lidar_assets(acquisition_root, acquisition_id, lidar_paths)]: the
    copies made and their number. *)
Definition copy_lidar_assets (acquisition_root acquisition_id : string)
    (lidar_paths : list string) : list event * Z :=
  match lidar_paths with
  | [] => ([], 0)
  | _ =>
      let lidar_root := path_join acquisition_root "06_point_clouds" in
      let acquisition_prefix := str_lower (acquisition_id ++ "_")%string in
      fold_left
        (fun acc lidar_path =>
           let '(log, copied) := acc in
           let base_name := basename lidar_path in
           let dest_name :=
             if String.prefix acquisition_prefix (str_lower base_name) then base_name
             else (acquisition_id ++ "_" ++ base_name)%string in
           let dest_path := path_join lidar_root dest_name in
           if String.eqb (abspath lidar_path) (abspath dest_path) then acc
           else (log ++ [CopyFile lidar_path dest_path], copied + 1))
        lidar_paths ([ensure_dirs [lidar_root]], 0)
  end.

(** ** processing.py: grouping *)

Definition acquisition_id_of (region : string) (rec : record) : string :=
  (acquisition_date rec ++ "-" ++ region)%string.

(** The first loop of [process_records_by_acquisition]: the dict [grouped]. *)
Definition group_records (records : list record) (region : string)
  : list (string * list record) :=
  fold_left (fun grouped rec => dict_append (acquisition_id_of region rec) rec grouped)
    records [].

(** The running totals of the second loop, and the files written so far. *)
Definition group_totals : Type := list event * Z * Z.

(** The body of the second loop of [process_records_by_acquisition]. *)
Definition process_group (sensor_id : string) (max_per_seq : Z) (output_dir : string)
    (lidar_paths : list string) (acc : group_totals) (item : string * list record)
  : option group_totals :=
  let '(log, total, lidar_total) := acc in
  let '(acquisition_id, items) := item in
  '(events, copied) <- process_acquisition acquisition_id items sensor_id max_per_seq output_dir ;;
  match lidar_paths with
  | [] => Some (log ++ events, total + copied, lidar_total)
  | _ =>
      let acquisition_root := path_join output_dir acquisition_id in
      let '(lidar_events, lidar_copied) :=
        copy_lidar_assets acquisition_root acquisition_id lidar_paths in
      Some (log ++ events
            ++ [Print ("Copying LiDAR files for " ++ acquisition_id ++ "...")%string]
            ++ lidar_events
            ++ [Print ("LiDAR copy complete for " ++ acquisition_id ++ ".")%string],
            total + copied, lidar_total + lidar_copied)
  end.

Fixpoint process_groups (sensor_id : string) (max_per_seq : Z) (output_dir : string)
    (lidar_paths : list string) (acc : group_totals)
    (grouped : list (string * list record)) : option group_totals :=
  match grouped with
  | [] => Some acc
  | item :: rest =>
      acc' <- process_group sensor_id max_per_seq output_dir lidar_paths acc item ;;
      process_groups sensor_id max_per_seq output_dir lidar_paths acc' rest
  end.

(** [process_records_by_acquisition(...)]: the files written and the
    returned triple [(total, lidar_total, len(grouped))]. *)
Definition process_records_by_acquisition (records : list record)
    (region sensor_id : string) (max_per_seq : Z) (output_dir : string)
    (lidar_paths : list string) : option (list event * (Z * Z * Z)) :=
  let grouped := group_records records region in
  '(log, total, lidar_total) <-
    process_groups sensor_id max_per_seq output_dir lidar_paths ([], 0, 0) grouped ;;
  Some (log, (total, lidar_total, Z.of_nat (List.length grouped))).

(** ** cli.py *)

(** How a run ends: a returned exit status, or an exception nobody caught. *)
Inductive outcome : Type :=
| Exit (status : Z)
| Uncaught (e : exn).

(** What a run wrote, and how it ended. When an exception escapes from
    [build_records] or [process_records_by_acquisition], the files of that
    call are left out of the log. *)
Definition run : Type := list event * outcome.

Definition nl : string := String (ascii_of_nat 10) "".

(** [load_pose_lookup(path, epoch, soft_fail=..., label=...)]: what it prints,
    and the mapping it returns or the exception it lets through. *)
Definition load_pose_lookup (path : option string) (epoch : string)
    (soft_fail : bool) (label : option string) : list event * (exn + PoseLookup) :=
  match path with
  | None => ([], inr [])
  | Some p =>
      if negb (truthy (VStr p)) then ([], inr [])
      else
        match load_pose_csv (abspath p) epoch with
        | inr poses => ([], inr poses)
        | inl exc =>
            if is_os_or_value_error exc then
              if soft_fail then
                ([PrintErr
                    (if truthy (ostr label)
                     then ("Failed to read pose CSV " ++ match label with
                                                         | Some l => l
                                                         | None => ""
                                                         end
                           ++ ": " ++ exn_msg exc)%string
                     else ("Failed to read pose CSV: " ++ exn_msg exc)%string)],
                 inr [])
              else ([], inl exc)
            else ([], inl exc)
        end
  end.

(** [is_auto_value(value)]. *)
Definition is_auto_value (v : option string) : bool :=
  match v with
  | Some s => truthy (VStr s) && String.eqb (str_lower (str_strip s)) "auto"
  | None => false
  end.

(** [extract_camera_model(img_path)] of exif_utils.py. *)
Definition extract_camera_model (img_path : string) : option string :=
  cam_model (read_exif img_path).

(** [build_plans(candidates)]. *)
Definition build_plans (candidates : list AcquisitionCandidate) : list AcquisitionPlan :=
  map
    (fun candidate =>
       let folder := cand_folder candidate in
       let sample_image := sample_image candidate in
       let name := cand_name candidate in
       let folder_date := date_from_folder_name name in
       let sample_date := fst (extract_exif_metadata sample_image) in
       {| folder := folder;
          name := name;
          plan_acquisition_date := ostr_or folder_date (Some sample_date);
          pose_csv_path := find_pose_csv_path folder;
          lidar_paths := find_lidar_paths folder;
          default_sensor := extract_camera_model sample_image |})
    candidates.

Definition done_line (total acquisition_count : Z) : string :=
  (nl ++ "Done. " ++ str_of_int total ++ " files copied into "
   ++ str_of_int acquisition_count ++ " acquisition folder(s).")%string.

Definition lidar_line (lidar_total : Z) : string :=
  ("Copied " ++ str_of_int lidar_total ++ " LiDAR file(s).")%string.

Definition sensor_line (sensor_id : string) : string :=
  ("Sensor set to '" ++ sensor_id ++ "'. Scanning for images and metadata...")%string.

(** One iteration of the loop of [run_multi_acquisition], from the point
    where [pose_lookup] is known: what it prints and writes, and the three
    counts it adds to the totals ([continue] adds nothing). *)
Definition process_plan (plan : AcquisitionPlan) (region sensor_id : string)
    (max_per_seq : Z) (output_dir : string) (pose_lookup : PoseLookup)
  : list event * (exn + Z * Z * Z) :=
  match collect_image_entries (folder plan) with
  | [] => ([Print ("No JPEG images found in " ++ folder plan ++ ".")%string], inr (0, 0, 0))
  | image_entries =>
      match build_records image_entries pose_lookup with
      | None => ([], inl (Crash "build_records"))
      | Some [] =>
          ([Print ("No readable images found in " ++ folder plan ++ ".")%string],
           inr (0, 0, 0))
      | Some records =>
          match process_records_by_acquisition records region sensor_id
                  max_per_seq output_dir (lidar_paths plan) with
          | None => ([], inl (Crash "process_records_by_acquisition"))
          | Some (events, counts) => (events, inr counts)
          end
      end
  end.

(** One iteration of the loop of [run_multi_acquisition]. *)
Definition plan_step (plan : AcquisitionPlan) (region sensor_id : string)
    (pose_epoch : string) (max_per_seq : Z) (output_dir : string)
  : list event * (exn + Z * Z * Z) :=
  let log :=
    [Print (nl ++ "Processing " ++ name plan ++ "...")%string;
     Print (sensor_line sensor_id);
     Print "Loading images and building records..."] in
  match load_pose_lookup (pose_csv_path plan) pose_epoch true (pose_csv_path plan) with
  | (log_pose, inl exc) => (log ++ log_pose, inl exc)
  | (log_pose, inr pose_lookup) =>
      let '(events, result) :=
        process_plan plan region sensor_id max_per_seq output_dir pose_lookup in
      (log ++ log_pose ++ events, result)
  end.

(** The loop of [run_multi_acquisition] over [zip(plans, batch_entries,
    strict=True)], with its running totals, and the lines after it. *)
Fixpoint multi_loop (plans : list AcquisitionPlan) (batch_entries : list (string * string))
    (pose_epoch : string) (max_per_seq : Z) (output_dir : string)
    (log : list event) (total lidar_total acquisition_total : Z) : run :=
  match plans, batch_entries with
  | [], [] =>
      (log ++ [Print (done_line total acquisition_total)]
       ++ (if negb (lidar_total =? 0) then [Print (lidar_line lidar_total)] else []),
       Exit 0)
  | plan :: plans', (region, sensor_id) :: batch_entries' =>
      match plan_step plan region sensor_id pose_epoch max_per_seq output_dir with
      | (events, inl exc) => (log ++ events, Uncaught exc)
      | (events, inr (copied, copied_lidar, acquisition_count)) =>
          multi_loop plans' batch_entries' pose_epoch max_per_seq output_dir
            (log ++ events)
            (total + copied) (lidar_total + copied_lidar)
            (acquisition_total + acquisition_count)
      end
  | _, _ => (log, Uncaught (ValueError "zip() arguments have different lengths"))
  end.

(** [run_multi_acquisition(plans, pose_epoch, max_per_seq, output_dir)]. *)
Definition run_multi_acquisition (plans : list AcquisitionPlan) (pose_epoch : string)
    (max_per_seq : Z) (output_dir : string) : run :=
  match collect_batch_region_sensor plans with
  | inl exc =>
      if is_value_error exc then ([PrintErr (exn_msg exc)], Exit 1)
      else ([], Uncaught exc)
  | inr batch_entries =>
      multi_loop plans batch_entries pose_epoch max_per_seq output_dir [] 0 0 0
  end.

(** The fields of the parsed command line that [run_single_acquisition] reads. *)
Record Namespace : Type := {
  arg_region : option string;
  arg_sensor : option string;
  arg_max_per_seq : Z;
  arg_pose_csv : option string;
  arg_pose_epoch : string;
  arg_lidar_path : option string
}.

(** [run_single_acquisition], from the point where [pose_lookup] is known. *)
Definition single_after_pose (input_dir output_dir : string) (args : Namespace)
    (region : string) (pose_lookup : PoseLookup) : run :=
  match (if is_auto_value (arg_lidar_path args) then inr (find_lidar_paths input_dir)
         else collect_lidar_paths (arg_lidar_path args)) with
  | inl exc =>
      if is_not_found_or_value_error exc then ([PrintErr (exn_msg exc)], Exit 1)
      else ([], Uncaught exc)
  | inr lidar_paths =>
  let default_sensor :=
    match find_first_image_path input_dir with
    | Some sample_image =>
        if truthy (VStr sample_image) then extract_camera_model sample_image else None
    | None => None
    end in
  let sensor_arg := if is_auto_value (arg_sensor args) then None else arg_sensor args in
  match resolve_sensor_id sensor_arg default_sensor (negb (is_auto_value (arg_sensor args))) with
  | inl exc =>
      if is_value_error exc then ([PrintErr (exn_msg exc)], Exit 1)
      else ([], Uncaught exc)
  | inr sensor_id =>
  let log := [Print (sensor_line sensor_id); Print "Loading images and building records..."] in
  match collect_image_entries input_dir with
  | [] => (log ++ [Print "No JPEG images found."], Exit 0)
  | image_entries =>
  match build_records image_entries pose_lookup with
  | None => (log, Uncaught (Crash "build_records"))
  | Some [] => (log ++ [Print "No readable images found."], Exit 0)
  | Some records =>
  match process_records_by_acquisition records region sensor_id
          (arg_max_per_seq args) output_dir lidar_paths with
  | None => (log, Uncaught (Crash "process_records_by_acquisition"))
  | Some (events, (total, lidar_total, acquisition_count)) =>
      (log ++ events ++ [Print (done_line total acquisition_count)]
       ++ (match lidar_paths with
           | [] => []
           | _ => [Print (lidar_line lidar_total)]
           end),
       Exit 0)
  end end end end end.

(** [run_single_acquisition(input_dir, output_dir, args)]. *)
Definition run_single_acquisition (input_dir output_dir : string) (args : Namespace) : run :=
  match resolve_region (arg_region args) with
  | inl exc =>
      if is_value_error exc then ([PrintErr (exn_msg exc)], Exit 1)
      else ([], Uncaught exc)
  | inr region =>
      let pose_csv_path :=
        if is_auto_value (arg_pose_csv args) then find_pose_csv_path input_dir
        else arg_pose_csv args in
      match load_pose_lookup pose_csv_path (arg_pose_epoch args) false None with
      | (log, inl exc) =>
          if is_os_or_value_error exc
          then (log ++ [PrintErr ("Failed to read pose CSV: " ++ exn_msg exc)%string], Exit 1)
          else (log, Uncaught exc)
      | (log, inr pose_lookup) =>
          let '(events, result) :=
            single_after_pose input_dir output_dir args region pose_lookup in
          (log ++ events, result)
      end
  end.

End Pipeline.

(** ** Vocabulary of the properties *)

(** The identifier of the sequence with 1-based index [k]. *)
Definition sequence_id_of (k : Z) : string := ("S" ++ format_0d 3 k)%string.

(** The sizes the specification gives the sequences of [n] records: full
    sequences of [max_per_seq], then a shorter last one when [n] is not a
    multiple. *)
Definition spec_sequence_sizes (n max_per_seq : Z) : list Z :=
  repeat max_per_seq (Z.to_nat (n / max_per_seq))
  ++ (if n mod max_per_seq =? 0 then [] else [n mod max_per_seq]).

(** A record whose ["gps"] and ["camera"] entries, when present, are dicts:
    what [extract_exif_metadata] and [apply_csv_overrides] produce, and what
    the [.get] calls of the renderer need. *)
Definition is_dict (v : value) : bool :=
  match v with
  | VDict _ => true
  | _ => false
  end.

Definition well_typed (r : record) : bool :=
  match dict_get "gps" (derived r) with
  | Some g => is_dict g
  | None => true
  end
  && match dict_get "camera" (derived r) with
     | Some c => is_dict c
     | None => true
     end.

(** [1, 2, ..., n] *)
Definition positions (n : nat) : list Z := map Z.of_nat (seq 1 n).

(** The sequence identifier and the frame index [sequence_ids] gives
    position [p]. *)
Definition sequence_id_at (max_per_seq p : Z) : string :=
  sequence_id_of ((p - 1) / max_per_seq + 1).

Definition frame_index_at (max_per_seq p : Z) : Z := (p - 1) mod max_per_seq + 1.

Definition append_row {A : Type} (d : list (string * list A)) (kr : string * A)
  : list (string * list A) :=
  dict_append (fst kr) (snd kr) d.

(** The epoch seconds of the attached pose row, when there is one. *)
Definition pose_epoch (r : record) : option float :=
  match csv_pose r with
  | Some pose => gps_seconds pose
  | None => None
  end.

(** The order of the specification, in its words: records with a pose
    epoch first, by epoch; the others after, by modification time; ties
    by source path. *)
Definition spec_precedes (a b : record) : Prop :=
  match pose_epoch a, pose_epoch b with
  | Some ea, Some eb =>
      (ea < eb)%Q \/ ((ea == eb)%Q /\ String_as_OT.lt (src a) (src b))
  | Some _, None => True
  | None, Some _ => False
  | None, None =>
      (mtime a < mtime b)%Q
      \/ ((mtime a == mtime b)%Q /\ String_as_OT.lt (src a) (src b))
  end.

(** [a < b] on keys, as a proposition. *)
Definition key_before (a b : sort_key) : Prop :=
  let '(ra, ta, sa) := a in
  let '(rb, tb, sb) := b in
  ra < rb \/ (ra = rb /\ ((ta < tb)%Q \/ ((ta == tb)%Q /\ String_as_OT.lt sa sb))).

(** [b] does not sort before [a]. *)
Definition not_after (a b : record) : Prop :=
  ~ key_before (record_sort_key b) (record_sort_key a).

(** Console lines and directory creation: events that write no file. *)
Definition is_notice (e : event) : bool :=
  match e with
  | Print _ | PrintErr _ | MakeDirs _ => true
  | _ => false
  end.

(** A log without trajectory tables, whose JSON files are all named
    [*.json]: what [process_acquisition] has written when its frame loop
    ends. *)
Definition frame_log_event (e : event) : Prop :=
  match e with
  | WriteCsv _ _ => False
  | WriteJson f _ => exists p, f = (p ++ ".json")%string
  | _ => True
  end.

(** What [os.path.join(a, b)] puts in front of a relative [b]. *)
Definition path_prefix (a : string) : string :=
  if String.eqb a "" || ends_with_slash a then a else (a ++ "/")%string.

(** The marker set holds exactly the sequences with a populated row. *)
Definition pose_marks_ok (st : acq_state) : Prop :=
  forall s,
    In s (sequences_with_pose st)
    <-> exists rows row,
          dict_get s (poses_by_sequence st) = Some rows
          /\ In row rows /\ pose_has_data row = true.

(** ** Concrete libraries, worlds and records for the closed instances *)

(** Splitting a name at its last dot. *)
Fixpoint split_last_dot (s : string) : string * string :=
  match s with
  | "" => ("", "")
  | String c s' =>
      let '(root, extension) := split_last_dot s' in
      if negb (String.eqb extension "") then (String c root, extension)
      else if Ascii.eqb c "." then ("", String c s')
      else (String c root, "")
  end.

(** Dates written [YYYYMMDD], [YYYY:MM:DD] or [YYYY-MM-DD], without a
    calendar check. *)
Definition example_parse_date (s : string) : option string :=
  let separated :=
    Nat.eqb (String.length s) 10
    && match get 4 s, get 7 s with
       | Some a, Some b =>
           Ascii.eqb a b && (Ascii.eqb a ":" || Ascii.eqb a "-")
       | _, _ => false
       end in
  let d :=
    if separated then (substring 0 4 s ++ substring 5 2 s ++ substring 8 2 s)%string
    else s in
  if Nat.eqb (String.length d) 8 && isdigit d then Some d else None.

(** A small library for ASCII names and plain dates. *)
Definition example_lib : PyLib :=
  {| parse_exif_date := example_parse_date;
     float_of_text := fun _ => None;
     utc_date_code := fun _ => "19700101";
     str_lower := fun s => s;
     str_strip := fun s => s;
     splitext := split_last_dot;
     date_from_folder_name :=
       fun s =>
         let d := substring 0 8 s in
         if Nat.eqb (String.length d) 8 && isdigit d then Some d else None |}.

Definition no_tags : exif_tags :=
  {| gps_lat := None; gps_lon := None; gps_alt := None; gps_alt_ref_label := None;
     gps_timestamp := None; dt_text := None; cam_make := None; cam_model := None;
     cam_serial_number := None; cam_software := None; cam_focal_length_mm := None;
     cam_focal_length_35mm := None; cam_f_number := None; gps_date_stamp := None |}.

(** A world given by its image files, their tags, its pose files and what
    the operator types. *)
Definition example_world
    (tags : string -> exif_tags)
    (pose_csv : string -> string -> exn + PoseLookup)
    (located_csv : string -> option string)
    (images : string -> list ImageEntry)
    (typed : list (string * string)) : World :=
  {| read_exif := tags;
     getmtime := fun _ => 0%Q;
     abspath := fun p => p;
     load_pose_csv := pose_csv;
     find_pose_csv_path := located_csv;
     collect_image_entries := images;
     find_first_image_path := fun _ => None;
     find_lidar_paths := fun _ => [];
     collect_lidar_paths := fun _ => inr [];
     resolve_region :=
       fun raw => match raw with
                  | Some r => inr r
                  | None => inl (ValueError "Region cannot be empty.")
                  end;
     resolve_sensor_id :=
       fun raw _ _ => match raw with
                      | Some s => inr s
                      | None => inl (ValueError "Sensor ID cannot be empty.")
                      end;
     collect_batch_region_sensor := fun _ => inr typed |}.

(** A world with no files at all. *)
Definition empty_world : World :=
  example_world (fun _ => no_tags) (fun _ _ => inr []) (fun _ => None) (fun _ => []) [].

Definition example_pose (name : string) (seconds : option float)
    (lat lon alt : option float) : PoseRow :=
  {| file_name := name;
     gps_seconds := seconds;
     timestamp := match seconds with
                  | Some _ => Some "2024-01-01T00:00:00Z"
                  | None => None
                  end;
     gps_latitude := lat;
     gps_longitude := lon;
     gps_altitude_m := alt;
     heading_deg := None;
     pitch_deg := None;
     roll_deg := None |}.

Definition example_record (source : string) (modified : float)
    (gps : dict) (pose : option PoseRow) : record :=
  {| src := source;
     ext := ".jpg";
     original_name := basename source;
     acquisition_date := "20240101";
     derived := match gps with
                | [] => []
                | _ => [("gps", VDict gps)]
                end;
     mtime := modified;
     csv_pose := pose |}.

(** Three images without pose or GPS data, two of them with the same
    modification time. *)
Definition three_records : list record :=
  [ example_record "/in/c.jpg" 5%Q [] None;
    example_record "/in/a.jpg" 7%Q [] None;
    example_record "/in/b.jpg" 5%Q [] None ].

(** The keys of a list in order of first occurrence, skipping those
    already [seen]. *)
Fixpoint first_seen_from (seen keys : list string) : list string :=
  match keys with
  | [] => []
  | k :: keys' =>
      if set_mem k seen then first_seen_from seen keys'
      else k :: first_seen_from (seen ++ [k]) keys'
  end.

Definition first_seen (keys : list string) : list string := first_seen_from [] keys.

(** The records of a list that belong to acquisition [k]. *)
Definition records_of (region k : string) (records : list record) : list record :=
  filter (fun r => String.eqb (acquisition_id_of region r) k) records.

Section GroupVocabulary.

Context {lib : PyLib} {world : World}.

(** [out] is what one turn of the second loop of
    [process_records_by_acquisition] puts out for the group [g]: the
    output of [process_acquisition] on the group and, when there are LiDAR
    paths, the copies of [copy_lidar_assets] between their two console
    lines. *)
Definition group_output (sensor_id : string) (max_per_seq : Z) (output_dir : string)
    (lidar_paths : list string) (g : string * list record) (out : list event) : Prop :=
  exists events copied,
    process_acquisition (fst g) (snd g) sensor_id max_per_seq output_dir
    = Some (events, copied)
    /\ out
       = events
         ++ match lidar_paths with
            | [] => []
            | _ =>
                [Print ("Copying LiDAR files for " ++ fst g ++ "...")%string]
                ++ fst (copy_lidar_assets (path_join output_dir (fst g)) (fst g) lidar_paths)
                ++ [Print ("LiDAR copy complete for " ++ fst g ++ ".")%string]
            end.

End GroupVocabulary.

(** Three images of two days, the later day seen first. *)
Definition two_day_records : list record :=
  [ {| src := "/in/c.jpg"; ext := ".jpg"; original_name := "c.jpg";
       acquisition_date := "20240102"; derived := []; mtime := 5%Q; csv_pose := None |};
    {| src := "/in/a.jpg"; ext := ".jpg"; original_name := "a.jpg";
       acquisition_date := "20240101"; derived := []; mtime := 7%Q; csv_pose := None |};
    {| src := "/in/b.jpg"; ext := ".jpg"; original_name := "b.jpg";
       acquisition_date := "20240102"; derived := []; mtime := 6%Q; csv_pose := None |} ].

Section TrackVocabulary.

Context {lib : PyLib}.

(** The position a trajectory row contributes to the track, when both its
    latitude and its longitude parse. *)
Definition row_position (row : dict) : option (float * float * option float) :=
  match parse_float (py_get row "gps_latitude"),
        parse_float (py_get row "gps_longitude") with
  | Some lat, Some lon => Some (lon, lat, parse_float (py_get row "gps_altitude_m"))
  | _, _ => None
  end.

Definition has_coordinates (row : dict) : bool :=
  match row_position row with
  | Some _ => true
  | None => false
  end.

(** The positions of the qualifying rows, in row order. *)
Definition qualifying_positions (rows : list dict) : list (float * float * option float) :=
  flat_map (fun row => match row_position row with
                       | Some p => [p]
                       | None => []
                       end) rows.

Definition has_altitude (p : float * float * option float) : bool :=
  match snd p with
  | Some _ => true
  | None => false
  end.

End TrackVocabulary.

(** The track document of the specification: one feature with a line
    geometry over [coordinates], and the properties acquisition id, sequence
    id, sensor id, point count and, when altitude is included, the
    altitude-units tag. *)
Definition spec_track_document (acquisition_id sequence_id sensor_id : string)
    (coordinates : list (list float)) (include_alt : bool) : value :=
  VDict
    [ ("type", VStr "FeatureCollection");
      ("features",
       VList
         [ VDict
             [ ("type", VStr "Feature");
               ("properties",
                VDict
                  ([ ("acquisition_id", VStr acquisition_id);
                     ("sequence_id", VStr sequence_id);
                     ("sensor_id", VStr sensor_id);
                     ("point_count", VInt (Z.of_nat (List.length coordinates))) ]
                   ++ (if include_alt then [("altitude_units", VStr "meters")] else [])));
               ("geometry",
                VDict [ ("type", VStr "LineString");
                        ("coordinates",
                         VList (map (fun c => VList (map VFloat c)) coordinates)) ]) ] ]) ].

(** A row field holds data: neither [None] nor the empty string. *)
Definition populated (v : value) : Prop := v <> VNone /\ v <> VStr "".

(** Two images of one day, each with a pose row giving a position. *)
Definition two_posed_records : list record :=
  [ example_record "/in/a.jpg" 1%Q
      [("latitude_deg", VFloat 46%Q); ("longitude_deg", VFloat 6%Q)]
      (Some (example_pose "a.jpg" (Some 10%Q) (Some 46%Q) (Some 6%Q) None));
    example_record "/in/b.jpg" 2%Q
      [("latitude_deg", VFloat 47%Q); ("longitude_deg", VFloat 7%Q)]
      (Some (example_pose "b.jpg" (Some 20%Q) (Some 47%Q) (Some 7%Q) None)) ].

(** [d[k] = v] unless [v is None]. *)
Definition set_unless_none (k : string) (v : value) (d : dict) : dict :=
  if is_none v then d else dict_set k v d.

(** The GPS sub-dict of [apply_csv_overrides] before pruning: the embedded
    one with the pose values written over it. *)
Definition overridden_gps (g0 : dict) (pose : PoseRow) : dict :=
  set_unless_none "timestamp_utc" (ostr (timestamp pose))
    (set_unless_none "altitude_m" (ofloat (gps_altitude_m pose))
       (set_unless_none "longitude_deg" (ofloat (gps_longitude pose))
          (set_unless_none "latitude_deg" (ofloat (gps_latitude pose)) g0))).

(** The GPS sub-dict of a derived tree, empty when there is none. *)
Definition gps_of (derived : dict) : dict :=
  match dict_get "gps" derived with
  | Some (VDict g) => g
  | _ => []
  end.

Section FusionVocabulary.

Context {lib : PyLib}.

(** The pose row [build_records] attaches to an image. *)
Definition pose_for (pose_lookup : PoseLookup) (entry : ImageEntry) : option PoseRow :=
  match pose_lookup with
  | [] => None
  | _ => dict_get (normalize_image_key (path entry)) pose_lookup
  end.

End FusionVocabulary.

(** Tags of an image taken on 5 May 2023 at latitude 10, longitude 20. *)
Definition embedded_gps_tags : exif_tags :=
  {| gps_lat := Some 10%Q; gps_lon := Some 20%Q; gps_alt := Some 300%Q;
     gps_alt_ref_label := Some "above_sea_level";
     gps_timestamp := Some "2023-05-05T10:00:00Z";
     dt_text := Some "2023-05-05T12:00:00"; cam_make := None; cam_model := None;
     cam_serial_number := None; cam_software := None; cam_focal_length_mm := None;
     cam_focal_length_35mm := None; cam_f_number := None;
     gps_date_stamp := Some "2023:05:05" |}.

Definition image_a : ImageEntry := {| path := "/in/a.jpg"; entry_mtime := 1%Q |}.

(** A world whose images all carry [embedded_gps_tags]. *)
Definition embedded_gps_world : World :=
  example_world (fun _ => embedded_gps_tags) (fun _ _ => inr []) (fun _ => None)
    (fun _ => [image_a]) [].

(** A pose row for [image_a] at latitude 46, longitude 6, altitude 400,
    on 1 January 2024. *)
Definition pose_a : PoseRow :=
  example_pose "a.jpg" (Some 1388102400%Q) (Some 46%Q) (Some 6%Q) (Some 400%Q).

(** A folder named after 1 January 2024 whose one image was taken on
    5 May 2023, and what the operator types for it. *)
Definition dated_folder : AcquisitionCandidate :=
  {| cand_folder := "/in/20240101_siteA";
     cand_name := "20240101_siteA";
     sample_image := "/in/20240101_siteA/a.jpg" |}.

Definition dated_folder_world : World :=
  example_world (fun _ => embedded_gps_tags) (fun _ _ => inr []) (fun _ => None)
    (fun _ => [{| path := "/in/20240101_siteA/a.jpg"; entry_mtime := 1%Q |}])
    [("Nyon", "Cam")].

(** A folder whose pose CSV is found by the search and then fails to load. *)
Definition broken_pose_world : World :=
  example_world (fun _ => no_tags)
    (fun _ _ => inl (ValueError "cannot convert float NaN to integer"))
    (fun _ => Some "/in/poses.csv")
    (fun _ => [image_a]) [("Nyon", "Cam")].

(** The same folder with a pose CSV that loads and has no rows. *)
Definition empty_pose_world : World :=
  example_world (fun _ => no_tags) (fun _ _ => inr [])
    (fun _ => Some "/in/poses.csv")
    (fun _ => [image_a]) [("Nyon", "Cam")].

Definition auto_pose_args : Namespace :=
  {| arg_region := Some "Nyon"; arg_sensor := Some "Cam"; arg_max_per_seq := 2000;
     arg_pose_csv := Some "auto"; arg_pose_epoch := "gps"; arg_lidar_path := None |}.

Definition broken_pose_plan : AcquisitionPlan :=
  {| folder := "/in"; name := "in"; plan_acquisition_date := Some "19700101";
     pose_csv_path := Some "/in/poses.csv"; lidar_paths := [];
     default_sensor := None |}.

(** Two folders of the same day, one image each, for which the operator
    types the same region and sensor. *)
Definition two_folder_world : World :=
  example_world (fun _ => embedded_gps_tags) (fun _ _ => inr []) (fun _ => None)
    (fun folder =>
       if String.eqb folder "/in/a" then [{| path := "/in/a/x.jpg"; entry_mtime := 1%Q |}]
       else if String.eqb folder "/in/b" then [{| path := "/in/b/y.jpg"; entry_mtime := 2%Q |}]
       else [])
    [("Nyon", "Cam"); ("Nyon", "Cam")].

Definition two_folder_plans : list AcquisitionPlan :=
  [ {| folder := "/in/a"; name := "a"; plan_acquisition_date := Some "20230505";
       pose_csv_path := None; lidar_paths := []; default_sensor := None |};
    {| folder := "/in/b"; name := "b"; plan_acquisition_date := Some "20230505";
       pose_csv_path := None; lidar_paths := []; default_sensor := None |} ].

(** The naming key [process_acquisition] gives position [p]. *)
Definition naming_key_at (acquisition_id sensor_id : string) (max_per_seq p : Z) : string :=
  new_base acquisition_id (sequence_id_at max_per_seq p) sensor_id
    (format_0d 6 (frame_index_at max_per_seq p)).

(** The frames of an acquisition: each record of the sorted list with its
    sequence identifier and its naming key. *)
Definition frame_names (acquisition_id sensor_id : string) (max_per_seq : Z)
    (records : list record) : list (record * string * string) :=
  map (fun item =>
         (snd item, sequence_id_at max_per_seq (fst item),
          naming_key_at acquisition_id sensor_id max_per_seq (fst item)))
    (enumerate 1 (sort_records records)).

(** The copy [process_acquisition] makes for a frame. *)
Definition frame_copy (images_root : string) (f : record * string * string) : event :=
  let '(info, sequence_id, key) := f in
  CopyFile (src info) (path_join (path_join images_root sequence_id) (key ++ ext info)%string).

Definition is_copy (e : event) : bool :=
  match e with
  | CopyFile _ _ => true
  | _ => false
  end.

(** Every directory remembered for a sequence is the one the loop makes
    for it. *)
Definition dirs_ok (images_root annotations_root : string) (st : acq_state) : Prop :=
  forall s img ann,
    dict_get s (sequence_dirs st) = Some (img, ann) ->
    img = path_join images_root s /\ ann = path_join annotations_root s.

(** All the frames of one call of [process_records_by_acquisition]. *)
Definition call_frames (records : list record) (region sensor_id : string)
    (max_per_seq : Z) : list (record * string * string) :=
  flat_map (fun g => frame_names (fst g) sensor_id max_per_seq (snd g))
    (group_records records region).

(** ** Vocabulary of the pruner and of the metadata blocks *)

(** What [prune_none] keeps of one list item: its pruned form, unless that
    is [None] or an empty container. *)
Definition kept_item (v : value) : list value :=
  if is_blank (prune_none v) then [] else [prune_none v].

(** What [prune_none] keeps of one dict entry. *)
Definition kept_entry (kv : string * value) : dict :=
  if is_blank (prune_none (snd kv)) then [] else [(fst kv, prune_none (snd kv))].

(** A record with both a latitude and a longitude in its GPS sub-dict. *)
Definition has_fix (r : record) : bool :=
  negb (is_none (py_get (gps_of (derived r)) "latitude_deg"))
  && negb (is_none (py_get (gps_of (derived r)) "longitude_deg")).

(** The coordinate-system document for a given altitude reference. *)
Definition coordinate_document (altitude_ref : value) : value :=
  VDict
    [ ("position",
       VDict ([ ("reference", VStr "WGS84");
                ("epsg", VInt 4326);
                ("units", VStr "degrees");
                ("altitude_units", VStr "meters") ]
              ++ (if truthy altitude_ref then [("altitude_reference", altitude_ref)]
                  else [])));
      ("source", VStr "EXIF GPS") ].

(** The camera sub-dict of a derived tree, empty when there is none. *)
Definition camera_of (derived : dict) : dict :=
  match dict_get "camera" derived with
  | Some (VDict c) => c
  | _ => []
  end.

(** The camera fields of [build_intrinsics], under the names they get in
    the intrinsics document. *)
Definition camera_fields (camera : dict) : dict :=
  [ ("camera_make", py_get camera "make");
    ("camera_model", py_get camera "model");
    ("serial_number", py_get camera "serial_number");
    ("software", py_get camera "software");
    ("focal_length_mm", py_get camera "focal_length_mm");
    ("focal_length_35mm", py_get camera "focal_length_35mm");
    ("f_number", py_get camera "f_number") ].

(** A record one of whose camera fields survives pruning. *)
Definition has_camera_data (r : record) : bool :=
  match flat_map kept_entry (camera_fields (camera_of (derived r))) with
  | [] => false
  | _ => true
  end.

(** The pose block of an annotation, before pruning, for an attached row. *)
Definition pose_block_fields (pose : PoseRow) : dict :=
  [ ("timestamp", ostr (timestamp pose));
    ("gps_seconds", ofloat (gps_seconds pose));
    ("gps_latitude", ofloat (gps_latitude pose));
    ("gps_longitude", ofloat (gps_longitude pose));
    ("gps_altitude_m", ofloat (gps_altitude_m pose));
    ("heading_deg", ofloat (heading_deg pose));
    ("pitch_deg", ofloat (pitch_deg pose));
    ("roll_deg", ofloat (roll_deg pose)) ].

Section LidarVocabulary.

Context {lib : PyLib} {world : World}.

(** Where [copy_lidar_assets] puts a LiDAR file: under [06_point_clouds],
    with the acquisition identifier in front of its name unless the name
    already starts with it, case ignored. *)
Definition lidar_dest (acquisition_root acquisition_id lidar_path : string) : string :=
  let base_name := basename lidar_path in
  path_join (path_join acquisition_root "06_point_clouds")
    (if String.prefix (str_lower (acquisition_id ++ "_")%string) (str_lower base_name)
     then base_name
     else (acquisition_id ++ "_" ++ base_name)%string).

(** A LiDAR file that is not already at its destination. *)
Definition lidar_to_copy (acquisition_root acquisition_id lidar_path : string) : bool :=
  negb (String.eqb (abspath lidar_path)
          (abspath (lidar_dest acquisition_root acquisition_id lidar_path))).

End LidarVocabulary.

(** [a if a is not None else b] on two optional values. *)
Definition first_some {A : Type} (a b : option A) : option A :=
  match a with
  | Some _ => a
  | None => b
  end.

(** A field of the attached pose row; [None] without a row. *)
Definition pose_field {A : Type} (pose : option PoseRow) (field : PoseRow -> option A)
  : option A :=
  match pose with
  | Some p => field p
  | None => None
  end.

(** ** Decimal strings as numbers *)

(** The number a string of decimal digits denotes, read after [acc]. *)
Fixpoint decimal_value_from (acc : N) (s : string) : N :=
  match s with
  | "" => acc
  | String c s' => decimal_value_from (10 * acc + (N_of_ascii c - 48))%N s'
  end.

Definition decimal_value (s : string) : N := decimal_value_from 0 s.

(** ** Text: whitespace, stripping and splitting *)

Definition bytes (codes : list Z) : string :=
  fold_right (fun n s => String (ascii_of_nat (Z.to_nat n)) s) "" codes.

(** The characters for which [str.isspace] holds, in UTF-8: the ASCII
    controls and the space, then U+0085, U+00A0, U+1680, U+2000 to U+200A,
    U+2028, U+2029, U+202F, U+205F and U+3000. *)
Definition whitespace : list string :=
  map bytes
    [ [9]; [10]; [11]; [12]; [13]; [28]; [29]; [30]; [31]; [32];
      [194; 133]; [194; 160]; [225; 154; 128];
      [226; 128; 128]; [226; 128; 129]; [226; 128; 130]; [226; 128; 131];
      [226; 128; 132]; [226; 128; 133]; [226; 128; 134]; [226; 128; 135];
      [226; 128; 136]; [226; 128; 137]; [226; 128; 138];
      [226; 128; 168]; [226; 128; 169]; [226; 128; 175];
      [226; 129; 159]; [227; 128; 128] ].

(** [s] without the prefix [p], when it starts with it. *)
Fixpoint strip_prefix (p s : string) : option string :=
  match p with
  | "" => Some s
  | String a p' =>
      match s with
      | String b s' => if Ascii.eqb a b then strip_prefix p' s' else None
      | "" => None
      end
  end.

(** [s] without its first character, when that is a whitespace. *)
Definition drop_space (s : string) : option string :=
  fold_right
    (fun w rest =>
       match strip_prefix w s with
       | Some s' => Some s'
       | None => rest
       end)
    None whitespace.

Fixpoint lstrip_fuel (fuel : nat) (s : string) : string :=
  match fuel with
  | O => s
  | S fuel' =>
      match drop_space s with
      | Some s' => lstrip_fuel fuel' s'
      | None => s
      end
  end.

(** [s.lstrip()] *)
Definition lstrip (s : string) : string := lstrip_fuel (String.length s) s.

Fixpoint rev_string_onto (acc s : string) : string :=
  match s with
  | "" => acc
  | String c s' => rev_string_onto (String c acc) s'
  end.

Definition rev_string (s : string) : string := rev_string_onto "" s.

(** [s] without its last character, when that is a whitespace; on the
    reversed string. No whitespace starts with a continuation byte, so the
    bytes matched are a whole character. *)
Definition drop_space_rev (r : string) : option string :=
  fold_right
    (fun w rest =>
       match strip_prefix (rev_string w) r with
       | Some r' => Some r'
       | None => rest
       end)
    None whitespace.

Fixpoint rstrip_fuel (fuel : nat) (r : string) : string :=
  match fuel with
  | O => r
  | S fuel' =>
      match drop_space_rev r with
      | Some r' => rstrip_fuel fuel' r'
      | None => r
      end
  end.

(** [s.rstrip()] *)
Definition rstrip (s : string) : string :=
  rev_string (rstrip_fuel (String.length s) (rev_string s)).

(** [s.strip()] *)
Definition strip (s : string) : string := rstrip (lstrip s).

(** [s.split()]: the maximal runs of characters that are not whitespace.
    [word] is the run being read. *)
Fixpoint split_fuel (fuel : nat) (word s : string) : list string :=
  let flush := if String.eqb word "" then [] else [word] in
  match fuel with
  | O => flush
  | S fuel' =>
      match drop_space s with
      | Some s' => flush ++ split_fuel fuel' "" s'
      | None =>
          match s with
          | "" => flush
          | String c s' => split_fuel fuel' (word ++ String c "")%string s'
          end
      end
  end.

Definition split (s : string) : list string := split_fuel (S (String.length s)) "" s.

(** [c in s] for a character. *)
Fixpoint contains (c : ascii) (s : string) : bool :=
  match s with
  | "" => false
  | String a s' => Ascii.eqb a c || contains c s'
  end.

(** The text after the first [c]; empty when there is none. *)
Fixpoint after (c : ascii) (s : string) : string :=
  match s with
  | "" => ""
  | String a s' => if Ascii.eqb a c then s' else after c s'
  end.

(** [s.split(c, 1)] for a character [c]. *)
Definition split_once (c : ascii) (s : string) : list string :=
  if contains c s then [before c s; after c s] else [s].

(** [re.sub("[^...]", "", s)]: the characters of [s] that are in a class of
    ASCII characters. A character outside ASCII is encoded with bytes from
    128 up, none of which is in the class. *)
Fixpoint keep (class : ascii -> bool) (s : string) : string :=
  match s with
  | "" => ""
  | String c s' => if class c then String c (keep class s') else keep class s'
  end.

(** The class [A-Za-z0-9_-]. *)
Definition is_token_char (c : ascii) : bool :=
  let n := nat_of_ascii c in
  ((65 <=? n) && (n <=? 90) || (97 <=? n) && (n <=? 122) || (48 <=? n) && (n <=? 57)
   || (n =? 95) || (n =? 45))%nat.

(** ** common.py: tokens *)

(** [normalize_token(value, label)] *)
Definition normalize_token (value label : string) : exn + string :=
  let cleaned := keep is_token_char (strip value) in
  if negb (truthy (VStr cleaned)) then inl (ValueError (label ++ " cannot be empty.")%string)
  else inr cleaned.

(** Every character of [s] is in the class. *)
Fixpoint all_in (class : ascii -> bool) (s : string) : bool :=
  match s with
  | "" => true
  | String c s' => class c && all_in class s'
  end.

(** A token as [normalize_token] returns it: not empty, of the class
    [A-Za-z0-9_-]. *)
Definition is_token (s : string) : bool :=
  negb (String.eqb s "") && all_in is_token_char s.

(** ** cli.py: what the operator types *)

Module Cli.

(** What the console shows: a line written by [print], or the prompt of an
    [input] call, which ends without a newline. *)
Inductive shown : Type :=
| Line (text : string)
| Prompt (text : string).

(** The result of a function that talks to the operator: what it showed,
    the typed lines it left unread, and what it returned or raised. *)
Definition told (A : Type) : Type := list shown * list string * (exn + A).

(** [input(prompt)], reading from the lines the operator types; at the
    end of the input it raises [EOFError], which no handler of the package
    names. *)
Definition input (prompt : string) (typed : list string) : told string :=
  match typed with
  | [] => ([Prompt prompt], [], inl (Crash "EOFError"))
  | line :: rest => ([Prompt prompt], rest, inr line)
  end.

(** [resolve_region(raw, prompt)] *)
Definition resolve_region (raw : option string) (prompt : string) (typed : list string)
  : told string :=
  match raw with
  | Some r =>
      if truthy (VStr r) then ([], typed, normalize_token r "Region")
      else
        let '(out, rest, line) := input prompt typed in
        match line with
        | inl exc => (out, rest, inl exc)
        | inr line => (out, rest, normalize_token line "Region")
        end
  | None =>
      let '(out, rest, line) := input prompt typed in
      match line with
      | inl exc => (out, rest, inl exc)
      | inr line => (out, rest, normalize_token line "Region")
      end
  end.

(** [resolve_sensor_id(raw, default_sensor, prompt_prefix, allow_prompt=...)] *)
Definition resolve_sensor_id (raw default_sensor : option string) (prompt_prefix : string)
    (allow_prompt : bool) (typed : list string) : told string :=
  if truthy (ostr raw) then
    ([], typed, normalize_token (match raw with Some r => r | None => "" end) "Sensor ID")
  else if truthy (ostr default_sensor) then
    let default := match default_sensor with Some d => d | None => "" end in
    if allow_prompt then
      let '(out, rest, line) :=
        input (prompt_prefix
               ++ "Sensor ID - Press enter to use the value found in metadata ["
               ++ default ++ "] or type a custom one (CamFront, GoPro, ...): ")%string
          typed in
      match line with
      | inl exc => (out, rest, inl exc)
      | inr line =>
          let entered := strip line in
          (out, rest,
           normalize_token (if truthy (VStr entered) then entered else default) "Sensor ID")
      end
    else ([], typed, normalize_token default "Sensor ID")
  else if negb allow_prompt then
    ([], typed,
     inl (ValueError "Sensor ID missing and no default sensor found in metadata."))
  else
    let '(out, rest, line) :=
      input (prompt_prefix ++ "Sensor ID (e.g., CamFront, GoPro): ")%string typed in
    match line with
    | inl exc => (out, rest, inl exc)
    | inr line => (out, rest, normalize_token line "Sensor ID")
    end.

(** [parse_region_sensor(line, default_sensor)] *)
Definition parse_region_sensor (line : string) (default_sensor : option string)
  : exn + string * string :=
  let parts :=
    if contains "," line then map strip (split_once "," line) else split line in
  match parts with
  | [] => inl (ValueError "Expected: <Region> [SensorID] or <Region>,<SensorID>.")
  | first :: others =>
      if negb (truthy (VStr first))
      then inl (ValueError "Expected: <Region> [SensorID] or <Region>,<SensorID>.")
      else
        match normalize_token first "Region" with
        | inl exc => inl exc
        | inr region =>
            let from_default :=
              if negb (truthy (ostr default_sensor))
              then inl (ValueError
                          "Sensor ID missing and no default sensor found in metadata.")
              else
                match normalize_token
                        (match default_sensor with Some d => d | None => "" end)
                        "Sensor ID" with
                | inl exc => inl exc
                | inr sensor_id => inr (region, sensor_id)
                end in
            match others with
            | second :: _ =>
                if truthy (VStr second) then
                  match normalize_token second "Sensor ID" with
                  | inl exc => inl exc
                  | inr sensor_id => inr (region, sensor_id)
                  end
                else from_default
            | [] => from_default
            end
        end
  end.

(** The lines [collect_batch_region_sensor] prints before it asks. *)
Definition batch_header (plans : list AcquisitionPlan) : list shown :=
  [ Line (nl ++ "Provide info for each acquisition folder.")%string;
    Line "Format: <Region> <SensorID>  or  <Region>,<SensorID>";
    Line ("Only enter <Region> to use the default sensor (if detected)." ++ nl)%string;
    Line (str_of_int (Z.of_nat (List.length plans)) ++ " acquisition(s) found:" ++ nl)%string ]
  ++ map (fun item =>
            let default_note :=
              if truthy (ostr (default_sensor (snd item)))
              then match default_sensor (snd item) with Some d => d | None => "" end
              else "none" in
            Line (" " ++ str_of_int (fst item) ++ ". " ++ name (snd item)
                  ++ " (default sensor: " ++ default_note ++ ")")%string)
       (enumerate 1 plans).

(** The [while] loop of [collect_batch_region_sensor]: [pending] holds the
    plans from [plans[len(entries)]] on. Every turn reads one line. *)
Fixpoint batch_loop (total : Z) (entries : list (string * string))
    (pending : list AcquisitionPlan) (typed : list string)
  : told (list (string * string)) :=
  match pending with
  | [] => ([], typed, inr entries)
  | plan :: pending' =>
      let blank := match entries with [] => [Line ""] | _ => [] end in
      let prompt :=
        ("[" ++ str_of_int (Z.of_nat (List.length entries) + 1) ++ "/"
         ++ str_of_int total ++ "] ")%string in
      match typed with
      | [] => (blank ++ [Prompt prompt], [], inl (Crash "EOFError"))
      | answer :: typed' =>
          let line := strip answer in
          if negb (truthy (VStr line)) then
            (blank ++ [Prompt prompt], typed',
             inl (ValueError "Batch entry cancelled or incomplete."))
          else
            match parse_region_sensor line (default_sensor plan) with
            | inr entry =>
                let '(out, rest, result) :=
                  batch_loop total (entries ++ [entry]) pending' typed' in
                (blank ++ [Prompt prompt] ++ out, rest, result)
            | inl exc =>
                if is_value_error exc then
                  let '(out, rest, result) := batch_loop total entries pending typed' in
                  (blank ++ [Prompt prompt; Line ("Invalid entry: " ++ exn_msg exc)%string]
                   ++ out, rest, result)
                else (blank ++ [Prompt prompt], typed', inl exc)
            end
      end
  end.

(** [collect_batch_region_sensor(plans)] *)
Definition collect_batch_region_sensor (plans : list AcquisitionPlan) (typed : list string)
  : told (list (string * string)) :=
  let '(out, rest, result) :=
    batch_loop (Z.of_nat (List.length plans)) [] plans typed in
  (batch_header plans ++ out, rest, result).

End Cli.

(** ** csv_utils.py: the pose table *)

(** The class [a-z0-9]. *)
Definition is_lower_alnum (c : ascii) : bool :=
  let n := nat_of_ascii c in
  ((97 <=? n) && (n <=? 122) || (48 <=? n) && (n <=? 57))%nat.

(** constants.py *)
Definition POSE_CSV_FIELD_ALIASES : list (string * list string) :=
  [ ("file_name", ["file_name"; "filename"; "image_name"; "imagename"]);
    ("gps_seconds", ["gps_seconds[s]"; "gps_seconds"; "gps_time"; "gpstime"]);
    ("latitude", ["latitude[deg]"; "latitude"; "lat"]);
    ("longitude", ["longitude[deg]"; "longitude"; "lon"; "lng"]);
    ("altitude", ["altitude_ellipsoidal[m]"; "altitude_ellipsoidal"; "altitude";
                  "altitude_m"; "alt"]);
    ("roll", ["roll[deg]"; "roll"]);
    ("pitch", ["pitch[deg]"; "pitch"]);
    ("heading", ["heading[deg]"; "heading"; "yaw"; "azimuth"]) ].

(** A row as [csv.DictReader] yields it: the header names with the cells
    under them, [None] where the line was too short. *)
Definition csv_row : Type := list (string * option string).

(** [row.get(k)] *)
Definition row_get (row : csv_row) (k : string) : option string :=
  match dict_get k row with
  | Some cell => cell
  | None => None
  end.

(** What [csv.DictReader] reads from the opened file: the header names
    ([None] for an empty file), the rows it yields one after the other,
    and the exception it raises after them when it cannot read on to the
    end of the file (a line it cannot decode or parse). *)
Record csv_table : Type := {
  fieldnames : option (list string);
  table_rows : list csv_row;
  read_error : option exn
}.

Module CsvUtils.

Section PoseTable.

Context {lib : PyLib}.

(** [seconds_to_utc(seconds, epoch)] of common.py: date arithmetic of the
    library, which raises for seconds out of the range of [datetime]. *)
Variable seconds_to_utc : float -> string -> exn + string.

(** [normalize_header_name(value)] of common.py *)
Definition normalize_header_name (v : string) : string :=
  keep is_lower_alnum (str_lower (str_strip v)).

(** The dict [normalized] of [build_pose_csv_column_map]. *)
Definition normalized_headers (names : list string) : list (string * string) :=
  fold_left
    (fun normalized name =>
       if truthy (VStr name) then dict_set (normalize_header_name name) name normalized
       else normalized)
    names [].

(** The inner loop of [build_pose_csv_column_map]: the header of the first
    alias that is known. *)
Fixpoint first_alias (normalized : list (string * string)) (aliases : list string)
  : option string :=
  match aliases with
  | [] => None
  | alias :: rest =>
      match dict_get (normalize_header_name alias) normalized with
      | Some header => Some header
      | None => first_alias normalized rest
      end
  end.

(** [build_pose_csv_column_map(fieldnames)] *)
Definition build_pose_csv_column_map (names : list string) : list (string * string) :=
  let normalized := normalized_headers names in
  fold_left
    (fun mapping item =>
       match first_alias normalized (snd item) with
       | Some header => dict_set (fst item) header mapping
       | None => mapping
       end)
    POSE_CSV_FIELD_ALIASES [].

(** [row.get(column_map.get(key, ""))] *)
Definition cell (column_map : list (string * string)) (row : csv_row) (key : string)
  : option string :=
  row_get row (match dict_get key column_map with
               | Some header => header
               | None => ""
               end).

(** The body of the row loop of [load_pose_csv]: nothing for a row without
    a name, else the key and the pose it stores. *)
Definition pose_of_row (column_map : list (string * string)) (epoch : string)
    (header : string) (row : csv_row) : exn + option (string * PoseRow) :=
  let raw_name := str_strip (match row_get row header with
                             | Some name => if truthy (VStr name) then name else ""
                             | None => ""
                             end) in
  if negb (truthy (VStr raw_name)) then inr None
  else
    let gps_seconds := parse_float (ostr (cell column_map row "gps_seconds")) in
    match (match gps_seconds with
           | Some seconds =>
               match seconds_to_utc seconds epoch with
               | inl exc => inl exc
               | inr text => inr (Some text)
               end
           | None => inr None
           end) with
    | inl exc => inl exc
    | inr timestamp =>
        inr (Some (normalize_image_key raw_name,
                   {| file_name := raw_name;
                      gps_seconds := gps_seconds;
                      timestamp := timestamp;
                      gps_latitude := parse_float (ostr (cell column_map row "latitude"));
                      gps_longitude := parse_float (ostr (cell column_map row "longitude"));
                      gps_altitude_m := parse_float (ostr (cell column_map row "altitude"));
                      heading_deg := parse_float (ostr (cell column_map row "heading"));
                      pitch_deg := parse_float (ostr (cell column_map row "pitch"));
                      roll_deg := parse_float (ostr (cell column_map row "roll")) |}))
    end.

(** The row loop of [load_pose_csv]. *)
Fixpoint load_rows (column_map : list (string * string)) (epoch header : string)
    (rows : list csv_row) (poses : PoseLookup) : exn + PoseLookup :=
  match rows with
  | [] => inr poses
  | row :: rest =>
      match pose_of_row column_map epoch header row with
      | inl exc => inl exc
      | inr None => load_rows column_map epoch header rest poses
      | inr (Some (key, pose)) =>
          load_rows column_map epoch header rest (dict_set key pose poses)
      end
  end.

(** [load_pose_csv(path, epoch)], given what opening and reading the file
    at [path] gives: the exception of [open], of reading the sample or of
    reading the header line, or the table. The rows are read one by one
    inside the loop, so what the reader raises comes after the rows
    before it are handled. *)
Definition load_pose_csv (file : exn + csv_table) (epoch : string) : exn + PoseLookup :=
  if negb (String.eqb epoch "gps" || String.eqb epoch "unix")
  then inl (ValueError "pose-epoch must be 'gps' or 'unix'.")
  else
    match file with
    | inl exc => inl exc
    | inr table =>
        match fieldnames table with
        | None | Some [] => inl (ValueError "Pose CSV is missing headers.")
        | Some names =>
            let column_map := build_pose_csv_column_map names in
            match dict_get "file_name" column_map with
            | None => inl (ValueError "Pose CSV is missing a file_name column.")
            | Some header =>
                match load_rows column_map epoch header (table_rows table) [] with
                | inl exc => inl exc
                | inr poses =>
                    match read_error table with
                    | Some exc => inl exc
                    | None => inr poses
                    end
                end
            end
        end
    end.

(** [csv_has_pose_headers(path)], given what [read_csv_headers(path)]
    returns. *)
Definition csv_has_pose_headers (headers : option (list string)) : bool :=
  match headers with
  | None | Some [] => false
  | Some names =>
      match dict_get "file_name" (build_pose_csv_column_map names) with
      | Some _ => true
      | None => false
      end
  end.

End PoseTable.

End CsvUtils.

Section PoseTableVocabulary.

Context {lib : PyLib}.

Variable seconds_to_utc : float -> string -> exn + string.

(** The last non-empty header that normalises to [k]. *)
Definition header_for (names : list string) (k : string) : option string :=
  find (fun name =>
          truthy (VStr name) && String.eqb (CsvUtils.normalize_header_name name) k)
    (rev names).

(** The header a canonical field is read from: that of the first alias
    some header normalises to. *)
Fixpoint column_for (names aliases : list string) : option string :=
  match aliases with
  | [] => None
  | alias :: rest =>
      match header_for names (CsvUtils.normalize_header_name alias) with
      | Some header => Some header
      | None => column_for names rest
      end
  end.

(** The pose of the last row stored under the key [k]. *)
Fixpoint last_pose (column_map : list (string * string)) (epoch header : string)
    (rows : list csv_row) (k : string) : option PoseRow :=
  match rows with
  | [] => None
  | row :: rest =>
      match last_pose column_map epoch header rest k with
      | Some pose => Some pose
      | None =>
          match CsvUtils.pose_of_row seconds_to_utc column_map epoch header row with
          | inr (Some (key, pose)) => if String.eqb key k then Some pose else None
          | _ => None
          end
      end
  end.

End PoseTableVocabulary.

(** An image with camera tags and nothing else. *)
Definition camera_record : record :=
  {| src := "/in/k.jpg";
     ext := ".jpg";
     original_name := "k.jpg";
     acquisition_date := "20240101";
     derived := [("camera", VDict [("make", VStr "Acme"); ("model", VStr "X1")])];
     mtime := 3%Q;
     csv_pose := None |}.

Definition plain_args : Namespace :=
  {| arg_region := Some "Nyon"; arg_sensor := Some "Cam"; arg_max_per_seq := 2000;
     arg_pose_csv := None; arg_pose_epoch := "gps"; arg_lidar_path := None |}.

(** A world whose operator types the given lines when asked. *)
Definition dialogue_world (images : string -> list ImageEntry) (typed : list string) : World :=
  {| read_exif := fun _ => embedded_gps_tags;
     getmtime := fun _ => 0%Q;
     abspath := fun p => p;
     load_pose_csv := fun _ _ => inr [];
     find_pose_csv_path := fun _ => None;
     collect_image_entries := images;
     find_first_image_path := fun _ => None;
     find_lidar_paths := fun _ => [];
     collect_lidar_paths := fun _ => inr [];
     resolve_region :=
       fun raw =>
         snd (Cli.resolve_region raw
                "General identifier for the acquisition (Nyon, HSN, ...): " typed);
     resolve_sensor_id :=
       fun raw default_sensor allow_prompt =>
         snd (Cli.resolve_sensor_id raw default_sensor "" allow_prompt typed);
     collect_batch_region_sensor :=
       fun plans => snd (Cli.collect_batch_region_sensor plans typed) |}.

(** ** io_utils.py: folders and LiDAR paths *)

(** The directory tree, as [os] and [os.path] show it. *)
Class FileSystem : Type := {
  (** [os.listdir(p)]; [None] stands for an [OSError]. *)
  listdir : string -> option (list string);
  isdir : string -> bool;
  isfile : string -> bool;
  normpath : string -> string;
  (** [scan_lidar_files(folder)] of io_utils.py *)
  scan_lidar_files : string -> list string
}.

(** [sorted(names)]: strings in ascending order of their code points, which
    is the order of their bytes. *)
Fixpoint insert_name (x : string) (l : list string) : list string :=
  match l with
  | [] => [x]
  | y :: l' =>
      match String_as_OT.compare y x with
      | Gt => x :: y :: l'
      | _ => y :: insert_name x l'
      end
  end.

Definition sorted (names : list string) : list string := fold_right insert_name [] names.

Module IoUtils.

Section Folders.

Context {world : World} {fs : FileSystem}.

(** The loop of [find_acquisition_folders] over the sorted entries. *)
Definition folder_candidates (root : string) (entries : list string)
  : list AcquisitionCandidate :=
  flat_map
    (fun entry =>
       let path := path_join root entry in
       if negb (isdir path) then []
       else
         match find_first_image_path path with
         | Some sample_image =>
             if truthy (VStr sample_image)
             then [{| cand_folder := path; cand_name := entry; sample_image := sample_image |}]
             else []
         | None => []
         end)
    entries.

(** [find_acquisition_folders(root)] *)
Definition find_acquisition_folders (root : string) : list AcquisitionCandidate :=
  match listdir root with
  | None => []
  | Some names =>
      match folder_candidates root (sorted names) with
      | [] =>
          match find_first_image_path root with
          | Some sample_image =>
              if truthy (VStr sample_image)
              then [{| cand_folder := root;
                       cand_name := basename (normpath root);
                       sample_image := sample_image |}]
              else []
          | None => []
          end
      | candidates => candidates
      end
  end.

(** [collect_lidar_paths(lidar_path)] *)
Definition collect_lidar_paths (lidar_path : option string) : exn + list string :=
  match lidar_path with
  | None => inr []
  | Some p =>
      if negb (truthy (VStr p)) then inr []
      else if isdir p then
        match scan_lidar_files p with
        | [] => inl (ValueError ("No LiDAR files (.laz/.las) found in " ++ p ++ ".")%string)
        | files => inr files
        end
      else if isfile p then inr [abspath p]
      else inl (FileNotFoundError ("LiDAR path not found: " ++ p)%string)
  end.

(** [find_lidar_paths(folder)] *)
Definition find_lidar_paths (folder : string) : list string := scan_lidar_files folder.

End Folders.

(** One line of the table [write_trajectory_csv] writes for a row: the
    cells under the header [POSE_FIELDS], a missing one empty. *)
Definition trajectory_cells (row : dict) : list value :=
  map (fun key => match dict_get key row with
                  | Some v => v
                  | None => VStr ""
                  end)
    POSE_FIELDS.

End IoUtils.

(** [a <= b] on strings. *)
Definition name_le (a b : string) : Prop := String_as_OT.lt a b \/ a = b.

Section FolderVocabulary.

Context {world : World} {fs : FileSystem}.

(** A folder in which [find_first_image_path] finds an image. *)
Definition has_image (folder : string) : bool :=
  match find_first_image_path folder with
  | Some sample_image => truthy (VStr sample_image)
  | None => false
  end.

(** The candidate for a folder that has an image. *)
Definition candidate_of (folder name : string) : AcquisitionCandidate :=
  {| cand_folder := folder;
     cand_name := name;
     sample_image := match find_first_image_path folder with
                     | Some sample_image => sample_image
                     | None => ""
                     end |}.

(** An entry of the root that is a directory with an image in it. *)
Definition is_acquisition (root entry : string) : bool :=
  isdir (path_join root entry) && has_image (path_join root entry).

End FolderVocabulary.

(** ** Walking the input tree *)

(** What the walking functions of io_utils.py and csv_utils.py read from
    the file system. *)
Class Tree : Type := {
  (** [os.walk(folder)]: every directory reached with its file names, in
      the order of the walk *)
  walk : string -> list (string * list string);
  (** [os.stat(path).st_mtime]; [None] stands for an [OSError] *)
  stat_mtime : string -> option float;
  (** [os.path.relpath(path, root)] *)
  relpath : string -> string -> string;
  (** [read_csv_headers(path)] of common.py: the header row, [None] when
      the file cannot be opened or read ([OSError]), or the exception it
      lets through, such as a [UnicodeDecodeError] or a [csv.Error] *)
  read_csv_headers : string -> exn + option (list string);
  (** three characters, each a decimal digit for the [\d] of [re] *)
  three_decimals : string -> bool
}.

(** [s.endswith(suffix)] *)
Definition ends_with (suffix s : string) : bool :=
  (String.length suffix <=? String.length s)%nat
  && String.eqb
       (substring (String.length s - String.length suffix) (String.length suffix) s)
       suffix.

(** [s.count("/")] *)
Fixpoint count_slashes (s : string) : Z :=
  match s with
  | "" => 0
  | String c s' => (if Ascii.eqb c "/" then 1 else 0) + count_slashes s'
  end.

(** [a <= b] on the tuples [(int, str)] that serve as sort keys. *)
Definition depth_key_le (a b : Z * string) : bool :=
  match fst a ?= fst b with
  | Lt => true
  | Gt => false
  | Eq =>
      match String_as_OT.compare (snd a) (snd b) with
      | Gt => false
      | _ => true
      end
  end.

(** [list.sort(key=...)]: ascending keys, items with equal keys in their
    former order. *)
Fixpoint insert_by_key {A : Type} (key : A -> Z * string) (x : A) (l : list A) : list A :=
  match l with
  | [] => [x]
  | y :: l' =>
      if depth_key_le (key x) (key y) then x :: y :: l'
      else y :: insert_by_key key x l'
  end.

Definition sort_by_key {A : Type} (key : A -> Z * string) (l : list A) : list A :=
  fold_right (insert_by_key key) [] l.

Module Walk.

Section Walking.

Context {lib : PyLib} {world : World} {tree : Tree}.

(** [file.lower().endswith((".jpg", ".jpeg"))] *)
Definition is_jpeg (file : string) : bool :=
  ends_with ".jpg" (str_lower file) || ends_with ".jpeg" (str_lower file).

(** [file.lower().endswith((".laz", ".las"))] *)
Definition is_lidar (file : string) : bool :=
  ends_with ".laz" (str_lower file) || ends_with ".las" (str_lower file).

(** [collect_image_entries(folder)] *)
Definition collect_image_entries (folder : string) : list ImageEntry :=
  flat_map
    (fun dir =>
       flat_map
         (fun file =>
            if negb (is_jpeg file) then []
            else
              match stat_mtime (path_join (fst dir) file) with
              | None => []
              | Some modified =>
                  [{| path := path_join (fst dir) file; entry_mtime := modified |}]
              end)
         (snd dir))
    (walk folder).

(** The loop of [find_first_image_path] over the directories of the walk. *)
Fixpoint first_image (dirs : list (string * list string)) : option string :=
  match dirs with
  | [] => None
  | dir :: rest =>
      match find is_jpeg (sorted (snd dir)) with
      | Some file => Some (path_join (fst dir) file)
      | None => first_image rest
      end
  end.

(** [find_first_image_path(folder)] *)
Definition find_first_image_path (folder : string) : option string :=
  first_image (walk folder).

(** The list [scan_lidar_files] fills before it sorts it. *)
Definition lidar_files (folder : string) : list string :=
  flat_map
    (fun dir => map (fun file => abspath (path_join (fst dir) file))
                  (filter is_lidar (snd dir)))
    (walk folder).

(** [scan_lidar_files(folder)] *)
Definition scan_lidar_files (folder : string) : list string :=
  sorted (lidar_files folder).

(** [depth_from_root(root, path)] *)
Definition depth_from_root (root p : string) : Z :=
  let rel := relpath p root in
  if String.eqb rel "." then 0 else count_slashes rel.

(** [re.match(r"^s\d{3}_trajectory\.csv$", name)], for a name that ends
    in [.csv]. *)
Definition is_sequence_table (name : string) : bool :=
  match name with
  | String "s" rest =>
      ends_with "_trajectory.csv" rest
      && three_decimals
           (substring 0 (String.length rest - String.length "_trajectory.csv") rest)
  | _ => false
  end.

(** The candidates of [find_pose_csv_path], before they are sorted. *)
Definition pose_csv_candidates (folder : string) : list string :=
  flat_map
    (fun dir =>
       flat_map
         (fun file =>
            if negb (ends_with ".csv" (str_lower file)) then []
            else if is_sequence_table (str_lower file) then []
            else [path_join (fst dir) file])
         (snd dir))
    (walk folder).

(** The sort key of a candidate. *)
Definition closeness (folder candidate : string) : Z * string :=
  (depth_from_root folder candidate, str_lower candidate).

(** [csv_has_pose_headers(path)] *)
Definition csv_has_pose_headers (p : string) : exn + bool :=
  match read_csv_headers p with
  | inl exc => inl exc
  | inr headers => inr (CsvUtils.csv_has_pose_headers headers)
  end.

(** The last loop of [find_pose_csv_path], over the sorted candidates. *)
Fixpoint first_pose_csv (candidates : list string) : exn + option string :=
  match candidates with
  | [] => inr None
  | candidate :: rest =>
      match csv_has_pose_headers candidate with
      | inl exc => inl exc
      | inr true => inr (Some (abspath candidate))
      | inr false => first_pose_csv rest
      end
  end.

(** [find_pose_csv_path(folder)] *)
Definition find_pose_csv_path (folder : string) : exn + option string :=
  first_pose_csv (sort_by_key (closeness folder) (pose_csv_candidates folder)).

(** A candidate the loop does not pass: its header has a file-name column,
    or reading it raises. *)
Definition stops_at (candidate : string) : bool :=
  match csv_has_pose_headers candidate with
  | inr false => false
  | _ => true
  end.

(** No candidate that the loop would stop at is closer to the folder than
    [candidate]: none lies less deep, and none at the same depth has a
    lesser lower-cased path. *)
Definition closest (folder candidate : string) : Prop :=
  forall other,
    In other (pose_csv_candidates folder) ->
    csv_has_pose_headers other <> inr false ->
    depth_from_root folder candidate < depth_from_root folder other
    \/ (depth_from_root folder candidate = depth_from_root folder other
        /\ name_le (str_lower candidate) (str_lower other)).

End Walking.

End Walk.

(** ** Where files go *)

(** A path component that leads nowhere else: not empty, not [.] or [..],
    and without a slash. *)
Definition plain (name : string) : bool :=
  negb (String.eqb name "") && negb (String.eqb name ".") && negb (String.eqb name "..")
  && negb (contains "/" name).

(** [p] is [root] followed by one or more plain components, each after a
    separator (none before the first when [root] is empty or ends with
    one): the path of a file or directory below [root]. *)
Inductive below (root : string) : string -> Prop :=
| below_child (name : string) :
    plain name = true -> below root (path_prefix root ++ name)
| below_deeper (p name : string) :
    below root p -> plain name = true -> below root (p ++ "/" ++ name).

(** Every path an event creates or writes lies below [root]. *)
Definition writes_below (root : string) (e : event) : Prop :=
  match e with
  | MakeDirs paths => Forall (below root) paths
  | CopyFile _ dest => below root dest
  | WriteJson file _ => below root file
  | WriteCsv file _ => below root file
  | Print _ | PrintErr _ => True
  end.

(** What the frame loop keeps true: the remembered directories are those
    of their sequences, every sequence identifier is a plain component,
    and everything written so far lies below [root]. *)
Definition placed (root images_root annotations_root : string) (st : acq_state) : Prop :=
  dirs_ok images_root annotations_root st
  /\ Forall (fun s => plain s = true) (map fst (poses_by_sequence st))
  /\ Forall (writes_below root) (written st).

(** ** cli.py: the entry point *)

(** The parsed command line: what [run_single_acquisition] reads, and the
    three options only [main] reads. *)
Record MainArgs : Type := {
  parsed : Namespace;
  arg_input_dir : option string;
  arg_output_dir : string;
  arg_no_gui : bool
}.

Section Main.

Context {lib : PyLib} {world : World} {fs : FileSystem}.

(** [gather_input_dir(cli_dir, allow_gui=...)], with its folder picker and
    its prompt. *)
Variable gather_input_dir : option string -> bool -> exn + string.

(** [os.path.commonpath([a, b])]; [None] stands for its [ValueError]. *)
Variable commonpath : string -> string -> option string.

(** [input("Press Enter to exit...")]: the exception it raises, if any. *)
Variable press_enter : option exn.

(** [no_args], which is also [interactive_multi]. *)
Definition no_args (args : MainArgs) : bool :=
  is_none (ostr (arg_input_dir args))
  && negb (truthy (ostr (arg_pose_csv (parsed args))))
  && negb (truthy (ostr (arg_lidar_path (parsed args))))
  && negb (truthy (ostr (arg_region (parsed args))))
  && negb (truthy (ostr (arg_sensor (parsed args)))).

(** [finalize(status)], after what has been printed and written so far;
    the prompt of [input] is not an event of the log. *)
Definition finalize (args : MainArgs) (log : list event) (status : Z) : run :=
  if no_args args then
    match press_enter with
    | Some exc => (log, Uncaught exc)
    | None => (log, Exit status)
    end
  else (log, Exit status).

(** [main()], from the parsed arguments on. *)
Definition main (args : MainArgs) : run :=
  if arg_max_per_seq (parsed args) <=? 0
  then ([PrintErr "max-per-seq must be greater than zero."], Exit 1)
  else
    let banner :=
      if no_args args
      then [Print "NearAI Frame Manager (CLI).";
            Print ("Can directly run with arguments instead (see README or "
                   ++ "https://github.com/erw-1/nearai_frame_manager).")%string]
      else [] in
    match gather_input_dir (arg_input_dir args) (negb (arg_no_gui args)) with
    | inl exc =>
        if is_not_found_or_value_error exc
        then finalize args (banner ++ [PrintErr (exn_msg exc)]) 1
        else (banner, Uncaught exc)
    | inr input_dir =>
        let output_dir := abspath (arg_output_dir args) in
        let common := commonpath (abspath input_dir) output_dir in
        if match common with
           | Some c => truthy (VStr c) && String.eqb c (abspath input_dir)
           | None => false
           end
        then
          finalize args
            (banner
             ++ [PrintErr ("output-dir must be outside the input folder to avoid "
                           ++ "re-ingesting outputs.")%string]) 1
        else if no_args args then
          match IoUtils.find_acquisition_folders input_dir with
          | [] => finalize args (banner ++ [Print "No JPEG images found."]) 0
          | candidates =>
              match run_multi_acquisition (build_plans candidates)
                      (arg_pose_epoch (parsed args)) (arg_max_per_seq (parsed args))
                      output_dir with
              | (log, Exit status) => finalize args (banner ++ log) status
              | (log, Uncaught exc) => (banner ++ log, Uncaught exc)
              end
          end
        else
          let '(log, outcome) := run_single_acquisition input_dir output_dir (parsed args) in
          (banner ++ log, outcome)
    end.

End Main.

(** A log of console lines only: nothing created, copied or written. *)
Definition only_prints (log : list event) : Prop :=
  Forall (fun e => exists line, e = Print line \/ e = PrintErr line) log.

(** An operator who answers every folder of a batch with the same region
    and sensor, over folders that each hold one image. *)
Definition steady_world : World :=
  {| read_exif := fun _ => embedded_gps_tags;
     getmtime := fun _ => 0%Q;
     abspath := fun p => p;
     load_pose_csv := fun _ _ => inr [];
     find_pose_csv_path := fun _ => None;
     collect_image_entries := fun _ => [image_a];
     find_first_image_path := fun folder => Some (path_join folder "a.jpg");
     find_lidar_paths := fun _ => [];
     collect_lidar_paths := fun _ => inr [];
     resolve_region :=
       fun raw => match raw with
                  | Some r => inr r
                  | None => inl (ValueError "Region cannot be empty.")
                  end;
     resolve_sensor_id :=
       fun raw _ _ => match raw with
                      | Some s => inr s
                      | None => inl (ValueError "Sensor ID cannot be empty.")
                      end;
     collect_batch_region_sensor := fun plans => inr (map (fun _ => ("Nyon", "Cam")) plans) |}.

(** An input folder [/in] with the two subfolders [b] and [a]. *)
Definition two_folder_fs : FileSystem :=
  {| listdir := fun p => if (p =? "/in")%string then Some ["b"; "a"] else None;
     isdir := fun _ => true;
     isfile := fun _ => false;
     normpath := fun p => p;
     scan_lidar_files := fun _ => [] |}.

(** A command line without any argument but [--no-gui]. *)
Definition bare_args : MainArgs :=
  {| parsed := {| arg_region := None; arg_sensor := None; arg_max_per_seq := 2000;
                  arg_pose_csv := None; arg_pose_epoch := "gps"; arg_lidar_path := None |};
     arg_input_dir := None;
     arg_output_dir := "/out";
     arg_no_gui := true |}.

(** A folder prompt answered with [/in]. *)
Definition answer_in (cli_dir : option string) (allow_gui : bool) : exn + string :=
  match cli_dir with
  | Some p => inr p
  | None => inr "/in"
  end.

(** [os.path.commonpath] of two absolute paths that share only the root. *)
Definition root_only (a b : string) : option string := Some "/".

(** * Properties *)

(** ** Dictionaries *)

Lemma dict_set_fresh {A : Type} (k : string) (v : A) (d : list (string * A)) :
  ~ In k (map fst d) -> dict_set k v d = d ++ [(k, v)].
Proof.
  induction d as [|[k' v'] d IH]; simpl; intros Hk; [reflexivity|].
  destruct (String.eqb_spec k k') as [->|Hne].
  - exfalso. apply Hk. now left.
  - f_equal. apply IH. intros Hin. apply Hk. now right.
Qed.

Lemma dict_set_keys {A : Type} (k : string) (v : A) (d : list (string * A)) :
  forall k', In k' (map fst (dict_set k v d)) <-> k' = k \/ In k' (map fst d).
Proof.
  induction d as [|[k1 v1] d IH]; simpl; intros k'.
  - intuition congruence.
  - destruct (String.eqb_spec k k1) as [->|Hne]; simpl.
    + intuition congruence.
    + rewrite IH. intuition congruence.
Qed.

Lemma dict_set_NoDup {A : Type} (k : string) (v : A) (d : list (string * A)) :
  NoDup (map fst d) -> NoDup (map fst (dict_set k v d)).
Proof.
  induction d as [|[k1 v1] d IH]; simpl; intros Hnd.
  - constructor; [intros []|constructor].
  - inversion Hnd as [|? ? Hnotin Hnd']; subst.
    destruct (String.eqb_spec k k1) as [->|Hne]; simpl.
    + now constructor.
    + constructor; [|now apply IH].
      rewrite dict_set_keys. intros [Heq|Hin]; [congruence|contradiction].
Qed.

Lemma dict_set_Forall {A : Type} (P : string * A -> Prop) k v (d : list (string * A)) :
  P (k, v) -> Forall P d -> Forall P (dict_set k v d).
Proof.
  intros Hv. induction d as [|[k1 v1] d IH]; simpl; intros Hd.
  - now constructor.
  - inversion Hd; subst.
    destruct (String.eqb k k1); constructor; auto.
Qed.

Lemma dict_get_set_eq {A : Type} (k : string) (v : A) (d : list (string * A)) :
  dict_get k (dict_set k v d) = Some v.
Proof.
  induction d as [|[k1 v1] d IH]; simpl.
  - now rewrite String.eqb_refl.
  - destruct (String.eqb_spec k k1) as [->|Hne]; simpl.
    + now rewrite String.eqb_refl.
    + destruct (String.eqb_spec k k1); [contradiction|exact IH].
Qed.

Lemma dict_get_set_ne {A : Type} (k k' : string) (v : A) (d : list (string * A)) :
  k' <> k -> dict_get k' (dict_set k v d) = dict_get k' d.
Proof.
  intros Hne. induction d as [|[k1 v1] d IH]; simpl.
  - destruct (String.eqb_spec k' k); [contradiction|reflexivity].
  - destruct (String.eqb_spec k k1) as [->|Hne1]; simpl.
    + destruct (String.eqb_spec k' k1); [contradiction|reflexivity].
    + destruct (String.eqb_spec k' k1); [reflexivity|exact IH].
Qed.

(** ** The pruner *)

Lemma prune_none_dict items :
  prune_none (VDict items) = VDict (fold_left prune_dict_step items []).
Proof. reflexivity. Qed.

Lemma prune_none_list items :
  prune_none (VList items) = VList (fold_left prune_list_step items []).
Proof. reflexivity. Qed.

Lemma prune_dict_fold_settled items :
  Forall (fun kv => prune_none (prune_none (snd kv)) = prune_none (snd kv)
                    /\ no_blank_inside (prune_none (snd kv)) = true) items ->
  forall out,
    NoDup (map fst out) -> Forall (fun kv => settled (snd kv)) out ->
    NoDup (map fst (fold_left prune_dict_step items out))
    /\ Forall (fun kv => settled (snd kv)) (fold_left prune_dict_step items out).
Proof.
  induction 1 as [|[k v] items [Hidem Hclean] _ IH]; simpl; intros out Hnd Hout.
  - now split.
  - apply IH; unfold prune_dict_step; simpl;
      destruct (is_blank (prune_none v)) eqn:Hb; auto.
    + now apply dict_set_NoDup.
    + apply dict_set_Forall; [|assumption]. simpl. now repeat split.
Qed.

Lemma prune_dict_fold_fixed l :
  Forall (fun kv => settled (snd kv)) l ->
  forall out, NoDup (map fst (out ++ l)) ->
  fold_left prune_dict_step l out = out ++ l.
Proof.
  induction 1 as [|[k v] l [Hfix [Hb _]] _ IH]; simpl; intros out Hnd.
  - now rewrite app_nil_r.
  - simpl in Hfix, Hb. unfold prune_dict_step at 2. simpl. rewrite Hfix, Hb.
    rewrite dict_set_fresh.
    + rewrite IH; rewrite <- app_assoc; [reflexivity|exact Hnd].
    + rewrite map_app in Hnd. simpl in Hnd.
      apply NoDup_remove_2 in Hnd. intros Hin. apply Hnd.
      apply in_or_app. now left.
Qed.

Lemma prune_list_fold_app items :
  forall out, fold_left prune_list_step items out
              = out ++ fold_left prune_list_step items [].
Proof.
  induction items as [|x items IH]; simpl; intros out.
  - now rewrite app_nil_r.
  - rewrite IH. rewrite (IH (prune_list_step [] x)).
    unfold prune_list_step. destruct (is_blank (prune_none x)); simpl.
    + reflexivity.
    + now rewrite <- app_assoc.
Qed.

Lemma prune_list_fold_settled items :
  Forall (fun x => prune_none (prune_none x) = prune_none x
                   /\ no_blank_inside (prune_none x) = true) items ->
  Forall settled (fold_left prune_list_step items []).
Proof.
  induction 1 as [|x items [Hidem Hclean] _ IH]; simpl.
  - constructor.
  - rewrite prune_list_fold_app. apply Forall_app. split; [|exact IH].
    unfold prune_list_step. destruct (is_blank (prune_none x)) eqn:Hb; simpl.
    + constructor.
    + constructor; [|constructor]. now repeat split.
Qed.

Lemma prune_list_fold_fixed l :
  Forall settled l -> fold_left prune_list_step l [] = l.
Proof.
  induction 1 as [|x l [Hfix [Hb _]] _ IH]; simpl; [reflexivity|].
  rewrite prune_list_fold_app, IH.
  unfold prune_list_step. now rewrite Hfix, Hb.
Qed.

(** C10. [prune_none] is idempotent, and nothing it returns stores a [None],
    an empty dict or an empty list at any depth. *)
Theorem prune_none_idempotent_and_clean :
  forall v : value,
    prune_none (prune_none v) = prune_none v
    /\ no_blank_inside (prune_none v) = true.
Proof.
  intros v.
  induction v as [| | | | |items IH|items IH] using value_ind;
    try (split; reflexivity).
  - rewrite prune_none_dict.
    destruct (prune_dict_fold_settled items IH [] (NoDup_nil _) (Forall_nil _))
      as [Hnd Hall].
    split.
    + rewrite prune_none_dict. f_equal.
      now apply (prune_dict_fold_fixed _ Hall []).
    + simpl. apply forallb_forall. intros kv Hin.
      rewrite Forall_forall in Hall. destruct (Hall kv Hin) as [_ [Hb Hc]].
      now rewrite Hb, Hc.
  - rewrite prune_none_list.
    pose proof (prune_list_fold_settled items IH) as Hall.
    split.
    + rewrite prune_none_list. f_equal. now apply prune_list_fold_fixed.
    + simpl. apply forallb_forall. intros x Hin.
      rewrite Forall_forall in Hall. destruct (Hall x Hin) as [_ [Hb Hc]].
      now rewrite Hb, Hc.
Qed.


(** ** Strings *)

Lemma string_app_assoc (a b c : string) : ((a ++ b) ++ c = a ++ (b ++ c))%string.
Proof. induction a as [|x a IH]; simpl; [reflexivity|now rewrite IH]. Qed.

Lemma string_app_inv_head (a b c : string) : (a ++ b = a ++ c)%string -> b = c.
Proof. induction a as [|x a IH]; simpl; intros H; [exact H|]. injection H. exact IH. Qed.

Lemma list_of_string_app (a b : string) :
  list_ascii_of_string (a ++ b) = list_ascii_of_string a ++ list_ascii_of_string b.
Proof. induction a as [|x a IH]; simpl; [reflexivity|now rewrite IH]. Qed.

Lemma list_of_string_inj (a b : string) :
  list_ascii_of_string a = list_ascii_of_string b -> a = b.
Proof.
  intros H. rewrite <- (string_of_list_ascii_of_string a),
    <- (string_of_list_ascii_of_string b). now rewrite H.
Qed.

Lemma string_app_inv_tail (a b c : string) : (a ++ c = b ++ c)%string -> a = b.
Proof.
  intros H. apply list_of_string_inj.
  apply (f_equal list_ascii_of_string) in H.
  rewrite !list_of_string_app in H. now apply app_inv_tail in H.
Qed.

Lemma string_length_app (a b : string) :
  String.length (a ++ b) = (String.length a + String.length b)%nat.
Proof. induction a as [|x a IH]; simpl; [reflexivity|now rewrite IH]. Qed.

(** Two texts that agree after prefixes of the same length have the same
    prefixes. *)
Lemma string_app_same_length (a b c d : string) :
  String.length a = String.length b -> (a ++ c = b ++ d)%string -> a = b /\ c = d.
Proof.
  revert b. induction a as [|x a IH]; intros [|y b]; simpl; intros Hlen H;
    try discriminate.
  - now split.
  - injection H as -> H. injection Hlen as Hlen.
    destruct (IH b Hlen H) as [-> ->]. now split.
Qed.

(** A run of digits ends at the first character that is not a digit. *)
Lemma digits_split (a b c d : string) (x y : ascii) :
  all_digits a = true -> all_digits b = true ->
  is_digit x = false -> is_digit y = false ->
  (a ++ String x c = b ++ String y d)%string -> a = b /\ c = d.
Proof.
  revert b. induction a as [|p a IH]; intros [|q b]; simpl; intros Ha Hb Hx Hy H.
  - injection H as _ H. now split.
  - injection H as -> _. apply andb_prop in Hb. destruct Hb as [Hq _]. congruence.
  - injection H as -> _. apply andb_prop in Ha. destruct Ha as [Hp _]. congruence.
  - injection H as -> H.
    apply andb_prop in Ha. destruct Ha as [_ Ha].
    apply andb_prop in Hb. destruct Hb as [_ Hb].
    destruct (IH b Ha Hb Hx Hy H) as [-> ->]. now split.
Qed.

(** ** Number formatting *)

Lemma all_digits_app (a b : string) :
  all_digits (a ++ b) = all_digits a && all_digits b.
Proof.
  induction a as [|x a IH]; simpl; [reflexivity|].
  now rewrite IH, andb_assoc.
Qed.

Lemma all_digits_zeros k : all_digits (zeros k) = true.
Proof. induction k; simpl; auto. Qed.

Lemma all_digits_of_uint d : all_digits (NilEmpty.string_of_uint d) = true.
Proof. induction d; simpl; auto. Qed.

Lemma to_uint_not_nil (n : N) : N.to_uint n <> Decimal.Nil.
Proof.
  destruct n as [|p]; simpl; [discriminate|].
  apply DecimalPos.Unsigned.to_uint_nonnil.
Qed.

Lemma digits_nil_empty n : digits n = NilEmpty.string_of_uint (N.to_uint (Z.abs_N n)).
Proof.
  unfold digits, NilZero.string_of_uint.
  destruct (N.to_uint (Z.abs_N n)) eqn:E; try reflexivity.
  exfalso. now apply (to_uint_not_nil (Z.abs_N n)).
Qed.

Lemma all_digits_digits n : all_digits (digits n) = true.
Proof. rewrite digits_nil_empty. apply all_digits_of_uint. Qed.

Lemma read_digits_zeros k s :
  read_digits (zeros k ++ s) = read_digits s.
Proof.
  induction k as [|k IH]; simpl; [reflexivity|].
  unfold read_digits in *. simpl.
  destruct (NilEmpty.uint_of_string (zeros k ++ s)) as [d|] eqn:E1;
    destruct (NilEmpty.uint_of_string s) as [d'|] eqn:E2; simpl in *;
    try discriminate; try reflexivity.
  injection IH as IH. f_equal. exact IH.
Qed.

Lemma read_digits_digits n : read_digits (digits n) = Some (Z.abs_N n).
Proof.
  rewrite digits_nil_empty. unfold read_digits.
  rewrite NilEmpty.usu. simpl. now rewrite DecimalN.Unsigned.of_to.
Qed.

Lemma format_0d_nonneg w n : 0 <= n -> format_0d w n = zfill w (digits n).
Proof.
  intros Hn. unfold format_0d.
  destruct (Z.ltb_spec n 0); [lia|reflexivity].
Qed.

Lemma read_format_0d w n : 0 <= n -> read_digits (format_0d w n) = Some (Z.abs_N n).
Proof.
  intros Hn. rewrite format_0d_nonneg by exact Hn.
  unfold zfill. rewrite read_digits_zeros. apply read_digits_digits.
Qed.

Lemma format_0d_inj w a b :
  0 <= a -> 0 <= b -> format_0d w a = format_0d w b -> a = b.
Proof.
  intros Ha Hb H.
  pose proof (read_format_0d w a Ha) as Ra.
  pose proof (read_format_0d w b Hb) as Rb.
  rewrite H in Ra. rewrite Ra in Rb. injection Rb as Rb. lia.
Qed.

Lemma all_digits_format_0d w n : 0 <= n -> all_digits (format_0d w n) = true.
Proof.
  intros Hn. rewrite format_0d_nonneg by exact Hn.
  unfold zfill. rewrite all_digits_app, all_digits_zeros, all_digits_digits.
  reflexivity.
Qed.

Lemma format_03d_three_digits n :
  0 <= n <= 999 -> String.length (format_0d 3 n) = 3%nat.
Proof.
  intros Hn.
  assert (Hall : forallb (fun k => Nat.eqb (String.length (format_0d 3 (Z.of_nat k))) 3)
                   (seq 0 1000) = true) by (vm_compute; reflexivity).
  rewrite forallb_forall in Hall.
  specialize (Hall (Z.to_nat n)).
  rewrite Z2Nat.id in Hall by lia.
  apply Nat.eqb_eq, Hall, in_seq. lia.
Qed.

(** ** Sequence and frame indices *)

Lemma sequence_ids_defined index max_per_seq :
  max_per_seq <> 0 ->
  sequence_ids index max_per_seq
  = Some (sequence_id_of ((index - 1) / max_per_seq + 1),
          format_0d 6 ((index - 1) mod max_per_seq + 1),
          (index - 1) mod max_per_seq + 1).
Proof.
  intros Hm. unfold sequence_ids.
  destruct (Z.eqb_spec max_per_seq 0); [contradiction|reflexivity].
Qed.

(** [(p - 1) // m + 1] is the ceiling of [p / m]. *)
Lemma sequence_index_is_ceiling p m :
  0 < m -> ((p - 1) / m + 1 - 1) * m < p <= ((p - 1) / m + 1) * m.
Proof.
  intros Hm.
  pose proof (Z.div_mod (p - 1) m ltac:(lia)) as Hdm.
  pose proof (Z.mod_pos_bound (p - 1) m Hm) as Hb.
  nia.
Qed.

Lemma frame_index_bounds p m : 0 < m -> 1 <= (p - 1) mod m + 1 <= m.
Proof. intros Hm. pose proof (Z.mod_pos_bound (p - 1) m Hm). lia. Qed.

Lemma sequence_id_of_inj a b :
  0 <= a -> 0 <= b -> sequence_id_of a = sequence_id_of b -> a = b.
Proof.
  unfold sequence_id_of. intros Ha Hb H.
  apply string_app_inv_head in H. now apply format_0d_inj in H.
Qed.

(** ** The sizes of the sequences *)

Lemma succ_div_mod n m :
  0 < m -> 0 <= n ->
  (((n mod m) + 1 = m) /\ (n + 1) / m = n / m + 1 /\ (n + 1) mod m = 0)
  \/ (((n mod m) + 1 < m) /\ (n + 1) / m = n / m /\ (n + 1) mod m = n mod m + 1).
Proof.
  intros Hm Hn.
  pose proof (Z.div_mod n m ltac:(lia)) as Hdm.
  pose proof (Z.mod_pos_bound n m Hm) as Hb.
  destruct (Z.eq_dec (n mod m + 1) m) as [E|E].
  - left. split; [exact E|]. split.
    + symmetry. apply (Z.div_unique (n + 1) m (n / m + 1) 0); lia.
    + symmetry. apply (Z.mod_unique (n + 1) m (n / m + 1) 0); lia.
  - right. split; [lia|]. split.
    + symmetry. apply (Z.div_unique (n + 1) m (n / m) (n mod m + 1)); lia.
    + symmetry. apply (Z.mod_unique (n + 1) m (n / m) (n mod m + 1)); lia.
Qed.

Lemma repeat_snoc {A : Type} (x : A) k : repeat x (S k) = repeat x k ++ [x].
Proof. induction k as [|k IH]; simpl in *; [reflexivity|now rewrite <- IH]. Qed.

(** One more record either opens a sequence of one frame or adds a frame to
    the last sequence. *)
Lemma spec_sequence_sizes_succ n m :
  0 < m -> 0 <= n ->
  (n mod m = 0
   /\ spec_sequence_sizes n m = repeat m (Z.to_nat (n / m))
   /\ spec_sequence_sizes (n + 1) m = repeat m (Z.to_nat (n / m)) ++ [1])
  \/ (n mod m <> 0
      /\ spec_sequence_sizes n m = repeat m (Z.to_nat (n / m)) ++ [n mod m]
      /\ spec_sequence_sizes (n + 1) m = repeat m (Z.to_nat (n / m)) ++ [n mod m + 1]).
Proof.
  intros Hm Hn. unfold spec_sequence_sizes.
  pose proof (Z.div_pos n m Hn Hm) as Hq.
  pose proof (Z.mod_pos_bound n m Hm) as Hb.
  destruct (succ_div_mod n m Hm Hn) as [[E [Hd Hr]]|[E [Hd Hr]]];
    rewrite Hd, Hr;
    destruct (Z.eqb_spec (n mod m) 0) as [E0|E0].
  - left. split; [exact E0|]. split; [apply app_nil_r|].
    assert (m = 1) by lia. subst m.
    replace (Z.to_nat (n / 1 + 1)) with (S (Z.to_nat (n / 1))) by lia.
    rewrite repeat_snoc. simpl. now rewrite !app_nil_r.
  - right. split; [exact E0|]. split; [reflexivity|].
    replace (Z.to_nat (n / m + 1)) with (S (Z.to_nat (n / m))) by lia.
    rewrite repeat_snoc. simpl. rewrite app_nil_r. now rewrite E.
  - left. split; [exact E0|]. split; [apply app_nil_r|].
    destruct (Z.eqb_spec (n mod m + 1) 0); [lia|].
    now rewrite E0.
  - right. split; [exact E0|]. split; [reflexivity|].
    destruct (Z.eqb_spec (n mod m + 1) 0); [lia|reflexivity].
Qed.

Lemma spec_sequence_sizes_length n m :
  0 < m -> 0 <= n ->
  Z.of_nat (List.length (spec_sequence_sizes n m)) = (n + m - 1) / m.
Proof.
  intros Hm Hn. unfold spec_sequence_sizes.
  rewrite length_app, repeat_length.
  pose proof (Z.div_pos n m Hn Hm) as Hq.
  pose proof (Z.div_mod n m ltac:(lia)) as Hdm.
  pose proof (Z.mod_pos_bound n m Hm) as Hb.
  destruct (Z.eqb_spec (n mod m) 0) as [E0|E0]; simpl.
  - rewrite Nat.add_0_r, Z2Nat.id by lia.
    apply (Z.div_unique (n + m - 1) m (n / m) (m - 1)); lia.
  - rewrite Nat2Z.inj_add, Z2Nat.id by lia. simpl.
    apply (Z.div_unique (n + m - 1) m (n / m + 1) (n mod m - 1)); lia.
Qed.

Lemma spec_sequence_sizes_sum n m :
  0 < m -> 0 <= n -> fold_right Z.add 0 (spec_sequence_sizes n m) = n.
Proof.
  intros Hm Hn. unfold spec_sequence_sizes.
  pose proof (Z.div_pos n m Hn Hm) as Hq.
  pose proof (Z.div_mod n m ltac:(lia)) as Hdm.
  rewrite fold_right_app.
  assert (Hrep : forall k acc, fold_right Z.add acc (repeat m k) = Z.of_nat k * m + acc).
  { induction k as [|k IH]; intros acc; simpl repeat; simpl fold_right.
    - lia.
    - rewrite IH. lia. }
  rewrite Hrep, Z2Nat.id by lia.
  destruct (Z.eqb_spec (n mod m) 0); simpl; lia.
Qed.

(** Every sequence but the last is full; the last holds between one and
    [m] frames. *)
Lemma spec_sequence_sizes_shape n m :
  0 < m -> 0 <= n ->
  forall i size, nth_error (spec_sequence_sizes n m) i = Some size ->
    1 <= size <= m
    /\ (S i < List.length (spec_sequence_sizes n m) -> size = m)%nat.
Proof.
  intros Hm Hn i size Hnth. unfold spec_sequence_sizes in *.
  pose proof (Z.mod_pos_bound n m Hm) as Hb.
  set (k := Z.to_nat (n / m)) in *.
  destruct (Nat.lt_ge_cases i k) as [Hlt|Hge].
  - rewrite nth_error_app1 in Hnth by (rewrite repeat_length; exact Hlt).
    apply nth_error_In, repeat_spec in Hnth. subst size. split; [lia|auto].
  - rewrite nth_error_app2 in Hnth by (rewrite repeat_length; exact Hge).
    rewrite repeat_length in Hnth.
    destruct (Z.eqb_spec (n mod m) 0) as [E0|E0].
    + destruct (i - k)%nat; discriminate.
    + destruct (i - k)%nat as [|j] eqn:Ej; simpl in Hnth.
      * injection Hnth as <-. split; [lia|].
        rewrite length_app, repeat_length. simpl. lia.
      * destruct j; discriminate.
Qed.

(** ** Appending to the lists stored in a dict *)

Lemma dict_append_fresh {A : Type} (k : string) (x : A) d :
  ~ In k (map fst d) -> dict_append k x d = d ++ [(k, [x])].
Proof.
  induction d as [|[k' l] d IH]; simpl; intros Hk; [reflexivity|].
  destruct (String.eqb_spec k k') as [->|Hne].
  - exfalso. apply Hk. now left.
  - f_equal. apply IH. intros Hin. apply Hk. now right.
Qed.

Lemma dict_append_last {A : Type} (k : string) (x : A) d l :
  ~ In k (map fst d) -> dict_append k x (d ++ [(k, l)]) = d ++ [(k, l ++ [x])].
Proof.
  induction d as [|[k' l'] d IH]; simpl; intros Hk.
  - now rewrite String.eqb_refl.
  - destruct (String.eqb_spec k k') as [->|Hne].
    + exfalso. apply Hk. now left.
    + f_equal. apply IH. intros Hin. apply Hk. now right.
Qed.

Lemma dict_append_keys {A : Type} (k : string) (x : A) d :
  map fst (dict_append k x d)
  = if set_mem k (map fst d) then map fst d else map fst d ++ [k].
Proof.
  unfold set_mem.
  induction d as [|[k' l] d IH]; simpl; [reflexivity|].
  destruct (String.eqb_spec k k') as [->|Hne]; simpl; [reflexivity|].
  rewrite IH. now destruct (existsb (String.eqb k) (map fst d)).
Qed.

Lemma dict_get_append_eq {A : Type} (k : string) (x : A) d :
  dict_get k (dict_append k x d)
  = Some (match dict_get k d with Some l => l ++ [x] | None => [x] end).
Proof.
  induction d as [|[k' l] d IH]; simpl.
  - now rewrite String.eqb_refl.
  - destruct (String.eqb_spec k k') as [->|Hne]; simpl.
    + now rewrite String.eqb_refl.
    + destruct (String.eqb_spec k k'); [contradiction|exact IH].
Qed.

Lemma dict_get_append_ne {A : Type} (k k' : string) (x : A) d :
  k' <> k -> dict_get k' (dict_append k x d) = dict_get k' d.
Proof.
  intros Hne. induction d as [|[k1 l] d IH]; simpl.
  - destruct (String.eqb_spec k' k); [contradiction|reflexivity].
  - destruct (String.eqb_spec k k1) as [->|Hne1]; simpl.
    + destruct (String.eqb_spec k' k1); [contradiction|reflexivity].
    + destruct (String.eqb_spec k' k1); [reflexivity|exact IH].
Qed.

Lemma set_mem_In x s : set_mem x s = true <-> In x s.
Proof.
  unfold set_mem. rewrite existsb_exists. split.
  - intros [y [Hin Heq]]. apply String.eqb_eq in Heq. now subst.
  - intros Hin. exists x. split; [exact Hin|apply String.eqb_refl].
Qed.

Lemma set_add_In x y s : In y (set_add x s) <-> y = x \/ In y s.
Proof.
  induction s as [|z s IH]; simpl.
  - intuition congruence.
  - destruct (String.eqb_spec x z) as [->|Hne]; simpl.
    + intuition congruence.
    + rewrite IH. intuition congruence.
Qed.

Lemma dict_get_In {A : Type} (k : string) (v : A) d :
  dict_get k d = Some v -> In (k, v) d.
Proof.
  induction d as [|[k' v'] d IH]; simpl; [discriminate|].
  destruct (String.eqb_spec k k') as [->|Hne].
  - intros [= ->]. now left.
  - intros H. right. now apply IH.
Qed.

Lemma In_dict_get {A : Type} (k : string) (v : A) d :
  NoDup (map fst d) -> In (k, v) d -> dict_get k d = Some v.
Proof.
  induction d as [|[k' v'] d IH]; simpl; intros Hnd Hin; [contradiction|].
  inversion Hnd as [|? ? Hnotin Hnd']; subst.
  destruct Hin as [[= -> ->]|Hin].
  - now rewrite String.eqb_refl.
  - destruct (String.eqb_spec k k') as [->|Hne].
    + exfalso. apply Hnotin. apply (in_map fst) in Hin. exact Hin.
    + now apply IH.
Qed.

Lemma dict_get_None {A : Type} (k : string) (d : list (string * A)) :
  dict_get k d = None <-> ~ In k (map fst d).
Proof.
  induction d as [|[k' v'] d IH]; simpl.
  - intuition.
  - destruct (String.eqb_spec k k') as [->|Hne].
    + split; [discriminate|]. intros H. exfalso. apply H. now left.
    + rewrite IH. intuition congruence.
Qed.

(** ** Positions *)

Lemma positions_succ n : positions (S n) = positions n ++ [Z.of_nat (S n)].
Proof. unfold positions. rewrite seq_S, map_app. reflexivity. Qed.

Lemma positions_length n : List.length (positions n) = n.
Proof. unfold positions. now rewrite length_map, length_seq. Qed.

Lemma In_positions p n : In p (positions n) <-> 1 <= p <= Z.of_nat n.
Proof.
  unfold positions. rewrite in_map_iff. split.
  - intros [k [<- Hin]]. apply in_seq in Hin. lia.
  - intros Hp. exists (Z.to_nat p). split; [lia|]. apply in_seq. lia.
Qed.

Lemma enumerate_fst {A : Type} (l : list A) start :
  map fst (enumerate start l)
  = map (fun k => start + Z.of_nat k) (seq 0 (List.length l)).
Proof.
  revert start. induction l as [|x l IH]; intros start; simpl; [reflexivity|].
  rewrite IH, <- seq_shift, map_map. f_equal; [f_equal; lia|].
  apply map_ext. intros k. lia.
Qed.

Lemma enumerate_positions {A : Type} (l : list A) :
  map fst (enumerate 1 l) = positions (List.length l).
Proof.
  rewrite enumerate_fst. unfold positions.
  rewrite <- seq_shift, map_map. apply map_ext. intros k. lia.
Qed.

Lemma enumerate_snd {A : Type} (l : list A) start : map snd (enumerate start l) = l.
Proof.
  revert start. induction l as [|x l IH]; intros start; simpl; [reflexivity|].
  now rewrite IH.
Qed.

Lemma enumerate_length {A : Type} (l : list A) start :
  List.length (enumerate start l) = List.length l.
Proof. rewrite <- (length_map snd). now rewrite enumerate_snd. Qed.

Lemma combine_snoc {A B : Type} (l : list A) (l' : list B) x y :
  List.length l = List.length l' ->
  combine (l ++ [x]) (l' ++ [y]) = combine l l' ++ [(x, y)].
Proof.
  revert l'. induction l as [|a l IH]; intros [|b l']; simpl; intros Hlen;
    try discriminate; [reflexivity|].
  injection Hlen as Hlen. now rewrite IH.
Qed.

Lemma combine_fst_incl {A B : Type} (l : list A) (l' : list B) x :
  In x (map fst (combine l l')) -> In x l.
Proof.
  revert l'. induction l as [|a l IH]; intros l' H; [destruct l'; exact H|].
  destruct l' as [|b l']; simpl in H; [contradiction|].
  destruct H as [H|H]; [now left|right; eauto].
Qed.

(** Appending the rows of positions [1..n] under their sequence identifiers
    cuts them into consecutive chunks of the specified sizes, keyed
    [S001], [S002], ... in order. *)
Lemma chunks_of_positions {A : Type} (m : Z) (rows : list A) :
  0 < m ->
  exists chunks : list (list A),
    fold_left append_row
      (combine (map (sequence_id_at m) (positions (List.length rows))) rows) []
    = combine (map sequence_id_of (positions (List.length chunks))) chunks
    /\ map (fun c => Z.of_nat (List.length c)) chunks
       = spec_sequence_sizes (Z.of_nat (List.length rows)) m
    /\ List.concat chunks = rows.
Proof.
  intros Hm. induction rows as [|r rows IH] using rev_ind.
  - exists []. simpl. repeat split.
  - destruct IH as [chunks [Hd [Hsizes Hcat]]].
    rewrite length_app. cbn [List.length].
    replace (List.length rows + 1)%nat with (S (List.length rows)) by lia.
    rewrite positions_succ, map_app. cbn [map].
    rewrite combine_snoc by (now rewrite length_map, positions_length).
    rewrite fold_left_app. cbn [fold_left]. rewrite Hd.
    unfold append_row at 1. cbn [fst snd].
    set (n := List.length rows) in *.
    assert (Hkey : sequence_id_at m (Z.of_nat (S n))
                   = sequence_id_of (Z.of_nat n / m + 1)).
    { unfold sequence_id_at.
      replace (Z.of_nat (S n) - 1) with (Z.of_nat n) by lia. reflexivity. }
    rewrite Hkey.
    pose proof (Z.div_pos (Z.of_nat n) m ltac:(lia) Hm) as Hq.
    replace (Z.of_nat (S n)) with (Z.of_nat n + 1) by lia.
    destruct (spec_sequence_sizes_succ (Z.of_nat n) m Hm ltac:(lia))
      as [[E0 [Hold Hnew]]|[E0 [Hold Hnew]]].
    + (* a new sequence opens *)
      assert (Hlen : List.length chunks = Z.to_nat (Z.of_nat n / m)).
      { rewrite <- (length_map (fun c => Z.of_nat (List.length c))), Hsizes, Hold.
        apply repeat_length. }
      exists (chunks ++ [[r]]). split; [|split].
      * rewrite dict_append_fresh.
        -- rewrite length_app. cbn [List.length].
           replace (List.length chunks + 1)%nat with (S (List.length chunks)) by lia.
           rewrite positions_succ, map_app. cbn [map].
           rewrite combine_snoc by (now rewrite length_map, positions_length).
           do 4 f_equal. lia.
        -- intros Hin. apply combine_fst_incl in Hin.
           apply in_map_iff in Hin. destruct Hin as [p [Heq Hp]].
           apply In_positions in Hp.
           apply sequence_id_of_inj in Heq; lia.
      * rewrite map_app, Hsizes, Hold, Hnew. reflexivity.
      * rewrite concat_app, Hcat. simpl. reflexivity.
    + (* the last sequence grows *)
      rewrite Hold in Hsizes.
      apply map_eq_app in Hsizes. destruct Hsizes as [chunks0 [last [-> [Hfull Hlast]]]].
      destruct last as [|c [|? ?]]; try discriminate.
      injection Hlast as Hlast.
      assert (Hlen : List.length chunks0 = Z.to_nat (Z.of_nat n / m)).
      { rewrite <- (length_map (fun c => Z.of_nat (List.length c))), Hfull.
        apply repeat_length. }
      exists (chunks0 ++ [c ++ [r]]). split; [|split].
      * rewrite !length_app. cbn [List.length].
        replace (List.length chunks0 + 1)%nat with (S (List.length chunks0)) by lia.
        rewrite positions_succ, map_app. cbn [map].
        rewrite !combine_snoc by (now rewrite length_map, positions_length).
        replace (Z.of_nat (S (List.length chunks0))) with (Z.of_nat n / m + 1) by lia.
        apply dict_append_last.
        intros Hin. apply combine_fst_incl in Hin.
        apply in_map_iff in Hin. destruct Hin as [p [Heq Hp]].
        apply In_positions in Hp.
        apply sequence_id_of_inj in Heq; lia.
      * rewrite map_app, Hfull, Hnew. simpl. rewrite length_app. simpl.
        do 3 f_equal. lia.
      * rewrite concat_app in *. simpl in *. rewrite !app_nil_r in *.
        rewrite <- Hcat. now rewrite app_assoc.
Qed.

(** ** The renderer returns on well-typed records *)

Section Rendering.

Context {lib : PyLib} {world : World}.

Lemma well_typed_gps r :
  well_typed r = true ->
  dict_get "gps" (derived r) = None
  \/ exists g, dict_get "gps" (derived r) = Some (VDict g).
Proof.
  unfold well_typed. intros H. apply andb_prop in H. destruct H as [H _].
  destruct (dict_get "gps" (derived r)) as [[]|]; try discriminate; eauto.
Qed.

Lemma well_typed_camera r :
  well_typed r = true ->
  dict_get "camera" (derived r) = None
  \/ exists c, dict_get "camera" (derived r) = Some (VDict c).
Proof.
  unfold well_typed. intros H. apply andb_prop in H. destruct H as [_ H].
  destruct (dict_get "camera" (derived r)) as [[]|]; try discriminate; eauto.
Qed.

Lemma build_pose_entry_total info frame_index image_name :
  well_typed info = true ->
  exists row, build_pose_entry info frame_index image_name = Some row.
Proof.
  intros Hwt. unfold build_pose_entry.
  destruct (well_typed_gps info Hwt) as [E|[g E]]; rewrite E; simpl;
    destruct (truthy (py_get (pose_or_empty (csv_pose info)) "timestamp")); eauto.
Qed.

Lemma build_annotation_payload_total info acquisition_id sequence_id sensor_id frame_index :
  well_typed info = true ->
  exists payload,
    build_annotation_payload info acquisition_id sequence_id sensor_id frame_index
    = Some payload.
Proof.
  intros Hwt. unfold build_annotation_payload, py_get.
  destruct (well_typed_gps info Hwt) as [E|[g E]]; rewrite E; simpl.
  - eauto.
  - destruct g; simpl; eauto.
Qed.

Lemma build_coordinate_systems_total records :
  Forall (fun r => well_typed r = true) records ->
  exists v, build_coordinate_systems records = Some v.
Proof.
  induction 1 as [|r records Hwt _ IH]; simpl; [eauto|].
  unfold py_get.
  destruct (well_typed_gps r Hwt) as [E|[g E]]; rewrite E; simpl; [exact IH|].
  destruct g as [|kv g]; simpl; [exact IH|].
  destruct (is_none _ || is_none _); [exact IH|eauto].
Qed.

Lemma build_intrinsics_total records sensor_id :
  Forall (fun r => well_typed r = true) records ->
  exists v, build_intrinsics records sensor_id = Some v.
Proof.
  induction 1 as [|r records Hwt _ IH]; simpl; [eauto|].
  destruct (well_typed_camera r Hwt) as [E|[c E]]; rewrite E; simpl; [exact IH|].
  destruct c as [|kv c]; simpl; [exact IH|].
  match goal with |- context [if ?b then _ else _] => destruct b end; eauto.
Qed.

Lemma render_frame_total acquisition_id sensor_id max_per_seq images_root annotations_root
    st idx info :
  max_per_seq <> 0 -> well_typed info = true ->
  exists st',
    render_frame acquisition_id sensor_id max_per_seq images_root annotations_root
      st (idx, info) = Some st'.
Proof.
  intros Hm Hwt. unfold render_frame.
  rewrite (sequence_ids_defined idx max_per_seq Hm).
  destruct (dict_get _ (sequence_dirs st)) as [[img ann]|];
    match goal with
    | |- context [build_annotation_payload ?i ?a ?s ?n ?f] =>
        destruct (build_annotation_payload_total i a s n f Hwt) as [payload ->]
    end;
    match goal with
    | |- context [build_pose_entry ?i ?f ?n] =>
        destruct (build_pose_entry_total i f n Hwt) as [row ->]
    end; eauto.
Qed.

Lemma render_frames_total acquisition_id sensor_id max_per_seq images_root annotations_root
    items :
  max_per_seq <> 0 -> Forall (fun item => well_typed (snd item) = true) items ->
  forall st, exists st',
    render_frames acquisition_id sensor_id max_per_seq images_root annotations_root
      st items = Some st'.
Proof.
  intros Hm. induction 1 as [|[idx info] items Hwt _ IH]; intros st;
    cbn [render_frames]; [eauto|].
  destruct (render_frame_total acquisition_id sensor_id max_per_seq images_root
              annotations_root st idx info Hm Hwt) as [st' ->].
  apply IH.
Qed.

End Rendering.

(** ** The sort key *)

Lemma string_lt_irrefl s : ~ String_as_OT.lt s s.
Proof. exact (StrictOrder_Irreflexive s). Qed.

Lemma string_lt_trans a b c :
  String_as_OT.lt a b -> String_as_OT.lt b c -> String_as_OT.lt a c.
Proof. intros Hab Hbc. now transitivity b. Qed.

Lemma key_lt_spec a b : key_lt a b = true <-> key_before a b.
Proof.
  destruct a as [[ra ta] sa], b as [[rb tb] sb]. unfold key_lt, key_before.
  destruct (Z.compare_spec ra rb) as [Hr|Hr|Hr].
  - destruct (Qcompare_spec ta tb) as [Ht|Ht|Ht].
    + destruct (String_as_OT.compare_spec sa sb) as [Hs|Hs|Hs].
      * split; [discriminate|]. intros [H|[_ [H|[_ H]]]]; [lia| |].
        -- rewrite Ht in H. now apply Qlt_irrefl in H.
        -- rewrite Hs in H. now apply string_lt_irrefl in H.
      * split; auto.
      * split; [discriminate|]. intros [H|[_ [H|[_ H]]]]; [lia| |].
        -- rewrite Ht in H. now apply Qlt_irrefl in H.
        -- exfalso. apply (string_lt_irrefl sa).
           now apply string_lt_trans with sb.
    + split; auto.
    + split; [discriminate|]. intros [H|[_ [H|[H _]]]]; [lia| |].
      * exfalso. apply (Qlt_irrefl ta). now apply Qlt_trans with tb.
      * rewrite H in Ht. now apply Qlt_irrefl in Ht.
  - split; auto.
  - split; [discriminate|]. intros [H|[H _]]; lia.
Qed.

Lemma key_before_irrefl a : ~ key_before a a.
Proof.
  destruct a as [[ra ta] sa]. unfold key_before.
  intros [H|[_ [H|[_ H]]]]; [lia| |].
  - now apply Qlt_irrefl in H.
  - now apply string_lt_irrefl in H.
Qed.

Lemma string_lt_cotrans a c : String_as_OT.lt a c ->
  forall b, String_as_OT.lt a b \/ String_as_OT.lt b c.
Proof.
  intros Hac b. destruct (String_as_OT.compare_spec a b) as [Hs|Hs|Hs].
  - right. now rewrite <- Hs.
  - now left.
  - right. now apply string_lt_trans with a.
Qed.

Lemma Qlt_cotrans (a c : Q) : (a < c)%Q -> forall b, (a < b)%Q \/ (b < c)%Q.
Proof.
  intros Hac b. destruct (Q_dec a b) as [[H|H]|H].
  - now left.
  - right. now apply Qlt_trans with a.
  - right. now rewrite <- H.
Qed.

(** If [a < c] then every key is above [a] or below [c]. *)
Lemma key_before_cotrans a c : key_before a c ->
  forall b, key_before a b \/ key_before b c.
Proof.
  destruct a as [[ra ta] sa], c as [[rc tc] sc]. intros Hac [[rb tb] sb].
  unfold key_before in *. cbv beta iota zeta in *.
  destruct (Z.lt_trichotomy ra rb) as [Hr|[Hr|Hr]];
    [left; now left| |right; left; destruct Hac as [Hac|[Hac _]]; lia].
  subst rb.
  destruct Hac as [Hac|[-> Hac]]; [right; now left|].
  destruct (Q_dec ta tb) as [[Ht|Ht]|Ht].
  - left. right. split; [reflexivity|now left].
  - right. right. split; [reflexivity|]. left.
    destruct Hac as [Hac|[Hac _]].
    + now apply Qlt_trans with ta.
    + now rewrite <- Hac.
  - destruct Hac as [Hac|[Hac Hs]].
    + right. right. split; [reflexivity|]. left. now rewrite <- Ht.
    + destruct (string_lt_cotrans sa sc Hs sb) as [H|H].
      * left. right. split; [reflexivity|]. right. now split.
      * right. right. split; [reflexivity|]. right. split; [|exact H].
        now rewrite <- Ht.
Qed.

(** Keys that are not ordered either way carry the same path. *)
Lemma key_before_total a b :
  ~ key_before a b -> ~ key_before b a -> snd a = snd b.
Proof.
  destruct a as [[ra ta] sa], b as [[rb tb] sb]. unfold key_before. simpl.
  intros Hab Hba.
  destruct (Z.lt_trichotomy ra rb) as [Hr|[Hr|Hr]];
    [exfalso; apply Hab; now left| |exfalso; apply Hba; now left].
  subst rb.
  destruct (Q_dec ta tb) as [[Ht|Ht]|Ht].
  - exfalso. apply Hab. right. split; [reflexivity|now left].
  - exfalso. apply Hba. right. split; [reflexivity|now left].
  - destruct (String_as_OT.compare_spec sa sb) as [Hs|Hs|Hs]; [exact Hs| |].
    + exfalso. apply Hab. right. split; [reflexivity|]. right. now split.
    + exfalso. apply Hba. right. split; [reflexivity|]. right.
      split; [now symmetry|exact Hs].
Qed.

Lemma record_sort_key_src r : snd (record_sort_key r) = src r.
Proof.
  unfold record_sort_key.
  destruct (csv_pose r) as [pose|]; [destruct (gps_seconds pose)|]; reflexivity.
Qed.

(** The key order is the order the specification describes. *)
Lemma key_before_spec a b :
  key_before (record_sort_key a) (record_sort_key b) <-> spec_precedes a b.
Proof.
  unfold record_sort_key, spec_precedes, pose_epoch, key_before.
  destruct (csv_pose a) as [pa|]; [destruct (gps_seconds pa) as [ea|]|];
    (destruct (csv_pose b) as [pb|]; [destruct (gps_seconds pb) as [eb|]|]);
    split; intros H;
    try (destruct H as [H|[H1 H]]; [lia|exact H]);
    try (right; split; [reflexivity|exact H]);
    try (left; lia); try exact I;
    try (destruct H as [H|[H _]]; lia); try contradiction.
Qed.

Lemma key_before_asym a b : key_before a b -> ~ key_before b a.
Proof.
  intros Hab Hba.
  destruct (key_before_cotrans a b Hab a) as [H|H].
  - now apply key_before_irrefl in H.
  - destruct (key_before_cotrans b a Hba b) as [H'|H'].
    + now apply key_before_irrefl in H'.
    + (* a < b and b < a leave no room for either *)
      destruct a as [[ra ta] sa], b as [[rb tb] sb].
      unfold key_before in Hab, Hba. cbv beta iota zeta in Hab, Hba.
      destruct Hab as [Hab|[-> Hab]]; destruct Hba as [Hba|[Heq Hba]]; try lia.
      destruct Hab as [Hab|[Hab Hs]]; destruct Hba as [Hba|[Hba Hs']].
      * apply (Qlt_irrefl ta). now apply Qlt_trans with tb.
      * rewrite Hba in Hab. now apply Qlt_irrefl in Hab.
      * rewrite Hab in Hba. now apply Qlt_irrefl in Hba.
      * apply (string_lt_irrefl sa). now apply string_lt_trans with sb.
Qed.

Lemma key_lt_false a b : key_lt a b = false <-> ~ key_before a b.
Proof.
  rewrite <- key_lt_spec. destruct (key_lt a b); split; intros H; congruence.
Qed.

(** ** Sorting *)

Lemma insert_record_perm x l : Permutation (insert_record x l) (x :: l).
Proof.
  induction l as [|y l IH]; simpl; [reflexivity|].
  destruct (key_lt (record_sort_key y) (record_sort_key x)).
  - rewrite IH. apply perm_swap.
  - reflexivity.
Qed.

Lemma sort_records_perm l : Permutation (sort_records l) l.
Proof.
  induction l as [|x l IH]; simpl; [reflexivity|].
  rewrite insert_record_perm. now constructor.
Qed.

Lemma insert_record_sorted x l :
  StronglySorted not_after l -> StronglySorted not_after (insert_record x l).
Proof.
  induction 1 as [|y l Hs IH Hall]; simpl.
  - repeat constructor.
  - destruct (key_lt (record_sort_key y) (record_sort_key x)) eqn:E.
    + constructor; [exact IH|].
      rewrite insert_record_perm. constructor; [|exact Hall].
      apply key_lt_spec in E. unfold not_after. now apply key_before_asym.
    + apply key_lt_false in E.
      constructor; [now constructor|].
      constructor; [exact E|].
      rewrite Forall_forall in *. intros z Hz Hzx.
      destruct (key_before_cotrans _ _ Hzx (record_sort_key y)) as [H|H].
      * now apply (Hall z Hz).
      * now apply E.
Qed.

Lemma sort_records_sorted l : StronglySorted not_after (sort_records l).
Proof.
  induction l as [|x l IH]; simpl; [constructor|].
  now apply insert_record_sorted.
Qed.

Lemma NoDup_map_In_inj {A B : Type} (f : A -> B) (l : list A) a b :
  NoDup (map f l) -> In a l -> In b l -> f a = f b -> a = b.
Proof.
  induction l as [|x l IH]; simpl; intros Hnd Ha Hb Hf; [contradiction|].
  inversion Hnd as [|? ? Hnotin Hnd']; subst.
  destruct Ha as [->|Ha], Hb as [->|Hb]; auto.
  - exfalso. apply Hnotin. rewrite Hf. now apply in_map.
  - exfalso. apply Hnotin. rewrite <- Hf. now apply in_map.
Qed.

(** With distinct paths, a list has one sorted arrangement. *)
Lemma sorted_unique l1 :
  NoDup (map src l1) -> StronglySorted not_after l1 ->
  forall l2, StronglySorted not_after l2 -> Permutation l1 l2 -> l1 = l2.
Proof.
  induction l1 as [|a l1 IH]; intros Hnd Hs1 l2 Hs2 Hperm.
  - now apply Permutation_nil in Hperm.
  - destruct l2 as [|b l2].
    { symmetry in Hperm. now apply Permutation_nil in Hperm. }
    inversion Hs1 as [|? ? Hs1' Hall1]; subst.
    inversion Hs2 as [|? ? Hs2' Hall2]; subst.
    assert (Hab : a = b).
    { assert (Ha : In a (b :: l2)) by (apply (Permutation_in _ Hperm); now left).
      assert (Hb : In b (a :: l1))
        by (apply (Permutation_in _ (Permutation_sym Hperm)); now left).
      destruct Ha as [Ha|Ha]; [now symmetry|].
      destruct Hb as [Hb|Hb]; [exact Hb|].
      rewrite Forall_forall in Hall1, Hall2.
      apply (NoDup_map_In_inj src (a :: l1)); simpl; auto.
      rewrite <- !record_sort_key_src.
      apply key_before_total; [apply (Hall2 a Ha)|apply (Hall1 b Hb)]. }
    subst b. f_equal.
    apply IH; auto.
    + now inversion Hnd.
    + now apply Permutation_cons_inv in Hperm.
Qed.

(** With distinct paths, sorted means strictly ascending in the order of
    the specification. *)
Lemma sorted_strict l :
  NoDup (map src l) -> StronglySorted not_after l -> StronglySorted spec_precedes l.
Proof.
  induction l as [|a l IH]; intros Hnd Hs; [constructor|].
  inversion Hs as [|? ? Hs' Hall]; subst.
  inversion Hnd as [|? ? Hnotin Hnd']; subst.
  constructor; [now apply IH|].
  rewrite Forall_forall in *. intros b Hb.
  apply key_before_spec.
  destruct (key_lt (record_sort_key a) (record_sort_key b)) eqn:E;
    [now apply key_lt_spec|].
  exfalso. apply Hnotin.
  apply key_lt_false in E.
  pose proof (key_before_total _ _ E (Hall b Hb)) as Hsrc.
  rewrite !record_sort_key_src in Hsrc. rewrite Hsrc. now apply in_map.
Qed.

Lemma sort_records_deterministic l1 l2 :
  NoDup (map src l1) -> Permutation l1 l2 -> sort_records l1 = sort_records l2.
Proof.
  intros Hnd Hperm. apply sorted_unique.
  - apply (Permutation_NoDup (l := map src l1)); [|exact Hnd].
    apply Permutation_map. symmetry. apply sort_records_perm.
  - apply sort_records_sorted.
  - apply sort_records_sorted.
  - rewrite sort_records_perm, Hperm. symmetry. apply sort_records_perm.
Qed.

(** Two different records of a list with distinct paths are ordered one
    way or the other. *)
Lemma spec_precedes_total l a b :
  NoDup (map src l) -> In a l -> In b l -> a <> b ->
  spec_precedes a b \/ spec_precedes b a.
Proof.
  intros Hnd Ha Hb Hne.
  destruct (key_lt (record_sort_key a) (record_sort_key b)) eqn:E1.
  - left. now apply key_before_spec, key_lt_spec.
  - destruct (key_lt (record_sort_key b) (record_sort_key a)) eqn:E2.
    + right. now apply key_before_spec, key_lt_spec.
    + exfalso. apply Hne. apply (NoDup_map_In_inj src l); auto.
      rewrite <- !record_sort_key_src.
      apply key_before_total; now apply key_lt_false.
Qed.

(** ** Paths *)

Lemma path_join_relative a b :
  starts_with_slash b = false -> path_join a b = (path_prefix a ++ b)%string.
Proof.
  intros Hb. unfold path_join, path_prefix. rewrite Hb.
  destruct (String.eqb a "" || ends_with_slash a); [reflexivity|].
  now rewrite string_app_assoc.
Qed.

Lemma path_join_suffix a b : exists p, path_join a b = (p ++ b)%string.
Proof.
  unfold path_join.
  destruct (starts_with_slash b); [now exists ""|].
  destruct (String.eqb a "" || ends_with_slash a); [now exists a|].
  exists (a ++ "/")%string. now rewrite string_app_assoc.
Qed.

Lemma path_join_json a b : exists p, path_join a (b ++ ".json") = (p ++ ".json")%string.
Proof.
  destruct (path_join_suffix a (b ++ ".json")) as [p ->].
  exists (p ++ b)%string. now rewrite string_app_assoc.
Qed.

Lemma path_join_relative_inj a b c :
  starts_with_slash b = false -> starts_with_slash c = false ->
  path_join a b = path_join a c -> b = c.
Proof.
  intros Hb Hc. rewrite !path_join_relative by assumption.
  apply string_app_inv_head.
Qed.

Lemma trajectory_csv_path_inj poses_root a b :
  trajectory_csv_path poses_root (sequence_id_of a)
  = trajectory_csv_path poses_root (sequence_id_of b) ->
  sequence_id_of a = sequence_id_of b.
Proof.
  unfold trajectory_csv_path. intros H.
  apply path_join_relative_inj in H; [|reflexivity|reflexivity].
  now apply string_app_inv_tail in H.
Qed.

Lemma trajectory_geojson_path_inj poses_root a b :
  trajectory_geojson_path poses_root (sequence_id_of a)
  = trajectory_geojson_path poses_root (sequence_id_of b) ->
  sequence_id_of a = sequence_id_of b.
Proof.
  unfold trajectory_geojson_path. intros H.
  apply path_join_relative_inj in H; [|reflexivity|reflexivity].
  now apply string_app_inv_tail in H.
Qed.

(** Texts that end in equally long suffixes end in the same suffix. *)
Lemma string_suffix_same_length (a b c d : string) :
  String.length c = String.length d -> (a ++ c = b ++ d)%string -> c = d.
Proof.
  intros Hlen H.
  assert (Hab : String.length a = String.length b).
  { apply (f_equal String.length) in H. rewrite !string_length_app in H. lia. }
  now destruct (string_app_same_length a b c d Hab H).
Qed.

(** A [*.geojson] path is not a [*.json] path. *)
Lemma geojson_path_not_json poses_root s p :
  trajectory_geojson_path poses_root s <> (p ++ ".json")%string.
Proof.
  unfold trajectory_geojson_path. intros H.
  destruct (path_join_suffix poses_root (s ++ "_trajectory.geojson")) as [q Hq].
  rewrite Hq in H.
  replace (q ++ s ++ "_trajectory.geojson")%string
    with ((q ++ s ++ "_trajectory.ge") ++ "ojson")%string in H
    by (now rewrite !string_app_assoc).
  apply string_suffix_same_length in H; [discriminate|reflexivity].
Qed.

(** ** The frame loop *)

Section FrameLoop.

Context {lib : PyLib} {world : World}.

Variables (acquisition_id sensor_id : string) (max_per_seq : Z).
Variables (images_root annotations_root : string).

Let frame := render_frame acquisition_id sensor_id max_per_seq images_root annotations_root.
Let frames := render_frames acquisition_id sensor_id max_per_seq images_root annotations_root.

(** What one iteration computes and how it changes the state. *)
Lemma render_frame_inv st idx info st' :
  frame st (idx, info) = Some st' ->
  max_per_seq <> 0
  /\ exists img ann pre payload row,
       let sid := sequence_id_at max_per_seq idx in
       let fi := frame_index_at max_per_seq idx in
       let base := new_base acquisition_id sid sensor_id (format_0d 6 fi) in
       build_annotation_payload info acquisition_id sid sensor_id fi = Some payload
       /\ build_pose_entry info fi (basename (path_join img (base ++ ext info))) = Some row
       /\ poses_by_sequence st' = dict_append sid row (poses_by_sequence st)
       /\ sequences_with_pose st'
          = (if pose_has_data row then set_add sid (sequences_with_pose st)
             else sequences_with_pose st)
       /\ copied st' = copied st + 1
       /\ written st'
          = written st ++ pre
            ++ [CopyFile (src info) (path_join img (base ++ ext info));
                WriteJson (path_join ann (base ++ ".json")) payload]
       /\ forallb is_notice pre = true
       /\ ((dict_get sid (sequence_dirs st) = Some (img, ann)
            /\ sequence_dirs st' = sequence_dirs st)
           \/ (dict_get sid (sequence_dirs st) = None
               /\ img = path_join images_root sid
               /\ ann = path_join annotations_root sid
               /\ sequence_dirs st' = dict_set sid (img, ann) (sequence_dirs st))).
Proof.
  unfold frame, render_frame, sequence_ids.
  destruct (Z.eqb_spec max_per_seq 0) as [|Hm]; [discriminate|].
  fold (sequence_id_of ((idx - 1) / max_per_seq + 1)).
  fold (sequence_id_at max_per_seq idx). fold (frame_index_at max_per_seq idx).
  intros H. split; [exact Hm|].
  set (sid := sequence_id_at max_per_seq idx) in *.
  set (fi := frame_index_at max_per_seq idx) in *.
  set (log1 := match current_sequence st with
               | Some current => _
               | None => []
               end) in H.
  assert (Hlog1 : forallb is_notice log1 = true).
  { subst log1. destruct (current_sequence st) as [current|]; [|reflexivity].
    destruct (negb (current =? "")%string && negb (sid =? current)%string);
      reflexivity. }
  destruct (dict_get sid (sequence_dirs st)) as [[img ann]|] eqn:Edirs.
  - destruct (build_annotation_payload info acquisition_id sid sensor_id fi)
      as [payload|] eqn:Epay; [|discriminate].
    destruct (build_pose_entry info fi _) as [row|] eqn:Erow; [|discriminate].
    injection H as <-. exists img, ann, log1, payload, row. simpl.
    repeat split; auto.
  - destruct (build_annotation_payload info acquisition_id sid sensor_id fi)
      as [payload|] eqn:Epay; [|discriminate].
    destruct (build_pose_entry info fi _) as [row|] eqn:Erow; [|discriminate].
    injection H as <-.
    exists (path_join images_root sid), (path_join annotations_root sid),
      (log1 ++ [ensure_dirs [path_join images_root sid; path_join annotations_root sid]]),
      payload, row. simpl.
    repeat split; auto;
      try (now rewrite <- !app_assoc);
      try (rewrite forallb_app, Hlog1; reflexivity);
      try (right; repeat split; auto).
Qed.

Lemma render_frames_cons st item items :
  frames st (item :: items)
  = match frame st item with
    | Some st' => frames st' items
    | None => None
    end.
Proof. reflexivity. Qed.

(** The rows of the loop, appended under their sequence identifiers. *)
Lemma render_frames_rows items : forall st st',
  frames st items = Some st' ->
  exists rows,
    Forall2
      (fun item row =>
         exists image_name,
           build_pose_entry (snd item) (frame_index_at max_per_seq (fst item)) image_name
           = Some row)
      items rows
    /\ poses_by_sequence st'
       = fold_left append_row
           (combine (map (sequence_id_at max_per_seq) (map fst items)) rows)
           (poses_by_sequence st).
Proof.
  induction items as [|[idx info] items IH]; intros st st' H.
  - injection H as <-. exists []. split; [constructor|reflexivity].
  - rewrite render_frames_cons in H.
    destruct (frame st (idx, info)) as [st1|] eqn:E; [|discriminate].
    apply render_frame_inv in E.
    destruct E as [_ [img [ann [pre [payload [row [_ [Hrow [Hposes _]]]]]]]]].
    destruct (IH st1 st' H) as [rows [Hall Hfold]].
    exists (row :: rows). split.
    + constructor; [|exact Hall]. simpl. eauto.
    + rewrite Hfold, Hposes. reflexivity.
Qed.

Lemma render_frame_marks st item st' :
  frame st item = Some st' -> pose_marks_ok st -> pose_marks_ok st'.
Proof.
  destruct item as [idx info]. intros E Hok.
  apply render_frame_inv in E.
  destruct E as [_ [img [ann [pre [payload [row [_ [_ [Hposes [Hmarks _]]]]]]]]]].
  cbv zeta in *.
  set (sid := sequence_id_at max_per_seq idx) in *.
  intros s. rewrite Hposes, Hmarks.
  destruct (String.eqb_spec s sid) as [->|Hne].
  - rewrite dict_get_append_eq. split.
    + intros Hin.
      destruct (pose_has_data row) eqn:Hdata.
      * exists (match dict_get sid (poses_by_sequence st) with
                | Some l => l ++ [row]
                | None => [row]
                end), row.
        repeat split; auto.
        destruct (dict_get sid (poses_by_sequence st));
          [apply in_or_app; right|]; now left.
      * apply Hok in Hin. destruct Hin as [rows [r [Hget [Hr Hd]]]].
        rewrite Hget. exists (rows ++ [row]), r. repeat split; auto.
        apply in_or_app. now left.
    + intros [rows [r [Hget [Hr Hd]]]]. injection Hget as <-.
      assert (Hcase : r = row
                      \/ exists old, dict_get sid (poses_by_sequence st) = Some old
                                     /\ In r old).
      { destruct (dict_get sid (poses_by_sequence st)) as [old|].
        - apply in_app_or in Hr. destruct Hr as [Hr|[Hr|[]]]; eauto.
        - destruct Hr as [Hr|[]]. now left. }
      destruct Hcase as [->|[old [Hget Hold]]].
      * rewrite Hd. apply set_add_In. now left.
      * assert (In sid (sequences_with_pose st)) by (apply Hok; eauto).
        destruct (pose_has_data row); [apply set_add_In; now right|assumption].
  - rewrite dict_get_append_ne by exact Hne.
    split; intros H.
    + apply Hok.
      destruct (pose_has_data row); [|exact H].
      apply set_add_In in H. destruct H as [H|H]; [contradiction|exact H].
    + apply Hok in H.
      destruct (pose_has_data row); [|exact H].
      apply set_add_In. now right.
Qed.

Lemma render_frames_marks items : forall st st',
  frames st items = Some st' -> pose_marks_ok st -> pose_marks_ok st'.
Proof.
  induction items as [|item items IH]; intros st st' H Hok.
  - now injection H as <-.
  - rewrite render_frames_cons in H.
    destruct (frame st item) as [st1|] eqn:E; [|discriminate].
    eapply IH; [exact H|]. eapply render_frame_marks; eauto.
Qed.

Lemma notice_is_frame_log_event e : is_notice e = true -> frame_log_event e.
Proof. destruct e; simpl; intros H; try discriminate; exact I. Qed.

Lemma render_frames_log items : forall st st',
  frames st items = Some st' ->
  Forall frame_log_event (written st) -> Forall frame_log_event (written st').
Proof.
  induction items as [|[idx info] items IH]; intros st st' H Hok.
  - now injection H as <-.
  - rewrite render_frames_cons in H.
    destruct (frame st (idx, info)) as [st1|] eqn:E; [|discriminate].
    apply (IH st1 st' H).
    apply render_frame_inv in E.
    destruct E as [_ [img [ann [pre [payload [row [_ [_ [_ [_ [_ [Hlog [Hpre _]]]]]]]]]]]]].
    rewrite Hlog. apply Forall_app. split; [exact Hok|].
    apply Forall_app. split.
    + rewrite forallb_forall in Hpre. apply Forall_forall.
      intros e He. apply notice_is_frame_log_event. now apply Hpre.
    + constructor; [exact I|]. constructor; [|constructor].
      simpl. apply path_join_json.
Qed.

Lemma render_frames_copied items : forall st st',
  frames st items = Some st' -> copied st' = copied st + Z.of_nat (List.length items).
Proof.
  induction items as [|[idx info] items IH]; intros st st' H.
  - injection H as <-. simpl. lia.
  - rewrite render_frames_cons in H.
    destruct (frame st (idx, info)) as [st1|] eqn:E; [|discriminate].
    rewrite (IH st1 st' H).
    apply render_frame_inv in E.
    destruct E as [_ [img [ann [pre [payload [row [_ [_ [_ [_ [Hc _]]]]]]]]]]].
    rewrite Hc. cbn [List.length]. lia.
Qed.

End FrameLoop.

(** ** One acquisition *)

Section Acquisition.

Context {lib : PyLib} {world : World}.

Lemma sort_records_Forall (P : record -> Prop) records :
  Forall P records -> Forall P (sort_records records).
Proof.
  intros H. apply (Permutation_Forall (x := records)); [|exact H].
  symmetry. apply sort_records_perm.
Qed.

Lemma enumerate_Forall_snd {A : Type} (P : A -> Prop) (l : list A) start :
  Forall P l -> Forall (fun item => P (snd item)) (enumerate start l).
Proof.
  intros H. revert start. induction H as [|x l Hx _ IH]; intros start; simpl;
    constructor; auto.
Qed.

Lemma render_acquisition_total acquisition_id records sensor_id max_per_seq output_dir :
  max_per_seq <> 0 -> Forall (fun r => well_typed r = true) records ->
  exists st,
    render_acquisition acquisition_id records sensor_id max_per_seq output_dir = Some st.
Proof.
  intros Hm Hwt. unfold render_acquisition.
  apply sort_records_Forall in Hwt.
  destruct (build_coordinate_systems_total _ Hwt) as [cs ->].
  destruct (build_intrinsics_total _ sensor_id Hwt) as [intr ->].
  apply render_frames_total; [exact Hm|].
  exact (enumerate_Forall_snd (fun r => well_typed r = true) _ 1 Hwt).
Qed.

Lemma Forall2_length_eq {A B : Type} (R : A -> B -> Prop) l l' :
  Forall2 R l l' -> List.length l = List.length l'.
Proof. induction 1; simpl; auto. Qed.

(** The state after the frame loop: the rows of the sorted records cut
    into the specified sequences, the marker set in step with them, no
    trajectory file written yet, one copy per record. *)
Lemma render_acquisition_state acquisition_id records sensor_id max_per_seq output_dir st :
  0 < max_per_seq ->
  render_acquisition acquisition_id records sensor_id max_per_seq output_dir = Some st ->
  exists chunks : list (list dict),
    poses_by_sequence st
    = combine (map sequence_id_of (positions (List.length chunks))) chunks
    /\ map (fun c => Z.of_nat (List.length c)) chunks
       = spec_sequence_sizes (Z.of_nat (List.length records)) max_per_seq
    /\ Forall2
         (fun item row =>
            exists image_name,
              build_pose_entry (snd item) (frame_index_at max_per_seq (fst item)) image_name
              = Some row)
         (enumerate 1 (sort_records records)) (List.concat chunks)
    /\ pose_marks_ok st
    /\ Forall frame_log_event (written st)
    /\ copied st = Z.of_nat (List.length records).
Proof.
  intros Hm. unfold render_acquisition.
  destruct (build_coordinate_systems (sort_records records)) as [cs|]; [|discriminate].
  destruct (build_intrinsics (sort_records records) sensor_id) as [intr|]; [|discriminate].
  intros H.
  assert (Hn : List.length (sort_records records) = List.length records)
    by (apply Permutation_length, sort_records_perm).
  destruct (render_frames_rows _ _ _ _ _ _ _ _ H) as [rows [Hrows Hposes]].
  simpl poses_by_sequence in Hposes.
  rewrite enumerate_positions, Hn in Hposes.
  assert (Hlen : List.length rows = List.length records).
  { apply Forall2_length_eq in Hrows. rewrite enumerate_length in Hrows. lia. }
  rewrite <- Hlen in Hposes.
  destruct (chunks_of_positions max_per_seq rows Hm) as [chunks [Hd [Hsizes Hcat]]].
  exists chunks. rewrite Hposes, Hd, Hsizes, Hcat, Hlen.
  split; [reflexivity|]. split; [reflexivity|]. split; [exact Hrows|].
  split; [|split].
  - apply (render_frames_marks _ _ _ _ _ _ _ _ H).
    intros s. simpl. split; [intros []|].
    intros [rs [r [Hget _]]]. discriminate.
  - apply (render_frames_log _ _ _ _ _ _ _ _ H). simpl.
    constructor; [exact I|].
    apply Forall_app. split.
    + destruct (truthy cs); constructor; [|constructor].
      simpl. apply (path_join_json _ "coordinate_systems").
    + destruct (truthy intr); constructor; [|constructor].
      simpl. apply (path_join_json _ "intrinsics").
  - rewrite (render_frames_copied _ _ _ _ _ _ _ _ H). simpl.
    rewrite enumerate_length. lia.
Qed.

End Acquisition.

(** ** Sequence assignment *)

Section SequenceAssignment.

Context {lib : PyLib} {world : World}.

Lemma build_pose_entry_frame_index info frame_index image_name row :
  build_pose_entry info frame_index image_name = Some row ->
  py_get row "frame_index" = VInt frame_index.
Proof.
  unfold build_pose_entry. intros H.
  repeat match type of H with
         | match ?x with Some _ => _ | None => _ end = Some _ =>
             destruct x; [|discriminate]
         end.
  now injection H as <-.
Qed.

(** C2, as amended. With [max_per_seq > 0], position [p >= 1] of the sorted
    acquisition gets the sequence whose index [k] is the ceiling of
    [p / max_per_seq], written ["S"] followed by [k] zero-padded to three
    digits (exactly three digits while [k <= 999]), and the frame index
    [((p - 1) mod max_per_seq) + 1], which lies in [1..max_per_seq]. The
    frame loop files the rows of the [n] records under [S001], [S002], ...
    in sorted order; the sequence sizes are [max_per_seq] for every
    sequence but possibly the last, whose size is in [1..max_per_seq], and
    they sum to [n]. *)
Theorem sequence_assignment acquisition_id records sensor_id max_per_seq output_dir :
  0 < max_per_seq ->
  Forall (fun r => well_typed r = true) records ->
  let n := Z.of_nat (List.length records) in
  (forall p, 1 <= p ->
     exists k f,
       sequence_ids p max_per_seq = Some (sequence_id_of k, format_0d 6 f, f)
       /\ (k - 1) * max_per_seq < p <= k * max_per_seq
       /\ f = (p - 1) mod max_per_seq + 1
       /\ 1 <= f <= max_per_seq
       /\ (k <= 999 -> String.length (format_0d 3 k) = 3%nat))
  /\ exists st chunks,
       render_acquisition acquisition_id records sensor_id max_per_seq output_dir = Some st
       /\ poses_by_sequence st
          = combine (map sequence_id_of (positions (List.length chunks))) chunks
       /\ Forall2
            (fun item row =>
               py_get row "frame_index" = VInt ((fst item - 1) mod max_per_seq + 1))
            (enumerate 1 (sort_records records)) (List.concat chunks)
       /\ map (fun c => Z.of_nat (List.length c)) chunks = spec_sequence_sizes n max_per_seq
       /\ fold_right Z.add 0 (spec_sequence_sizes n max_per_seq) = n
       /\ forall i size,
            nth_error (spec_sequence_sizes n max_per_seq) i = Some size ->
            1 <= size <= max_per_seq
            /\ (S i < List.length (spec_sequence_sizes n max_per_seq) ->
                size = max_per_seq)%nat.
Proof.
  intros Hm Hwt n. split.
  - intros p Hp.
    exists ((p - 1) / max_per_seq + 1), ((p - 1) mod max_per_seq + 1).
    split; [apply sequence_ids_defined; lia|].
    split; [now apply sequence_index_is_ceiling|].
    split; [reflexivity|].
    split; [now apply frame_index_bounds|].
    intros Hk. apply format_03d_three_digits.
    pose proof (Z.div_pos (p - 1) max_per_seq ltac:(lia) Hm). lia.
  - destruct (render_acquisition_total acquisition_id records sensor_id max_per_seq
                output_dir ltac:(lia) Hwt) as [st Hst].
    destruct (render_acquisition_state _ _ _ _ _ _ Hm Hst)
      as [chunks [Hposes [Hsizes [Hrows _]]]].
    exists st, chunks.
    split; [exact Hst|]. split; [exact Hposes|].
    split.
    { eapply Forall2_impl; [|exact Hrows].
      intros item row [image_name Hrow].
      now apply build_pose_entry_frame_index in Hrow. }
    split; [exact Hsizes|].
    split; [apply spec_sequence_sizes_sum; lia|].
    apply spec_sequence_sizes_shape; lia.
Qed.

End SequenceAssignment.

(** The first position whose sequence identifier has four digits. *)
Lemma sequence_id_beyond_three_digits :
  ~ (exists sequence_id frame_id frame_index,
        sequence_ids 1000 1 = Some (sequence_id, frame_id, frame_index)
        /\ String.length sequence_id = 4%nat).
Proof.
  intros [sequence_id [frame_id [frame_index [H Hlen]]]].
  vm_compute in H. injection H as <- _ _. discriminate.
Qed.

Lemma sequence_assignment_witness :
  exists (st : acq_state) (chunks : list (list dict)),
    render_acquisition "20240101-Nyon" three_records "Cam" 2 "/out" = Some st
    /\ map fst (poses_by_sequence st) = ["S001"; "S002"]%string
    /\ map (fun c => Z.of_nat (List.length c)) chunks = [2; 1].
Proof.
  destruct (sequence_assignment "20240101-Nyon" three_records
              "Cam" 2 "/out" ltac:(lia) ltac:(repeat constructor))
    as [_ [st [chunks [Hst [Hposes [_ [Hsizes _]]]]]]].
  exists st, chunks. split; [exact Hst|]. split; [|exact Hsizes].
  vm_compute in Hst. injection Hst as <-. reflexivity.
Defined.

(** ** Deterministic order *)

Section DeterministicOrder.

Context {lib : PyLib} {world : World}.

(** C3. The records of an acquisition are sorted ascending in the order of
    the specification (pose epoch first, then modification time, ties by
    source path). With distinct source paths that order is total, the
    sorted list is strictly ascending, and any two arrangements of the same
    records sort to the same list, so [process_acquisition] assigns the same
    sequence and frame identifiers and writes the same files. *)
Theorem deterministic_order (records : list record) :
  NoDup (map src records) ->
  Permutation (sort_records records) records
  /\ StronglySorted spec_precedes (sort_records records)
  /\ (forall a b, key_lt (record_sort_key a) (record_sort_key b) = true
                  <-> spec_precedes a b)
  /\ (forall a b, In a records -> In b records -> a <> b ->
                  spec_precedes a b \/ spec_precedes b a)
  /\ forall records', Permutation records records' ->
       sort_records records' = sort_records records
       /\ forall acquisition_id sensor_id max_per_seq output_dir,
            process_acquisition acquisition_id records' sensor_id max_per_seq output_dir
            = process_acquisition acquisition_id records sensor_id max_per_seq output_dir.
Proof.
  intros Hnd.
  split; [apply sort_records_perm|].
  split.
  { apply sorted_strict; [|apply sort_records_sorted].
    apply (Permutation_NoDup (l := map src records)); [|exact Hnd].
    apply Permutation_map. symmetry. apply sort_records_perm. }
  split.
  { intros a b. rewrite key_lt_spec. apply key_before_spec. }
  split; [intros a b; now apply spec_precedes_total|].
  intros records' Hperm.
  assert (Hsort : sort_records records' = sort_records records)
    by (symmetry; now apply sort_records_deterministic).
  split; [exact Hsort|].
  intros acquisition_id sensor_id max_per_seq output_dir.
  unfold process_acquisition, render_acquisition. now rewrite Hsort.
Qed.

End DeterministicOrder.

Lemma deterministic_order_witness :
  sort_records (rev three_records) = sort_records three_records
  /\ map src (sort_records three_records) = ["/in/b.jpg"; "/in/c.jpg"; "/in/a.jpg"]%string.
Proof.
  assert (Hnd : NoDup (map src three_records)).
  { repeat constructor; simpl; intuition discriminate. }
  destruct (deterministic_order (lib := example_lib) three_records Hnd)
    as [_ [_ [_ [_ Hdet]]]].
  destruct (Hdet (rev three_records) (Permutation_rev three_records)) as [Hsort _].
  split; [exact Hsort|reflexivity].
Defined.

(** ** Grouping by acquisition *)

Section Grouping.

Context {lib : PyLib} {world : World}.

Variable region : string.

Let kf := acquisition_id_of region.
Let step := fun (grouped : list (string * list record)) (rec : record) =>
              dict_append (kf rec) rec grouped.

Lemma dict_append_NoDup {A : Type} (k : string) (x : A) d :
  NoDup (map fst d) -> NoDup (map fst (dict_append k x d)).
Proof.
  intros Hnd. rewrite dict_append_keys.
  destruct (set_mem k (map fst d)) eqn:E; [exact Hnd|].
  apply Permutation_NoDup with (l := k :: map fst d).
  - rewrite Permutation_app_comm. reflexivity.
  - constructor; [|exact Hnd].
    intros Hin. apply set_mem_In in Hin. congruence.
Qed.

Lemma dict_append_concat {A : Type} (k : string) (x : A) d :
  Permutation (List.concat (map snd (dict_append k x d)))
              (List.concat (map snd d) ++ [x]).
Proof.
  induction d as [|[k' l] d IH]; simpl; [reflexivity|].
  destruct (String.eqb k k'); simpl.
  - rewrite <- !app_assoc. apply Permutation_app_head. apply Permutation_app_comm.
  - rewrite IH. now rewrite app_assoc.
Qed.

Lemma group_fold_keys records : forall grouped,
  map fst (fold_left step records grouped)
  = map fst grouped ++ first_seen_from (map fst grouped) (map kf records).
Proof.
  induction records as [|r records IH]; intros grouped; simpl.
  - now rewrite app_nil_r.
  - rewrite IH. unfold step. rewrite dict_append_keys.
    destruct (set_mem (kf r) (map fst grouped)); [reflexivity|].
    now rewrite <- app_assoc.
Qed.

Lemma group_fold_NoDup records : forall grouped,
  NoDup (map fst grouped) -> NoDup (map fst (fold_left step records grouped)).
Proof.
  induction records as [|r records IH]; intros grouped Hnd; simpl; [exact Hnd|].
  apply IH. now apply dict_append_NoDup.
Qed.

Lemma group_fold_get records k : forall grouped,
  dict_get k (fold_left step records grouped)
  = match dict_get k grouped, records_of region k records with
    | Some old, new => Some (old ++ new)
    | None, [] => None
    | None, new => Some new
    end.
Proof.
  unfold records_of. fold kf.
  induction records as [|r records IH]; intros grouped; simpl.
  - destruct (dict_get k grouped); [now rewrite app_nil_r|reflexivity].
  - rewrite IH. unfold step.
    destruct (String.eqb_spec (kf r) k) as [<-|Hne].
    + rewrite dict_get_append_eq.
      destruct (dict_get (kf r) grouped); [now rewrite <- app_assoc|reflexivity].
    + rewrite dict_get_append_ne by congruence. reflexivity.
Qed.

Lemma group_fold_concat records : forall grouped,
  Permutation (List.concat (map snd (fold_left step records grouped)))
              (List.concat (map snd grouped) ++ records).
Proof.
  induction records as [|r records IH]; intros grouped; simpl.
  - now rewrite app_nil_r.
  - rewrite IH. unfold step. rewrite dict_append_concat.
    now rewrite <- app_assoc.
Qed.

Lemma length_concat_sum {A : Type} (ls : list (list A)) :
  List.length (List.concat ls) = fold_right Nat.add O (map (@List.length A) ls).
Proof.
  induction ls as [|l ls IH]; simpl; [reflexivity|].
  now rewrite length_app, IH.
Qed.

(** The dict [grouped], by its keys, its lookups and its contents. *)
Lemma group_records_spec (records : list record) :
  let grouped := group_records records region in
  map fst grouped = first_seen (map (acquisition_id_of region) records)
  /\ NoDup (map fst grouped)
  /\ (forall k, dict_get k grouped
                = match records_of region k records with
                  | [] => None
                  | new => Some new
                  end)
  /\ Permutation (List.concat (map snd grouped)) records.
Proof.
  intros grouped. unfold group_records in grouped. fold kf in grouped.
  change (fold_left step records []) in (value of grouped).
  split; [apply (group_fold_keys records [])|].
  split; [apply group_fold_NoDup; constructor|].
  split; [intros k; apply (group_fold_get records k [])|].
  apply (group_fold_concat records []).
Qed.

(** A group holds the records of its identifier, and at least one. *)
Lemma group_records_items (records : list record) k items :
  In (k, items) (group_records records region) ->
  items = records_of region k records /\ items <> [].
Proof.
  destruct (group_records_spec records) as [_ [Hnd [Hget _]]].
  intros Hin. apply (In_dict_get _ _ _ Hnd) in Hin. rewrite Hget in Hin.
  destruct (records_of region k records) eqn:E; [discriminate|].
  injection Hin as <-. split; [reflexivity|discriminate].
Qed.

(** The groups of well-typed records hold well-typed records. *)
Lemma group_records_well_typed (records : list record) :
  Forall (fun r => well_typed r = true) records ->
  Forall (fun g => Forall (fun r => well_typed r = true) (snd g))
    (group_records records region).
Proof.
  intros Hwt.
  destruct (group_records_spec records) as [_ [_ [_ Hperm]]].
  apply Forall_forall. intros [k items] Hin. cbn [snd].
  apply Forall_forall. intros r Hr.
  rewrite Forall_forall in Hwt. apply Hwt.
  apply (Permutation_in _ Hperm). apply in_concat. exists items.
  split; [|exact Hr]. apply in_map_iff. now exists (k, items).
Qed.

(** The second loop of [process_records_by_acquisition] takes the groups
    in the order of the dict and puts out, for each in turn, what
    [process_acquisition] and [copy_lidar_assets] put out for it. *)
Lemma process_groups_outputs sensor_id max_per_seq output_dir lidar_paths grouped :
  forall acc result,
    process_groups sensor_id max_per_seq output_dir lidar_paths acc grouped = Some result ->
    exists outputs,
      Forall2 (group_output sensor_id max_per_seq output_dir lidar_paths) grouped outputs
      /\ fst (fst result) = fst (fst acc) ++ List.concat outputs.
Proof.
  induction grouped as [|[k items] grouped IH]; intros [[log total] lidar_total] result H.
  - injection H as <-. exists []. split; [constructor|]. simpl. now rewrite app_nil_r.
  - cbn [process_groups] in H.
    destruct (process_group sensor_id max_per_seq output_dir lidar_paths
                (log, total, lidar_total) (k, items)) as [acc'|] eqn:Eg; [|discriminate].
    destruct (IH _ _ H) as [outputs [Hall Hlog]].
    unfold process_group in Eg.
    destruct (process_acquisition k items sensor_id max_per_seq output_dir)
      as [[events n]|] eqn:Ep; [|discriminate].
    assert (Hout : exists out,
               group_output sensor_id max_per_seq output_dir lidar_paths (k, items) out
               /\ fst (fst acc') = log ++ out).
    { destruct lidar_paths as [|p paths].
      - injection Eg as <-. exists events. split; [|reflexivity].
        exists events, n. split; [exact Ep|]. now rewrite app_nil_r.
      - destruct (copy_lidar_assets (path_join output_dir k) k (p :: paths))
          as [lidar_events lidar_copied] eqn:El.
        injection Eg as <-. eexists. split; [|reflexivity].
        exists events, n. split; [exact Ep|]. cbn [fst]. rewrite El. reflexivity. }
    destruct Hout as [out [Hout Hacc]].
    exists (out :: outputs). split; [now constructor|].
    rewrite Hlog, Hacc. cbn [fst List.concat]. now rewrite app_assoc.
Qed.

(** The second loop returns on groups of well-typed records. *)
Lemma process_groups_total sensor_id max_per_seq output_dir lidar_paths grouped :
  max_per_seq <> 0 ->
  Forall (fun g => Forall (fun r => well_typed r = true) (snd g)) grouped ->
  forall acc,
    exists result,
      process_groups sensor_id max_per_seq output_dir lidar_paths acc grouped = Some result.
Proof.
  intros Hm Hwt.
  induction Hwt as [|[k items] grouped Hitems _ IH]; intros [[log total] lidar_total].
  - now eexists.
  - cbn [process_groups snd] in *.
    destruct (render_acquisition_total k items sensor_id max_per_seq output_dir Hm Hitems)
      as [st Hst].
    unfold process_group, process_acquisition. rewrite Hst. cbn.
    destruct lidar_paths as [|p paths]; [apply IH|].
    destruct (copy_lidar_assets (path_join output_dir k) k (p :: paths))
      as [lidar_events lidar_copied].
    apply IH.
Qed.

(** C4. Grouping partitions the records by ["{acquisition_date}-{region}"]:
    the groups are keyed by the distinct identifiers in first-seen order;
    each group holds exactly the records with its identifier; the groups
    together are a rearrangement of the input, so nothing is dropped or
    duplicated and the group sizes sum to the input count; every record
    lies in the group of its identifier and in no other. What
    [process_records_by_acquisition] puts out is, group after group in
    that first-seen order, what [process_acquisition] and
    [copy_lidar_assets] put out for the group; and on well-typed records
    with a sequence size other than zero it does return, as long as its
    file operations succeed. *)
Theorem grouping_partitions (records : list record) :
  let grouped := group_records records region in
  map fst grouped = first_seen (map (acquisition_id_of region) records)
  /\ NoDup (map fst grouped)
  /\ (forall k items, In (k, items) grouped ->
        items = records_of region k records /\ items <> [])
  /\ Permutation (List.concat (map snd grouped)) records
  /\ fold_right Nat.add O (map (fun g => List.length (snd g)) grouped)
     = List.length records
  /\ (forall r, In r records ->
        exists items,
          In (acquisition_id_of region r, items) grouped /\ In r items
          /\ forall k' items', In (k', items') grouped -> In r items' ->
               k' = acquisition_id_of region r)
  /\ (forall sensor_id max_per_seq output_dir lidar_paths log counts,
        process_records_by_acquisition records region sensor_id max_per_seq output_dir
          lidar_paths = Some (log, counts) ->
        exists outputs,
          Forall2 (group_output sensor_id max_per_seq output_dir lidar_paths)
            grouped outputs
          /\ log = List.concat outputs)
  /\ (forall sensor_id max_per_seq output_dir lidar_paths,
        max_per_seq <> 0 ->
        Forall (fun r => well_typed r = true) records ->
        exists log counts,
          process_records_by_acquisition records region sensor_id max_per_seq output_dir
            lidar_paths = Some (log, counts)).
Proof.
  intros grouped.
  destruct (group_records_spec records) as [Hkeys [Hnd [Hget Hperm]]].
  fold grouped in Hkeys, Hnd, Hget, Hperm.
  assert (Hitems : forall k items, In (k, items) grouped ->
                     items = records_of region k records /\ items <> [])
    by (intros k items; apply group_records_items).
  split; [exact Hkeys|]. split; [exact Hnd|]. split; [exact Hitems|].
  split; [exact Hperm|]. split.
  { rewrite <- (Permutation_length Hperm), length_concat_sum, map_map. reflexivity. }
  split; [|split].
  2:{ intros sensor_id max_per_seq output_dir lidar_paths log counts H.
      unfold process_records_by_acquisition in H. fold grouped in H.
      destruct (process_groups sensor_id max_per_seq output_dir lidar_paths ([], 0, 0)
                  grouped) as [[[log' total] lidar_total]|] eqn:E; [|discriminate].
      injection H as <- _.
      destruct (process_groups_outputs _ _ _ _ _ _ _ E) as [outputs [Hall Hlog]].
      exists outputs. split; [exact Hall|exact Hlog]. }
  2:{ intros sensor_id max_per_seq output_dir lidar_paths Hm Hwt.
      unfold process_records_by_acquisition. fold grouped.
      destruct (process_groups_total sensor_id max_per_seq output_dir lidar_paths grouped
                  Hm (group_records_well_typed records Hwt) ([], 0, 0))
        as [[[log total] lidar_total] ->].
      eauto. }
  intros r Hr.
  remember (records_of region (acquisition_id_of region r) records) as items eqn:Eitems.
  assert (Hin : In r items).
  { subst items. unfold records_of. apply filter_In.
    split; [exact Hr|apply String.eqb_refl]. }
  exists items.
  split; [|split; [exact Hin|]].
  - apply dict_get_In. rewrite Hget, <- Eitems.
    destruct items; [contradiction|reflexivity].
  - intros k' items' Hg Hr'.
    destruct (Hitems k' items' Hg) as [-> _].
    unfold records_of in Hr'. apply filter_In in Hr'. destruct Hr' as [_ Heq].
    apply String.eqb_eq in Heq. now symmetry.
Qed.

End Grouping.

Lemma grouping_partitions_witness :
  map fst (group_records two_day_records "Nyon") = ["20240102-Nyon"; "20240101-Nyon"]%string
  /\ exists log counts outputs,
       process_records_by_acquisition (lib := example_lib) (world := empty_world)
         two_day_records "Nyon" "Cam" 2 "/out" ["/in/scan.laz"] = Some (log, counts)
       /\ Forall2 (group_output (lib := example_lib) (world := empty_world)
                     "Cam" 2 "/out" ["/in/scan.laz"])
            (group_records two_day_records "Nyon") outputs
       /\ log = List.concat outputs.
Proof.
  destruct (grouping_partitions (lib := example_lib) (world := empty_world) "Nyon"
              two_day_records) as [Hkeys [_ [_ [_ [_ [_ [Horder Hreturns]]]]]]].
  split; [exact Hkeys|].
  destruct (Hreturns "Cam" 2 "/out" ["/in/scan.laz"] ltac:(lia) ltac:(repeat constructor))
    as [log [counts Hrun]].
  destruct (Horder _ _ _ _ _ _ Hrun) as [outputs [Hall Hlog]].
  exists log, counts, outputs. split; [exact Hrun|]. split; [exact Hall|exact Hlog].
Defined.

(** ** Trajectory tables and tracks *)

Section Emission.

Context {lib : PyLib} {world : World}.

Lemma populated_spec v :
  negb (is_none v) && negb (is_empty_str v) = true <-> populated v.
Proof.
  unfold populated. destruct v as [| | | |s| |]; simpl;
    try (split; [intros _; split; discriminate|reflexivity]).
  - split; [discriminate|]. intros [H _]. now contradiction H.
  - destruct s; simpl.
    + split; [discriminate|]. intros [_ H]. now contradiction H.
    + split; [intros _; split; discriminate|reflexivity].
Qed.

Lemma pose_has_data_spec row :
  pose_has_data row = true
  <-> exists field, In field POSE_DATA_FIELDS /\ populated (py_get row field).
Proof.
  unfold pose_has_data. rewrite existsb_exists.
  split; intros [field [Hin H]]; exists field; (split; [exact Hin|]);
    now apply populated_spec.
Qed.

Lemma track_step_spec positions alt_count row :
  track_step (positions, alt_count) row
  = match row_position row with
    | Some p => (positions ++ [p], if has_altitude p then S alt_count else alt_count)
    | None => (positions, alt_count)
    end.
Proof.
  unfold track_step, row_position.
  destruct (parse_float (py_get row "gps_latitude")) as [lat|]; [|reflexivity].
  destruct (parse_float (py_get row "gps_longitude")) as [lon|]; [|reflexivity].
  unfold has_altitude. simpl.
  now destruct (parse_float (py_get row "gps_altitude_m")).
Qed.

Lemma track_fold rows : forall positions alt_count,
  fold_left track_step rows (positions, alt_count)
  = (positions ++ qualifying_positions rows,
     (alt_count + List.length (filter has_altitude (qualifying_positions rows)))%nat).
Proof.
  induction rows as [|row rows IH]; intros positions alt_count.
  - simpl. now rewrite app_nil_r, Nat.add_0_r.
  - cbn [fold_left]. rewrite track_step_spec.
    unfold qualifying_positions in *. cbn [flat_map].
    destruct (row_position row) as [p|]; rewrite IH; [|reflexivity].
    rewrite <- app_assoc. f_equal. cbn [app filter].
    destruct (has_altitude p); cbn [List.length]; lia.
Qed.

Lemma all_have_altitude (l : list (float * float * option float)) :
  Nat.eqb (List.length (filter has_altitude l)) (List.length l) = forallb has_altitude l.
Proof.
  induction l as [|p l IH]; simpl; [reflexivity|].
  destruct (has_altitude p); simpl; [exact IH|].
  pose proof (filter_length_le has_altitude l).
  destruct (Nat.eqb_spec (List.length (filter has_altitude l)) (S (List.length l)));
    [lia|reflexivity].
Qed.

Lemma qualifying_positions_length rows :
  List.length (qualifying_positions rows) = List.length (filter has_coordinates rows).
Proof.
  unfold qualifying_positions, has_coordinates.
  induction rows as [|row rows IH]; simpl; [reflexivity|].
  destruct (row_position row); simpl; now rewrite ?length_app, IH.
Qed.

(** [build_geojson_track] returns the track document of the specification
    over the qualifying rows, or nothing when fewer than two qualify. *)
Lemma build_geojson_track_spec rows acquisition_id sequence_id sensor_id :
  let positions := qualifying_positions rows in
  let include_alt := forallb has_altitude positions in
  build_geojson_track rows acquisition_id sequence_id sensor_id
  = if (List.length positions <? 2)%nat then VNone
    else spec_track_document acquisition_id sequence_id sensor_id
           (map (coordinate include_alt) positions) include_alt.
Proof.
  intros positions include_alt. unfold build_geojson_track.
  rewrite track_fold. simpl app. simpl Nat.add. fold positions.
  destruct (List.length positions <? 2)%nat; [reflexivity|].
  rewrite all_have_altitude. fold include_alt.
  unfold spec_track_document. destruct include_alt; reflexivity.
Qed.

Lemma build_geojson_track_truthy rows acquisition_id sequence_id sensor_id :
  truthy (build_geojson_track rows acquisition_id sequence_id sensor_id) = true
  <-> (2 <= List.length (filter has_coordinates rows))%nat.
Proof.
  rewrite build_geojson_track_spec, <- qualifying_positions_length.
  destruct (Nat.ltb_spec (List.length (qualifying_positions rows)) 2); simpl.
  - split; [discriminate|lia].
  - split; [intros _; exact H|reflexivity].
Qed.

Lemma combine_keys_NoDup {A B : Type} (l : list A) (l' : list B) :
  NoDup l -> NoDup (map fst (combine l l')).
Proof.
  intros Hnd. revert l'. induction Hnd as [|x l Hx Hnd IH]; intros [|y l']; simpl;
    try constructor; auto.
  intros Hin. apply Hx. now apply combine_fst_incl in Hin.
Qed.

Lemma sequence_id_keys_NoDup k : NoDup (map sequence_id_of (positions k)).
Proof.
  induction k as [|k IH]; [constructor|].
  rewrite positions_succ, map_app. simpl.
  apply Permutation_NoDup with (l := sequence_id_of (Z.of_nat (S k))
                                      :: map sequence_id_of (positions k)).
  - apply Permutation_cons_append.
  - constructor; [|exact IH].
    intros Hin. apply in_map_iff in Hin. destruct Hin as [p [Heq Hp]].
    apply In_positions in Hp. apply sequence_id_of_inj in Heq; lia.
Qed.

Lemma combine_key_form {B : Type} (ps : list Z) (chunks : list B) s c :
  In (s, c) (combine (map sequence_id_of ps) chunks) -> exists p, s = sequence_id_of p.
Proof.
  intros Hin. apply in_combine_l in Hin. apply in_map_iff in Hin.
  destruct Hin as [p [<- _]]. now exists p.
Qed.

(** What [process_acquisition] writes: the frames, console lines, then the
    trajectory files of the last loop. *)
Lemma process_acquisition_log acquisition_id records sensor_id max_per_seq output_dir st :
  render_acquisition acquisition_id records sensor_id max_per_seq output_dir = Some st ->
  exists notices,
    forallb is_notice notices = true
    /\ process_acquisition acquisition_id records sensor_id max_per_seq output_dir
       = Some (written st ++ notices
               ++ flat_map
                    (emit_sequence acquisition_id sensor_id
                       (path_join (path_join output_dir acquisition_id) "02_poses")
                       (sequences_with_pose st))
                    (poses_by_sequence st),
               copied st).
Proof.
  intros Hst. unfold process_acquisition. rewrite Hst.
  eexists. split; [|reflexivity].
  destruct (current_sequence st) as [current|]; [|reflexivity].
  destruct (negb (current =? "")%string); reflexivity.
Qed.

(** A file event of the whole log that is not a frame-loop event comes
    from the last loop. *)
Lemma In_log_emitted (written notices emitted : list event) e :
  Forall frame_log_event written -> forallb is_notice notices = true ->
  ~ frame_log_event e ->
  In e (written ++ notices ++ emitted) <-> In e emitted.
Proof.
  intros Hw Hn He. rewrite !in_app_iff. split; [|auto].
  intros [H|[H|H]]; [| |exact H]; exfalso; apply He.
  - rewrite Forall_forall in Hw. now apply Hw.
  - rewrite forallb_forall in Hn. now apply notice_is_frame_log_event, Hn.
Qed.

Lemma In_emit_csv acquisition_id sensor_id poses_root marks poses f written_rows :
  In (WriteCsv f written_rows)
     (flat_map (emit_sequence acquisition_id sensor_id poses_root marks) poses)
  <-> exists s, In (s, written_rows) poses /\ In s marks
                /\ f = trajectory_csv_path poses_root s.
Proof.
  rewrite in_flat_map. split.
  - intros [[s rows] [Hin He]]. unfold emit_sequence in He.
    destruct (set_mem s marks) eqn:Em; simpl in He; [|contradiction].
    destruct He as [He|He].
    + injection He as <- <-. exists s. repeat split; auto. now apply set_mem_In.
    + destruct (truthy _); [destruct He as [He|[]]; discriminate|contradiction].
  - intros [s [Hin [Hm ->]]]. exists (s, written_rows). split; [exact Hin|].
    unfold emit_sequence. apply set_mem_In in Hm. rewrite Hm. simpl. now left.
Qed.

Lemma In_emit_geojson acquisition_id sensor_id poses_root marks poses f payload :
  In (WriteJson f payload)
     (flat_map (emit_sequence acquisition_id sensor_id poses_root marks) poses)
  <-> exists s rows, In (s, rows) poses /\ In s marks
                     /\ f = trajectory_geojson_path poses_root s
                     /\ payload = build_geojson_track rows acquisition_id s sensor_id
                     /\ truthy payload = true.
Proof.
  rewrite in_flat_map. split.
  - intros [[s rows] [Hin He]]. unfold emit_sequence in He.
    destruct (set_mem s marks) eqn:Em; simpl in He; [|contradiction].
    destruct He as [He|He]; [discriminate|].
    destruct (truthy (build_geojson_track rows acquisition_id s sensor_id)) eqn:Et;
      [|contradiction].
    destruct He as [He|[]]. injection He as <- <-.
    exists s, rows. repeat split; auto. now apply set_mem_In.
  - intros [s [rows [Hin [Hm [-> [-> Ht]]]]]]. exists (s, rows). split; [exact Hin|].
    unfold emit_sequence. apply set_mem_In in Hm. rewrite Hm, Ht. simpl.
    right. now left.
Qed.

End Emission.

Section TrajectoryFiles.

Context {lib : PyLib} {world : World}.

(** The trajectory files [process_acquisition] writes for a sequence. *)
Lemma acquisition_outputs acquisition_id records sensor_id max_per_seq output_dir :
  0 < max_per_seq ->
  Forall (fun r => well_typed r = true) records ->
  let poses_root := path_join (path_join output_dir acquisition_id) "02_poses" in
  exists st log count,
    render_acquisition acquisition_id records sensor_id max_per_seq output_dir = Some st
    /\ process_acquisition acquisition_id records sensor_id max_per_seq output_dir
       = Some (log, count)
    /\ forall sequence_id rows,
         In (sequence_id, rows) (poses_by_sequence st) ->
         (forall written_rows,
            In (WriteCsv (trajectory_csv_path poses_root sequence_id) written_rows) log
            <-> written_rows = rows
                /\ exists row, In row rows /\ pose_has_data row = true)
         /\ (forall payload,
               In (WriteJson (trajectory_geojson_path poses_root sequence_id) payload) log
               <-> payload = build_geojson_track rows acquisition_id sequence_id sensor_id
                   /\ truthy payload = true
                   /\ exists row, In row rows /\ pose_has_data row = true).
Proof.
  intros Hm Hwt poses_root.
  destruct (render_acquisition_total acquisition_id records sensor_id max_per_seq
              output_dir ltac:(lia) Hwt) as [st Hst].
  destruct (render_acquisition_state _ _ _ _ _ _ Hm Hst)
    as [chunks [Hposes [_ [_ [Hok [Hlog _]]]]]].
  destruct (process_acquisition_log _ _ _ _ _ _ Hst) as [notices [Hnot Hproc]].
  fold poses_root in Hproc.
  exists st. eexists. eexists. split; [exact Hst|]. split; [exact Hproc|].
  assert (Hnd : NoDup (map fst (poses_by_sequence st))).
  { rewrite Hposes. apply combine_keys_NoDup, sequence_id_keys_NoDup. }
  assert (Hform : forall s c, In (s, c) (poses_by_sequence st) ->
                              exists p, s = sequence_id_of p).
  { intros s c Hin. rewrite Hposes in Hin. now apply combine_key_form in Hin. }
  intros sequence_id rows Hin.
  pose proof (In_dict_get _ _ _ Hnd Hin) as Hget.
  assert (Hmark : In sequence_id (sequences_with_pose st)
                  <-> exists row, In row rows /\ pose_has_data row = true).
  { rewrite (Hok sequence_id). split.
    - intros [rows0 [row [Hget0 H]]]. rewrite Hget in Hget0. injection Hget0 as <-.
      now exists row.
    - intros [row H]. now exists rows, row. }
  destruct (Hform _ _ Hin) as [a ->].
  split.
  - intros written_rows.
    rewrite In_log_emitted; [|exact Hlog|exact Hnot|simpl; tauto].
    rewrite In_emit_csv, <- Hmark. split.
    + intros [s [Hin' [Hm' Hpath]]].
      destruct (Hform _ _ Hin') as [b ->].
      apply trajectory_csv_path_inj in Hpath. rewrite <- Hpath in *.
      apply (In_dict_get _ _ _ Hnd) in Hin'. rewrite Hget in Hin'.
      injection Hin' as ->. now split.
    + intros [-> Hm']. exists (sequence_id_of a). now repeat split.
  - intros payload.
    rewrite In_log_emitted; [|exact Hlog|exact Hnot|].
    2:{ simpl. intros [p Hp]. now apply geojson_path_not_json in Hp. }
    rewrite In_emit_geojson, <- Hmark. split.
    + intros [s [rows' [Hin' [Hm' [Hpath [Hpay Ht]]]]]].
      destruct (Hform _ _ Hin') as [b ->].
      apply trajectory_geojson_path_inj in Hpath. rewrite <- Hpath in *.
      apply (In_dict_get _ _ _ Hnd) in Hin'. rewrite Hget in Hin'.
      injection Hin' as ->. now repeat split.
    + intros [Hpay [Ht Hm']]. exists (sequence_id_of a), rows. now repeat split.
Qed.

Lemma parse_float_number v :
  (v = VNone \/ exists x, v = VFloat x) -> (parse_float v = None <-> v = VNone).
Proof.
  intros [->|[x ->]]; simpl; split; try reflexivity; discriminate.
Qed.

(** C6. For every sequence of an acquisition, the trajectory CSV is written
    if and only if one of the sequence's accumulated rows has, in one of the
    fields [timestamp, gps_latitude, gps_longitude, gps_altitude_m,
    heading_deg, pitch_deg, roll_deg], a value that is neither [None] nor
    the empty string; the file written holds exactly the sequence's rows. *)
Theorem trajectory_csv_emission acquisition_id records sensor_id max_per_seq output_dir :
  0 < max_per_seq ->
  Forall (fun r => well_typed r = true) records ->
  let poses_root := path_join (path_join output_dir acquisition_id) "02_poses" in
  exists st log count,
    render_acquisition acquisition_id records sensor_id max_per_seq output_dir = Some st
    /\ process_acquisition acquisition_id records sensor_id max_per_seq output_dir
       = Some (log, count)
    /\ forall sequence_id rows,
         In (sequence_id, rows) (poses_by_sequence st) ->
         ((exists written_rows,
             In (WriteCsv (trajectory_csv_path poses_root sequence_id) written_rows) log)
          <-> exists row field,
                In row rows /\ In field POSE_DATA_FIELDS
                /\ populated (py_get row field))
         /\ forall written_rows,
              In (WriteCsv (trajectory_csv_path poses_root sequence_id) written_rows) log ->
              written_rows = rows.
Proof.
  intros Hm Hwt poses_root.
  destruct (acquisition_outputs acquisition_id records sensor_id max_per_seq output_dir
              Hm Hwt) as [st [log [count [Hst [Hproc Hout]]]]].
  exists st, log, count. split; [exact Hst|]. split; [exact Hproc|].
  intros sequence_id rows Hin.
  destruct (Hout sequence_id rows Hin) as [Hcsv _].
  split; [split|].
  - intros [written_rows Hw]. apply Hcsv in Hw.
    destruct Hw as [_ [row [Hrow Hdata]]].
    apply pose_has_data_spec in Hdata. destruct Hdata as [field [Hf Hp]].
    now exists row, field.
  - intros [row [field [Hrow [Hf Hp]]]]. exists rows. apply Hcsv.
    split; [reflexivity|]. exists row. split; [exact Hrow|].
    apply pose_has_data_spec. now exists field.
  - intros written_rows Hw. now apply Hcsv in Hw.
Qed.

(** C7. For every sequence, the GeoJSON track is written if and only if
    the sequence's trajectory CSV was written and at least two of its rows
    have a latitude and a longitude that parse as floats. The track lists
    those rows in row order; the altitude is in the coordinates, and the
    altitude-units property present, if and only if every one of those rows
    has an altitude that parses (for a number or [None]: is not [None]);
    otherwise the coordinates are two-dimensional. *)
Theorem geojson_track_emission acquisition_id records sensor_id max_per_seq output_dir :
  0 < max_per_seq ->
  Forall (fun r => well_typed r = true) records ->
  let poses_root := path_join (path_join output_dir acquisition_id) "02_poses" in
  exists st log count,
    render_acquisition acquisition_id records sensor_id max_per_seq output_dir = Some st
    /\ process_acquisition acquisition_id records sensor_id max_per_seq output_dir
       = Some (log, count)
    /\ (forall v, (v = VNone \/ exists x, v = VFloat x) ->
                  (parse_float v = None <-> v = VNone))
    /\ forall sequence_id rows,
         In (sequence_id, rows) (poses_by_sequence st) ->
         let positions := qualifying_positions rows in
         let include_alt := forallb has_altitude positions in
         List.length positions = List.length (filter has_coordinates rows)
         /\ ((exists payload,
                In (WriteJson (trajectory_geojson_path poses_root sequence_id) payload) log)
             <-> (exists written_rows,
                    In (WriteCsv (trajectory_csv_path poses_root sequence_id) written_rows)
                       log)
                 /\ (2 <= List.length (filter has_coordinates rows))%nat)
         /\ forall payload,
              In (WriteJson (trajectory_geojson_path poses_root sequence_id) payload) log ->
              payload
              = spec_track_document acquisition_id sequence_id sensor_id
                  (map (fun p => let '(lon, lat, alt) := p in
                                 match alt with
                                 | Some a => if include_alt then [lon; lat; a] else [lon; lat]
                                 | None => [lon; lat]
                                 end) positions)
                  include_alt.
Proof.
  intros Hm Hwt poses_root.
  destruct (acquisition_outputs acquisition_id records sensor_id max_per_seq output_dir
              Hm Hwt) as [st [log [count [Hst [Hproc Hout]]]]].
  exists st, log, count. split; [exact Hst|]. split; [exact Hproc|].
  split; [exact parse_float_number|].
  intros sequence_id rows Hin positions include_alt.
  destruct (Hout sequence_id rows Hin) as [Hcsv Hgeo].
  split; [apply qualifying_positions_length|]. split; [split|].
  - intros [payload Hw]. apply Hgeo in Hw. destruct Hw as [-> [Ht Hdata]].
    split; [|now apply build_geojson_track_truthy in Ht].
    exists rows. apply Hcsv. now split.
  - intros [[written_rows Hw] Htwo]. apply Hcsv in Hw. destruct Hw as [_ Hdata].
    exists (build_geojson_track rows acquisition_id sequence_id sensor_id).
    apply Hgeo. split; [reflexivity|]. split; [|exact Hdata].
    now apply build_geojson_track_truthy.
  - intros payload Hw. apply Hgeo in Hw. destruct Hw as [-> [Ht _]].
    apply build_geojson_track_truthy in Ht.
    rewrite build_geojson_track_spec.
    fold positions. fold include_alt.
    rewrite <- qualifying_positions_length in Ht. fold positions in Ht.
    destruct (Nat.ltb_spec (List.length positions) 2); [lia|].
    reflexivity.
Qed.

End TrajectoryFiles.

(** Finds an event in a concrete log. *)
Ltac in_log := repeat (first [left; reflexivity | right]).

Lemma trajectory_csv_emission_witness :
  exists log count rows,
    process_acquisition (lib := example_lib) "20240101-Nyon" two_posed_records "Cam" 10 "/out"
    = Some (log, count)
    /\ In (WriteCsv "/out/20240101-Nyon/02_poses/S001_trajectory.csv" rows) log.
Proof.
  destruct (trajectory_csv_emission (lib := example_lib) "20240101-Nyon"
              two_posed_records "Cam" 10 "/out" ltac:(lia) ltac:(repeat constructor))
    as [st [log [count [Hst [Hproc H]]]]].
  vm_compute in Hst. injection Hst as <-. cbn [poses_by_sequence] in H.
  match type of H with
  | forall s rows, In (s, rows) ((?k, ?r) :: _) -> _ =>
      destruct (H k r (or_introl eq_refl)) as [[_ Hback] _]
  end.
  destruct Hback as [rows Hrows].
  - eexists. exists "gps_latitude"%string.
    split; [left; reflexivity|].
    split; [right; left; reflexivity|].
    split; discriminate.
  - exists log, count, rows. split; [exact Hproc|exact Hrows].
Defined.

Lemma geojson_track_emission_witness :
  exists log count payload,
    process_acquisition (lib := example_lib) "20240101-Nyon" two_posed_records "Cam" 10 "/out"
    = Some (log, count)
    /\ In (WriteJson "/out/20240101-Nyon/02_poses/S001_trajectory.geojson" payload) log
    /\ payload
       = spec_track_document "20240101-Nyon" "S001" "Cam" [[6%Q; 46%Q]; [7%Q; 47%Q]] false.
Proof.
  destruct (geojson_track_emission (lib := example_lib) "20240101-Nyon"
              two_posed_records "Cam" 10 "/out" ltac:(lia) ltac:(repeat constructor))
    as [st [log [count [Hst [Hproc [_ H]]]]]].
  vm_compute in Hst. injection Hst as <-. cbn [poses_by_sequence] in H.
  match type of H with
  | forall s rows, In (s, rows) ((?k, ?r) :: _) -> _ =>
      destruct (H k r (or_introl eq_refl)) as [_ [[_ Hback] Hdoc]]
  end.
  destruct Hback as [payload Hpayload].
  - split; [|vm_compute; lia].
    vm_compute in Hproc. injection Hproc as <- _.
    eexists. in_log.
  - exists log, count, payload.
    split; [exact Hproc|]. split; [exact Hpayload|].
    apply Hdoc in Hpayload. exact Hpayload.
Defined.

(** ** Pruning a dict with distinct keys *)

Lemma prune_fold_keys_NoDup items : forall out,
  NoDup (map fst out) -> NoDup (map fst (fold_left prune_dict_step items out)).
Proof.
  induction items as [|[k v] items IH]; intros out Hnd; simpl; [exact Hnd|].
  apply IH. unfold prune_dict_step. simpl.
  destruct (is_blank (prune_none v)); [exact Hnd|now apply dict_set_NoDup].
Qed.

Lemma prune_fold_untouched k items : forall out,
  ~ In k (map fst items) ->
  dict_get k (fold_left prune_dict_step items out) = dict_get k out.
Proof.
  induction items as [|[k1 v1] items IH]; intros out Hk; simpl; [reflexivity|].
  simpl in Hk. rewrite IH by tauto.
  unfold prune_dict_step. simpl.
  destruct (is_blank (prune_none v1)); [reflexivity|].
  apply dict_get_set_ne. intros ->. apply Hk. now left.
Qed.

(** Pruning keeps an entry whose pruned value is worth keeping, and drops
    the others. *)
Lemma prune_fold_get k v items : forall out,
  NoDup (map fst items) -> dict_get k items = Some v ->
  dict_get k (fold_left prune_dict_step items out)
  = if is_blank (prune_none v) then dict_get k out else Some (prune_none v).
Proof.
  induction items as [|[k1 v1] items IH]; intros out Hnd Hget; [discriminate|].
  simpl in Hget. inversion Hnd as [|? ? Hnotin Hnd']; subst.
  cbn [fold_left].
  destruct (String.eqb_spec k k1) as [->|Hne].
  - injection Hget as ->.
    rewrite prune_fold_untouched by exact Hnotin.
    unfold prune_dict_step. simpl.
    destruct (is_blank (prune_none v)); [reflexivity|apply dict_get_set_eq].
  - rewrite (IH _ Hnd' Hget).
    destruct (is_blank (prune_none v)); [|reflexivity].
    unfold prune_dict_step. simpl.
    destruct (is_blank (prune_none v1)); [reflexivity|].
    now apply dict_get_set_ne.
Qed.

Lemma prune_dict_NoDup d : NoDup (map fst (prune_dict d)).
Proof. apply prune_fold_keys_NoDup. constructor. Qed.

Lemma prune_dict_get k v d :
  NoDup (map fst d) -> dict_get k d = Some v ->
  dict_get k (prune_dict d)
  = if is_blank (prune_none v) then None else Some (prune_none v).
Proof. intros Hnd Hget. unfold prune_dict. now rewrite (prune_fold_get k v d []). Qed.

Lemma prune_dict_get_None k d :
  dict_get k d = None -> dict_get k (prune_dict d) = None.
Proof.
  intros Hget. unfold prune_dict. rewrite prune_fold_untouched; [reflexivity|].
  now apply dict_get_None.
Qed.

Lemma prune_none_VDict d : prune_none (VDict d) = VDict (prune_dict d).
Proof. reflexivity. Qed.

Lemma set_unless_none_NoDup k v d :
  NoDup (map fst d) -> NoDup (map fst (set_unless_none k v d)).
Proof.
  unfold set_unless_none. destruct (is_none v); [auto|apply dict_set_NoDup].
Qed.

Lemma set_unless_none_eq k v d :
  v <> VNone -> dict_get k (set_unless_none k v d) = Some v.
Proof.
  intros Hv. unfold set_unless_none.
  destruct v; try (now contradiction Hv); simpl; apply dict_get_set_eq.
Qed.

Lemma set_unless_none_ne k k' v d :
  k' <> k -> dict_get k' (set_unless_none k v d) = dict_get k' d.
Proof.
  intros Hne. unfold set_unless_none.
  destruct (is_none v); [reflexivity|now apply dict_get_set_ne].
Qed.

Lemma overridden_gps_NoDup g0 pose :
  NoDup (map fst g0) -> NoDup (map fst (overridden_gps g0 pose)).
Proof. intros H. unfold overridden_gps. now repeat apply set_unless_none_NoDup. Qed.

(** ** Metadata fusion *)

Section Fusion.

Context {lib : PyLib} {world : World}.

(** The tree [extract_exif_metadata] returns has distinct keys, and its
    ["gps"] and ["camera"] entries, when present, are dicts. *)
Lemma extract_exif_metadata_shape img_path :
  let derived := snd (extract_exif_metadata img_path) in
  NoDup (map fst derived)
  /\ (dict_get "gps" derived = None
      \/ exists g0, dict_get "gps" derived = Some (VDict g0) /\ NoDup (map fst g0))
  /\ (dict_get "camera" derived = None
      \/ exists c, dict_get "camera" derived = Some (VDict c)).
Proof.
  unfold extract_exif_metadata. cbn [snd].
  split; [apply prune_dict_NoDup|].
  match goal with
  | |- context [prune_dict ?d] =>
      assert (Hnd : NoDup (map fst d))
        by (repeat constructor; simpl; intuition discriminate);
      set (tree := d) in *
  end.
  split.
  - rewrite (prune_dict_get "gps" _ tree Hnd eq_refl).
    rewrite prune_none_VDict.
    destruct (is_blank _); [now left|right].
    eexists. split; [reflexivity|apply prune_dict_NoDup].
  - rewrite (prune_dict_get "camera" _ tree Hnd eq_refl).
    rewrite prune_none_VDict.
    destruct (is_blank _); [now left|right]. eexists. reflexivity.
Qed.

Lemma apply_csv_overrides_spec derived pose :
  (dict_get "gps" derived = None \/ exists g0, dict_get "gps" derived = Some (VDict g0)) ->
  apply_csv_overrides derived (Some pose)
  = Some (dict_set "gps" (VDict (prune_dict (overridden_gps (gps_of derived) pose))) derived).
Proof.
  unfold apply_csv_overrides, gps_of, overridden_gps, set_unless_none.
  intros [E|[g0 E]]; rewrite E; unfold py_get; simpl;
    destruct (gps_latitude pose), (gps_longitude pose), (gps_altitude_m pose),
      (timestamp pose); reflexivity.
Qed.

Lemma build_record_spec pose_lookup entry :
  let embedded := extract_exif_metadata (path entry) in
  exists r,
    build_record pose_lookup entry = Some r
    /\ src r = path entry
    /\ mtime r = entry_mtime entry
    /\ csv_pose r = pose_for pose_lookup entry
    /\ acquisition_date r
       = choose_acquisition_date (fst embedded) (pose_for pose_lookup entry)
    /\ derived r
       = match pose_for pose_lookup entry with
         | Some pose =>
             dict_set "gps"
               (VDict (prune_dict (overridden_gps (gps_of (snd embedded)) pose)))
               (snd embedded)
         | None => snd embedded
         end.
Proof.
  cbv zeta. unfold build_record. fold (pose_for pose_lookup entry).
  assert (Hshape := extract_exif_metadata_shape (path entry)). cbv zeta in Hshape.
  destruct (extract_exif_metadata (path entry)) as [date tree]. cbn [snd fst] in *.
  destruct Hshape as [_ [Hgps _]].
  destruct (pose_for pose_lookup entry) as [pose|].
  - rewrite apply_csv_overrides_spec.
    + eexists. split; [reflexivity|]. repeat split.
    + destruct Hgps as [H|[g0 [H _]]]; eauto.
  - simpl. eexists. split; [reflexivity|]. repeat split.
Qed.

Lemma build_record_well_typed pose_lookup entry r :
  build_record pose_lookup entry = Some r -> well_typed r = true.
Proof.
  intros H. destruct (build_record_spec pose_lookup entry) as [r' [H' [_ [_ [_ [_ Hd]]]]]].
  rewrite H in H'. injection H' as <-.
  pose proof (extract_exif_metadata_shape (path entry)) as Hshape.
  cbv zeta in Hshape, Hd. destruct Hshape as [_ [Hgps Hcam]].
  unfold well_typed. rewrite Hd.
  destruct (pose_for pose_lookup entry) as [pose|].
  - rewrite dict_get_set_eq, dict_get_set_ne by discriminate.
    unfold dict in *.
    destruct Hcam as [E|[c E]]; rewrite E; reflexivity.
  - unfold dict in *.
    destruct Hgps as [E|[g0 [E _]]]; rewrite E;
      destruct Hcam as [E'|[c E']]; rewrite E'; reflexivity.
Qed.

(** [build_records] returns, and what it returns is well typed. *)
Lemma build_records_total image_entries pose_lookup :
  exists records,
    build_records image_entries pose_lookup = Some records
    /\ Forall (fun r => well_typed r = true) records
    /\ map src records = map path image_entries.
Proof.
  induction image_entries as [|entry rest IH]; simpl.
  - exists []. repeat split; constructor.
  - destruct (build_record_spec pose_lookup entry) as [r [Hr [Hsrc _]]].
    destruct IH as [records [-> [Hall Hsrcs]]].
    rewrite Hr. exists (r :: records). split; [reflexivity|]. split.
    + constructor; [|exact Hall]. eapply build_record_well_typed; eauto.
    + simpl. now rewrite Hsrc, Hsrcs.
Qed.

End Fusion.

Section Precedence.

Context {lib : PyLib} {world : World}.

Lemma overridden_gps_fields g0 pose :
  let g := overridden_gps g0 pose in
  (forall x, gps_latitude pose = Some x -> dict_get "latitude_deg" g = Some (VFloat x))
  /\ (forall x, gps_longitude pose = Some x -> dict_get "longitude_deg" g = Some (VFloat x))
  /\ (forall x, gps_altitude_m pose = Some x -> dict_get "altitude_m" g = Some (VFloat x))
  /\ (forall ts, timestamp pose = Some ts -> dict_get "timestamp_utc" g = Some (VStr ts)).
Proof.
  unfold overridden_gps. repeat split; intros x Hx; rewrite Hx; simpl.
  - rewrite !set_unless_none_ne by discriminate.
    now apply set_unless_none_eq.
  - rewrite !set_unless_none_ne by discriminate.
    now apply set_unless_none_eq.
  - rewrite !set_unless_none_ne by discriminate.
    now apply set_unless_none_eq.
  - now apply set_unless_none_eq.
Qed.

(** A float or a string stored under [k] survives pruning. *)
Lemma prune_dict_keeps_scalar k v d :
  NoDup (map fst d) -> dict_get k d = Some v ->
  ((exists x, v = VFloat x) \/ (exists s, v = VStr s)) ->
  dict_get k (prune_dict d) = Some v.
Proof.
  intros Hnd Hget Hv. rewrite (prune_dict_get k v d Hnd Hget).
  destruct Hv as [[x ->]|[s ->]]; reflexivity.
Qed.

Lemma py_get_Some d k v : dict_get k d = Some v -> py_get d k = v.
Proof. unfold py_get. now intros ->. Qed.

(** What the annotation payload carries under ["gps"]: the record's GPS
    sub-dict, pruned. *)
Lemma build_annotation_payload_gps info acquisition_id sequence_id sensor_id frame_index g :
  dict_get "gps" (derived info) = Some (VDict g) ->
  exists payload,
    build_annotation_payload info acquisition_id sequence_id sensor_id frame_index
    = Some (VDict payload)
    /\ dict_get "gps" payload
       = if is_blank (VDict (prune_dict g)) then None else Some (VDict (prune_dict g)).
Proof.
  intros Hgps. unfold build_annotation_payload.
  rewrite (py_get_Some _ _ _ Hgps).
  assert (Hts : exists ts, (if truthy (VDict g) then attr_get (VDict g) "timestamp_utc"
                            else Some VNone) = Some ts)
    by (destruct (truthy (VDict g)); simpl; eauto).
  destruct Hts as [ts ->].
  rewrite prune_none_VDict. eexists. split; [reflexivity|].
  match goal with
  | |- dict_get _ (prune_dict ?items) = _ =>
      rewrite (prune_dict_get "gps" (VDict g) items);
        [reflexivity|repeat constructor; simpl; intuition discriminate|reflexivity]
  end.
Qed.

Lemma build_pose_entry_gps info frame_index image_name g :
  dict_get "gps" (derived info) = Some (VDict g) ->
  exists row,
    build_pose_entry info frame_index image_name = Some row
    /\ py_get row "gps_latitude" = py_get g "latitude_deg"
    /\ py_get row "gps_longitude" = py_get g "longitude_deg"
    /\ py_get row "gps_altitude_m" = py_get g "altitude_m".
Proof.
  intros Hgps. unfold build_pose_entry. rewrite Hgps. simpl.
  destruct (truthy (py_get (pose_or_empty (csv_pose info)) "timestamp"));
    eexists; (split; [reflexivity|]); repeat split.
Qed.

(** C1. When a pose row is attached to an image, each of its latitude,
    longitude and altitude that is not [None] is the value of the merged GPS
    sub-tree, of the ["gps"] block of the annotation payload and of the
    trajectory row, whatever the embedded metadata holds; and a pose
    timestamp is the merged GPS timestamp. *)
Theorem pose_overrides_embedded_gps pose_lookup entry pose :
  pose_for pose_lookup entry = Some pose ->
  exists r g,
    build_record pose_lookup entry = Some r
    /\ csv_pose r = Some pose
    /\ dict_get "gps" (derived r) = Some (VDict g)
    /\ (forall x, gps_latitude pose = Some x -> py_get g "latitude_deg" = VFloat x)
    /\ (forall x, gps_longitude pose = Some x -> py_get g "longitude_deg" = VFloat x)
    /\ (forall x, gps_altitude_m pose = Some x -> py_get g "altitude_m" = VFloat x)
    /\ (forall ts, timestamp pose = Some ts -> py_get g "timestamp_utc" = VStr ts)
    /\ forall acquisition_id sequence_id sensor_id frame_index image_name,
         exists payload row,
           build_annotation_payload r acquisition_id sequence_id sensor_id frame_index
           = Some (VDict payload)
           /\ build_pose_entry r frame_index image_name = Some row
           /\ (forall x, gps_latitude pose = Some x ->
                 py_get (gps_of payload) "latitude_deg" = VFloat x
                 /\ py_get row "gps_latitude" = VFloat x)
           /\ (forall x, gps_longitude pose = Some x ->
                 py_get (gps_of payload) "longitude_deg" = VFloat x
                 /\ py_get row "gps_longitude" = VFloat x)
           /\ (forall x, gps_altitude_m pose = Some x ->
                 py_get (gps_of payload) "altitude_m" = VFloat x
                 /\ py_get row "gps_altitude_m" = VFloat x)
           /\ (forall ts, timestamp pose = Some ts ->
                 py_get (gps_of payload) "timestamp_utc" = VStr ts).
Proof.
  intros Hpose.
  destruct (build_record_spec pose_lookup entry) as [r [Hr [_ [_ [Hcsv [_ Hd]]]]]].
  cbv zeta in Hd. rewrite Hpose in Hcsv, Hd.
  set (tree := snd (extract_exif_metadata (path entry))) in *.
  set (merged := overridden_gps (gps_of tree) pose) in *.
  assert (Hnd0 : NoDup (map fst (gps_of tree))).
  { pose proof (extract_exif_metadata_shape (path entry)) as Hshape.
    cbv zeta in Hshape. fold tree in Hshape. destruct Hshape as [_ [Hgps _]].
    unfold gps_of, dict in *.
    destruct Hgps as [E|[g0 [E Hnd]]]; rewrite E; [constructor|exact Hnd]. }
  assert (Hnd : NoDup (map fst merged)) by now apply overridden_gps_NoDup.
  destruct (overridden_gps_fields (gps_of tree) pose) as [Hlat [Hlon [Halt Hts]]].
  fold merged in Hlat, Hlon, Halt, Hts.
  set (g := prune_dict merged) in *.
  assert (Hg : dict_get "gps" (derived r) = Some (VDict g))
    by (rewrite Hd; apply dict_get_set_eq).
  assert (Hkeep : forall k v,
            dict_get k merged = Some v ->
            ((exists x, v = VFloat x) \/ (exists s, v = VStr s)) ->
            py_get g k = v /\ py_get (prune_dict g) k = v /\ is_blank (VDict (prune_dict g)) = false).
  { intros k v Hget Hv.
    pose proof (prune_dict_keeps_scalar k v merged Hnd Hget Hv) as H1.
    pose proof (prune_dict_keeps_scalar k v g (prune_dict_NoDup merged) H1 Hv) as H2.
    split; [now apply py_get_Some|]. split; [now apply py_get_Some|].
    destruct (prune_dict g); [discriminate|reflexivity]. }
  exists r, g. split; [exact Hr|]. split; [exact Hcsv|]. split; [exact Hg|].
  split; [intros x Hx; apply (Hkeep _ _ (Hlat x Hx)); eauto|].
  split; [intros x Hx; apply (Hkeep _ _ (Hlon x Hx)); eauto|].
  split; [intros x Hx; apply (Hkeep _ _ (Halt x Hx)); eauto|].
  split; [intros ts Hx; apply (Hkeep _ _ (Hts ts Hx)); eauto|].
  intros acquisition_id sequence_id sensor_id frame_index image_name.
  destruct (build_annotation_payload_gps r acquisition_id sequence_id sensor_id
              frame_index g Hg) as [payload [Hpay Hpgps]].
  destruct (build_pose_entry_gps r frame_index image_name g Hg)
    as [row [Hrow [Rlat [Rlon Ralt]]]].
  exists payload, row. split; [exact Hpay|]. split; [exact Hrow|].
  assert (Hpayload : forall k v,
            dict_get k merged = Some v ->
            ((exists x, v = VFloat x) \/ (exists s, v = VStr s)) ->
            py_get (gps_of payload) k = v /\ py_get g k = v).
  { intros k v Hget Hv. destruct (Hkeep k v Hget Hv) as [H1 [H2 H3]].
    split; [|exact H1]. unfold gps_of. rewrite Hpgps, H3. exact H2. }
  split; [intros x Hx; destruct (Hpayload _ _ (Hlat x Hx)) as [H1 H2]; eauto;
          split; [exact H1|now rewrite Rlat]|].
  split; [intros x Hx; destruct (Hpayload _ _ (Hlon x Hx)) as [H1 H2]; eauto;
          split; [exact H1|now rewrite Rlon]|].
  split; [intros x Hx; destruct (Hpayload _ _ (Halt x Hx)) as [H1 H2]; eauto;
          split; [exact H1|now rewrite Ralt]|].
  intros ts Hx. destruct (Hpayload _ _ (Hts ts Hx)) as [H1 _]; eauto.
Qed.

End Precedence.

Lemma pose_overrides_embedded_gps_witness :
  exists r g,
    build_record (lib := example_lib) (world := embedded_gps_world) [("a", pose_a)] image_a
    = Some r
    /\ gps_lat (read_exif (World := embedded_gps_world) "/in/a.jpg") = Some 10%Q
    /\ dict_get "gps" (derived r) = Some (VDict g)
    /\ py_get g "latitude_deg" = VFloat 46%Q.
Proof.
  destruct (pose_overrides_embedded_gps (lib := example_lib) (world := embedded_gps_world)
              [("a", pose_a)] image_a pose_a eq_refl)
    as [r [g [Hr [_ [Hg [Hlat _]]]]]].
  exists r, g. split; [exact Hr|]. split; [reflexivity|]. split; [exact Hg|].
  apply Hlat. reflexivity.
Defined.

(** ** The acquisition date *)

(** C5. The date of a fused record is computed from the image's own
    metadata and its pose row alone: [build_records] never sees the folder
    date that [build_plans] stores in the plan. For a folder named
    [20240101_siteA] holding an image taken on 5 May 2023, the plan carries
    the date [20240101] and the image is filed under [20230505]. *)
Theorem acquisition_date_ignores_folder_date :
  (forall (lib : PyLib) (world : World) pose_lookup entry,
     exists r,
       build_record pose_lookup entry = Some r
       /\ acquisition_date r
          = choose_acquisition_date (fst (extract_exif_metadata (path entry)))
              (pose_for pose_lookup entry))
  /\ map plan_acquisition_date
       (build_plans (lib := example_lib) (world := dated_folder_world) [dated_folder])
     = [Some "20240101"%string]
  /\ exists log,
       run_multi_acquisition (lib := example_lib) (world := dated_folder_world)
         (build_plans (lib := example_lib) (world := dated_folder_world) [dated_folder])
         "gps" 2000 "/out"
       = (log, Exit 0)
       /\ In (CopyFile "/in/20240101_siteA/a.jpg"
                "/out/20230505-Nyon/01_images/S001/20230505-Nyon_S001_Cam_000001.jpg")
             log.
Proof.
  split; [|split].
  - intros lib world pose_lookup entry.
    destruct (build_record_spec pose_lookup entry) as [r [Hr [_ [_ [_ [Hdate _]]]]]].
    exists r. split; [exact Hr|exact Hdate].
  - reflexivity.
  - eexists. split; [vm_compute; reflexivity|].
    in_log.
Qed.

(** ** A pose CSV that fails to load *)

Section PoseFailure.

Context {lib : PyLib} {world : World}.

Lemma load_pose_lookup_failure p epoch exc soft_fail label :
  truthy (VStr p) = true ->
  load_pose_csv (abspath p) epoch = inl exc ->
  is_os_or_value_error exc = true ->
  load_pose_lookup (Some p) epoch soft_fail label
  = if soft_fail
    then ([PrintErr
             (if truthy (ostr label)
              then ("Failed to read pose CSV "
                    ++ match label with Some l => l | None => "" end
                    ++ ": " ++ exn_msg exc)%string
              else ("Failed to read pose CSV: " ++ exn_msg exc)%string)],
          inr [])
    else ([], inl exc).
Proof.
  intros Hp Hload Hexc. unfold load_pose_lookup.
  rewrite Hp, Hload, Hexc. reflexivity.
Qed.

(** C8, as amended. Let the pose CSV at [p] fail to load with an [OSError]
    or a [ValueError]. In batch mode, where every folder's pose file is
    auto-located, the failure is printed on stderr and the folder is
    processed with an empty pose lookup. In single-acquisition mode the
    failure is fatal, whether [p] was given on the command line or found by
    the search that [--pose-csv auto] asks for: the run prints the error and
    returns 1, and nothing else is printed or written. *)
Theorem pose_failure_handling p epoch exc :
  truthy (VStr p) = true ->
  load_pose_csv (abspath p) epoch = inl exc ->
  is_os_or_value_error exc = true ->
  (forall plan region sensor_id max_per_seq output_dir,
     pose_csv_path plan = Some p ->
     plan_step plan region sensor_id epoch max_per_seq output_dir
     = ([Print (nl ++ "Processing " ++ name plan ++ "...")%string;
         Print (sensor_line sensor_id);
         Print "Loading images and building records...";
         PrintErr ("Failed to read pose CSV " ++ p ++ ": " ++ exn_msg exc)%string]
        ++ fst (process_plan plan region sensor_id max_per_seq output_dir []),
        snd (process_plan plan region sensor_id max_per_seq output_dir [])))
  /\ (forall input_dir output_dir args region,
        resolve_region (arg_region args) = inr region ->
        arg_pose_epoch args = epoch ->
        (if is_auto_value (arg_pose_csv args) then find_pose_csv_path input_dir
         else arg_pose_csv args) = Some p ->
        run_single_acquisition input_dir output_dir args
        = ([PrintErr ("Failed to read pose CSV: " ++ exn_msg exc)%string], Exit 1)).
Proof.
  intros Hp Hload Hexc. split.
  - intros plan region sensor_id max_per_seq output_dir Hplan.
    unfold plan_step. rewrite Hplan.
    rewrite (load_pose_lookup_failure p epoch exc true (Some p) Hp Hload Hexc).
    simpl ostr. rewrite Hp.
    destruct (process_plan plan region sensor_id max_per_seq output_dir [])
      as [events result].
    reflexivity.
  - intros input_dir output_dir args region Hregion Hepoch Hpath.
    unfold run_single_acquisition. rewrite Hregion, Hpath, Hepoch.
    rewrite (load_pose_lookup_failure p epoch exc false None Hp Hload Hexc).
    rewrite Hexc. reflexivity.
Qed.

End PoseFailure.

Lemma pose_failure_handling_witness :
  plan_step (lib := example_lib) (world := broken_pose_world) broken_pose_plan
    "Nyon" "Cam" "gps" 2000 "/out"
  = ([Print (nl ++ "Processing in...")%string;
      Print (sensor_line "Cam");
      Print "Loading images and building records...";
      PrintErr "Failed to read pose CSV /in/poses.csv: cannot convert float NaN to integer"]
     ++ fst (process_plan (lib := example_lib) (world := broken_pose_world)
               broken_pose_plan "Nyon" "Cam" 2000 "/out" []),
     inr (1, 0, 1)).
Proof.
  destruct (pose_failure_handling (lib := example_lib) (world := broken_pose_world)
              "/in/poses.csv" "gps" (ValueError "cannot convert float NaN to integer")
              eq_refl eq_refl eq_refl) as [Hbatch _].
  rewrite (Hbatch broken_pose_plan "Nyon" "Cam" 2000 "/out" eq_refl).
  reflexivity.
Defined.

(** With [--pose-csv auto] in single-acquisition mode, a pose CSV that the
    search finds and that then fails to load stops the run with status 1;
    had it loaded without rows, the image would have been copied. *)
Lemma auto_located_pose_failure_is_fatal :
  is_auto_value (lib := example_lib) (arg_pose_csv auto_pose_args) = true
  /\ find_pose_csv_path (World := broken_pose_world) "/in" = Some "/in/poses.csv"%string
  /\ run_single_acquisition (lib := example_lib) (world := broken_pose_world)
       "/in" "/out" auto_pose_args
     = ([PrintErr "Failed to read pose CSV: cannot convert float NaN to integer"], Exit 1)
  /\ exists log,
       run_single_acquisition (lib := example_lib) (world := empty_pose_world)
         "/in" "/out" auto_pose_args
       = (log, Exit 0)
       /\ In (CopyFile "/in/a.jpg"
                "/out/19700101-Nyon/01_images/S001/19700101-Nyon_S001_Cam_000001.jpg")
             log.
Proof.
  split; [reflexivity|]. split; [reflexivity|]. split; [vm_compute; reflexivity|].
  eexists. split; [vm_compute; reflexivity|].
  in_log.
Qed.

(** ** Naming keys *)

Lemma div_mod_position p q m :
  0 < m -> (p - 1) / m = (q - 1) / m -> (p - 1) mod m = (q - 1) mod m -> p = q.
Proof.
  intros Hm Hd Hr.
  pose proof (Z.div_mod (p - 1) m ltac:(lia)) as Hp.
  pose proof (Z.div_mod (q - 1) m ltac:(lia)) as Hq.
  rewrite Hd, Hr in Hp. lia.
Qed.

Lemma all_digits_list s : all_digits s = forallb is_digit (list_ascii_of_string s).
Proof. induction s as [|c s IH]; simpl; [reflexivity|now rewrite IH]. Qed.

Lemma forallb_rev {A : Type} (f : A -> bool) (l : list A) :
  forallb f (rev l) = forallb f l.
Proof.
  induction l as [|x l IH]; simpl; [reflexivity|].
  rewrite forallb_app, IH. simpl. rewrite andb_true_r. apply andb_comm.
Qed.

Lemma list_digits_split (a b c d : list ascii) (x y : ascii) :
  forallb is_digit a = true -> forallb is_digit b = true ->
  is_digit x = false -> is_digit y = false ->
  a ++ x :: c = b ++ y :: d -> a = b /\ c = d.
Proof.
  revert b. induction a as [|p a IH]; intros [|q b]; simpl; intros Ha Hb Hx Hy H.
  - injection H as _ H. now split.
  - injection H as -> _. apply andb_prop in Hb. destruct Hb as [Hq _]. congruence.
  - injection H as -> _. apply andb_prop in Ha. destruct Ha as [Hp _]. congruence.
  - injection H as -> H.
    apply andb_prop in Ha. destruct Ha as [_ Ha].
    apply andb_prop in Hb. destruct Hb as [_ Hb].
    destruct (IH b Ha Hb Hx Hy H) as [-> ->]. now split.
Qed.

(** A trailing run of digits starts after the last character that is not
    a digit. *)
Lemma digits_split_right (a b c d : string) (x y : ascii) :
  all_digits a = true -> all_digits b = true ->
  is_digit x = false -> is_digit y = false ->
  (c ++ String x a = d ++ String y b)%string -> c = d /\ a = b.
Proof.
  rewrite !all_digits_list. intros Ha Hb Hx Hy H.
  apply (f_equal list_ascii_of_string) in H.
  rewrite !list_of_string_app in H. simpl in H.
  apply (f_equal (@rev ascii)) in H.
  rewrite !rev_app_distr in H. simpl in H. rewrite <- !app_assoc in H. simpl in H.
  apply list_digits_split in H; try assumption; try (now rewrite forallb_rev).
  destruct H as [H1 H2].
  apply (f_equal (@rev ascii)) in H1, H2. rewrite !rev_involutive in H1, H2.
  split; now apply list_of_string_inj.
Qed.

(** A naming key determines its acquisition, its sequence and its frame. *)
Lemma naming_key_parts k1 k2 sensor_id m p q :
  0 < m -> 1 <= p -> 1 <= q ->
  naming_key_at k1 sensor_id m p = naming_key_at k2 sensor_id m q ->
  k1 = k2 /\ p = q.
Proof.
  intros Hm Hp Hq H. unfold naming_key_at, new_base, sequence_id_at, sequence_id_of in H.
  pose proof (Z.div_pos (p - 1) m ltac:(lia) Hm) as Hdp.
  pose proof (Z.div_pos (q - 1) m ltac:(lia) Hm) as Hdq.
  pose proof (frame_index_bounds p m Hm) as Hfp.
  pose proof (frame_index_bounds q m Hm) as Hfq.
  unfold frame_index_at in *.
  set (A1 := format_0d 3 ((p - 1) / m + 1)) in *.
  set (A2 := format_0d 3 ((q - 1) / m + 1)) in *.
  set (B1 := format_0d 6 ((p - 1) mod m + 1)) in *.
  set (B2 := format_0d 6 ((q - 1) mod m + 1)) in *.
  assert (H' : ((k1 ++ "_S" ++ A1 ++ "_" ++ sensor_id) ++ String "_" B1
                = (k2 ++ "_S" ++ A2 ++ "_" ++ sensor_id) ++ String "_" B2)%string).
  { repeat first [rewrite string_app_assoc | progress simpl].
    simpl in H. exact H. }
  apply digits_split_right in H';
    [|subst B1; apply all_digits_format_0d; lia|subst B2; apply all_digits_format_0d; lia
     |reflexivity|reflexivity].
  destruct H' as [Hhead Hframe].
  apply format_0d_inj in Hframe; [|lia|lia].
  assert (H'' : ((k1 ++ "_") ++ String "S" A1 = (k2 ++ "_") ++ String "S" A2)%string).
  { apply (string_app_inv_tail _ _ ("_" ++ sensor_id)).
    repeat first [rewrite string_app_assoc | progress simpl].
    repeat first [rewrite string_app_assoc in Hhead | progress simpl in Hhead].
    exact Hhead. }
  apply digits_split_right in H'';
    [|subst A1; apply all_digits_format_0d; lia|subst A2; apply all_digits_format_0d; lia
     |reflexivity|reflexivity].
  destruct H'' as [Hacq Hseq].
  apply format_0d_inj in Hseq; [|lia|lia].
  split; [now apply string_app_inv_tail in Hacq|].
  apply (div_mod_position p q m Hm); lia.
Qed.

Lemma NoDup_map_inj_in {A B : Type} (f : A -> B) (l : list A) :
  (forall x y, In x l -> In y l -> f x = f y -> x = y) ->
  NoDup l -> NoDup (map f l).
Proof.
  intros Hinj Hnd. induction Hnd as [|x l Hx Hnd IH]; simpl; constructor.
  - intros Hin. apply in_map_iff in Hin. destruct Hin as [y [Hy Hin]].
    assert (y = x) by (apply Hinj; simpl; auto). subst. contradiction.
  - apply IH. intros a b Ha Hb. apply Hinj; simpl; auto.
Qed.

Lemma positions_NoDup n : NoDup (positions n).
Proof.
  unfold positions. apply NoDup_map_inj_in; [|apply seq_NoDup].
  intros x y _ _ H. lia.
Qed.

Lemma frame_names_keys acquisition_id sensor_id m records :
  map snd (frame_names acquisition_id sensor_id m records)
  = map (naming_key_at acquisition_id sensor_id m) (positions (List.length records)).
Proof.
  unfold frame_names. rewrite map_map. cbn [snd].
  rewrite <- (Permutation_length (sort_records_perm records)).
  rewrite <- enumerate_positions, map_map. reflexivity.
Qed.

Lemma frame_names_records acquisition_id sensor_id m records :
  map (fun f => fst (fst f)) (frame_names acquisition_id sensor_id m records)
  = sort_records records.
Proof.
  unfold frame_names. rewrite map_map. cbn [fst].
  apply enumerate_snd.
Qed.

Lemma frame_names_NoDup acquisition_id sensor_id m records :
  0 < m -> NoDup (map snd (frame_names acquisition_id sensor_id m records)).
Proof.
  intros Hm. rewrite frame_names_keys.
  apply NoDup_map_inj_in; [|apply positions_NoDup].
  intros p q Hp Hq Heq. apply In_positions in Hp, Hq.
  apply (naming_key_parts acquisition_id acquisition_id sensor_id m p q); auto; lia.
Qed.

Section Copies.

Context {lib : PyLib} {world : World}.

Variables (acquisition_id sensor_id : string) (max_per_seq : Z).

Lemma notices_no_copy pre : forallb is_notice pre = true -> filter is_copy pre = [].
Proof.
  induction pre as [|e pre IH]; simpl; [reflexivity|].
  intros H. apply andb_prop in H. destruct H as [He Hpre].
  destruct e; try discriminate; simpl; now apply IH.
Qed.

Lemma emitted_no_copy poses_root marks poses :
  filter is_copy
    (flat_map (emit_sequence acquisition_id sensor_id poses_root marks) poses) = [].
Proof.
  induction poses as [|[s rows] poses IH]; simpl; [reflexivity|].
  rewrite filter_app, IH, app_nil_r.
  destruct (set_mem s marks); simpl; [|reflexivity].
  now destruct (truthy _).
Qed.

Lemma render_frame_copies images_root annotations_root st item st' :
  dirs_ok images_root annotations_root st ->
  render_frame acquisition_id sensor_id max_per_seq images_root annotations_root st item
  = Some st' ->
  dirs_ok images_root annotations_root st'
  /\ filter is_copy (written st')
     = filter is_copy (written st)
       ++ [frame_copy images_root
             (snd item, sequence_id_at max_per_seq (fst item),
              naming_key_at acquisition_id sensor_id max_per_seq (fst item))].
Proof.
  destruct item as [idx info]. intros Hdirs H.
  apply render_frame_inv in H.
  destruct H as [_ [img [ann [pre [payload [row
                   [_ [_ [_ [_ [_ [Hlog [Hpre Hcase]]]]]]]]]]]]].
  cbv zeta in *. cbn [fst snd].
  assert (Himg : img = path_join images_root (sequence_id_at max_per_seq idx)).
  { destruct Hcase as [[Hget _]|[_ [Himg _]]]; [|exact Himg].
    now destruct (Hdirs _ _ _ Hget). }
  split.
  - destruct Hcase as [[_ Hsame]|[Hnone [Hi [Ha Hset]]]].
    + unfold dirs_ok. rewrite Hsame. exact Hdirs.
    + unfold dirs_ok. rewrite Hset. intros s img' ann' Hget.
      destruct (String.eqb_spec s (sequence_id_at max_per_seq idx)) as [->|Hne].
      * rewrite dict_get_set_eq in Hget. injection Hget as <- <-. now split.
      * rewrite dict_get_set_ne in Hget by exact Hne. now apply Hdirs.
  - rewrite Hlog, !filter_app, (notices_no_copy pre Hpre), Himg. reflexivity.
Qed.

Lemma render_frames_copies images_root annotations_root items : forall st st',
  dirs_ok images_root annotations_root st ->
  render_frames acquisition_id sensor_id max_per_seq images_root annotations_root st items
  = Some st' ->
  filter is_copy (written st')
  = filter is_copy (written st)
    ++ map (fun item =>
              frame_copy images_root
                (snd item, sequence_id_at max_per_seq (fst item),
                 naming_key_at acquisition_id sensor_id max_per_seq (fst item)))
         items.
Proof.
  induction items as [|item items IH]; intros st st' Hdirs H.
  - injection H as <-. simpl. now rewrite app_nil_r.
  - cbn [render_frames] in H.
    destruct (render_frame acquisition_id sensor_id max_per_seq images_root
                annotations_root st item) as [st1|] eqn:E; [|discriminate].
    destruct (render_frame_copies _ _ _ _ _ Hdirs E) as [Hdirs1 Hcopy].
    rewrite (IH st1 st' Hdirs1 H), Hcopy, <- app_assoc. reflexivity.
Qed.

(** The image copies [process_acquisition] makes are those of its frames. *)
Lemma process_acquisition_copies records output_dir log count :
  process_acquisition acquisition_id records sensor_id max_per_seq output_dir
  = Some (log, count) ->
  filter is_copy log
  = map (frame_copy (path_join (path_join output_dir acquisition_id) "01_images"))
      (frame_names acquisition_id sensor_id max_per_seq records).
Proof.
  intros H.
  destruct (render_acquisition acquisition_id records sensor_id max_per_seq output_dir)
    as [st|] eqn:Hst; [|unfold process_acquisition in H; rewrite Hst in H; discriminate].
  destruct (process_acquisition_log _ _ _ _ _ _ Hst) as [notices [Hnot Hproc]].
  rewrite Hproc in H. injection H as <- _.
  rewrite !filter_app, (notices_no_copy notices Hnot), emitted_no_copy, !app_nil_r.
  unfold render_acquisition in Hst.
  destruct (build_coordinate_systems (sort_records records)) as [cs|]; [|discriminate].
  destruct (build_intrinsics (sort_records records) sensor_id) as [intr|]; [|discriminate].
  match type of Hst with
  | render_frames _ _ _ ?ir ?ar ?st0 _ = _ =>
      assert (Hdirs : dirs_ok ir ar st0)
        by (intros s img ann Hget; simpl in Hget; discriminate)
  end.
  rewrite (render_frames_copies _ _ _ _ _ Hdirs Hst).
  cbn [written]. unfold frame_names. rewrite map_map.
  replace (filter is_copy _) with (@nil event); [reflexivity|].
  simpl. rewrite filter_app.
  destruct (truthy cs), (truthy intr); reflexivity.
Qed.

End Copies.

Section NamingKeys.

Context {lib : PyLib} {world : World}.

Lemma NoDup_flat_map_keys {G X K : Type} (F : string * G -> list X) (key : X -> K)
    (groups : list (string * G)) :
  (forall g, In g groups -> NoDup (map key (F g))) ->
  (forall g1 g2 x1 x2, In g1 groups -> In g2 groups -> In x1 (F g1) -> In x2 (F g2) ->
     key x1 = key x2 -> fst g1 = fst g2) ->
  NoDup (map fst groups) ->
  NoDup (map key (flat_map F groups)).
Proof.
  induction groups as [|g groups IH]; intros Hin Hcross Hnd; simpl; [constructor|].
  inversion Hnd as [|? ? Hnotin Hnd']; subst.
  rewrite map_app. apply NoDup_app.
  - apply Hin. now left.
  - apply IH; auto.
    + intros g' Hg'. apply Hin. now right.
    + intros g1 g2 x1 x2 H1 H2. apply Hcross; now right.
  - intros a Ha Ha'.
    apply in_map_iff in Ha. destruct Ha as [x1 [<- Hx1]].
    apply in_map_iff in Ha'. destruct Ha' as [x2 [Heq Hx2]].
    apply in_flat_map in Hx2. destruct Hx2 as [g2 [Hg2 Hx2]].
    apply Hnotin.
    rewrite (Hcross g g2 x1 x2 (or_introl eq_refl) (or_intror Hg2) Hx1 Hx2 (eq_sym Heq)).
    now apply in_map.
Qed.

Lemma frame_names_key_form acquisition_id sensor_id m records f :
  In f (frame_names acquisition_id sensor_id m records) ->
  exists p, 1 <= p /\ snd f = naming_key_at acquisition_id sensor_id m p.
Proof.
  unfold frame_names. intros Hin. apply in_map_iff in Hin.
  destruct Hin as [item [<- Hitem]]. exists (fst item). split; [|reflexivity].
  apply (in_map fst) in Hitem. rewrite enumerate_positions in Hitem.
  apply In_positions in Hitem. lia.
Qed.

Lemma call_frames_records records region sensor_id m :
  Permutation (map (fun f => fst (fst f)) (call_frames records region sensor_id m)) records.
Proof.
  unfold call_frames.
  destruct (group_records_spec region records) as [_ [_ [_ Hperm]]].
  eapply Permutation_trans; [|exact Hperm]. clear Hperm.
  induction (group_records records region) as [|[k items] grouped IH]; simpl;
    [reflexivity|].
  rewrite map_app, frame_names_records, IH.
  apply Permutation_app_tail. apply sort_records_perm.
Qed.

(** C9, as amended. Within one call of [process_records_by_acquisition] (a
    single-acquisition run, or one folder of a batch run), with
    [max_per_seq > 0], every frame gets a naming key of its own: the keys
    of all frames of all acquisition groups are pairwise distinct, the
    frames are the input records, each once, and the image copies each
    [process_acquisition] makes are exactly those of its frames, named by
    their keys. *)
Theorem naming_keys_unique_per_call records region sensor_id max_per_seq output_dir :
  0 < max_per_seq ->
  Forall (fun r => well_typed r = true) records ->
  let frames := call_frames records region sensor_id max_per_seq in
  NoDup (map snd frames)
  /\ (forall f1 f2, In f1 frames -> In f2 frames -> snd f1 = snd f2 -> f1 = f2)
  /\ Permutation (map (fun f => fst (fst f)) frames) records
  /\ forall acquisition_id items,
       In (acquisition_id, items) (group_records records region) ->
       exists log count,
         process_acquisition acquisition_id items sensor_id max_per_seq output_dir
         = Some (log, count)
         /\ filter is_copy log
            = map (frame_copy (path_join (path_join output_dir acquisition_id) "01_images"))
                (frame_names acquisition_id sensor_id max_per_seq items).
Proof.
  intros Hm Hwt frames.
  assert (Hnd : NoDup (map snd frames)).
  { unfold frames, call_frames.
    destruct (group_records_spec region records) as [_ [Hkeys _]].
    apply NoDup_flat_map_keys; [| |exact Hkeys].
    - intros g _. now apply frame_names_NoDup.
    - intros [k1 items1] [k2 items2] f1 f2 Hg1 Hg2 Hf1 Hf2 Heq. cbn [fst snd] in *.
      destruct (frame_names_key_form _ _ _ _ _ Hf1) as [p [Hp1 Hp]].
      destruct (frame_names_key_form _ _ _ _ _ Hf2) as [q [Hq1 Hq]].
      rewrite Hp, Hq in Heq.
      now destruct (naming_key_parts _ _ _ _ _ _ Hm Hp1 Hq1 Heq). }
  split; [exact Hnd|].
  split; [intros f1 f2 H1 H2; now apply (NoDup_map_In_inj snd frames)|].
  split; [apply call_frames_records|].
  intros acquisition_id items Hin.
  destruct (group_records_items region records _ _ Hin) as [Hitems _].
  assert (Hwt' : Forall (fun r => well_typed r = true) items).
  { rewrite Forall_forall in *. intros r Hr. apply Hwt.
    rewrite Hitems in Hr. unfold records_of in Hr. now apply filter_In in Hr. }
  destruct (render_acquisition_total acquisition_id items sensor_id max_per_seq
              output_dir ltac:(lia) Hwt') as [st Hst].
  destruct (process_acquisition_log _ _ _ _ _ _ Hst) as [notices [_ Hproc]].
  eexists. eexists. split; [exact Hproc|].
  now apply (process_acquisition_copies _ _ _ _ _ _ _ Hproc).
Qed.

End NamingKeys.

Lemma naming_keys_unique_per_call_witness :
  map snd (call_frames three_records "Nyon" "Cam" 2)
  = ["20240101-Nyon_S001_Cam_000001"; "20240101-Nyon_S001_Cam_000002";
     "20240101-Nyon_S002_Cam_000001"]%string
  /\ NoDup (map snd (call_frames three_records "Nyon" "Cam" 2)).
Proof.
  destruct (naming_keys_unique_per_call (lib := example_lib) three_records "Nyon" "Cam" 2
              "/out" ltac:(lia) ltac:(repeat constructor))
    as [Hnd _].
  split; [reflexivity|exact Hnd].
Defined.

(** In a batch run over two folders of the same day for which the operator
    types the same region and sensor, the two images get the same naming
    key, and the second copy lands on the first. *)
Lemma batch_run_repeats_naming_key :
  exists log,
    run_multi_acquisition (lib := example_lib) (world := two_folder_world)
      two_folder_plans "gps" 2000 "/out"
    = (log, Exit 0)
    /\ In (CopyFile "/in/a/x.jpg"
             (path_join "/out/20230505-Nyon/01_images/S001"
                (new_base "20230505-Nyon" "S001" "Cam" "000001" ++ ".jpg")))
          log
    /\ In (CopyFile "/in/b/y.jpg"
             (path_join "/out/20230505-Nyon/01_images/S001"
                (new_base "20230505-Nyon" "S001" "Cam" "000001" ++ ".jpg")))
          log.
Proof.
  eexists. split; [vm_compute; reflexivity|].
  split.
  - in_log.
  - in_log.
Qed.

(** Nor do different acquisition identifiers keep the keys of two folders
    apart: the region [A] with the sensor [B_S001_C] and the region
    [A_S001_B] with the sensor [C] give the first image of the same day
    the same name. *)
Lemma naming_key_shared_across_acquisition_ids :
  acquisition_id_of "A" {| src := "/in/a/x.jpg"; ext := ".jpg"; original_name := "x.jpg";
                           acquisition_date := "20230505"; derived := []; mtime := 1%Q;
                           csv_pose := None |}
  <> acquisition_id_of "A_S001_B"
       {| src := "/in/b/y.jpg"; ext := ".jpg"; original_name := "y.jpg";
          acquisition_date := "20230505"; derived := []; mtime := 1%Q; csv_pose := None |}
  /\ new_base "20230505-A" "S001" "B_S001_C" "000001"
     = new_base "20230505-A_S001_B" "S001" "C" "000001".
Proof. split; [discriminate|reflexivity]. Qed.

(** * Further properties *)

(** ** What pruning keeps *)

Lemma prune_list_fold_kept items : forall out,
  fold_left prune_list_step items out = out ++ flat_map kept_item items.
Proof.
  induction items as [|x items IH]; intros out; simpl.
  - now rewrite app_nil_r.
  - rewrite IH. unfold prune_list_step, kept_item.
    destruct (is_blank (prune_none x)); simpl; [reflexivity|].
    now rewrite <- app_assoc.
Qed.

Lemma kept_entry_keys kv k : In k (map fst (kept_entry kv)) -> k = fst kv.
Proof.
  unfold kept_entry. destruct (is_blank _); simpl; [intros []|].
  intros [H|[]]. now symmetry.
Qed.

Lemma prune_dict_fold_kept items : forall out,
  NoDup (map fst items) ->
  (forall k, In k (map fst out) -> ~ In k (map fst items)) ->
  fold_left prune_dict_step items out = out ++ flat_map kept_entry items.
Proof.
  induction items as [|[k v] items IH]; intros out Hnd Hout; simpl.
  - now rewrite app_nil_r.
  - inversion Hnd as [|? ? Hnotin Hnd']; subst.
    unfold prune_dict_step at 2, kept_entry at 1. simpl.
    destruct (is_blank (prune_none v)).
    + apply IH; [exact Hnd'|]. intros k' Hk' Hin. apply (Hout k' Hk'). now right.
    + rewrite dict_set_fresh.
      * rewrite IH; [now rewrite <- app_assoc|exact Hnd'|].
        intros k' Hk' Hin. rewrite map_app, in_app_iff in Hk'.
        destruct Hk' as [Hk'|[<-|[]]]; [|contradiction].
        apply (Hout k' Hk'). now right.
      * intros Hin. apply (Hout k Hin). now left.
Qed.

Lemma prune_dict_kept d :
  NoDup (map fst d) -> prune_dict d = flat_map kept_entry d.
Proof.
  intros Hnd. unfold prune_dict. rewrite prune_dict_fold_kept; auto.
Qed.

(** X1. [prune_none] is an order-preserving filter: of a list it keeps, in
    order, the pruned form of every item that does not prune to [None], an
    empty dict or an empty list; of a dict likewise, entry by entry, with
    the keys unchanged; anything that is neither a dict nor a list is
    returned as it is, so [False], [0] and the empty string are never
    dropped. *)
Theorem prune_none_keeps_in_order :
  (forall items, prune_none (VList items) = VList (flat_map kept_item items))
  /\ (forall d, NoDup (map fst d) ->
        prune_none (VDict d) = VDict (flat_map kept_entry d))
  /\ (forall v, (forall d, v <> VDict d) -> (forall l, v <> VList l) ->
        prune_none v = v /\ (v <> VNone -> kept_item v = [v])).
Proof.
  split; [|split].
  - intros items. simpl. f_equal.
    change (fold_left prune_list_step items [] = flat_map kept_item items).
    now rewrite prune_list_fold_kept.
  - intros d Hnd. rewrite prune_none_VDict. f_equal. now apply prune_dict_kept.
  - intros v Hd Hl.
    assert (Hv : prune_none v = v).
    { destruct v; try reflexivity; [now contradiction (Hd items)|now contradiction (Hl items)]. }
    split; [exact Hv|]. intros Hn. unfold kept_item. rewrite Hv.
    destruct v; try reflexivity; [now contradiction Hn|
      now contradiction (Hd items)|now contradiction (Hl items)].
Qed.

(** ** The coordinate-system and intrinsics documents *)

Section Documents.

Context {lib : PyLib} {world : World}.

Lemma gps_of_dict derived g : dict_get "gps" derived = Some (VDict g) -> gps_of derived = g.
Proof. unfold gps_of. now intros ->. Qed.

Lemma gps_of_absent derived : dict_get "gps" derived = None -> gps_of derived = [].
Proof. unfold gps_of. now intros ->. Qed.

(** X2. For records whose GPS entry is a dict, [build_coordinate_systems]
    raises nothing and describes the first record, in the order given,
    that has both a latitude and a longitude: the fixed WGS84 block, with
    the altitude reference of that record when it has one; it returns
    [None] exactly when no record has both coordinates. *)
Theorem build_coordinate_systems_first_fix records :
  Forall (fun r => well_typed r = true) records ->
  build_coordinate_systems records
  = Some match find has_fix records with
         | Some r => coordinate_document (py_get (gps_of (derived r)) "altitude_ref")
         | None => VNone
         end
  /\ (build_coordinate_systems records = Some VNone
      <-> forall r, In r records -> has_fix r = false).
Proof.
  intros Hwt.
  assert (Heq : build_coordinate_systems records
                = Some match find has_fix records with
                       | Some r => coordinate_document (py_get (gps_of (derived r)) "altitude_ref")
                       | None => VNone
                       end).
  { induction Hwt as [|r records Hr _ IH]; [reflexivity|].
    cbn [build_coordinate_systems find]. unfold has_fix at 1.
    destruct (well_typed_gps r Hr) as [E|[g E]].
    - rewrite (gps_of_absent _ E). unfold py_get. rewrite E. simpl. exact IH.
    - rewrite (gps_of_dict _ _ E), (py_get_Some _ _ _ E).
      destruct g as [|kv g]; [simpl; exact IH|].
      cbn [truthy negb attr_get].
      destruct (is_none (py_get (kv :: g) "latitude_deg")); simpl; [exact IH|].
      destruct (is_none (py_get (kv :: g) "longitude_deg")); simpl; [exact IH|].
      unfold coordinate_document. rewrite ?(gps_of_dict _ _ E).
      destruct (truthy (py_get (kv :: g) "altitude_ref")); reflexivity. }
  split; [exact Heq|].
  rewrite Heq. split.
  - intros H r Hin. destruct (find has_fix records) as [r0|] eqn:E; [discriminate|].
    now apply (find_none _ _ E).
  - intros H. destruct (find has_fix records) as [r0|] eqn:E; [|reflexivity].
    apply find_some in E. destruct E as [Hin Hfix]. rewrite (H r0 Hin) in Hfix.
    discriminate.
Qed.

Lemma camera_of_dict derived c :
  dict_get "camera" derived = Some (VDict c) -> camera_of derived = c.
Proof. unfold camera_of. now intros ->. Qed.

Lemma camera_of_absent derived : dict_get "camera" derived = None -> camera_of derived = [].
Proof. unfold camera_of. now intros ->. Qed.

Lemma intrinsics_kept sensor_id camera :
  prune_dict (("sensor_id", VStr sensor_id) :: camera_fields camera)
  = ("sensor_id", VStr sensor_id) :: flat_map kept_entry (camera_fields camera).
Proof.
  rewrite prune_dict_kept; [reflexivity|].
  unfold camera_fields. simpl. repeat constructor; simpl; intuition discriminate.
Qed.

(** X3. For records whose camera entry is a dict, [build_intrinsics]
    raises nothing and describes the first record, in the order given, one
    of whose seven camera fields survives pruning: the sensor identifier
    first, whatever it is, then the surviving fields in the fixed order,
    [make] and [model] renamed [camera_make] and [camera_model]. It
    returns [None] exactly when no record has such a field. *)
Theorem build_intrinsics_first_camera records sensor_id :
  Forall (fun r => well_typed r = true) records ->
  build_intrinsics records sensor_id
  = Some match find has_camera_data records with
         | Some r =>
             VDict (("sensor_id", VStr sensor_id)
                    :: flat_map kept_entry (camera_fields (camera_of (derived r))))
         | None => VNone
         end
  /\ (build_intrinsics records sensor_id = Some VNone
      <-> forall r, In r records -> has_camera_data r = false).
Proof.
  intros Hwt.
  assert (Heq : build_intrinsics records sensor_id
                = Some match find has_camera_data records with
                       | Some r =>
                           VDict (("sensor_id", VStr sensor_id)
                                  :: flat_map kept_entry (camera_fields (camera_of (derived r))))
                       | None => VNone
                       end).
  { induction Hwt as [|r records Hr _ IH]; [reflexivity|].
    cbn [build_intrinsics find]. unfold has_camera_data at 1.
    destruct (well_typed_camera r Hr) as [E|[c E]]; rewrite E.
    - rewrite (camera_of_absent _ E). simpl. exact IH.
    - rewrite (camera_of_dict _ _ E).
      destruct c as [|kv c]; [simpl; exact IH|].
      cbn [truthy negb attr_get].
      change (prune_dict _)
        with (prune_dict (("sensor_id", VStr sensor_id) :: camera_fields (kv :: c))).
      rewrite intrinsics_kept.
      destruct (flat_map kept_entry (camera_fields (kv :: c))) eqn:Ek;
        [exact IH|].
      cbn [List.length Nat.ltb Nat.leb]. rewrite ?(camera_of_dict _ _ E), Ek.
      reflexivity. }
  split; [exact Heq|].
  rewrite Heq. split.
  - intros H r Hin. destruct (find has_camera_data records) as [r0|] eqn:E; [discriminate|].
    now apply (find_none _ _ E).
  - intros H. destruct (find has_camera_data records) as [r0|] eqn:E; [|reflexivity].
    apply find_some in E. destruct E as [Hin Hfix]. rewrite (H r0 Hin) in Hfix.
    discriminate.
Qed.

End Documents.

Lemma build_coordinate_systems_first_fix_witness :
  build_coordinate_systems (three_records ++ two_posed_records)
  = Some (coordinate_document VNone).
Proof.
  destruct (build_coordinate_systems_first_fix (three_records ++ two_posed_records)
              ltac:(repeat constructor)) as [H _].
  exact H.
Defined.

Lemma build_intrinsics_first_camera_witness :
  build_intrinsics (three_records ++ [camera_record]) "Cam"
  = Some (VDict [ ("sensor_id", VStr "Cam");
                  ("camera_make", VStr "Acme");
                  ("camera_model", VStr "X1") ]).
Proof.
  destruct (build_intrinsics_first_camera (three_records ++ [camera_record]) "Cam"
              ltac:(repeat constructor)) as [H _].
  exact H.
Defined.

(** ** The annotation payload *)

Lemma kept_entry_cases kv :
  kept_entry kv = [] \/ exists v, kept_entry kv = [(fst kv, v)].
Proof. unfold kept_entry. destruct (is_blank _); eauto. Qed.

(** X4. The annotation of a frame always starts with the five identifying
    entries (previous name, acquisition, sequence, sensor, frame index),
    kept even when a string is empty; after them come at most the blocks
    [capture], [gps] and [pose]. The [pose] block is there exactly when a
    pose row is attached to the image: it then starts with the source
    ["csv"] and lists the row's fields that are not [None] (the row's file
    name is not copied). *)
Theorem annotation_payload_blocks info acquisition_id sequence_id sensor_id frame_index :
  well_typed info = true ->
  exists rest,
    build_annotation_payload info acquisition_id sequence_id sensor_id frame_index
    = Some (VDict ([ ("previous_name", VStr (original_name info));
                     ("acquisition_id", VStr acquisition_id);
                     ("sequence_id", VStr sequence_id);
                     ("sensor_id", VStr sensor_id);
                     ("frame_index", VInt frame_index) ] ++ rest))
    /\ incl (map fst rest) ["capture"; "gps"; "pose"]
    /\ dict_get "pose" rest
       = match csv_pose info with
         | Some pose =>
             Some (VDict (("source", VStr "csv")
                          :: flat_map kept_entry (pose_block_fields pose)))
         | None => None
         end.
Proof.
  intros Hwt. unfold build_annotation_payload.
  assert (Hts : exists ts,
             (if truthy (py_get (derived info) "gps")
              then attr_get (py_get (derived info) "gps") "timestamp_utc"
              else Some VNone) = Some ts).
  { unfold py_get. destruct (well_typed_gps info Hwt) as [E|[g E]]; rewrite E; simpl.
    - eauto.
    - destruct g; simpl; eauto. }
  destruct Hts as [ts ->].
  rewrite prune_none_VDict, prune_dict_kept
    by (simpl; repeat constructor; simpl; intuition discriminate).
  cbn [flat_map].
  match goal with
  | |- exists rest, Some (VDict (_ ++ _ ++ _ ++ _ ++ _ ++ ?c ++ ?g ++ ?p ++ [])) = _ /\ _ =>
      exists (c ++ g ++ p); set (C := c); set (G := g); set (P := p)
  end.
  split; [rewrite app_nil_r; reflexivity|].
  assert (HP : P = match csv_pose info with
                   | Some pose =>
                       [("pose", VDict (("source", VStr "csv")
                                        :: flat_map kept_entry (pose_block_fields pose)))]
                   | None => []
                   end).
  { subst P. unfold kept_entry at 1. cbn [fst snd].
    rewrite prune_none_VDict, prune_dict_kept
      by (simpl; repeat constructor; simpl; intuition discriminate).
    destruct (csv_pose info) as [pose|]; reflexivity. }
  destruct (kept_entry_cases ("capture", VDict [("datetime_original",
                                                  py_get (derived info) "datetime_original");
                                                 ("gps_timestamp_utc", ts)]))
    as [HC|[vc HC]];
  destruct (kept_entry_cases ("gps", py_get (derived info) "gps")) as [HG|[vg HG]];
  fold C in HC; fold G in HG; rewrite HC, HG, HP;
  (split; [|destruct (csv_pose info); reflexivity]);
  destruct (csv_pose info); simpl; intros k Hk; simpl in *; tauto.
Qed.

Lemma annotation_payload_blocks_witness :
  exists rest,
    build_annotation_payload camera_record "20240101-Nyon" "S001" "Cam" 1
    = Some (VDict ([ ("previous_name", VStr "k.jpg");
                     ("acquisition_id", VStr "20240101-Nyon");
                     ("sequence_id", VStr "S001");
                     ("sensor_id", VStr "Cam");
                     ("frame_index", VInt 1) ] ++ rest))
    /\ dict_get "pose" rest = None.
Proof.
  destruct (annotation_payload_blocks camera_record "20240101-Nyon" "S001" "Cam" 1
              ltac:(reflexivity)) as [rest [H [_ Hpose]]].
  exists rest. split; [exact H|exact Hpose].
Defined.

(** ** LiDAR assets *)

Section Lidar.

Context {lib : PyLib} {world : World}.

Variables (acquisition_root acquisition_id : string).

Lemma copy_lidar_fold (f : list event * Z -> string -> list event * Z) :
  (forall log copied p,
     f (log, copied) p
     = if lidar_to_copy acquisition_root acquisition_id p
       then (log ++ [CopyFile p (lidar_dest acquisition_root acquisition_id p)], copied + 1)
       else (log, copied)) ->
  forall lidar_paths log copied,
    fold_left f lidar_paths (log, copied)
    = (log ++ map (fun p => CopyFile p (lidar_dest acquisition_root acquisition_id p))
                (filter (lidar_to_copy acquisition_root acquisition_id) lidar_paths),
       copied + Z.of_nat (List.length
                            (filter (lidar_to_copy acquisition_root acquisition_id)
                               lidar_paths))).
Proof.
  intros Hf paths. induction paths as [|p paths IH]; intros log copied.
  - simpl. now rewrite app_nil_r, Z.add_0_r.
  - cbn [fold_left filter]. rewrite Hf.
    destruct (lidar_to_copy acquisition_root acquisition_id p).
    + rewrite IH. cbn [map List.length]. rewrite <- app_assoc. cbn [app]. f_equal. lia.
    + apply IH.
Qed.

(** [copy_lidar_assets] as a filter and a map. *)
Lemma copy_lidar_assets_eq lidar_paths :
  copy_lidar_assets acquisition_root acquisition_id lidar_paths
  = match lidar_paths with
    | [] => ([], 0)
    | _ =>
        (ensure_dirs [path_join acquisition_root "06_point_clouds"]
         :: map (fun p => CopyFile p (lidar_dest acquisition_root acquisition_id p))
              (filter (lidar_to_copy acquisition_root acquisition_id) lidar_paths),
         Z.of_nat (List.length
                     (filter (lidar_to_copy acquisition_root acquisition_id) lidar_paths)))
    end.
Proof.
  unfold copy_lidar_assets. destruct lidar_paths as [|p paths]; [reflexivity|].
  rewrite copy_lidar_fold; [reflexivity|].
  intros log copied x. unfold lidar_to_copy, lidar_dest. cbv zeta.
  now destruct (String.eqb (abspath x) _).
Qed.

Lemma lidar_copies_are_copies (l : list string) :
  filter is_copy
    (map (fun p => CopyFile p (lidar_dest acquisition_root acquisition_id p)) l)
  = map (fun p => CopyFile p (lidar_dest acquisition_root acquisition_id p)) l.
Proof. induction l as [|x l IHl]; simpl; [reflexivity|now rewrite IHl]. Qed.

Lemma copy_lidar_assets_count lidar_paths :
  snd (copy_lidar_assets acquisition_root acquisition_id lidar_paths)
  = Z.of_nat (List.length
                (filter is_copy
                   (fst (copy_lidar_assets acquisition_root acquisition_id lidar_paths)))).
Proof.
  rewrite copy_lidar_assets_eq. destruct lidar_paths as [|p paths]; [reflexivity|].
  cbn [fst snd]. unfold ensure_dirs. cbn [filter is_copy].
  rewrite lidar_copies_are_copies, length_map. reflexivity.
Qed.

(** X5. With no LiDAR path, [copy_lidar_assets] does nothing at all, not
    even create the directory. Otherwise it creates [06_point_clouds] and
    copies, in the order given, every file that is not already at its
    destination; the destination keeps the file's name, prefixed with the
    acquisition identifier unless it already starts with it (case
    ignored). The count returned is the number of copies made. *)
Theorem copy_lidar_assets_log lidar_paths :
  let to_copy := filter (lidar_to_copy acquisition_root acquisition_id) lidar_paths in
  copy_lidar_assets acquisition_root acquisition_id lidar_paths
  = match lidar_paths with
    | [] => ([], 0)
    | _ =>
        (ensure_dirs [path_join acquisition_root "06_point_clouds"]
         :: map (fun p => CopyFile p (lidar_dest acquisition_root acquisition_id p)) to_copy,
         Z.of_nat (List.length to_copy))
    end
  /\ snd (copy_lidar_assets acquisition_root acquisition_id lidar_paths)
     = Z.of_nat (List.length
                   (filter is_copy
                      (fst (copy_lidar_assets acquisition_root acquisition_id lidar_paths))))
  /\ 0 <= snd (copy_lidar_assets acquisition_root acquisition_id lidar_paths)
       <= Z.of_nat (List.length lidar_paths)
  /\ forall source dest,
       In (CopyFile source dest)
          (fst (copy_lidar_assets acquisition_root acquisition_id lidar_paths)) ->
       In source lidar_paths /\ abspath source <> abspath dest.
Proof.
  intros to_copy.
  assert (Hlen : (List.length to_copy <= List.length lidar_paths)%nat)
    by apply filter_length_le.
  split; [apply copy_lidar_assets_eq|].
  split; [apply copy_lidar_assets_count|].
  rewrite copy_lidar_assets_eq.
  destruct lidar_paths as [|p paths] eqn:El; [simpl; repeat split; try lia; intros ? ? []|].
  cbn [fst snd]. split; [fold to_copy; lia|].
  intros source dest [H|H]; [discriminate|].
  apply in_map_iff in H. destruct H as [x [Hx Hin]]. injection Hx as <- <-.
  apply filter_In in Hin. destruct Hin as [Hin Hcopy].
  split; [exact Hin|].
  unfold lidar_to_copy in Hcopy. apply negb_true_iff in Hcopy.
  now apply String.eqb_neq in Hcopy.
Qed.

End Lidar.

(** ** Counts *)

Section Counts.

Context {lib : PyLib} {world : World}.

Variables (sensor_id : string) (max_per_seq : Z) (output_dir : string).

Lemma frame_names_length acquisition_id records :
  List.length (frame_names acquisition_id sensor_id max_per_seq records)
  = List.length records.
Proof.
  unfold frame_names. rewrite length_map, enumerate_length.
  apply Permutation_length, sort_records_perm.
Qed.

(** One acquisition whose file operations succeed: it returns the number
    of its records and makes as many copies. *)
Lemma process_acquisition_count acquisition_id records :
  max_per_seq <> 0 ->
  Forall (fun r => well_typed r = true) records ->
  exists log,
    process_acquisition acquisition_id records sensor_id max_per_seq output_dir
    = Some (log, Z.of_nat (List.length records))
    /\ List.length (filter is_copy log) = List.length records.
Proof.
  intros Hm Hwt.
  destruct (render_acquisition_total acquisition_id records sensor_id max_per_seq
              output_dir Hm Hwt) as [st Hst].
  destruct (process_acquisition_log _ _ _ _ _ _ Hst) as [notices [_ Hproc]].
  assert (Hc : copied st = Z.of_nat (List.length records)).
  { unfold render_acquisition in Hst.
    destruct (build_coordinate_systems (sort_records records)); [|discriminate].
    destruct (build_intrinsics (sort_records records) sensor_id); [|discriminate].
    rewrite (render_frames_copied _ _ _ _ _ _ _ _ Hst). simpl.
    rewrite enumerate_length. f_equal. apply Permutation_length, sort_records_perm. }
  rewrite Hc in Hproc. eexists. split; [exact Hproc|].
  rewrite (process_acquisition_copies _ _ _ _ _ _ _ Hproc), length_map.
  apply frame_names_length.
Qed.

Lemma Some_triple {A B C : Type} (a a' : A) (b b' : B) (c c' : C) :
  a = a' -> b = b' -> c = c' -> Some (a, b, c) = Some (a', b', c').
Proof. now intros -> -> ->. Qed.

Lemma process_group_step lidar_paths log total lidar_total k items events n :
  process_acquisition k items sensor_id max_per_seq output_dir = Some (events, n) ->
  exists extra,
    process_group sensor_id max_per_seq output_dir lidar_paths
      (log, total, lidar_total) (k, items)
    = Some (log ++ events ++ extra, total + n,
            lidar_total
            + snd (copy_lidar_assets (path_join output_dir k) k lidar_paths))
    /\ Z.of_nat (List.length (filter is_copy extra))
       = snd (copy_lidar_assets (path_join output_dir k) k lidar_paths).
Proof.
  intros H. unfold process_group. rewrite H.
  pose proof (copy_lidar_assets_count (path_join output_dir k) k lidar_paths) as Hcount.
  destruct lidar_paths as [|p paths].
  - exists []. rewrite (copy_lidar_assets_eq _ _ []). cbn [snd].
    split; [|reflexivity]. apply Some_triple; [now rewrite app_nil_r|reflexivity|lia].
  - destruct (copy_lidar_assets (path_join output_dir k) k (p :: paths))
      as [lidar_events lidar_copied].
    cbn [fst snd] in *.
    eexists (_ :: lidar_events ++ [_]). split; [reflexivity|].
    cbn [filter is_copy]. rewrite filter_app, length_app. cbn [filter is_copy List.length].
    lia.
Qed.

Lemma process_groups_counts lidar_paths grouped : forall log total lidar_total,
  max_per_seq <> 0 ->
  Forall (fun g => Forall (fun r => well_typed r = true) (snd g)) grouped ->
  exists events,
    process_groups sensor_id max_per_seq output_dir lidar_paths
      (log, total, lidar_total) grouped
    = Some (log ++ events,
            total + Z.of_nat (List.length (List.concat (map snd grouped))),
            lidar_total
            + fold_right Z.add 0
                (map (fun g => snd (copy_lidar_assets (path_join output_dir (fst g))
                                      (fst g) lidar_paths))
                   grouped))
    /\ Z.of_nat (List.length (filter is_copy events))
       = Z.of_nat (List.length (List.concat (map snd grouped)))
         + fold_right Z.add 0
             (map (fun g => snd (copy_lidar_assets (path_join output_dir (fst g))
                                   (fst g) lidar_paths))
                grouped).
Proof.
  intros log total lidar_total Hm Hwt. revert log total lidar_total.
  induction Hwt as [|[k items] grouped Hitems _ IH]; intros log total lidar_total.
  - exists []. simpl. rewrite app_nil_r, !Z.add_0_r. now split.
  - cbn [process_groups].
    destruct (process_acquisition_count k items Hm Hitems) as [events [Hproc Hcopies]].
    destruct (process_group_step lidar_paths log total lidar_total _ _ _ _ Hproc)
      as [extra [-> Hextra]].
    match goal with
    | |- exists events0, process_groups _ _ _ _ (?l, ?t, ?lt) _ = _ /\ _ =>
        destruct (IH l t lt) as [rest [-> Hrest]]
    end.
    cbn [map List.concat fold_right fst snd].
    rewrite length_app, Nat2Z.inj_add.
    exists (events ++ extra ++ rest). split.
    + apply Some_triple; [now rewrite <- !app_assoc|lia|lia].
    + rewrite !filter_app, !length_app, !Nat2Z.inj_add, Hrest, Hcopies, Hextra. lia.
Qed.

(** Rendering whose file operations succeed returns on well-typed
    records. *)
Lemma process_records_defined records region lidar_paths :
  max_per_seq <> 0 ->
  Forall (fun r => well_typed r = true) records ->
  exists log counts,
    process_records_by_acquisition records region sensor_id max_per_seq output_dir
      lidar_paths
    = Some (log, counts).
Proof.
  intros Hm Hwt. unfold process_records_by_acquisition.
  destruct (process_groups_counts lidar_paths _ [] 0 0 Hm
              (group_records_well_typed region records Hwt)) as [events [-> _]].
  eauto.
Qed.

(** X6. As long as no creation of a directory, copy or write fails, for
    records whose GPS and camera entries are dicts and a sequence size
    other than zero, [process_records_by_acquisition] returns: it raises
    nothing of its own. The first count it returns is the number of
    records, the last the number of distinct acquisition identifiers; the
    LiDAR count adds up what [copy_lidar_assets] copies for every
    acquisition, the same files once per acquisition. The copies logged
    are as many as the first two counts together. *)
Theorem process_records_counts records region lidar_paths :
  max_per_seq <> 0 ->
  Forall (fun r => well_typed r = true) records ->
  exists log lidar_total,
    process_records_by_acquisition records region sensor_id max_per_seq output_dir
      lidar_paths
    = Some (log,
            (Z.of_nat (List.length records), lidar_total,
             Z.of_nat (List.length (first_seen (map (acquisition_id_of region) records)))))
    /\ lidar_total
       = fold_right Z.add 0
           (map (fun k => snd (copy_lidar_assets (path_join output_dir k) k lidar_paths))
              (first_seen (map (acquisition_id_of region) records)))
    /\ Z.of_nat (List.length (filter is_copy log))
       = Z.of_nat (List.length records) + lidar_total.
Proof.
  intros Hm Hwt. unfold process_records_by_acquisition.
  destruct (group_records_spec region records) as [Hkeys [_ [_ Hperm]]].
  pose proof (group_records_well_typed region records Hwt) as Hgroups.
  destruct (process_groups_counts lidar_paths _ [] 0 0 Hm Hgroups) as [events [-> Hcopies]].
  rewrite (Permutation_length Hperm) in *.
  exists events. eexists. cbn [app]. rewrite !Z.add_0_l.
  rewrite <- Hkeys, length_map.
  split; [reflexivity|]. split; [|exact Hcopies].
  rewrite map_map. reflexivity.
Qed.

End Counts.

Lemma process_records_counts_witness :
  exists log lidar_total,
    process_records_by_acquisition (lib := example_lib) (world := empty_world)
      three_records "Nyon" "Cam" 2 "/out" []
    = Some (log, (3, lidar_total, 1))
    /\ lidar_total = 0.
Proof.
  destruct (process_records_counts (lib := example_lib) (world := empty_world)
              "Cam" 2 "/out" three_records "Nyon" [] ltac:(lia) ltac:(repeat constructor))
    as [log [lidar_total [H [Hl _]]]].
  exists log, lidar_total. split; [exact H|exact Hl].
Defined.

(** ** How a run ends *)

Section RunOutcome.

Context {lib : PyLib} {world : World}.

(** From the pose lookup on, a single-acquisition run with a sequence size
    other than zero ends with status 0 or 1, provided the LiDAR search and
    the sensor prompt raise only what their handlers name. *)
Lemma single_after_pose_returns input_dir output_dir args region pose_lookup log out :
  arg_max_per_seq args <> 0 ->
  (forall e, collect_lidar_paths (arg_lidar_path args) = inl e ->
             is_not_found_or_value_error e = true) ->
  (forall raw default_sensor allow_prompt e,
     resolve_sensor_id raw default_sensor allow_prompt = inl e ->
     is_value_error e = true) ->
  single_after_pose input_dir output_dir args region pose_lookup = (log, out) ->
  out = Exit 0 \/ (out = Exit 1 /\ exists msg, log = [PrintErr msg]).
Proof.
  intros Hm Hlidar Hsensor. unfold single_after_pose.
  destruct (if is_auto_value (arg_lidar_path args) then _ else _) as [exc|lidar] eqn:El.
  { assert (Hexc : is_not_found_or_value_error exc = true).
    { destruct (is_auto_value (arg_lidar_path args)); [discriminate|now apply Hlidar]. }
    rewrite Hexc. intros H. injection H as <- <-. right. eauto. }
  destruct (resolve_sensor_id _ _ _) as [exc|sensor_id] eqn:Es.
  { rewrite (Hsensor _ _ _ _ Es). intros H. injection H as <- <-. right. eauto. }
  destruct (collect_image_entries input_dir) as [|entry entries] eqn:Ei.
  { intros H. injection H as <- <-. now left. }
  destruct (build_records_total (entry :: entries) pose_lookup) as [records [-> [Hwt _]]].
  destruct records as [|r records].
  { intros H. injection H as <- <-. now left. }
  destruct (process_records_defined sensor_id (arg_max_per_seq args) output_dir
              (r :: records) region lidar Hm Hwt) as [events [[[total lt] ac] ->]].
  intros H. injection H as <- <-. now left.
Qed.

(** X7. Take a single-acquisition run with a sequence size other than
    zero in which the region and sensor prompts, the pose loader and the
    LiDAR search raise only the exceptions their handlers name, in which
    the reads that the [World] takes to return do return
    ([find_pose_csv_path], and [extract_exif_metadata] and
    [extract_camera_model] on every image), and in which no file operation
    fails. Such a run ends with exit status 0 or 1, whatever the decoded
    metadata and the pose rows are: fusing the metadata, grouping and
    rendering raise nothing of their own. A run that ends with status 1
    has printed one line, on stderr, and has written nothing; the prompts
    of [input] apart, it has shown nothing else. *)
Theorem single_run_returns input_dir output_dir args :
  arg_max_per_seq args <> 0 ->
  (forall e, resolve_region (arg_region args) = inl e -> is_value_error e = true) ->
  (forall p epoch e, load_pose_csv p epoch = inl e -> is_os_or_value_error e = true) ->
  (forall e, collect_lidar_paths (arg_lidar_path args) = inl e ->
             is_not_found_or_value_error e = true) ->
  (forall raw default_sensor allow_prompt e,
     resolve_sensor_id raw default_sensor allow_prompt = inl e ->
     is_value_error e = true) ->
  snd (run_single_acquisition input_dir output_dir args) = Exit 0
  \/ (snd (run_single_acquisition input_dir output_dir args) = Exit 1
      /\ exists msg, fst (run_single_acquisition input_dir output_dir args) = [PrintErr msg]).
Proof.
  intros Hm Hregion Hpose Hlidar Hsensor. unfold run_single_acquisition.
  destruct (resolve_region (arg_region args)) as [exc|region] eqn:Er.
  { rewrite (Hregion _ eq_refl). right. simpl. eauto. }
  set (pose_csv_path := if is_auto_value (arg_pose_csv args) then _ else _).
  unfold load_pose_lookup.
  destruct pose_csv_path as [p|].
  2:{ destruct (single_after_pose input_dir output_dir args region []) as [events out] eqn:E.
      destruct (single_after_pose_returns _ _ _ _ _ _ _ Hm Hlidar Hsensor E)
        as [->|[-> [msg ->]]]; [now left|right; simpl; eauto]. }
  destruct (negb (truthy (VStr p))).
  { destruct (single_after_pose input_dir output_dir args region []) as [events out] eqn:E.
    destruct (single_after_pose_returns _ _ _ _ _ _ _ Hm Hlidar Hsensor E)
      as [->|[-> [msg ->]]]; [now left|right; simpl; eauto]. }
  destruct (load_pose_csv (abspath p) (arg_pose_epoch args)) as [exc|poses] eqn:Ep.
  { rewrite (Hpose _ _ _ Ep). cbn [negb]. rewrite (Hpose _ _ _ Ep). right. simpl. eauto. }
  destruct (single_after_pose input_dir output_dir args region poses) as [events out] eqn:E.
  destruct (single_after_pose_returns _ _ _ _ _ _ _ Hm Hlidar Hsensor E)
    as [->|[-> [msg ->]]]; [now left|right; simpl; eauto].
Qed.

End RunOutcome.

Lemma single_run_returns_witness :
  snd (run_single_acquisition (lib := example_lib) (world := embedded_gps_world)
         "/in" "/out" plain_args) = Exit 0
  \/ (snd (run_single_acquisition (lib := example_lib) (world := embedded_gps_world)
             "/in" "/out" plain_args) = Exit 1
      /\ exists msg,
           fst (run_single_acquisition (lib := example_lib) (world := embedded_gps_world)
                  "/in" "/out" plain_args) = [PrintErr msg]).
Proof.
  apply (single_run_returns (lib := example_lib) (world := embedded_gps_world)
           "/in" "/out" plain_args).
  - simpl. lia.
  - intros e H. discriminate H.
  - intros p epoch e H. discriminate H.
  - intros e H. discriminate H.
  - intros [raw|] default_sensor allow_prompt e H; [discriminate H|].
    injection H as <-. reflexivity.
Defined.

(** ** The fused GPS block, field by field *)

Section FusedGps.

Context {lib : PyLib} {world : World}.

(** The embedded GPS sub-dict holds the decoded tags that are not [None]. *)
Lemma embedded_gps_fields img_path :
  let t := read_exif img_path in
  let g0 := gps_of (snd (extract_exif_metadata img_path)) in
  dict_get "latitude_deg" g0 = option_map VFloat (gps_lat t)
  /\ dict_get "longitude_deg" g0 = option_map VFloat (gps_lon t)
  /\ dict_get "altitude_m" g0 = option_map VFloat (gps_alt t)
  /\ dict_get "altitude_ref" g0 = option_map VStr (gps_alt_ref_label t)
  /\ dict_get "timestamp_utc" g0 = option_map VStr (gps_timestamp t).
Proof.
  intros t g0. subst g0. unfold extract_exif_metadata. fold t. cbn [snd].
  rewrite prune_dict_kept by (simpl; repeat constructor; simpl; intuition discriminate).
  cbn [flat_map]. unfold kept_entry at 2. cbn [fst snd].
  rewrite prune_none_VDict.
  rewrite (prune_dict_kept [_; _; _; _; _])
    by (simpl; repeat constructor; simpl; intuition discriminate).
  destruct (kept_entry_cases ("datetime_original", ostr (dt_text t))) as [->|[v0 ->]];
  destruct (kept_entry_cases ("camera", VDict
             [ ("make", ostr (cam_make t));
               ("model", ostr (cam_model t));
               ("serial_number", ostr (cam_serial_number t));
               ("software", ostr (cam_software t));
               ("focal_length_mm", ofloat (cam_focal_length_mm t));
               ("focal_length_35mm", oint (cam_focal_length_35mm t));
               ("f_number", ofloat (cam_f_number t)) ])) as [->|[v1 ->]];
  destruct (gps_lat t), (gps_lon t), (gps_alt t), (gps_alt_ref_label t), (gps_timestamp t);
  repeat split; reflexivity.
Qed.

Lemma py_get_opt_float d k (o : option float) :
  dict_get k d = option_map VFloat o -> py_get d k = ofloat o.
Proof. unfold py_get. intros ->. now destruct o. Qed.

Lemma py_get_opt_str d k (o : option string) :
  dict_get k d = option_map VStr o -> py_get d k = ostr o.
Proof. unfold py_get. intros ->. now destruct o. Qed.

Lemma prune_dict_scalar_float k d (o : option float) :
  NoDup (map fst d) -> dict_get k d = option_map VFloat o ->
  dict_get k (prune_dict d) = option_map VFloat o.
Proof.
  intros Hnd Hget. destruct o as [x|]; simpl in *.
  - now rewrite (prune_dict_get k _ d Hnd Hget).
  - now apply prune_dict_get_None.
Qed.

Lemma prune_dict_scalar_str k d (o : option string) :
  NoDup (map fst d) -> dict_get k d = option_map VStr o ->
  dict_get k (prune_dict d) = option_map VStr o.
Proof.
  intros Hnd Hget. destruct o as [x|]; simpl in *.
  - now rewrite (prune_dict_get k _ d Hnd Hget).
  - now apply prune_dict_get_None.
Qed.

Lemma set_unless_none_float k k' (o o' : option float) d :
  dict_get k' d = option_map VFloat o' ->
  dict_get k' (set_unless_none k (ofloat o) d)
  = option_map VFloat (if String.eqb k' k then first_some o o' else o').
Proof.
  intros Hget. destruct (String.eqb_spec k' k) as [->|Hne].
  - destruct o as [x|]; simpl.
    + now rewrite set_unless_none_eq.
    + exact Hget.
  - now rewrite set_unless_none_ne.
Qed.

Lemma set_unless_none_str k k' (o o' : option string) d :
  dict_get k' d = option_map VStr o' ->
  dict_get k' (set_unless_none k (ostr o) d)
  = option_map VStr (if String.eqb k' k then first_some o o' else o').
Proof.
  intros Hget. destruct (String.eqb_spec k' k) as [->|Hne].
  - destruct o as [x|]; simpl.
    + now rewrite set_unless_none_eq.
    + exact Hget.
  - now rewrite set_unless_none_ne.
Qed.

(** X8. The GPS block of a fused record is merged field by field. With a
    pose row attached, latitude, longitude, altitude and timestamp are the
    row's value where the row has one and the embedded value where it has
    none; the altitude reference is always the embedded one. Without a
    pose row the block is the embedded one. *)
Theorem fused_gps_field_by_field pose_lookup entry :
  let t := read_exif (path entry) in
  let pose := pose_for pose_lookup entry in
  exists r,
    build_record pose_lookup entry = Some r
    /\ csv_pose r = pose
    /\ py_get (gps_of (derived r)) "latitude_deg"
       = ofloat (first_some (pose_field pose gps_latitude) (gps_lat t))
    /\ py_get (gps_of (derived r)) "longitude_deg"
       = ofloat (first_some (pose_field pose gps_longitude) (gps_lon t))
    /\ py_get (gps_of (derived r)) "altitude_m"
       = ofloat (first_some (pose_field pose gps_altitude_m) (gps_alt t))
    /\ py_get (gps_of (derived r)) "timestamp_utc"
       = ostr (first_some (pose_field pose timestamp) (gps_timestamp t))
    /\ py_get (gps_of (derived r)) "altitude_ref" = ostr (gps_alt_ref_label t).
Proof.
  intros t pose.
  destruct (build_record_spec pose_lookup entry) as [r [Hr [_ [_ [Hpose [_ Hd]]]]]].
  exists r. split; [exact Hr|]. split; [exact Hpose|].
  destruct (embedded_gps_fields (path entry)) as [Hlat [Hlon [Halt [Href Hts]]]].
  fold t in Hlat, Hlon, Halt, Href, Hts.
  destruct (extract_exif_metadata_shape (path entry)) as [_ [Hgps _]].
  assert (Hnd0 : NoDup (map fst (gps_of (snd (extract_exif_metadata (path entry)))))).
  { destruct Hgps as [E|[g0 [E Hnd]]].
    - rewrite (gps_of_absent _ E). constructor.
    - now rewrite (gps_of_dict _ _ E). }
  fold pose in Hd. unfold pose_field.
  destruct pose as [p|].
  - assert (Hg : gps_of (derived r)
                 = prune_dict (overridden_gps
                                 (gps_of (snd (extract_exif_metadata (path entry)))) p)).
    { rewrite Hd. unfold gps_of at 1. now rewrite dict_get_set_eq. }
    rewrite Hg.
    pose proof (overridden_gps_NoDup _ p Hnd0) as Hnd.
    unfold overridden_gps in *.
    repeat split.
    + apply py_get_opt_float, prune_dict_scalar_float; [exact Hnd|].
      rewrite (set_unless_none_ne "timestamp_utc"), (set_unless_none_ne "altitude_m"),
        (set_unless_none_ne "longitude_deg") by discriminate.
      now rewrite (set_unless_none_float _ _ _ _ _ Hlat).
    + apply py_get_opt_float, prune_dict_scalar_float; [exact Hnd|].
      rewrite (set_unless_none_ne "timestamp_utc"), (set_unless_none_ne "altitude_m")
        by discriminate.
      rewrite (set_unless_none_float "longitude_deg" "longitude_deg" _ (gps_lon t));
        [reflexivity|].
      now rewrite set_unless_none_ne by discriminate.
    + apply py_get_opt_float, prune_dict_scalar_float; [exact Hnd|].
      rewrite (set_unless_none_ne "timestamp_utc") by discriminate.
      rewrite (set_unless_none_float "altitude_m" "altitude_m" _ (gps_alt t));
        [reflexivity|].
      now rewrite !set_unless_none_ne by discriminate.
    + apply py_get_opt_str, prune_dict_scalar_str; [exact Hnd|].
      rewrite (set_unless_none_str "timestamp_utc" "timestamp_utc" _ (gps_timestamp t));
        [reflexivity|].
      now rewrite !set_unless_none_ne by discriminate.
    + apply py_get_opt_str, prune_dict_scalar_str; [exact Hnd|].
      now rewrite !set_unless_none_ne by discriminate.
  - rewrite Hd. cbn [first_some].
    repeat split;
      first [now apply py_get_opt_float | now apply py_get_opt_str].
Qed.

End FusedGps.

(** ** Zero-padded numbers sort like the numbers *)

Lemma string_compare_refl s : String_as_OT.compare s s = Eq.
Proof.
  induction s as [|c s IH]; simpl; [reflexivity|].
  unfold Ascii_as_OT.compare. now rewrite N.compare_refl.
Qed.

Lemma string_compare_app_head (a b c : string) :
  String_as_OT.compare (a ++ b) (a ++ c) = String_as_OT.compare b c.
Proof.
  induction a as [|x a IH]; simpl; [reflexivity|].
  unfold Ascii_as_OT.compare. now rewrite N.compare_refl.
Qed.

(** Two strings that start with parts of the same length compare by those
    parts first. *)
Lemma string_compare_app_same_length (a b x y : string) :
  String.length a = String.length b ->
  String_as_OT.compare (a ++ x) (b ++ y)
  = match String_as_OT.compare a b with
    | Eq => String_as_OT.compare x y
    | c => c
    end.
Proof.
  revert b. induction a as [|c a IH]; intros [|d b] Hlen; simpl in *;
    try discriminate; [reflexivity|].
  destruct (Ascii_as_OT.compare c d); try reflexivity.
  apply IH. lia.
Qed.

Lemma is_digit_code c : is_digit c = true -> (48 <= N_of_ascii c <= 57)%N.
Proof.
  unfold is_digit. intros H. apply andb_prop in H. destruct H as [H1 H2].
  apply Nat.leb_le in H1, H2.
  rewrite <- (N2Nat.id (N_of_ascii c)).
  change (N.to_nat (N_of_ascii c)) with (nat_of_ascii c). lia.
Qed.

Lemma decimal_value_from_app acc (a b : string) :
  decimal_value_from acc (a ++ b) = decimal_value_from (decimal_value_from acc a) b.
Proof. revert acc. induction a as [|c a IH]; intros acc; simpl; [reflexivity|apply IH]. Qed.

Lemma decimal_value_from_bounds s : forall acc,
  all_digits s = true ->
  (acc * 10 ^ N.of_nat (String.length s) <= decimal_value_from acc s
   < (acc + 1) * 10 ^ N.of_nat (String.length s))%N.
Proof.
  induction s as [|c s IH]; intros acc Hs.
  - simpl. lia.
  - cbn [all_digits] in Hs. apply andb_prop in Hs. destruct Hs as [Hc Hs].
    apply is_digit_code in Hc.
    cbn [decimal_value_from String.length].
    specialize (IH (10 * acc + (N_of_ascii c - 48))%N Hs).
    rewrite Nat2N.inj_succ, N.pow_succ_r by lia.
    set (t := (10 ^ N.of_nat (String.length s))%N) in *.
    assert (Hd : (N_of_ascii c - 48 <= 9)%N) by lia.
    set (d := (N_of_ascii c - 48)%N) in *.
    nia.
Qed.

Lemma decimal_value_from_lt (a b : string) acc1 acc2 :
  (acc1 < acc2)%N -> String.length a = String.length b ->
  all_digits a = true -> all_digits b = true ->
  (decimal_value_from acc1 a < decimal_value_from acc2 b)%N.
Proof.
  intros Hacc Hlen Ha Hb.
  pose proof (decimal_value_from_bounds a acc1 Ha) as [_ H1].
  pose proof (decimal_value_from_bounds b acc2 Hb) as [H2 _].
  rewrite Hlen in H1.
  set (t := (10 ^ N.of_nat (String.length b))%N) in *.
  nia.
Qed.

Lemma N_of_ascii_inj c d : N_of_ascii c = N_of_ascii d -> c = d.
Proof.
  intros H. rewrite <- (ascii_N_embedding c), <- (ascii_N_embedding d). now rewrite H.
Qed.

(** Digit strings of one length compare as the numbers they denote. *)
Lemma digits_compare (a : string) : forall (b : string) acc,
  String.length a = String.length b ->
  all_digits a = true -> all_digits b = true ->
  String_as_OT.compare a b
  = (decimal_value_from acc a ?= decimal_value_from acc b)%N.
Proof.
  induction a as [|c a IH]; intros [|d b] acc Hlen Ha Hb; simpl in Hlen;
    try discriminate.
  - simpl. now rewrite N.compare_refl.
  - cbn [all_digits] in Ha, Hb.
    apply andb_prop in Ha, Hb. destruct Ha as [Hc Ha], Hb as [Hd Hb].
    pose proof (is_digit_code c Hc) as Hc'. pose proof (is_digit_code d Hd) as Hd'.
    cbn [String_as_OT.compare decimal_value_from]. unfold Ascii_as_OT.compare.
    destruct (N.compare_spec (N_of_ascii c) (N_of_ascii d)) as [Heq|Hlt|Hgt].
    + rewrite Heq. apply IH; [lia|exact Ha|exact Hb].
    + symmetry. apply N.compare_lt_iff.
      apply decimal_value_from_lt; [lia|lia|exact Ha|exact Hb].
    + symmetry. apply N.compare_gt_iff.
      apply decimal_value_from_lt; [lia|lia|exact Hb|exact Ha].
Qed.

Lemma decimal_value_from_zeros k s : decimal_value_from 0 (zeros k ++ s) = decimal_value_from 0 s.
Proof. induction k as [|k IH]; simpl; [reflexivity|exact IH]. Qed.

Ltac digit_code :=
  match goal with
  | |- context [(N_of_ascii ?c - 48)%N] =>
      let v := eval vm_compute in (N_of_ascii c - 48)%N in
      change (N_of_ascii c - 48)%N with v
  end.

Lemma decimal_value_of_uint_acc d : forall p,
  decimal_value_from (Npos p) (NilEmpty.string_of_uint d) = Npos (Pos.of_uint_acc d p).
Proof.
  induction d; intros p; cbn [NilEmpty.string_of_uint decimal_value_from Pos.of_uint_acc];
    try reflexivity;
    match goal with
    | |- decimal_value_from ?a _ = N.pos (Pos.of_uint_acc _ ?q) =>
        replace a with (N.pos q) by (digit_code; lia); apply IHd
    end.
Qed.

Lemma decimal_value_of_uint d :
  decimal_value_from 0 (NilEmpty.string_of_uint d) = Pos.of_uint d.
Proof.
  induction d; cbn [NilEmpty.string_of_uint decimal_value_from Pos.of_uint];
    try reflexivity; try exact IHd;
    match goal with
    | |- decimal_value_from ?a _ = N.pos (Pos.of_uint_acc _ ?q) =>
        replace a with (N.pos q) by (digit_code; lia); apply decimal_value_of_uint_acc
    end.
Qed.

Lemma decimal_value_digits n : decimal_value (digits n) = Z.abs_N n.
Proof.
  unfold decimal_value. rewrite digits_nil_empty, decimal_value_of_uint.
  apply DecimalN.Unsigned.of_to.
Qed.

Lemma decimal_value_format_0d w n :
  0 <= n -> decimal_value (format_0d w n) = Z.to_N n.
Proof.
  intros Hn. rewrite format_0d_nonneg by exact Hn. unfold zfill, decimal_value.
  rewrite decimal_value_from_zeros.
  fold (decimal_value (digits n)). rewrite decimal_value_digits. lia.
Qed.

(** A normalised numeral starts with a zero only when it is zero. *)
Lemma unorm_head d :
  match Decimal.unorm d with
  | Decimal.Nil => False
  | Decimal.D0 Decimal.Nil => True
  | Decimal.D0 _ => False
  | _ => True
  end.
Proof. induction d; simpl; auto. Qed.

Lemma to_uint_normal n : Decimal.unorm (N.to_uint n) = N.to_uint n.
Proof.
  rewrite <- (DecimalN.Unsigned.of_to n) at 2. symmetry.
  apply DecimalN.Unsigned.to_of.
Qed.

(** A number below [10 ^ w] has at most [w] digits. *)
Lemma digits_length n w :
  0 <= n < 10 ^ Z.of_nat w -> (1 <= w)%nat -> (String.length (digits n) <= w)%nat.
Proof.
  intros Hn Hw.
  pose proof (decimal_value_digits n) as Hv. unfold decimal_value in Hv.
  pose proof (all_digits_digits n) as Hd.
  rewrite digits_nil_empty in *.
  pose proof (unorm_head (N.to_uint (Z.abs_N n))) as Hhead.
  rewrite to_uint_normal in Hhead.
  assert (Hpow : forall s c acc,
             all_digits s = true -> (1 <= acc)%N ->
             decimal_value_from acc s = Z.abs_N n ->
             (String.length (String c s) <= w)%nat).
  { intros s c acc Hs Hacc Hval.
    pose proof (decimal_value_from_bounds s acc Hs) as [Hlow _].
    rewrite Hval in Hlow. cbn [String.length].
    assert (Hlt : (10 ^ N.of_nat (String.length s) < 10 ^ N.of_nat w)%N).
    { apply N.le_lt_trans with (Z.abs_N n).
      - set (t := (10 ^ N.of_nat (String.length s))%N) in *. nia.
      - apply N2Z.inj_lt. rewrite N2Z.inj_pow, N2Z.inj_abs_N, nat_N_Z. simpl Z.of_N. lia. }
    apply N.pow_lt_mono_r_iff in Hlt; lia. }
  destruct (N.to_uint (Z.abs_N n)) as [|d|d|d|d|d|d|d|d|d|d];
    try contradiction;
    cbn [NilEmpty.string_of_uint all_digits decimal_value_from] in Hd, Hv |- *;
    try (apply andb_prop in Hd; destruct Hd as [_ Hd];
         refine (Hpow _ _ _ Hd _ Hv); vm_compute; discriminate).
  destruct d; try contradiction. simpl. lia.
Qed.

Lemma zeros_length k : String.length (zeros k) = k.
Proof. induction k; simpl; auto. Qed.

(** Below [10 ^ w] the format [0{w}d] gives exactly [w] characters. *)
Lemma format_0d_length w n :
  0 <= n < 10 ^ Z.of_nat w -> (1 <= w)%nat -> String.length (format_0d w n) = w.
Proof.
  intros Hn Hw. rewrite format_0d_nonneg by lia. unfold zfill.
  rewrite string_length_app, zeros_length.
  pose proof (digits_length n w Hn Hw). lia.
Qed.

(** Smaller numbers come first among numbers padded to the same width. *)
Lemma format_0d_lt w a b :
  (1 <= w)%nat -> 0 <= a < b -> b < 10 ^ Z.of_nat w ->
  String_as_OT.compare (format_0d w a) (format_0d w b) = Lt.
Proof.
  intros Hw Hab Hb.
  rewrite (digits_compare _ _ 0%N).
  - fold (decimal_value (format_0d w a)). fold (decimal_value (format_0d w b)).
    rewrite !decimal_value_format_0d by lia. apply N.compare_lt_iff. lia.
  - rewrite !format_0d_length; auto; lia.
  - apply all_digits_format_0d. lia.
  - apply all_digits_format_0d. lia.
Qed.

(** ** File names sort in frame order *)

Lemma positions_sorted n : StronglySorted Z.lt (positions n).
Proof.
  unfold positions. generalize 1%nat as a.
  induction n as [|n IH]; intros a; simpl; constructor; [apply IH|].
  apply Forall_forall. intros x Hx. apply in_map_iff in Hx.
  destruct Hx as [k [<- Hk]]. apply in_seq in Hk. lia.
Qed.

Lemma StronglySorted_map_mono {A B : Type} (R : A -> A -> Prop) (R' : B -> B -> Prop)
    (f : A -> B) (l : list A) :
  (forall x y, In x l -> In y l -> R x y -> R' (f x) (f y)) ->
  StronglySorted R l -> StronglySorted R' (map f l).
Proof.
  intros Hf Hs. induction Hs as [|x l Hs IH Hx]; simpl; constructor.
  - apply IH. intros a b Ha Hb. apply Hf; now right.
  - rewrite Forall_forall in *. intros y Hy. apply in_map_iff in Hy.
    destruct Hy as [a [<- Ha]]. apply Hf; [now left|now right|now apply Hx].
Qed.

Lemma naming_key_lt acquisition_id sensor_id m p q :
  0 < m <= 999999 -> 1 <= p < q -> q <= 999 * m ->
  String_as_OT.lt (naming_key_at acquisition_id sensor_id m p)
    (naming_key_at acquisition_id sensor_id m q).
Proof.
  intros Hm Hpq Hq.
  unfold String_as_OT.lt, naming_key_at, new_base, sequence_id_at, sequence_id_of,
    frame_index_at.
  pose proof (Z.div_mod (p - 1) m ltac:(lia)) as Ep.
  pose proof (Z.div_mod (q - 1) m ltac:(lia)) as Eq.
  pose proof (Z.mod_pos_bound (p - 1) m ltac:(lia)) as Bp.
  pose proof (Z.mod_pos_bound (q - 1) m ltac:(lia)) as Bq.
  assert (Hk : 0 <= (p - 1) / m <= (q - 1) / m)
    by (split; [apply Z.div_pos; lia|apply Z.div_le_mono; lia]).
  assert (Hk2 : (q - 1) / m < 999) by (apply Z.div_lt_upper_bound; lia).
  set (k1 := (p - 1) / m) in *. set (k2 := (q - 1) / m) in *.
  set (r1 := (p - 1) mod m) in *. set (r2 := (q - 1) mod m) in *.
  rewrite string_compare_app_head.
  rewrite (string_compare_app_head "_").
  rewrite !(string_app_assoc "S").
  rewrite (string_compare_app_head "S").
  rewrite string_compare_app_same_length
    by (rewrite !format_03d_three_digits; [reflexivity|lia|lia]).
  destruct (Z.eq_dec k1 k2) as [Heq|Hne].
  - rewrite Heq, string_compare_refl.
    rewrite (string_compare_app_head "_"), string_compare_app_head,
      (string_compare_app_head "_").
    apply (format_0d_lt 6); [lia| |simpl; lia].
    assert (r1 < r2) by nia. lia.
  - rewrite (format_0d_lt 3); [reflexivity|lia|lia|simpl; lia].
Qed.

(** X9. With at most 999999 images per sequence and no more than 999
    sequences, the frame identifier has exactly six digits and the naming
    keys increase strictly, in byte order, along the sorted records of an
    acquisition: listing the output files by name lists them in frame
    order. *)
Theorem naming_keys_sort_in_frame_order acquisition_id sensor_id max_per_seq records :
  0 < max_per_seq <= 999999 ->
  Z.of_nat (List.length records) <= 999 * max_per_seq ->
  StronglySorted String_as_OT.lt
    (map snd (frame_names acquisition_id sensor_id max_per_seq records))
  /\ Forall (fun f => exists p,
               1 <= p <= Z.of_nat (List.length records)
               /\ snd f = naming_key_at acquisition_id sensor_id max_per_seq p
               /\ String.length (format_0d 6 (frame_index_at max_per_seq p)) = 6%nat
               /\ String.length (sequence_id_at max_per_seq p) = 4%nat)
       (frame_names acquisition_id sensor_id max_per_seq records).
Proof.
  intros Hm Hn. split.
  - rewrite frame_names_keys.
    apply (StronglySorted_map_mono Z.lt); [|apply positions_sorted].
    intros p q Hp Hq Hpq. apply In_positions in Hp, Hq.
    apply naming_key_lt; lia.
  - apply Forall_forall. intros f Hf. unfold frame_names in Hf.
    apply in_map_iff in Hf. destruct Hf as [[p r] [<- Hin]]. cbn [fst snd].
    apply (in_map fst) in Hin. rewrite enumerate_positions in Hin.
    rewrite (Permutation_length (sort_records_perm records)) in Hin.
    apply In_positions in Hin. cbn [fst] in Hin.
    exists p. split; [exact Hin|]. split; [reflexivity|].
    pose proof (Z.mod_pos_bound (p - 1) max_per_seq ltac:(lia)) as Bp.
    assert (Hk : 0 <= (p - 1) / max_per_seq < 999)
      by (split; [apply Z.div_pos; lia|apply Z.div_lt_upper_bound; lia]).
    split.
    + apply format_0d_length; [unfold frame_index_at; simpl; lia|lia].
    + unfold sequence_id_at, sequence_id_of. cbn [append String.length].
      rewrite format_03d_three_digits; [reflexivity|lia].
Qed.

Lemma naming_keys_sort_in_frame_order_witness :
  StronglySorted String_as_OT.lt (map snd (frame_names "20240101-Nyon" "Cam" 2 three_records))
  /\ map snd (frame_names "20240101-Nyon" "Cam" 2 three_records)
     = ["20240101-Nyon_S001_Cam_000001"; "20240101-Nyon_S001_Cam_000002";
        "20240101-Nyon_S002_Cam_000001"]%string.
Proof.
  destruct (naming_keys_sort_in_frame_order "20240101-Nyon" "Cam" 2 three_records
              ltac:(lia) ltac:(simpl; lia)) as [H _].
  split; [exact H|reflexivity].
Defined.

(** ** Whitespace and tokens *)

Lemma strip_prefix_app p : forall s s', strip_prefix p s = Some s' -> s = (p ++ s')%string.
Proof.
  induction p as [|a p IH]; intros s s' H; simpl in *.
  - now injection H as ->.
  - destruct s as [|b s]; [discriminate|].
    destruct (Ascii.eqb_spec a b) as [->|]; [|discriminate].
    now rewrite (IH _ _ H).
Qed.

Lemma first_match_spec (f : string -> string) (ws : list string) s s' :
  fold_right
    (fun w rest =>
       match strip_prefix (f w) s with
       | Some s' => Some s'
       | None => rest
       end)
    None ws = Some s' ->
  exists w, In w ws /\ s = (f w ++ s')%string.
Proof.
  induction ws as [|w ws IH]; simpl; [discriminate|].
  destruct (strip_prefix (f w) s) as [s0|] eqn:E.
  - intros H. injection H as ->. exists w. split; [now left|].
    now apply strip_prefix_app.
  - intros H. destruct (IH H) as [w' [Hin Hs]]. exists w'. split; [now right|exact Hs].
Qed.

Lemma drop_space_spec s s' :
  drop_space s = Some s' -> exists w, In w whitespace /\ s = (w ++ s')%string.
Proof. apply (first_match_spec (fun w => w)). Qed.

Lemma drop_space_rev_spec r r' :
  drop_space_rev r = Some r' ->
  exists w, In w whitespace /\ r = (rev_string w ++ r')%string.
Proof. apply (first_match_spec rev_string). Qed.

(** No whitespace character starts or ends with a byte of the token
    class, or holds one. *)
Lemma whitespace_not_token w :
  In w whitespace ->
  keep is_token_char w = ""
  /\ keep is_token_char (rev_string w) = ""
  /\ (exists c w', w = String c w' /\ is_token_char c = false)
  /\ (exists c w', rev_string w = String c w' /\ is_token_char c = false).
Proof.
  unfold whitespace. cbn [map In].
  intros H.
  repeat (destruct H as [<-|H];
          [repeat split; try reflexivity; eexists; eexists; split; reflexivity|]).
  contradiction.
Qed.

Lemma keep_app class (a b : string) :
  keep class (a ++ b) = (keep class a ++ keep class b)%string.
Proof.
  induction a as [|c a IH]; simpl; [reflexivity|].
  destruct (class c); simpl; now rewrite IH.
Qed.

Lemma keep_drop_space s s' :
  drop_space s = Some s' -> keep is_token_char s' = keep is_token_char s.
Proof.
  intros H. destruct (drop_space_spec _ _ H) as [w [Hw ->]].
  rewrite keep_app. now destruct (whitespace_not_token w Hw) as [-> _].
Qed.

Lemma keep_drop_space_rev r r' :
  drop_space_rev r = Some r' -> keep is_token_char r' = keep is_token_char r.
Proof.
  intros H. destruct (drop_space_rev_spec _ _ H) as [w [Hw ->]].
  rewrite keep_app. now destruct (whitespace_not_token w Hw) as [_ [-> _]].
Qed.

Lemma keep_lstrip s : keep is_token_char (lstrip s) = keep is_token_char s.
Proof.
  unfold lstrip. generalize (String.length s) as fuel. intros fuel. revert s.
  induction fuel as [|fuel IH]; intros s; simpl; [reflexivity|].
  destruct (drop_space s) as [s'|] eqn:E; [|reflexivity].
  rewrite IH. now apply keep_drop_space.
Qed.

Lemma rev_string_onto_twice s : forall a b,
  rev_string_onto a (rev_string_onto b s) = rev_string_onto (s ++ a) b.
Proof.
  induction s as [|c s IH]; intros a b; simpl; [reflexivity|].
  rewrite IH. reflexivity.
Qed.

Lemma rev_string_involutive s : rev_string (rev_string s) = s.
Proof.
  unfold rev_string. rewrite rev_string_onto_twice. simpl.
  induction s as [|c s IH]; simpl; [reflexivity|now rewrite IH].
Qed.

Lemma keep_rev_onto class s : forall acc,
  keep class (rev_string_onto acc s) = rev_string_onto (keep class acc) (keep class s).
Proof.
  induction s as [|c s IH]; intros acc; simpl; [reflexivity|].
  rewrite IH. simpl. now destruct (class c).
Qed.

Lemma keep_rev class s : keep class (rev_string s) = rev_string (keep class s).
Proof. apply (keep_rev_onto class s ""). Qed.

Lemma keep_rstrip s : keep is_token_char (rstrip s) = keep is_token_char s.
Proof.
  unfold rstrip. rewrite keep_rev.
  assert (H : forall fuel r,
             keep is_token_char (rstrip_fuel fuel r) = keep is_token_char r).
  { induction fuel as [|fuel IH]; intros r; simpl; [reflexivity|].
    destruct (drop_space_rev r) as [r'|] eqn:E; [|reflexivity].
    rewrite IH. now apply keep_drop_space_rev. }
  rewrite H, keep_rev. apply rev_string_involutive.
Qed.

(** Stripping removes no character of the token class. *)
Lemma keep_strip s : keep is_token_char (strip s) = keep is_token_char s.
Proof. unfold strip. now rewrite keep_rstrip, keep_lstrip. Qed.

Lemma keep_all_in class s : all_in class s = true -> keep class s = s.
Proof.
  induction s as [|c s IH]; simpl; [reflexivity|].
  intros H. apply andb_prop in H. destruct H as [-> H]. now rewrite IH.
Qed.

Lemma all_in_keep class s : all_in class (keep class s) = true.
Proof.
  induction s as [|c s IH]; simpl; [reflexivity|].
  destruct (class c) eqn:E; simpl; [now rewrite E|exact IH].
Qed.

Lemma normalize_token_eq value label :
  normalize_token value label
  = if String.eqb (keep is_token_char value) ""
    then inl (ValueError (label ++ " cannot be empty.")%string)
    else inr (keep is_token_char value).
Proof.
  unfold normalize_token. rewrite keep_strip. cbn [truthy].
  now destruct (String.eqb (keep is_token_char value) "").
Qed.

Lemma normalize_token_is_token value label t :
  normalize_token value label = inr t -> is_token t = true.
Proof.
  rewrite normalize_token_eq.
  destruct (String.eqb (keep is_token_char value) "") eqn:E; [discriminate|].
  intros H. injection H as <-. unfold is_token. now rewrite E, all_in_keep.
Qed.

Lemma normalize_token_fixed t label :
  is_token t = true -> normalize_token t label = inr t.
Proof.
  unfold is_token. intros H. apply andb_prop in H. destruct H as [Hne Hall].
  rewrite normalize_token_eq, (keep_all_in _ _ Hall).
  now destruct (String.eqb t "").
Qed.

Lemma normalize_token_error value label e :
  normalize_token value label = inl e -> e = ValueError (label ++ " cannot be empty.")%string.
Proof.
  rewrite normalize_token_eq. destruct (String.eqb _ ""); [|discriminate].
  now intros H; injection H as <-.
Qed.

(** X10. [normalize_token] returns the characters of its argument that
    are letters, digits, underscores or hyphens, in order: what it strips
    at the ends would be removed anyway, and so is whitespace or
    punctuation inside. It raises [ValueError] with the message
    ["<label> cannot be empty."] exactly when no such character is left.
    What it returns is never empty, holds only characters of the class and
    is returned unchanged when normalised again. *)
Theorem normalize_token_keeps_class value label :
  normalize_token value label
  = (if String.eqb (keep is_token_char value) ""
     then inl (ValueError (label ++ " cannot be empty.")%string)
     else inr (keep is_token_char value))
  /\ forall t, normalize_token value label = inr t ->
       t <> "" /\ all_in is_token_char t = true
       /\ forall label', normalize_token t label' = inr t.
Proof.
  split; [apply normalize_token_eq|].
  intros t H. pose proof (normalize_token_is_token _ _ _ H) as Ht.
  split; [|split].
  - unfold is_token in Ht. apply andb_prop in Ht. destruct Ht as [Hne _].
    intros ->. discriminate.
  - unfold is_token in Ht. apply andb_prop in Ht. now destruct Ht.
  - intros label'. now apply normalize_token_fixed.
Qed.

(** ** Splitting what the operator types *)

Lemma drop_space_token c s : is_token_char c = true -> drop_space (String c s) = None.
Proof.
  intros Hc. destruct (drop_space (String c s)) as [s'|] eqn:E; [|reflexivity].
  destruct (drop_space_spec _ _ E) as [w [Hw Hs]].
  destruct (whitespace_not_token w Hw) as [_ [_ [[a [w' [-> Ha]]] _]]].
  simpl in Hs. injection Hs as -> _. congruence.
Qed.

Lemma drop_space_rev_token c s : is_token_char c = true -> drop_space_rev (String c s) = None.
Proof.
  intros Hc. destruct (drop_space_rev (String c s)) as [s'|] eqn:E; [|reflexivity].
  destruct (drop_space_rev_spec _ _ E) as [w [Hw Hs]].
  destruct (whitespace_not_token w Hw) as [_ [_ [_ [a [w' [Hr Ha]]]]]].
  rewrite Hr in Hs. simpl in Hs. injection Hs as -> _. congruence.
Qed.

Lemma drop_space_empty : drop_space "" = None.
Proof. reflexivity. Qed.

Lemma drop_space_rev_empty : drop_space_rev "" = None.
Proof. reflexivity. Qed.

Lemma lstrip_token t : all_in is_token_char t = true -> lstrip t = t.
Proof.
  unfold lstrip. destruct t as [|c t]; [reflexivity|].
  cbn [all_in String.length lstrip_fuel]. intros H. apply andb_prop in H.
  destruct H as [Hc _]. now rewrite drop_space_token.
Qed.

Lemma all_in_rev_onto class s : forall acc,
  all_in class (rev_string_onto acc s) = all_in class acc && all_in class s.
Proof.
  induction s as [|c s IH]; intros acc; simpl; [now rewrite andb_true_r|].
  rewrite IH. simpl. destruct (class c), (all_in class acc), (all_in class s); reflexivity.
Qed.

Lemma rstrip_token t : all_in is_token_char t = true -> rstrip t = t.
Proof.
  intros H. unfold rstrip.
  assert (Hr : all_in is_token_char (rev_string t) = true)
    by (unfold rev_string; now rewrite all_in_rev_onto).
  assert (Hfix : rstrip_fuel (String.length t) (rev_string t) = rev_string t).
  { destruct (rev_string t) as [|c r]; destruct (String.length t); try reflexivity.
    cbn [all_in] in Hr. apply andb_prop in Hr. destruct Hr as [Hc _].
    cbn [rstrip_fuel]. now rewrite drop_space_rev_token. }
  rewrite Hfix. apply rev_string_involutive.
Qed.

Lemma strip_token t : all_in is_token_char t = true -> strip t = t.
Proof. intros H. unfold strip. now rewrite lstrip_token, rstrip_token. Qed.

Lemma is_token_all t : is_token t = true -> t <> "" /\ all_in is_token_char t = true.
Proof.
  unfold is_token. intros H. apply andb_prop in H. destruct H as [Hne Hall].
  split; [intros ->; discriminate|exact Hall].
Qed.

Lemma is_token_truthy t : is_token t = true -> truthy (VStr t) = true.
Proof. unfold is_token. intros H. apply andb_prop in H. now destruct H. Qed.

Lemma string_app_nil_r (s : string) : (s ++ "")%string = s.
Proof. induction s as [|c s IH]; simpl; [reflexivity|now rewrite IH]. Qed.

(** Reading a word of token characters. *)
Lemma split_fuel_token t : forall fuel word rest,
  all_in is_token_char t = true ->
  split_fuel (String.length t + fuel) word (t ++ rest)
  = split_fuel fuel (word ++ t) rest.
Proof.
  induction t as [|c t IH]; intros fuel word rest Ht.
  - simpl. now rewrite string_app_nil_r.
  - cbn [all_in] in Ht. apply andb_prop in Ht. destruct Ht as [Hc Ht].
    cbn [String.length Nat.add append split_fuel].
    rewrite (drop_space_token c _ Hc), (IH _ _ _ Ht), string_app_assoc. reflexivity.
Qed.

Lemma split_token a : is_token a = true -> split a = [a].
Proof.
  intros Ha. destruct (is_token_all _ Ha) as [Hane Haall].
  unfold split.
  pose proof (split_fuel_token a 1 "" "" Haall) as H.
  rewrite string_app_nil_r in H.
  replace (S (String.length a)) with (String.length a + 1)%nat by lia.
  rewrite H. cbn [append split_fuel]. rewrite drop_space_empty.
  destruct (String.eqb_spec a "") as [|_]; [contradiction|reflexivity].
Qed.

Lemma split_fuel_space fuel word s :
  split_fuel (S fuel) word (String " " s)
  = (if String.eqb word "" then [] else [word]) ++ split_fuel fuel "" s.
Proof. reflexivity. Qed.

Lemma split_token_pair a b :
  is_token a = true -> is_token b = true ->
  split (a ++ " " ++ b) = [a; b].
Proof.
  intros Ha Hb. destruct (is_token_all _ Ha) as [Hane Haall].
  pose proof (split_token b Hb) as Hsplit.
  unfold split in *. rewrite !string_length_app.
  replace (S (String.length a + (String.length " " + String.length b)))
    with (String.length a + S (S (String.length b)))%nat by (simpl; lia).
  rewrite split_fuel_token by exact Haall.
  cbn [append]. rewrite split_fuel_space.
  destruct (String.eqb_spec a "") as [|_]; [contradiction|].
  cbn [app]. now rewrite Hsplit.
Qed.

Lemma comma_not_token c : is_token_char c = true -> Ascii.eqb c "," = false.
Proof.
  intros H. destruct (Ascii.eqb_spec c ",") as [->|]; [discriminate H|reflexivity].
Qed.

Lemma contains_comma_token t rest :
  all_in is_token_char t = true ->
  contains "," (t ++ rest) = contains "," rest
  /\ before "," (t ++ rest) = (t ++ before "," rest)%string
  /\ after "," (t ++ rest) = after "," rest.
Proof.
  induction t as [|c t IH]; intros Ht; [now repeat split|].
  cbn [all_in] in Ht. apply andb_prop in Ht. destruct Ht as [Hc Ht].
  destruct (IH Ht) as [H1 [H2 H3]].
  cbn [append contains before after]. rewrite (comma_not_token c Hc), H1, H2, H3.
  now repeat split.
Qed.

(** ** Region and sensor entries *)

Lemma parse_region_sensor_result line default :
  match Cli.parse_region_sensor line default with
  | inr (region, sensor_id) => is_token region = true /\ is_token sensor_id = true
  | inl exc => is_value_error exc = true
  end.
Proof.
  unfold Cli.parse_region_sensor.
  destruct (if contains "," line then _ else _) as [|first others]; [reflexivity|].
  destruct (negb (truthy (VStr first))); [reflexivity|].
  destruct (normalize_token first "Region") as [exc|region] eqn:Er.
  { now rewrite (normalize_token_error _ _ _ Er). }
  apply normalize_token_is_token in Er.
  assert (Hdefault :
            match
              (if negb (truthy (ostr default))
               then inl (ValueError
                           "Sensor ID missing and no default sensor found in metadata.")
               else
                 match normalize_token (match default with Some d => d | None => "" end)
                         "Sensor ID" with
                 | inl exc => inl exc
                 | inr sensor_id => inr (region, sensor_id)
                 end) with
            | inr (region, sensor_id) => is_token region = true /\ is_token sensor_id = true
            | inl exc => is_value_error exc = true
            end).
  { destruct (negb (truthy (ostr default))); [reflexivity|].
    destruct (normalize_token _ "Sensor ID") as [exc|sensor_id] eqn:Es.
    - now rewrite (normalize_token_error _ _ _ Es).
    - apply normalize_token_is_token in Es. now split. }
  destruct others as [|second others]; [exact Hdefault|].
  destruct (truthy (VStr second)); [|exact Hdefault].
  destruct (normalize_token second "Sensor ID") as [exc|sensor_id] eqn:Es.
  - now rewrite (normalize_token_error _ _ _ Es).
  - apply normalize_token_is_token in Es. now split.
Qed.

(** X11. What [parse_region_sensor] returns is a pair of tokens, each
    non-empty and made of letters, digits, underscores and hyphens only,
    and what it raises is a [ValueError]. Two tokens typed with a space or
    with a comma between them come back as typed; a region typed alone
    takes the default sensor, and is refused when there is none. *)
Theorem parse_region_sensor_round_trip region sensor_id default :
  is_token region = true -> is_token sensor_id = true ->
  Cli.parse_region_sensor (region ++ " " ++ sensor_id) default = inr (region, sensor_id)
  /\ Cli.parse_region_sensor (region ++ "," ++ sensor_id) default = inr (region, sensor_id)
  /\ Cli.parse_region_sensor region (Some sensor_id) = inr (region, sensor_id)
  /\ Cli.parse_region_sensor region None
     = inl (ValueError "Sensor ID missing and no default sensor found in metadata.")
  /\ forall line,
       match Cli.parse_region_sensor line default with
       | inr (r, s) => is_token r = true /\ is_token s = true
       | inl exc => is_value_error exc = true
       end.
Proof.
  intros Hr Hs.
  destruct (is_token_all _ Hr) as [Hrne Hrall].
  destruct (is_token_all _ Hs) as [Hsne Hsall].
  pose proof (is_token_truthy _ Hr) as Hrt. pose proof (is_token_truthy _ Hs) as Hst.
  assert (Hnocomma : forall t, all_in is_token_char t = true -> contains "," t = false).
  { intros t Ht. destruct (contains_comma_token t "" Ht) as [H _].
    now rewrite string_app_nil_r in H. }
  split; [|split; [|split; [|split]]].
  - assert (Hc : contains "," (region ++ " " ++ sensor_id) = false).
    { destruct (contains_comma_token region (" " ++ sensor_id) Hrall) as [-> _].
      simpl. now apply Hnocomma. }
    unfold Cli.parse_region_sensor. rewrite Hc.
    rewrite (split_token_pair _ _ Hr Hs), Hrt, Hst. cbn [negb].
    now rewrite (normalize_token_fixed _ _ Hr), (normalize_token_fixed _ _ Hs).
  - assert (Hc : split_once "," (region ++ "," ++ sensor_id) = [region; sensor_id]).
    { unfold split_once.
      destruct (contains_comma_token region ("," ++ sensor_id) Hrall) as [-> [-> ->]].
      simpl. now rewrite string_app_nil_r. }
    assert (Hc' : contains "," (region ++ "," ++ sensor_id) = true).
    { destruct (contains_comma_token region ("," ++ sensor_id) Hrall) as [-> _].
      reflexivity. }
    unfold Cli.parse_region_sensor. rewrite Hc', Hc. cbn [map].
    rewrite (strip_token _ Hrall), (strip_token _ Hsall), Hrt, Hst.
    cbn [negb].
    now rewrite (normalize_token_fixed _ _ Hr), (normalize_token_fixed _ _ Hs).
  - unfold Cli.parse_region_sensor. rewrite (Hnocomma _ Hrall), (split_token _ Hr), Hrt.
    cbn [negb ostr]. rewrite (normalize_token_fixed _ _ Hr), Hst. cbn [negb].
    now rewrite (normalize_token_fixed _ _ Hs).
  - unfold Cli.parse_region_sensor. rewrite (Hnocomma _ Hrall), (split_token _ Hr), Hrt.
    cbn [negb ostr]. now rewrite (normalize_token_fixed _ _ Hr).
  - intros line. apply parse_region_sensor_result.
Qed.

Lemma parse_region_sensor_round_trip_witness :
  Cli.parse_region_sensor "Nyon CamFront" None = inr ("Nyon", "CamFront")
  /\ Cli.parse_region_sensor "Nyon,CamFront" None = inr ("Nyon", "CamFront").
Proof.
  destruct (parse_region_sensor_round_trip "Nyon" "CamFront" None
              ltac:(reflexivity) ltac:(reflexivity)) as [H1 [H2 _]].
  split; [exact H1|exact H2].
Defined.

(** ** The batch dialogue *)

Lemma batch_loop_result total : forall typed entries pending,
  match Cli.batch_loop total entries pending typed with
  | (_, rest, inr result) =>
      exists added used,
        result = entries ++ added
        /\ List.length added = List.length pending
        /\ Forall (fun e => is_token (fst e) = true /\ is_token (snd e) = true) added
        /\ typed = used ++ rest
        /\ (List.length pending <= List.length used)%nat
  | (_, _, inl exc) =>
      exc = ValueError "Batch entry cancelled or incomplete." \/ exc = Crash "EOFError"
  end.
Proof.
  induction typed as [|answer typed IH]; intros entries pending.
  - destruct pending as [|plan pending]; simpl.
    + exists [], []. rewrite app_nil_r. repeat split; auto.
    + now right.
  - destruct pending as [|plan pending].
    + simpl. exists [], []. rewrite app_nil_r. repeat split; auto.
    + cbn [Cli.batch_loop].
      destruct (negb (truthy (VStr (strip answer)))); [now left|].
      pose proof (parse_region_sensor_result (strip answer) (default_sensor plan)) as Hparse.
      destruct (Cli.parse_region_sensor (strip answer) (default_sensor plan))
        as [exc|[region sensor_id]].
      * rewrite Hparse. specialize (IH entries (plan :: pending)).
        destruct (Cli.batch_loop total entries (plan :: pending) typed)
          as [[out rest] [exc'|result]]; [exact IH|].
        destruct IH as [added [used [-> [Hlen [Htok [-> Hused]]]]]].
        exists added, (answer :: used).
        split; [reflexivity|]. split; [exact Hlen|]. split; [exact Htok|].
        split; [reflexivity|]. simpl in *. lia.
      * specialize (IH (entries ++ [(region, sensor_id)]) pending).
        destruct (Cli.batch_loop total (entries ++ [(region, sensor_id)]) pending typed)
          as [[out rest] [exc'|result]]; [exact IH|].
        destruct IH as [added [used [-> [Hlen [Htok [-> Hused]]]]]].
        exists ((region, sensor_id) :: added), (answer :: used).
        rewrite <- app_assoc.
        split; [reflexivity|]. split; [simpl; lia|].
        split; [constructor; [exact Hparse|exact Htok]|].
        split; [reflexivity|]. simpl. lia.
Qed.

Lemma collect_batch_result plans typed :
  match Cli.collect_batch_region_sensor plans typed with
  | (_, rest, inr entries) =>
      List.length entries = List.length plans
      /\ Forall (fun e => is_token (fst e) = true /\ is_token (snd e) = true) entries
      /\ exists used, typed = used ++ rest /\ (List.length plans <= List.length used)%nat
  | (_, _, inl exc) =>
      exc = ValueError "Batch entry cancelled or incomplete." \/ exc = Crash "EOFError"
  end.
Proof.
  unfold Cli.collect_batch_region_sensor.
  pose proof (batch_loop_result (Z.of_nat (List.length plans)) typed [] plans) as H.
  destruct (Cli.batch_loop (Z.of_nat (List.length plans)) [] plans typed)
    as [[out rest] [exc|entries]]; [exact H|].
  destruct H as [added [used [-> [Hlen [Htok [-> Hused]]]]]].
  cbn [app]. split; [exact Hlen|]. split; [exact Htok|]. now exists used.
Qed.

(** X12. When [collect_batch_region_sensor] returns, it returns exactly one
    entry per plan, each a pair of tokens, and it has read at least one
    line per plan. It raises only two exceptions: [ValueError] with the
    message ["Batch entry cancelled or incomplete."], for a line that is
    blank once stripped, and [EOFError], when the input ends. A line that
    does not parse costs nothing but the line: the same plan is asked
    again. *)
Theorem collect_batch_one_entry_per_plan plans typed :
  match Cli.collect_batch_region_sensor plans typed with
  | (_, rest, inr entries) =>
      List.length entries = List.length plans
      /\ Forall (fun e => is_token (fst e) = true /\ is_token (snd e) = true) entries
      /\ exists used, typed = used ++ rest /\ (List.length plans <= List.length used)%nat
  | (_, _, inl exc) =>
      exc = ValueError "Batch entry cancelled or incomplete." \/ exc = Crash "EOFError"
  end
  /\ forall plan answer,
       truthy (VStr (strip answer)) = true ->
       (exists exc, Cli.parse_region_sensor (strip answer) (default_sensor plan) = inl exc) ->
       forall total entries pending,
         snd (Cli.batch_loop total entries (plan :: pending) (answer :: typed))
         = snd (Cli.batch_loop total entries (plan :: pending) typed).
Proof.
  split.
  - apply collect_batch_result.
  - intros plan answer Hline [exc Hexc] total entries pending.
    cbn [Cli.batch_loop]. rewrite Hline. cbn [negb]. rewrite Hexc.
    pose proof (parse_region_sensor_result (strip answer) (default_sensor plan)) as Hparse.
    rewrite Hexc in Hparse. rewrite Hparse.
    now destruct (Cli.batch_loop total entries (plan :: pending) typed) as [[out rest] res].
Qed.

(** ** How a batch run ends *)

Section BatchOutcome.

Context {lib : PyLib} {world : World}.

Variables (pose_epoch : string) (max_per_seq : Z) (output_dir : string).

Hypothesis max_per_seq_nonzero : max_per_seq <> 0.

Hypothesis pose_errors_handled :
  forall p epoch e, load_pose_csv p epoch = inl e -> is_os_or_value_error e = true.

Lemma plan_step_returns plan region sensor_id :
  exists events counts,
    plan_step plan region sensor_id pose_epoch max_per_seq output_dir
    = (events, inr counts).
Proof.
  unfold plan_step.
  assert (Hpose : exists log_pose pose_lookup,
             load_pose_lookup (pose_csv_path plan) pose_epoch true (pose_csv_path plan)
             = (log_pose, inr pose_lookup)).
  { unfold load_pose_lookup. destruct (pose_csv_path plan) as [p|]; [|eauto].
    destruct (negb (truthy (VStr p))); [eauto|].
    destruct (load_pose_csv (abspath p) pose_epoch) as [exc|poses] eqn:E; [|eauto].
    rewrite (pose_errors_handled _ _ _ E). eauto. }
  destruct Hpose as [log_pose [pose_lookup ->]].
  unfold process_plan.
  destruct (collect_image_entries (folder plan)) as [|entry entries]; [eauto|].
  destruct (build_records_total (entry :: entries) pose_lookup) as [records [-> [Hwt _]]].
  destruct records as [|r records]; [eauto|].
  destruct (process_records_defined sensor_id max_per_seq output_dir (r :: records) region
              (lidar_paths plan) max_per_seq_nonzero Hwt) as [events [counts ->]].
  eauto.
Qed.

Lemma multi_loop_returns plans : forall batch_entries log total lidar_total acquisition_total,
  List.length batch_entries = List.length plans ->
  snd (multi_loop plans batch_entries pose_epoch max_per_seq output_dir
         log total lidar_total acquisition_total) = Exit 0.
Proof.
  induction plans as [|plan plans IH];
    intros [|[region sensor_id] batch_entries] log total lidar_total acquisition_total Hlen;
    try discriminate; [reflexivity|].
  cbn [multi_loop].
  destruct (plan_step_returns plan region sensor_id) as [events [[[c cl] ac] ->]].
  apply IH. simpl in Hlen. lia.
Qed.

(** X13. A batch run whose entries come from [collect_batch_region_sensor]
    never trips over [zip(..., strict=True)]. Take a sequence size other
    than zero, a pose loader that raises only [OSError] or [ValueError],
    reads of the images' metadata that return ([extract_exif_metadata] on
    every image) and file operations that succeed. Then the run returns 0;
    or the operator entered a blank line, and it returns 1 after the
    dialogue and one line on stderr that says the entry was cancelled,
    with nothing written; or the input ended, and the [EOFError] escapes
    before anything is written. A pose file that fails to load never
    stops the batch. *)
Theorem batch_run_returns plans typed :
  collect_batch_region_sensor plans = snd (Cli.collect_batch_region_sensor plans typed) ->
  snd (run_multi_acquisition plans pose_epoch max_per_seq output_dir) = Exit 0
  \/ run_multi_acquisition plans pose_epoch max_per_seq output_dir
     = ([PrintErr "Batch entry cancelled or incomplete."], Exit 1)
  \/ run_multi_acquisition plans pose_epoch max_per_seq output_dir
     = ([], Uncaught (Crash "EOFError")).
Proof.
  intros Hbatch. unfold run_multi_acquisition. rewrite Hbatch.
  pose proof (collect_batch_result plans typed) as H.
  destruct (Cli.collect_batch_region_sensor plans typed) as [[out rest] [exc|entries]];
    cbn [snd].
  - destruct H as [->| ->]; [right; left|right; right]; reflexivity.
  - destruct H as [Hlen _]. left. now apply multi_loop_returns.
Qed.

End BatchOutcome.

Lemma batch_run_returns_witness :
  snd (run_multi_acquisition (lib := example_lib)
         (world := dialogue_world (fun _ => [image_a]) ["Nyon Cam"; "Bern,Cam"])
         two_folder_plans "gps" 2000 "/out") = Exit 0
  \/ run_multi_acquisition (lib := example_lib)
       (world := dialogue_world (fun _ => [image_a]) ["Nyon Cam"; "Bern,Cam"])
       two_folder_plans "gps" 2000 "/out"
     = ([PrintErr "Batch entry cancelled or incomplete."], Exit 1)
  \/ run_multi_acquisition (lib := example_lib)
       (world := dialogue_world (fun _ => [image_a]) ["Nyon Cam"; "Bern,Cam"])
       two_folder_plans "gps" 2000 "/out"
     = ([], Uncaught (Crash "EOFError")).
Proof.
  apply (batch_run_returns (lib := example_lib)
           (world := dialogue_world (fun _ => [image_a]) ["Nyon Cam"; "Bern,Cam"])
           "gps" 2000 "/out" ltac:(lia) ltac:(intros p epoch e H; discriminate H)
           two_folder_plans ["Nyon Cam"; "Bern,Cam"]).
  reflexivity.
Defined.

(** ** Where the sensor and the region come from *)

(** X24. [resolve_sensor_id] prefers the command line to what the operator
    types, and that to the camera model of the metadata. With a value on
    the command line, or with prompting off, it shows nothing and reads
    nothing; otherwise it reads exactly one line. A token given on the
    command line is returned as it is; without one, a token typed at the
    prompt is, and an empty answer, or prompting off, returns the token
    of the metadata. Whatever it returns is a token; it raises only the
    two [ValueError]s of a missing sensor and the [EOFError] of [input].
    [resolve_region] does the same between the command line and the
    prompt. *)
Theorem resolve_sensor_id_precedence raw default_sensor prompt_prefix allow_prompt typed :
  let answer := Cli.resolve_sensor_id raw default_sensor prompt_prefix allow_prompt typed in
  match snd answer with
  | inr s => is_token s = true
  | inl exc =>
      exc = ValueError "Sensor ID cannot be empty."
      \/ exc = ValueError "Sensor ID missing and no default sensor found in metadata."
      \/ exc = Crash "EOFError"
  end
  /\ (if truthy (ostr raw) || negb allow_prompt
      then answer = ([], typed, snd answer)
      else exists prompt,
             fst (fst answer) = [Cli.Prompt prompt]
             /\ snd (fst answer) = tl typed
             /\ (typed = [] -> snd answer = inl (Crash "EOFError")))
  /\ (forall t, is_token t = true ->
        (raw = Some t -> snd answer = inr t)
        /\ (truthy (ostr raw) = false -> allow_prompt = true ->
            forall rest, typed = t :: rest -> snd answer = inr t)
        /\ (truthy (ostr raw) = false -> default_sensor = Some t ->
            allow_prompt = false \/ (exists line rest, typed = line :: rest /\ strip line = "") ->
            snd answer = inr t))
  /\ forall prompt,
       let region := Cli.resolve_region raw prompt typed in
       match snd region with
       | inr r => is_token r = true
       | inl exc => exc = ValueError "Region cannot be empty." \/ exc = Crash "EOFError"
       end
       /\ (if truthy (ostr raw)
           then region = ([], typed, snd region)
           else fst (fst region) = [Cli.Prompt prompt] /\ snd (fst region) = tl typed)
       /\ forall t, is_token t = true ->
            (raw = Some t -> snd region = inr t)
            /\ (truthy (ostr raw) = false ->
                forall rest, typed = t :: rest -> snd region = inr t).
Proof.
  assert (Hnorm : forall value label,
             match normalize_token value label with
             | inr s => is_token s = true
             | inl exc => exc = ValueError (label ++ " cannot be empty.")%string
             end).
  { intros value label. destruct (normalize_token value label) as [exc|s] eqn:E.
    - now apply (normalize_token_error value label).
    - now apply (normalize_token_is_token value label). }
  assert (Hstrip : forall t, is_token t = true -> strip t = t).
  { intros t Ht. apply strip_token. now apply is_token_all. }
  split; [|split; [|split]].
  - cbv zeta. unfold Cli.resolve_sensor_id.
    destruct (truthy (ostr raw)).
    { cbn [snd]. specialize (Hnorm (match raw with Some r => r | None => "" end) "Sensor ID").
      destruct (normalize_token _ "Sensor ID"); [now left|exact Hnorm]. }
    destruct (truthy (ostr default_sensor)).
    + destruct allow_prompt.
      * destruct typed as [|line rest]; cbn [Cli.input snd]; [now right; right|].
        match goal with
        | |- match normalize_token ?v ?l with _ => _ end =>
            specialize (Hnorm v l); destruct (normalize_token v l); [now left|exact Hnorm]
        end.
      * cbn [snd].
        match goal with
        | |- match normalize_token ?v ?l with _ => _ end =>
            specialize (Hnorm v l); destruct (normalize_token v l); [now left|exact Hnorm]
        end.
    + destruct allow_prompt; cbn [negb snd]; [|now right; left].
      destruct typed as [|line rest]; cbn [Cli.input snd]; [now right; right|].
      specialize (Hnorm line "Sensor ID").
      destruct (normalize_token line "Sensor ID"); [now left|exact Hnorm].
  - cbv zeta. unfold Cli.resolve_sensor_id.
    destruct (truthy (ostr raw)); [reflexivity|]. cbn [orb].
    destruct (truthy (ostr default_sensor)), allow_prompt; cbn [negb]; try reflexivity.
    all: destruct typed as [|line rest]; cbn [Cli.input fst snd tl].
    all: eexists; (split; [reflexivity|]); (split; [reflexivity|]);
      first [reflexivity|discriminate].
  - intros t Ht. cbv zeta. unfold Cli.resolve_sensor_id.
    pose proof (is_token_truthy t Ht) as Htruthy.
    split; [|split].
    + intros ->. cbn [ostr]. rewrite Htruthy. cbn [snd]. now apply normalize_token_fixed.
    + intros -> -> rest ->.
      destruct (truthy (ostr default_sensor)); cbn [negb Cli.input snd].
      * rewrite (Hstrip t Ht), Htruthy. now apply normalize_token_fixed.
      * now apply normalize_token_fixed.
    + intros -> -> Hcase. cbn [ostr]. rewrite Htruthy.
      destruct Hcase as [->|[line [rest [-> Hblank]]]].
      * cbn [snd]. now apply normalize_token_fixed.
      * destruct allow_prompt; cbn [Cli.input snd].
        -- rewrite Hblank. cbn [truthy String.eqb negb]. now apply normalize_token_fixed.
        -- now apply normalize_token_fixed.
  - intros prompt. cbv zeta. unfold Cli.resolve_region.
    split; [|split].
    + destruct raw as [r|]; cbn [ostr].
      * destruct (truthy (VStr r)); cbn [snd].
        -- specialize (Hnorm r "Region").
           destruct (normalize_token r "Region"); [now left|exact Hnorm].
        -- destruct typed as [|line rest]; cbn [Cli.input snd]; [now right|].
           specialize (Hnorm line "Region").
           destruct (normalize_token line "Region"); [now left|exact Hnorm].
      * destruct typed as [|line rest]; cbn [Cli.input snd]; [now right|].
        specialize (Hnorm line "Region").
        destruct (normalize_token line "Region"); [now left|exact Hnorm].
    + destruct raw as [r|]; cbn [ostr].
      * destruct (truthy (VStr r)); [reflexivity|].
        destruct typed as [|line rest]; cbn [Cli.input fst snd tl]; now split.
      * cbn [truthy]. destruct typed as [|line rest]; cbn [Cli.input fst snd tl]; now split.
    + intros t Ht. pose proof (is_token_truthy t Ht) as Htruthy. split.
      * intros ->. rewrite Htruthy. cbn [snd]. now apply normalize_token_fixed.
      * intros Hraw rest ->. destruct raw as [r|]; cbn [ostr] in Hraw.
        -- rewrite Hraw. cbn [Cli.input snd]. now apply normalize_token_fixed.
        -- cbn [Cli.input snd]. now apply normalize_token_fixed.
Qed.

(** ** The pose table *)

Section PoseTable.

Context {lib : PyLib}.

Variable seconds_to_utc : float -> string -> exn + string.

Lemma find_app {A : Type} (f : A -> bool) (l l' : list A) :
  find f (l ++ l') = match find f l with
                     | Some x => Some x
                     | None => find f l'
                     end.
Proof. induction l as [|x l IH]; simpl; [reflexivity|]. destruct (f x); auto. Qed.

Lemma normalized_headers_fold names : forall normalized k,
  dict_get k
    (fold_left
       (fun normalized name =>
          if truthy (VStr name)
          then dict_set (CsvUtils.normalize_header_name name) name normalized
          else normalized)
       names normalized)
  = match header_for names k with
    | Some header => Some header
    | None => dict_get k normalized
    end.
Proof.
  induction names as [|name names IH]; intros normalized k; [reflexivity|].
  cbn [fold_left]. rewrite IH. unfold header_for. cbn [rev]. rewrite find_app.
  destruct (find _ (rev names)); [reflexivity|].
  cbn [find]. destruct (truthy (VStr name)); cbn [andb]; [|reflexivity].
  destruct (String.eqb_spec (CsvUtils.normalize_header_name name) k) as [<-|Hne].
  - apply dict_get_set_eq.
  - apply dict_get_set_ne. congruence.
Qed.

Lemma normalized_headers_get names k :
  dict_get k (CsvUtils.normalized_headers names) = header_for names k.
Proof.
  unfold CsvUtils.normalized_headers. rewrite normalized_headers_fold.
  now destruct (header_for names k).
Qed.

Lemma first_alias_column names aliases :
  CsvUtils.first_alias (CsvUtils.normalized_headers names) aliases
  = column_for names aliases.
Proof.
  induction aliases as [|alias aliases IH]; simpl; [reflexivity|].
  rewrite normalized_headers_get, IH. reflexivity.
Qed.

Lemma column_map_fold (f : list string -> option string) (table : list (string * list string)) :
  forall mapping key,
    NoDup (map fst table) ->
    dict_get key
      (fold_left
         (fun mapping item =>
            match f (snd item) with
            | Some header => dict_set (fst item) header mapping
            | None => mapping
            end)
         table mapping)
    = match dict_get key table with
      | Some aliases =>
          match f aliases with
          | Some header => Some header
          | None => dict_get key mapping
          end
      | None => dict_get key mapping
      end.
Proof.
  induction table as [|[k aliases] table IH]; intros mapping key Hnd; [reflexivity|].
  inversion Hnd as [|? ? Hnotin Hnd']; subst.
  cbn [fold_left fst snd dict_get]. rewrite (IH _ _ Hnd').
  destruct (String.eqb_spec key k) as [->|Hne].
  - rewrite (proj2 (dict_get_None k table)) by exact Hnotin.
    destruct (f aliases); [apply dict_get_set_eq|reflexivity].
  - destruct (dict_get key table) as [al|].
    + destruct (f al); [reflexivity|].
      destruct (f aliases); [now apply dict_get_set_ne|reflexivity].
    + destruct (f aliases); [now apply dict_get_set_ne|reflexivity].
Qed.

Lemma column_map_get names key :
  dict_get key (CsvUtils.build_pose_csv_column_map names)
  = match dict_get key POSE_CSV_FIELD_ALIASES with
    | Some aliases => column_for names aliases
    | None => None
    end.
Proof.
  unfold CsvUtils.build_pose_csv_column_map.
  rewrite (column_map_fold (CsvUtils.first_alias (CsvUtils.normalized_headers names)))
    by (simpl; repeat constructor; simpl; intuition discriminate).
  destruct (dict_get key POSE_CSV_FIELD_ALIASES) as [aliases|]; [|reflexivity].
  rewrite first_alias_column. now destruct (column_for names aliases).
Qed.

Lemma header_for_sound names k header :
  header_for names k = Some header ->
  In header names /\ header <> "" /\ CsvUtils.normalize_header_name header = k.
Proof.
  unfold header_for. intros H. apply find_some in H. destruct H as [Hin H].
  apply andb_prop in H. destruct H as [Ht Hk].
  split; [now apply in_rev|]. split.
  - intros ->. discriminate.
  - now apply String.eqb_eq.
Qed.

Lemma header_for_complete names k header :
  In header names -> header <> "" -> CsvUtils.normalize_header_name header = k ->
  exists header', header_for names k = Some header'.
Proof.
  intros Hin Hne Hk. unfold header_for.
  destruct (find _ (rev names)) as [h|] eqn:E; [eauto|].
  exfalso. apply in_rev in Hin. apply (find_none _ _ E header) in Hin.
  apply andb_false_iff in Hin. destruct Hin as [H|H].
  - destruct header; [contradiction|discriminate].
  - rewrite Hk, String.eqb_refl in H. discriminate.
Qed.

Lemma column_for_sound names aliases header :
  column_for names aliases = Some header ->
  In header names /\ header <> ""
  /\ exists alias,
       In alias aliases
       /\ CsvUtils.normalize_header_name header = CsvUtils.normalize_header_name alias.
Proof.
  induction aliases as [|alias aliases IH]; simpl; [discriminate|].
  destruct (header_for names (CsvUtils.normalize_header_name alias)) as [h|] eqn:E.
  - intros H. injection H as ->.
    destruct (header_for_sound _ _ _ E) as [Hin [Hne Hk]].
    split; [exact Hin|]. split; [exact Hne|]. exists alias. split; [now left|exact Hk].
  - intros H. destruct (IH H) as [Hin [Hne [a [Ha Hk]]]].
    split; [exact Hin|]. split; [exact Hne|]. exists a. split; [now right|exact Hk].
Qed.

Lemma column_for_complete names aliases header alias :
  In header names -> header <> "" -> In alias aliases ->
  CsvUtils.normalize_header_name header = CsvUtils.normalize_header_name alias ->
  exists header', column_for names aliases = Some header'.
Proof.
  intros Hin Hne Ha Hk. induction aliases as [|a aliases IH]; [contradiction|].
  simpl. destruct (header_for names (CsvUtils.normalize_header_name a)) as [h|] eqn:E;
    [eauto|].
  destruct Ha as [->|Ha]; [|now apply IH].
  destruct (header_for_complete names _ header Hin Hne Hk) as [h' Hh'].
  rewrite Hh' in E. discriminate.
Qed.

(** X14. [build_pose_csv_column_map] maps a canonical field exactly when
    some non-empty header has the normalised name of one of the field's
    aliases. The field is then read from the header that matches the
    earliest such alias of the alias list, and, among headers with the
    same normalised name, from the last one. Nothing else is in the
    mapping: its keys are canonical fields, its values headers of the
    file. *)
Theorem column_map_matches_aliases names key :
  dict_get key (CsvUtils.build_pose_csv_column_map names)
  = match dict_get key POSE_CSV_FIELD_ALIASES with
    | Some aliases => column_for names aliases
    | None => None
    end
  /\ (forall header,
        dict_get key (CsvUtils.build_pose_csv_column_map names) = Some header ->
        In header names /\ header <> ""
        /\ exists aliases alias,
             dict_get key POSE_CSV_FIELD_ALIASES = Some aliases /\ In alias aliases
             /\ CsvUtils.normalize_header_name header
                = CsvUtils.normalize_header_name alias)
  /\ (forall aliases alias header,
        dict_get key POSE_CSV_FIELD_ALIASES = Some aliases -> In alias aliases ->
        In header names -> header <> "" ->
        CsvUtils.normalize_header_name header = CsvUtils.normalize_header_name alias ->
        exists header',
          dict_get key (CsvUtils.build_pose_csv_column_map names) = Some header').
Proof.
  split; [apply column_map_get|]. split.
  - intros header. rewrite column_map_get.
    destruct (dict_get key POSE_CSV_FIELD_ALIASES) as [aliases|]; [|discriminate].
    intros H. destruct (column_for_sound _ _ _ H) as [Hin [Hne [alias [Ha Hk]]]].
    split; [exact Hin|]. split; [exact Hne|]. now exists aliases, alias.
  - intros aliases alias header Hal Ha Hin Hne Hk. rewrite column_map_get, Hal.
    now apply (column_for_complete names aliases header alias).
Qed.

(** ** Loading the rows *)

Lemma load_rows_get column_map epoch header rows : forall poses result k,
  CsvUtils.load_rows seconds_to_utc column_map epoch header rows poses = inr result ->
  dict_get k result
  = match last_pose seconds_to_utc column_map epoch header rows k with
    | Some pose => Some pose
    | None => dict_get k poses
    end.
Proof.
  induction rows as [|row rows IH]; intros poses result k H.
  - simpl in H. injection H as <-. reflexivity.
  - cbn [CsvUtils.load_rows last_pose] in *.
    destruct (CsvUtils.pose_of_row seconds_to_utc column_map epoch header row)
      as [exc|[[key pose]|]]; [discriminate| |].
    + rewrite (IH _ _ k H).
      destruct (last_pose seconds_to_utc column_map epoch header rows k); [reflexivity|].
      destruct (String.eqb_spec key k) as [->|Hne].
      * apply dict_get_set_eq.
      * apply dict_get_set_ne. congruence.
    + rewrite (IH _ _ k H).
      now destruct (last_pose seconds_to_utc column_map epoch header rows k).
Qed.

Lemma load_rows_NoDup column_map epoch header rows : forall poses result,
  NoDup (map fst poses) ->
  CsvUtils.load_rows seconds_to_utc column_map epoch header rows poses = inr result ->
  NoDup (map fst result).
Proof.
  induction rows as [|row rows IH]; intros poses result Hnd H.
  - simpl in H. now injection H as <-.
  - cbn [CsvUtils.load_rows] in H.
    destruct (CsvUtils.pose_of_row seconds_to_utc column_map epoch header row)
      as [exc|[[key pose]|]]; [discriminate| |].
    + apply (IH _ _ (dict_set_NoDup key pose poses Hnd) H).
    + apply (IH _ _ Hnd H).
Qed.

Lemma load_rows_error column_map epoch header rows : forall poses exc,
  CsvUtils.load_rows seconds_to_utc column_map epoch header rows poses = inl exc ->
  exists row,
    In row rows
    /\ CsvUtils.pose_of_row seconds_to_utc column_map epoch header row = inl exc.
Proof.
  induction rows as [|row rows IH]; intros poses exc H; [discriminate|].
  cbn [CsvUtils.load_rows] in H.
  destruct (CsvUtils.pose_of_row seconds_to_utc column_map epoch header row)
    as [e|[[key pose]|]] eqn:E.
  - injection H as ->. exists row. split; [now left|exact E].
  - destruct (IH _ _ H) as [r [Hin Hr]]. exists r. split; [now right|exact Hr].
  - destruct (IH _ _ H) as [r [Hin Hr]]. exists r. split; [now right|exact Hr].
Qed.

(** X15. [load_pose_csv] checks the epoch before it looks at the file, then
    the file, then its header. When it returns, the reader has read the
    file to its end and the lookup holds, under every key, the pose of the
    last row stored under that key: rows whose names normalise alike (same
    base name in another folder, another extension or another case)
    replace one another. [build_records] then attaches to an image the
    pose of the last row whose name normalises like the image's path.
    Past the header checks it raises the exception of [seconds_to_utc] on
    one of the rows, or the one the reader raises when it cannot read
    on. *)
Theorem load_pose_csv_last_row_wins file epoch :
  (String.eqb epoch "gps" || String.eqb epoch "unix" = false ->
   CsvUtils.load_pose_csv seconds_to_utc file epoch
   = inl (ValueError "pose-epoch must be 'gps' or 'unix'."))
  /\ (forall poses,
        CsvUtils.load_pose_csv seconds_to_utc file epoch = inr poses ->
        exists table names header,
          file = inr table /\ fieldnames table = Some names
          /\ read_error table = None
          /\ column_for names ["file_name"; "filename"; "image_name"; "imagename"]
             = Some header
          /\ NoDup (map fst poses)
          /\ (forall k,
                dict_get k poses
                = last_pose seconds_to_utc (CsvUtils.build_pose_csv_column_map names)
                    epoch header (table_rows table) k)
          /\ forall entry,
               pose_for poses entry
               = last_pose seconds_to_utc (CsvUtils.build_pose_csv_column_map names)
                   epoch header (table_rows table) (normalize_image_key (path entry)))
  /\ (forall exc,
        String.eqb epoch "gps" || String.eqb epoch "unix" = true ->
        CsvUtils.load_pose_csv seconds_to_utc file epoch = inl exc ->
        file = inl exc
        \/ exists table,
             file = inr table
             /\ (exc = ValueError "Pose CSV is missing headers."
                 \/ exc = ValueError "Pose CSV is missing a file_name column."
                 \/ (exists names header row,
                       fieldnames table = Some names /\ In row (table_rows table)
                       /\ CsvUtils.pose_of_row seconds_to_utc
                            (CsvUtils.build_pose_csv_column_map names) epoch header row
                          = inl exc)
                 \/ read_error table = Some exc)).
Proof.
  split; [|split].
  - intros He. unfold CsvUtils.load_pose_csv. now rewrite He.
  - intros poses. unfold CsvUtils.load_pose_csv.
    destruct (negb _); [discriminate|].
    destruct file as [exc|table]; [discriminate|].
    destruct (fieldnames table) as [[|name names]|] eqn:Ef; try discriminate.
    pose proof (column_map_get (name :: names) "file_name") as Hcol.
    cbn [dict_get String.eqb Ascii.eqb Bool.eqb POSE_CSV_FIELD_ALIASES] in Hcol.
    destruct (dict_get "file_name" (CsvUtils.build_pose_csv_column_map (name :: names)))
      as [header|]; [|discriminate].
    destruct (CsvUtils.load_rows seconds_to_utc
                (CsvUtils.build_pose_csv_column_map (name :: names)) epoch header
                (table_rows table) []) as [exc|loaded] eqn:H; [discriminate|].
    destruct (read_error table) as [exc|] eqn:Er; [discriminate|].
    intros Hp. injection Hp as <-.
    exists table, (name :: names), header.
    split; [reflexivity|]. split; [exact Ef|]. split; [exact Er|]. split; [now symmetry|].
    assert (Hget : forall k,
               dict_get k loaded
               = last_pose seconds_to_utc
                   (CsvUtils.build_pose_csv_column_map (name :: names)) epoch header
                   (table_rows table) k).
    { intros k. rewrite (load_rows_get _ _ _ _ _ _ k H).
      now destruct (last_pose _ _ _ _ _ k). }
    split; [apply (load_rows_NoDup _ _ _ _ [] _ (NoDup_nil _) H)|].
    split; [exact Hget|].
    intros entry. unfold pose_for. rewrite <- Hget.
    now destruct loaded.
  - intros exc He H. unfold CsvUtils.load_pose_csv in H. rewrite He in H.
    cbn [negb] in H.
    destruct file as [e|table]; [left; now injection H as ->|]. right. exists table.
    split; [reflexivity|].
    destruct (fieldnames table) as [[|name names]|] eqn:Ef;
      try (injection H as <-; now left).
    destruct (dict_get "file_name" (CsvUtils.build_pose_csv_column_map (name :: names)))
      as [header|]; [|injection H as <-; right; now left].
    right. right.
    destruct (CsvUtils.load_rows seconds_to_utc
                (CsvUtils.build_pose_csv_column_map (name :: names)) epoch header
                (table_rows table) []) as [e|loaded] eqn:Hl.
    + injection H as ->. left.
      destruct (load_rows_error _ _ _ _ _ _ Hl) as [row [Hin Hrow]].
      now exists (name :: names), header, row.
    + right. destruct (read_error table) as [e|]; [|discriminate]. now injection H as ->.
Qed.

End PoseTable.

(** ** Acquisition folders *)

Lemma insert_name_perm x l : Permutation (insert_name x l) (x :: l).
Proof.
  induction l as [|y l IH]; simpl; [reflexivity|].
  destruct (String_as_OT.compare y x); try reflexivity;
    (rewrite IH; apply perm_swap).
Qed.

Lemma sorted_perm names : Permutation (sorted names) names.
Proof.
  induction names as [|x names IH]; simpl; [reflexivity|].
  rewrite insert_name_perm. now constructor.
Qed.

Lemma name_le_of_compare y x : String_as_OT.compare y x <> Gt -> name_le y x.
Proof.
  intros H. unfold name_le.
  destruct (String_as_OT.compare_spec y x) as [Heq|Hlt|Hgt]; [now right|now left|].
  now contradiction H.
Qed.

Lemma name_le_of_gt y x : String_as_OT.compare y x = Gt -> name_le x y.
Proof.
  intros H. left.
  destruct (String_as_OT.compare_spec y x) as [Heq|Hlt|Hgt]; try discriminate. exact Hgt.
Qed.

Lemma name_le_trans a b c : name_le a b -> name_le b c -> name_le a c.
Proof.
  unfold name_le. intros [H1| ->] [H2| ->]; auto.
  left. now apply (string_lt_trans a b c).
Qed.

Lemma insert_name_sorted x l :
  StronglySorted name_le l -> StronglySorted name_le (insert_name x l).
Proof.
  induction 1 as [|y l Hs IH Hy]; simpl; [repeat constructor|].
  destruct (String_as_OT.compare y x) eqn:E.
  - constructor; [exact IH|].
    apply (Permutation_Forall (x := x :: l)); [symmetry; apply insert_name_perm|].
    constructor; [apply name_le_of_compare; congruence|exact Hy].
  - constructor; [exact IH|].
    apply (Permutation_Forall (x := x :: l)); [symmetry; apply insert_name_perm|].
    constructor; [apply name_le_of_compare; congruence|exact Hy].
  - constructor; [now constructor|].
    constructor; [now apply name_le_of_gt|].
    apply Forall_forall. intros z Hz. rewrite Forall_forall in Hy.
    apply (name_le_trans x y z); [now apply name_le_of_gt|now apply Hy].
Qed.

Lemma sorted_sorted names : StronglySorted name_le (sorted names).
Proof.
  induction names as [|x names IH]; simpl; [constructor|].
  now apply insert_name_sorted.
Qed.

Lemma StronglySorted_filter {A : Type} (R : A -> A -> Prop) (f : A -> bool) (l : list A) :
  StronglySorted R l -> StronglySorted R (filter f l).
Proof.
  induction 1 as [|x l Hs IH Hx]; simpl; [constructor|].
  destruct (f x); [|exact IH]. constructor; [exact IH|].
  rewrite Forall_forall in *. intros y Hy. apply filter_In in Hy. now apply Hx.
Qed.

Section Folders.

Context {world : World} {fs : FileSystem}.

Lemma folder_candidates_eq root entries :
  IoUtils.folder_candidates root entries
  = map (fun entry => candidate_of (path_join root entry) entry)
      (filter (is_acquisition root) entries).
Proof.
  unfold IoUtils.folder_candidates.
  induction entries as [|entry entries IH]; [reflexivity|].
  cbn [flat_map filter]. rewrite IH. unfold is_acquisition at 2, has_image.
  destruct (isdir (path_join root entry)); cbn [negb andb]; [|reflexivity].
  destruct (find_first_image_path (path_join root entry)) as [img|] eqn:E; [|reflexivity].
  destruct (truthy (VStr img)); [|reflexivity].
  cbn [map app]. f_equal. unfold candidate_of. now rewrite E.
Qed.

(** X16. [find_acquisition_folders] returns nothing when the root cannot
    be listed. Otherwise, when some entry of the root is a directory with
    an image in it, the candidates are exactly those entries, in ascending
    order of their names, each with its own first image, and images lying
    in the root itself are not looked at; only when there is no such entry
    is the root the single candidate, if it has an image. *)
Theorem find_acquisition_folders_prefers_subfolders root :
  (listdir root = None -> IoUtils.find_acquisition_folders root = [])
  /\ forall names,
       listdir root = Some names ->
       let folders := filter (is_acquisition root) (sorted names) in
       IoUtils.find_acquisition_folders root
       = match folders with
         | [] => if has_image root
                 then [candidate_of root (basename (normpath root))]
                 else []
         | _ => map (fun entry => candidate_of (path_join root entry) entry) folders
         end
       /\ StronglySorted name_le folders
       /\ (forall entry, In entry folders <-> In entry names /\ is_acquisition root entry = true)
       /\ Forall (fun c => has_image (cand_folder c) = true
                           /\ find_first_image_path (cand_folder c) = Some (sample_image c))
            (IoUtils.find_acquisition_folders root).
Proof.
  split.
  - intros H. unfold IoUtils.find_acquisition_folders. now rewrite H.
  - intros names Hl folders.
    assert (Heq : IoUtils.find_acquisition_folders root
                  = match folders with
                    | [] => if has_image root
                            then [candidate_of root (basename (normpath root))]
                            else []
                    | _ => map (fun entry => candidate_of (path_join root entry) entry) folders
                    end).
    { unfold IoUtils.find_acquisition_folders. rewrite Hl, folder_candidates_eq.
      fold folders. destruct folders as [|entry rest]; [|reflexivity].
      cbn [map]. unfold has_image, candidate_of.
      destruct (find_first_image_path root) as [img|]; [|reflexivity].
      destruct (truthy (VStr img)); reflexivity. }
    assert (Hin : forall entry,
               In entry folders <-> In entry names /\ is_acquisition root entry = true).
    { intros entry. unfold folders. rewrite filter_In.
      split; intros [H1 H2]; (split; [|exact H2]).
      - now apply (Permutation_in _ (sorted_perm names)).
      - now apply (Permutation_in _ (Permutation_sym (sorted_perm names))). }
    split; [exact Heq|].
    split; [apply StronglySorted_filter, sorted_sorted|].
    split; [exact Hin|].
    rewrite Heq. destruct folders as [|entry rest] eqn:Ef.
    + unfold has_image, candidate_of.
      destruct (find_first_image_path root) as [img|] eqn:Ei; [|constructor].
      destruct (truthy (VStr img)) eqn:Et; constructor; [|constructor].
      cbn [cand_folder sample_image]. rewrite Ei. now split.
    + apply Forall_forall. intros c Hc. apply in_map_iff in Hc.
      destruct Hc as [e [<- He]]. apply Hin in He. destruct He as [_ He].
      unfold is_acquisition in He. apply andb_prop in He. destruct He as [_ He].
      unfold candidate_of. cbn [cand_folder sample_image]. split; [exact He|].
      unfold has_image in He.
      now destruct (find_first_image_path (path_join root e)).
Qed.

(** X17. [collect_lidar_paths] returns the empty list exactly for a
    missing or empty path; for any other path it returns at least one file
    or raises, and what it raises is a [ValueError] (a directory without
    LiDAR files) or a [FileNotFoundError] (neither a directory nor a
    file), the two exceptions [run_single_acquisition] catches around
    it. *)
Theorem collect_lidar_paths_result lidar_path :
  match IoUtils.collect_lidar_paths lidar_path with
  | inr files => files = [] <-> truthy (ostr lidar_path) = false
  | inl exc => is_not_found_or_value_error exc = true /\ truthy (ostr lidar_path) = true
  end.
Proof.
  unfold IoUtils.collect_lidar_paths. destruct lidar_path as [p|]; [|now split].
  cbn [ostr]. destruct (truthy (VStr p)); cbn [negb]; [|now split].
  destruct (isdir p).
  - destruct (scan_lidar_files p); [now split|]. split; discriminate.
  - destruct (isfile p); [split; discriminate|now split].
Qed.

End Folders.

(** ** The trajectory table *)

Section TrajectoryTable.

Context {lib : PyLib} {world : World}.

Lemma build_pose_entry_columns info frame_index image_name row :
  build_pose_entry info frame_index image_name = Some row ->
  map fst row = POSE_FIELDS /\ IoUtils.trajectory_cells row = map snd row.
Proof.
  unfold build_pose_entry. intros H.
  repeat match type of H with
         | match ?x with Some _ => _ | None => _ end = Some _ =>
             destruct x; [|discriminate]
         end.
  injection H as <-. split; reflexivity.
Qed.

(** X18. Every row of every trajectory table [process_acquisition] writes
    has exactly the nine columns of the header, in the header's order, so
    that [write_trajectory_csv] never has to fill in a missing cell; and
    no table is written without a row. *)
Theorem trajectory_rows_match_header acquisition_id records sensor_id max_per_seq output_dir :
  0 < max_per_seq ->
  Forall (fun r => well_typed r = true) records ->
  exists log count,
    process_acquisition acquisition_id records sensor_id max_per_seq output_dir
    = Some (log, count)
    /\ forall file rows,
         In (WriteCsv file rows) log ->
         rows <> []
         /\ Forall (fun row => map fst row = POSE_FIELDS
                               /\ IoUtils.trajectory_cells row = map snd row) rows.
Proof.
  intros Hm Hwt.
  destruct (render_acquisition_total acquisition_id records sensor_id max_per_seq
              output_dir ltac:(lia) Hwt) as [st Hst].
  destruct (render_acquisition_state _ _ _ _ _ _ Hm Hst)
    as [chunks [Hposes [_ [Hrows [Hok [Hlog _]]]]]].
  destruct (process_acquisition_log _ _ _ _ _ _ Hst) as [notices [Hnot Hproc]].
  eexists. eexists. split; [exact Hproc|].
  intros file rows Hin.
  rewrite In_log_emitted in Hin; [|exact Hlog|exact Hnot|simpl; tauto].
  apply In_emit_csv in Hin. destruct Hin as [s [Hin [Hmark _]]].
  assert (Hall : Forall (fun row => map fst row = POSE_FIELDS
                                    /\ IoUtils.trajectory_cells row = map snd row)
                   (List.concat chunks)).
  { clear - Hrows. induction Hrows as [|item row items rows [name Hrow] _ IH];
      constructor; [|exact IH].
    now apply (build_pose_entry_columns _ _ _ _ Hrow). }
  assert (Hnd : NoDup (map fst (poses_by_sequence st))).
  { rewrite Hposes. apply combine_keys_NoDup, sequence_id_keys_NoDup. }
  split.
  - apply (Hok s) in Hmark. destruct Hmark as [rows0 [row [Hget [Hrow _]]]].
    rewrite (In_dict_get _ _ _ Hnd Hin) in Hget. injection Hget as <-.
    intros ->. contradiction.
  - rewrite Hposes in Hin. apply in_combine_r in Hin.
    rewrite Forall_forall in *. intros row Hrow. apply Hall.
    apply in_concat. now exists rows.
Qed.

End TrajectoryTable.

Lemma trajectory_rows_match_header_witness :
  exists log count,
    process_acquisition (lib := example_lib) "20240101-Nyon" two_posed_records "Cam" 10 "/out"
    = Some (log, count)
    /\ forall file rows,
         In (WriteCsv file rows) log ->
         rows <> []
         /\ Forall (fun row => map fst row = POSE_FIELDS
                               /\ IoUtils.trajectory_cells row = map snd row) rows.
Proof.
  apply (trajectory_rows_match_header (lib := example_lib) "20240101-Nyon"
           two_posed_records "Cam" 10 "/out"); [lia|repeat constructor].
Defined.

(** ** Every output lies below the acquisition folder *)

Lemma contains_app c (a b : string) : contains c (a ++ b) = contains c a || contains c b.
Proof.
  induction a as [|x a IH]; simpl; [reflexivity|]. now rewrite IH, orb_assoc.
Qed.

Lemma plain_no_slash name : plain name = true -> contains "/" name = false.
Proof.
  unfold plain. intros H. apply andb_prop in H. destruct H as [_ H].
  now apply negb_true_iff in H.
Qed.

Lemma plain_not_empty name : plain name = true -> name <> "".
Proof. intros H ->. discriminate H. Qed.

(** A name without a slash that holds a character other than a dot is
    plain. *)
Lemma plain_with (c : ascii) name :
  contains c "." = false ->
  contains "/" name = false -> contains c name = true -> plain name = true.
Proof.
  intros Hdot Hslash Hc. unfold plain. rewrite Hslash.
  destruct (String.eqb_spec name "") as [->|_]; [discriminate Hc|].
  destruct (String.eqb_spec name ".") as [->|_]; [congruence|].
  destruct (String.eqb_spec name "..") as [->|_]; [|reflexivity].
  simpl in *. rewrite orb_false_r in Hdot. now rewrite Hdot in Hc.
Qed.

Lemma no_slash_start name : contains "/" name = false -> starts_with_slash name = false.
Proof.
  destruct name as [|c name]; [reflexivity|]. simpl. intros H.
  now apply orb_false_iff in H.
Qed.

Lemma ends_with_slash_app (a b : string) :
  b <> "" -> ends_with_slash (a ++ b) = ends_with_slash b.
Proof.
  intros Hb. induction a as [|x a IH]; [reflexivity|].
  cbn [append]. cbn [ends_with_slash]. rewrite IH.
  destruct (a ++ b)%string eqn:E; [|reflexivity].
  destruct a; [now contradiction Hb|discriminate E].
Qed.

Lemma no_slash_end name : contains "/" name = false -> ends_with_slash name = false.
Proof.
  induction name as [|c name IH]; [reflexivity|]. simpl. intros H.
  apply orb_false_iff in H. destruct H as [Hc Hname].
  destruct name; [exact Hc|now apply IH].
Qed.

Lemma app_not_empty (a b : string) : b <> "" -> (a ++ b)%string <> "".
Proof. destruct a; [now intros|discriminate]. Qed.

(** A path below a root is not empty and does not end with a slash. *)
Lemma below_shape root p : below root p -> p <> "" /\ ends_with_slash p = false.
Proof.
  intros H. destruct H as [name Hname|q name _ Hname].
  - split; [apply app_not_empty; now apply plain_not_empty|].
    rewrite ends_with_slash_app by now apply plain_not_empty.
    now apply no_slash_end, plain_no_slash.
  - replace (q ++ "/" ++ name)%string with ((q ++ "/") ++ name)%string
      by now rewrite string_app_assoc.
    split; [apply app_not_empty; now apply plain_not_empty|].
    rewrite ends_with_slash_app by now apply plain_not_empty.
    now apply no_slash_end, plain_no_slash.
Qed.

Lemma below_root_join root name : plain name = true -> below root (path_join root name).
Proof.
  intros H. rewrite path_join_relative by now apply no_slash_start, plain_no_slash.
  now constructor.
Qed.

Lemma below_join root p name :
  below root p -> plain name = true -> below root (path_join p name).
Proof.
  intros Hp Hname. destruct (below_shape _ _ Hp) as [Hne Hend].
  unfold path_join. rewrite (no_slash_start _ (plain_no_slash _ Hname)), Hend.
  destruct (String.eqb_spec p "") as [->|_]; [now contradiction Hne|].
  now constructor.
Qed.

Lemma all_digits_no_slash s : all_digits s = true -> contains "/" s = false.
Proof.
  induction s as [|c s IH]; [reflexivity|]. simpl. intros H.
  apply andb_prop in H. destruct H as [Hc Hs]. rewrite (IH Hs), orb_false_r.
  destruct (Ascii.eqb_spec c "/") as [->|_]; [discriminate Hc|reflexivity].
Qed.

Lemma format_0d_no_slash w n : contains "/" (format_0d w n) = false.
Proof.
  assert (H : forall k, contains "/" (zfill k (digits n)) = false).
  { intros k. apply all_digits_no_slash. unfold zfill.
    now rewrite all_digits_app, all_digits_zeros, all_digits_digits. }
  unfold format_0d. destruct (n <? 0); [|apply H].
  cbn [append contains]. rewrite H. reflexivity.
Qed.

Lemma sequence_id_plain k : plain (sequence_id_of k) = true.
Proof.
  apply (plain_with "S"); [reflexivity| |reflexivity].
  unfold sequence_id_of. cbn [append contains]. now rewrite format_0d_no_slash.
Qed.

Lemma new_base_plain acquisition_id sequence_id sensor_id frame_id tail :
  contains "/" acquisition_id = false -> contains "/" sequence_id = false ->
  contains "/" sensor_id = false -> contains "/" frame_id = false ->
  contains "/" tail = false ->
  plain (new_base acquisition_id sequence_id sensor_id frame_id ++ tail) = true.
Proof.
  intros Ha Hs Hn Hf Ht. unfold new_base. apply (plain_with "_"); [reflexivity| |].
  - rewrite !contains_app, Ha, Hs, Hn, Hf, Ht. reflexivity.
  - rewrite !contains_app. cbn [contains Ascii.eqb Bool.eqb]. now rewrite !orb_true_r.
Qed.

Section Placement.

Context {lib : PyLib} {world : World}.

Variables (acquisition_id sensor_id : string) (max_per_seq : Z).
Variables (root images_root annotations_root : string).

Hypothesis acquisition_id_no_slash : contains "/" acquisition_id = false.
Hypothesis sensor_id_no_slash : contains "/" sensor_id = false.
Hypothesis images_root_below : below root images_root.
Hypothesis annotations_root_below : below root annotations_root.

Lemma render_frame_placed st item st' :
  render_frame acquisition_id sensor_id max_per_seq images_root annotations_root st item
  = Some st' ->
  contains "/" (ext (snd item)) = false ->
  placed root images_root annotations_root st ->
  placed root images_root annotations_root st'.
Proof.
  destruct item as [idx info].
  unfold render_frame, sequence_ids.
  destruct (Z.eqb_spec max_per_seq 0) as [|Hm]; [discriminate|].
  fold (sequence_id_of ((idx - 1) / max_per_seq + 1)).
  set (sid := sequence_id_of ((idx - 1) / max_per_seq + 1)).
  set (fid := format_0d 6 ((idx - 1) mod max_per_seq + 1)).
  intros H Hext [Hdirs [Hkeys Hlog]]. cbn [snd] in Hext.
  set (log1 := match current_sequence st with
               | Some current => _
               | None => []
               end) in H.
  assert (Hsid : plain sid = true) by apply sequence_id_plain.
  assert (Hlog1 : Forall (writes_below root) log1).
  { subst log1. destruct (current_sequence st) as [current|]; [|constructor].
    destruct (negb (current =? "")%string && negb (sid =? current)%string);
      repeat constructor. }
  assert (Himg : below root (path_join images_root sid))
    by now apply below_join.
  assert (Hann : below root (path_join annotations_root sid))
    by now apply below_join.
  assert (Hdest : forall tail,
             contains "/" tail = false ->
             below root (path_join (path_join images_root sid)
                           (new_base acquisition_id sid sensor_id fid ++ tail))
             /\ below root (path_join (path_join annotations_root sid)
                              (new_base acquisition_id sid sensor_id fid ++ tail))).
  { intros tail Htail.
    assert (Hname : plain (new_base acquisition_id sid sensor_id fid ++ tail) = true).
    { apply new_base_plain; auto; [now apply plain_no_slash|apply format_0d_no_slash]. }
    split; now apply below_join. }
  assert (Hmade : writes_below root
                    (ensure_dirs [path_join images_root sid; path_join annotations_root sid])).
  { unfold ensure_dirs. cbn [writes_below]. apply Forall_forall. intros p Hp.
    apply filter_In in Hp. destruct Hp as [[<-|[<-|[]]] _]; assumption. }
  destruct (dict_get sid (sequence_dirs st)) as [[img ann]|] eqn:Edirs.
  - destruct (Hdirs _ _ _ Edirs) as [-> ->].
    destruct (build_annotation_payload info acquisition_id sid sensor_id _)
      as [payload|]; [|discriminate].
    destruct (build_pose_entry info _ _) as [row|]; [|discriminate].
    injection H as <-. unfold placed, dirs_ok. cbn [sequence_dirs poses_by_sequence written].
    split; [exact Hdirs|]. split.
    + rewrite dict_append_keys.
      destruct (set_mem sid (map fst (poses_by_sequence st))); [exact Hkeys|].
      apply Forall_app. split; [exact Hkeys|]. now repeat constructor.
    + destruct (Hdest (ext info) Hext) as [Hd _]. destruct (Hdest ".json" eq_refl) as [_ Ha].
      repeat (apply Forall_app; split); try assumption;
        repeat constructor; assumption.
  - destruct (build_annotation_payload info acquisition_id sid sensor_id _)
      as [payload|]; [|discriminate].
    destruct (build_pose_entry info _ _) as [row|]; [|discriminate].
    injection H as <-. unfold placed, dirs_ok. cbn [sequence_dirs poses_by_sequence written].
    split; [|split].
    + intros s img ann Hget.
      destruct (String.eqb_spec s sid) as [->|Hne].
      * rewrite dict_get_set_eq in Hget. injection Hget as <- <-. now split.
      * rewrite dict_get_set_ne in Hget by exact Hne. now apply Hdirs.
    + rewrite dict_append_keys.
      destruct (set_mem sid (map fst (poses_by_sequence st))); [exact Hkeys|].
      apply Forall_app. split; [exact Hkeys|]. now repeat constructor.
    + destruct (Hdest (ext info) Hext) as [Hd _]. destruct (Hdest ".json" eq_refl) as [_ Ha].
      repeat (apply Forall_app; split); try assumption;
        repeat constructor; assumption.
Qed.

Lemma render_frames_placed items : forall st st',
  render_frames acquisition_id sensor_id max_per_seq images_root annotations_root st items
  = Some st' ->
  Forall (fun item => contains "/" (ext (snd item)) = false) items ->
  placed root images_root annotations_root st ->
  placed root images_root annotations_root st'.
Proof.
  induction items as [|item items IH]; intros st st' H Hext Hst.
  - now injection H as <-.
  - cbn [render_frames] in H.
    destruct (render_frame acquisition_id sensor_id max_per_seq images_root
                annotations_root st item) as [st1|] eqn:E; [|discriminate].
    inversion Hext as [|? ? Hitem Hrest]; subst.
    apply (IH _ _ H Hrest). now apply (render_frame_placed _ _ _ E).
Qed.

End Placement.

Lemma basename_from_no_slash s : forall x,
  contains "/" x = false -> contains "/" (basename_from (x ++ s) s) = false.
Proof.
  induction s as [|c s IH]; intros x Hx; simpl.
  - now rewrite string_app_nil_r.
  - destruct (Ascii.eqb_spec c "/") as [->|Hne].
    + apply (IH ""). reflexivity.
    + replace (x ++ String c s)%string with ((x ++ String c "") ++ s)%string
        by (rewrite string_app_assoc; reflexivity).
      apply IH. rewrite contains_app, Hx. simpl.
      destruct (Ascii.eqb_spec c "/"); [contradiction|reflexivity].
Qed.

Lemma basename_no_slash p : contains "/" (basename p) = false.
Proof. exact (basename_from_no_slash p "" eq_refl). Qed.

Section Below.

Context {lib : PyLib} {world : World}.

Variables (sensor_id : string) (max_per_seq : Z) (output_dir : string).

Hypothesis sensor_id_no_slash : contains "/" sensor_id = false.

(** Everything [process_acquisition] creates or writes lies below the
    acquisition's folder. *)
Lemma process_acquisition_below acquisition_id records log count :
  contains "/" acquisition_id = false ->
  Forall (fun r => contains "/" (ext r) = false) records ->
  process_acquisition acquisition_id records sensor_id max_per_seq output_dir
  = Some (log, count) ->
  Forall (writes_below (path_join output_dir acquisition_id)) log.
Proof.
  intros Hacq Hext H.
  set (root := path_join output_dir acquisition_id).
  assert (Hsub : forall name, plain name = true -> below root (path_join root name))
    by (intros name; apply below_root_join).
  unfold process_acquisition in H.
  destruct (render_acquisition acquisition_id records sensor_id max_per_seq output_dir)
    as [st|] eqn:Hst; [|discriminate].
  injection H as <- _. fold root.
  assert (Hplaced : placed root (path_join root "01_images")
                      (path_join root "04_annotations") st).
  { unfold render_acquisition in Hst. fold root in Hst.
    destruct (build_coordinate_systems (sort_records records)) as [cs|]; [|discriminate].
    destruct (build_intrinsics (sort_records records) sensor_id) as [intr|]; [|discriminate].
    apply (render_frames_placed acquisition_id sensor_id max_per_seq root
             (path_join root "01_images") (path_join root "04_annotations") Hacq
             sensor_id_no_slash (Hsub "01_images" eq_refl) (Hsub "04_annotations" eq_refl)
             _ _ _ Hst).
    { apply (enumerate_Forall_snd (fun r => contains "/" (ext r) = false)).
      now apply sort_records_Forall. }
    split; [intros s img ann Hget; discriminate|]. split; [constructor|].
    cbn [written]. repeat (apply Forall_app; split).
    - unfold ensure_dirs. constructor; [|constructor]. cbn [writes_below].
      apply Forall_forall. intros p Hp. apply filter_In in Hp. destruct Hp as [Hp _].
      simpl in Hp. decompose [or] Hp; subst; try contradiction; now apply Hsub.
    - destruct (truthy cs); constructor; [|constructor]. cbn [writes_below].
      apply below_join; [now apply Hsub|reflexivity].
    - destruct (truthy intr); constructor; [|constructor]. cbn [writes_below].
      apply below_join; [now apply Hsub|reflexivity]. }
  destruct Hplaced as [_ [Hkeys Hlog]].
  repeat (apply Forall_app; split); [exact Hlog| |].
  - destruct (current_sequence st) as [current|]; [|constructor].
    destruct (negb (current =? "")%string); repeat constructor.
  - apply Forall_forall. intros e He. apply in_flat_map in He.
    destruct He as [[s rows] [Hin He]].
    assert (Hs : plain s = true).
    { rewrite Forall_forall in Hkeys. apply Hkeys. apply in_map_iff. now exists (s, rows). }
    assert (Hfile : forall tail,
               contains "/" tail = false -> contains "_" tail = true ->
               below root (path_join (path_join root "02_poses") (s ++ tail))).
    { intros tail Htail Hunder. apply below_join; [now apply Hsub|].
      apply (plain_with "_"); [reflexivity| |].
      - now rewrite contains_app, (plain_no_slash _ Hs), Htail.
      - rewrite contains_app, Hunder. apply orb_true_r. }
    unfold emit_sequence in He.
    destruct (negb (set_mem s (sequences_with_pose st))); [contradiction|].
    destruct He as [<-|He]; [now apply Hfile|].
    destruct (truthy _); [|contradiction].
    destruct He as [<-|[]]. now apply Hfile.
Qed.

(** The LiDAR copies of an acquisition lie below its folder too. *)
Lemma copy_lidar_assets_below acquisition_id lidar_paths :
  contains "/" acquisition_id = false ->
  Forall (fun p => plain (basename p) = true) lidar_paths ->
  Forall (writes_below (path_join output_dir acquisition_id))
    (fst (copy_lidar_assets (path_join output_dir acquisition_id) acquisition_id
            lidar_paths)).
Proof.
  intros Hacq Hnames. rewrite copy_lidar_assets_eq.
  set (root := path_join output_dir acquisition_id).
  assert (Hroot : below root (path_join root "06_point_clouds"))
    by now apply below_root_join.
  destruct lidar_paths as [|p paths] eqn:E; [constructor|]. rewrite <- E in *.
  cbn [fst]. constructor.
  - unfold ensure_dirs. cbn [writes_below]. apply Forall_forall. intros d Hd.
    apply filter_In in Hd. destruct Hd as [[<-|[]] _]. exact Hroot.
  - apply Forall_forall. intros e He. apply in_map_iff in He.
    destruct He as [x [<- Hx]]. apply filter_In in Hx. destruct Hx as [Hx _].
    rewrite Forall_forall in Hnames. specialize (Hnames x Hx).
    cbn [writes_below]. unfold lidar_dest.
    apply below_join; [exact Hroot|].
    destruct (String.prefix _ _); [exact Hnames|].
    apply (plain_with "_"); [reflexivity| |].
    + rewrite !contains_app, Hacq, (plain_no_slash _ Hnames). reflexivity.
    + rewrite !contains_app. cbn [contains Ascii.eqb Bool.eqb]. now rewrite !orb_true_r.
Qed.

Lemma process_group_below lidar_paths log0 total lidar_total k items result :
  contains "/" k = false ->
  Forall (fun r => contains "/" (ext r) = false) items ->
  Forall (fun p => plain (basename p) = true) lidar_paths ->
  process_group sensor_id max_per_seq output_dir lidar_paths
    (log0, total, lidar_total) (k, items) = Some result ->
  exists events,
    fst (fst result) = log0 ++ events
    /\ Forall (writes_below (path_join output_dir k)) events.
Proof.
  intros Hk Hext Hnames H. unfold process_group in H.
  destruct (process_acquisition k items sensor_id max_per_seq output_dir)
    as [[events n]|] eqn:Ep; [|discriminate].
  pose proof (process_acquisition_below _ _ _ _ Hk Hext Ep) as Hevents.
  pose proof (copy_lidar_assets_below k lidar_paths Hk Hnames) as Hlidar.
  destruct lidar_paths as [|p paths].
  - injection H as <-. now exists events.
  - destruct (copy_lidar_assets (path_join output_dir k) k (p :: paths))
      as [levents lcopied].
    injection H as <-. cbn [fst] in *. eexists. split; [reflexivity|].
    repeat first [assumption | apply Forall_app; split | constructor].
Qed.

(** X19. With a region, a sensor identifier, acquisition dates and file
    extensions that hold no slash, and LiDAR paths whose base names are
    plain components, every directory created and every file copied or
    written by [process_records_by_acquisition] lies below the folder of
    one of the records' acquisitions: its path is
    [<output_dir>/<acquisition_date>-<region>], itself one plain component
    below the output directory, followed by plain components only, none
    of them empty, [.] or [..]. *)
Theorem outputs_stay_in_acquisition_folders records region lidar_paths log counts :
  contains "/" region = false ->
  Forall (fun r => contains "/" (acquisition_date r) = false
                   /\ contains "/" (ext r) = false) records ->
  Forall (fun p => plain (basename p) = true) lidar_paths ->
  process_records_by_acquisition records region sensor_id max_per_seq output_dir
    lidar_paths = Some (log, counts) ->
  Forall (fun e => exists r,
            In r records
            /\ plain (acquisition_id_of region r) = true
            /\ below output_dir (path_join output_dir (acquisition_id_of region r))
            /\ writes_below (path_join output_dir (acquisition_id_of region r)) e)
    log.
Proof.
  intros Hregion Hrecords Hnames. unfold process_records_by_acquisition.
  assert (Hgroups : forall k items,
             In (k, items) (group_records records region) ->
             Forall (fun r => contains "/" (ext r) = false) items
             /\ exists r, In r records /\ k = acquisition_id_of region r).
  { intros k items Hin.
    destruct (group_records_items region records k items Hin) as [-> Hne]. split.
    - apply Forall_forall. intros r Hr. unfold records_of in Hr. apply filter_In in Hr.
      rewrite Forall_forall in Hrecords. now apply Hrecords.
    - destruct (records_of region k records) as [|r rest] eqn:E; [contradiction|].
      assert (Hr : In r (records_of region k records)) by (rewrite E; now left).
      unfold records_of in Hr. apply filter_In in Hr. destruct Hr as [Hr Hk].
      apply String.eqb_eq in Hk. now exists r. }
  assert (Hid : forall r, In r records ->
                          contains "/" (acquisition_id_of region r) = false
                          /\ plain (acquisition_id_of region r) = true).
  { intros r Hr. rewrite Forall_forall in Hrecords. destruct (Hrecords r Hr) as [Hdate _].
    assert (Hslash : contains "/" (acquisition_id_of region r) = false).
    { unfold acquisition_id_of. rewrite !contains_app, Hdate, Hregion. reflexivity. }
    split; [exact Hslash|]. apply (plain_with "-"); [reflexivity|exact Hslash|].
    unfold acquisition_id_of. rewrite !contains_app. cbn [contains Ascii.eqb Bool.eqb].
    now rewrite !orb_true_r. }
  set (P := fun e => exists r,
                In r records
                /\ plain (acquisition_id_of region r) = true
                /\ below output_dir (path_join output_dir (acquisition_id_of region r))
                /\ writes_below (path_join output_dir (acquisition_id_of region r)) e).
  assert (Hloop : forall grouped acc result,
             (forall k items, In (k, items) grouped ->
                              Forall (fun r => contains "/" (ext r) = false) items
                              /\ exists r, In r records /\ k = acquisition_id_of region r) ->
             Forall P (fst (fst acc)) ->
             process_groups sensor_id max_per_seq output_dir lidar_paths acc grouped
             = Some result ->
             Forall P (fst (fst result))).
  { induction grouped as [|[k items] grouped IH]; intros [[log0 total] lt] result Hk Hacc H.
    - simpl in H. now injection H as <-.
    - cbn [process_groups] in H.
      destruct (Hk k items (or_introl eq_refl)) as [Hext [r [Hr ->]]].
      destruct (process_group sensor_id max_per_seq output_dir lidar_paths
                  (log0, total, lt) (acquisition_id_of region r, items))
        as [acc'|] eqn:Eg; [|discriminate].
      destruct (Hid r Hr) as [Hslash Hplain].
      destruct (process_group_below _ _ _ _ _ _ _ Hslash Hext Hnames Eg)
        as [events [Hlog Hev]].
      apply (IH _ _ (fun k' items' Hin => Hk k' items' (or_intror Hin))) in H;
        [exact H|].
      rewrite Hlog. apply Forall_app. split; [exact Hacc|].
      rewrite Forall_forall in *. intros e He. exists r.
      split; [exact Hr|]. split; [exact Hplain|].
      split; [now apply below_root_join|now apply Hev]. }
  destruct (process_groups sensor_id max_per_seq output_dir lidar_paths ([], 0, 0)
              (group_records records region)) as [[[log1 total] lt]|] eqn:E; [|discriminate].
  intros H. injection H as <- _.
  apply (Hloop _ ([], 0, 0) (log1, total, lt) Hgroups (Forall_nil P) E).
Qed.

End Below.

Lemma outputs_stay_in_acquisition_folders_witness :
  exists log counts,
    process_records_by_acquisition (lib := example_lib) (world := empty_world)
      three_records "Nyon" "Cam" 2 "/out" ["/in/scan.laz"]
    = Some (log, counts)
    /\ Forall (fun e => exists r,
                 In r three_records
                 /\ plain (acquisition_id_of "Nyon" r) = true
                 /\ below "/out" (path_join "/out" (acquisition_id_of "Nyon" r))
                 /\ writes_below (path_join "/out" (acquisition_id_of "Nyon" r)) e)
         log.
Proof.
  destruct (process_records_by_acquisition (lib := example_lib) (world := empty_world)
              three_records "Nyon" "Cam" 2 "/out" ["/in/scan.laz"])
    as [[log counts]|] eqn:E.
  - exists log, counts. split; [reflexivity|].
    apply (outputs_stay_in_acquisition_folders (lib := example_lib) (world := empty_world)
             "Cam" 2 "/out" eq_refl three_records "Nyon" ["/in/scan.laz"] log counts);
      [reflexivity|repeat constructor|repeat constructor|exact E].
  - vm_compute in E. discriminate E.
Defined.

(** ** Walking the input tree *)

Lemma name_le_compare a b : name_le a b <-> String_as_OT.compare a b <> Gt.
Proof.
  split; [|apply name_le_of_compare].
  intros H E.
  destruct (String_as_OT.compare_spec a b) as [Heq|Hlt|Hgt]; try discriminate.
  destruct H as [H| ->]; [|now apply (string_lt_irrefl b)].
  apply (string_lt_irrefl a). now apply (string_lt_trans a b a).
Qed.

Lemma name_le_total a b : name_le a b \/ name_le b a.
Proof.
  destruct (String_as_OT.compare a b) eqn:E.
  - left. apply name_le_compare. congruence.
  - left. apply name_le_compare. congruence.
  - right. now apply name_le_of_gt.
Qed.

Lemma depth_key_le_spec a b :
  depth_key_le a b = true
  <-> fst a < fst b \/ (fst a = fst b /\ name_le (snd a) (snd b)).
Proof.
  unfold depth_key_le. destruct (Z.compare_spec (fst a) (fst b)) as [He|Hl|Hg].
  - rewrite name_le_compare. split.
    + intros H. right. split; [exact He|].
      destruct (String_as_OT.compare (snd a) (snd b)); discriminate.
    + intros [H|[_ H]]; [lia|].
      destruct (String_as_OT.compare (snd a) (snd b)); try reflexivity. now contradiction H.
  - split; [now left|reflexivity].
  - split; [discriminate|]. intros [H|[H _]]; lia.
Qed.

Lemma depth_key_le_refl a : depth_key_le a a = true.
Proof. apply depth_key_le_spec. right. split; [reflexivity|now right]. Qed.

Lemma depth_key_le_total a b : depth_key_le a b = false -> depth_key_le b a = true.
Proof.
  intros H. apply depth_key_le_spec.
  destruct (Z.lt_trichotomy (fst a) (fst b)) as [Hl|[He|Hg]].
  - assert (depth_key_le a b = true) by (apply depth_key_le_spec; now left). congruence.
  - right. split; [now symmetry|].
    destruct (name_le_total (snd a) (snd b)) as [Hn|Hn]; [|exact Hn].
    assert (depth_key_le a b = true) by (apply depth_key_le_spec; right; now split).
    congruence.
  - left. lia.
Qed.

Lemma depth_key_le_trans a b c :
  depth_key_le a b = true -> depth_key_le b c = true -> depth_key_le a c = true.
Proof.
  rewrite !depth_key_le_spec. intros [H1|[H1 N1]] [H2|[H2 N2]].
  - left. lia.
  - left. lia.
  - left. lia.
  - right. split; [lia|]. now apply (name_le_trans _ (snd b)).
Qed.

Lemma insert_by_key_perm {A : Type} (key : A -> Z * string) x l :
  Permutation (insert_by_key key x l) (x :: l).
Proof.
  induction l as [|y l IH]; simpl; [reflexivity|].
  destruct (depth_key_le (key x) (key y)); [reflexivity|].
  rewrite IH. apply perm_swap.
Qed.

Lemma sort_by_key_perm {A : Type} (key : A -> Z * string) l :
  Permutation (sort_by_key key l) l.
Proof.
  induction l as [|x l IH]; simpl; [reflexivity|].
  rewrite insert_by_key_perm. now constructor.
Qed.

Lemma insert_by_key_sorted {A : Type} (key : A -> Z * string) x l :
  StronglySorted (fun a b => depth_key_le (key a) (key b) = true) l ->
  StronglySorted (fun a b => depth_key_le (key a) (key b) = true) (insert_by_key key x l).
Proof.
  induction 1 as [|y l Hs IH Hy]; simpl; [repeat constructor|].
  destruct (depth_key_le (key x) (key y)) eqn:E.
  - constructor; [now constructor|].
    constructor; [exact E|].
    rewrite Forall_forall in *. intros z Hz.
    apply (depth_key_le_trans _ (key y)); [exact E|now apply Hy].
  - constructor; [exact IH|].
    apply (Permutation_Forall (x := x :: l)); [symmetry; apply insert_by_key_perm|].
    constructor; [now apply depth_key_le_total|exact Hy].
Qed.

Lemma sort_by_key_sorted {A : Type} (key : A -> Z * string) l :
  StronglySorted (fun a b => depth_key_le (key a) (key b) = true) (sort_by_key key l).
Proof.
  induction l as [|x l IH]; simpl; [constructor|].
  now apply insert_by_key_sorted.
Qed.

(** The first item of a sorted list that passes a test is the least one
    that does. *)
Lemma find_sorted_least {A : Type} (R : A -> A -> Prop) (f : A -> bool) (l : list A) x :
  (forall a, R a a) ->
  StronglySorted R l ->
  find f l = Some x ->
  In x l /\ f x = true /\ forall y, In y l -> f y = true -> R x y.
Proof.
  intros Hrefl Hs. induction Hs as [|a l Hs IH Ha]; simpl; [discriminate|].
  destruct (f a) eqn:E.
  - intros H. injection H as <-. split; [now left|]. split; [exact E|].
    intros y [<-|Hy] _; [apply Hrefl|].
    rewrite Forall_forall in Ha. now apply Ha.
  - intros H. destruct (IH H) as [Hin [Hf Hmin]].
    split; [now right|]. split; [exact Hf|].
    intros y [<-|Hy] Hfy; [congruence|now apply Hmin].
Qed.

Lemma find_none_all {A : Type} (f : A -> bool) (l : list A) :
  find f l = None <-> forall y, In y l -> f y = false.
Proof.
  split; [apply find_none|].
  induction l as [|a l IH]; simpl; [reflexivity|].
  intros H. rewrite (H a (or_introl eq_refl)). apply IH. intros y Hy. apply H. now right.
Qed.

Section Walking.

Context {lib : PyLib} {world : World} {tree : Tree}.

Lemma pose_csv_candidates_spec folder c :
  In c (Walk.pose_csv_candidates folder)
  <-> exists dir file,
        In dir (walk folder) /\ In file (snd dir) /\ c = path_join (fst dir) file
        /\ ends_with ".csv" (str_lower file) = true
        /\ Walk.is_sequence_table (str_lower file) = false.
Proof.
  unfold Walk.pose_csv_candidates. rewrite in_flat_map. split.
  - intros [dir [Hdir H]]. apply in_flat_map in H. destruct H as [file [Hfile H]].
    exists dir, file.
    destruct (ends_with ".csv" (str_lower file)); [|contradiction].
    destruct (Walk.is_sequence_table (str_lower file)); [contradiction|].
    destruct H as [<-|[]]. auto.
  - intros [dir [file [Hdir [Hfile [-> [Hcsv Hseq]]]]]].
    exists dir. split; [exact Hdir|]. apply in_flat_map. exists file.
    split; [exact Hfile|]. rewrite Hcsv, Hseq. now left.
Qed.

Lemma first_pose_csv_find candidates :
  Walk.first_pose_csv candidates
  = match find Walk.stops_at candidates with
    | None => inr None
    | Some c =>
        match Walk.csv_has_pose_headers c with
        | inl exc => inl exc
        | inr _ => inr (Some (abspath c))
        end
    end.
Proof.
  induction candidates as [|c candidates IH]; [reflexivity|].
  cbn [Walk.first_pose_csv find]. unfold Walk.stops_at at 1.
  destruct (Walk.csv_has_pose_headers c) as [exc|[|]] eqn:E;
    [now rewrite E|now rewrite E|exact IH].
Qed.

(** X20. [find_pose_csv_path] stops at the closest candidate whose header
    has a file-name column or cannot be read: one of least depth below
    the folder and, at that depth, of least lower-cased path. It returns
    the absolute path of that candidate, or lets the exception of reading
    it through; it returns [None] exactly when every candidate reads
    without a file-name column. The candidates are the files of the walk
    whose lower-cased name ends in [.csv] and is not [s], three digits and
    [_trajectory.csv]. *)
Theorem find_pose_csv_path_closest folder :
  match Walk.find_pose_csv_path folder with
  | inr None =>
      forall c, In c (Walk.pose_csv_candidates folder) ->
                Walk.csv_has_pose_headers c = inr false
  | inr (Some p) =>
      exists c,
        In c (Walk.pose_csv_candidates folder)
        /\ Walk.csv_has_pose_headers c = inr true
        /\ p = abspath c
        /\ Walk.closest folder c
  | inl exc =>
      exists c,
        In c (Walk.pose_csv_candidates folder)
        /\ Walk.csv_has_pose_headers c = inl exc
        /\ Walk.closest folder c
  end
  /\ forall c,
       In c (Walk.pose_csv_candidates folder)
       <-> exists dir file,
             In dir (walk folder) /\ In file (snd dir) /\ c = path_join (fst dir) file
             /\ ends_with ".csv" (str_lower file) = true
             /\ Walk.is_sequence_table (str_lower file) = false.
Proof.
  split; [|intros c; apply pose_csv_candidates_spec].
  unfold Walk.find_pose_csv_path. rewrite first_pose_csv_find.
  pose proof (sort_by_key_perm (Walk.closeness folder) (Walk.pose_csv_candidates folder))
    as Hperm.
  pose proof (sort_by_key_sorted (Walk.closeness folder)
                (Walk.pose_csv_candidates folder)) as Hsorted.
  destruct (find Walk.stops_at
              (sort_by_key (Walk.closeness folder) (Walk.pose_csv_candidates folder)))
    as [c|] eqn:E.
  - destruct (find_sorted_least _ _ _ _
                (fun a => depth_key_le_refl (Walk.closeness folder a)) Hsorted E)
      as [Hin [Hc Hmin]].
    apply (Permutation_in _ Hperm) in Hin.
    assert (Hclosest : Walk.closest folder c).
    { intros c' Hc' Hh.
      apply (depth_key_le_spec (Walk.closeness folder c) (Walk.closeness folder c')).
      apply Hmin; [now apply (Permutation_in _ (Permutation_sym Hperm))|].
      unfold Walk.stops_at.
      destruct (Walk.csv_has_pose_headers c') as [exc|[|]]; try reflexivity.
      now contradiction Hh. }
    unfold Walk.stops_at in Hc.
    destruct (Walk.csv_has_pose_headers c) as [exc|[|]] eqn:Eh; [| |discriminate].
    + exists c. split; [exact Hin|]. split; [exact Eh|exact Hclosest].
    + exists c. split; [exact Hin|]. split; [exact Eh|]. split; [reflexivity|exact Hclosest].
  - intros c Hc. rewrite find_none_all in E.
    apply (Permutation_in _ (Permutation_sym Hperm)) in Hc. specialize (E c Hc).
    unfold Walk.stops_at in E.
    now destruct (Walk.csv_has_pose_headers c) as [exc|[|]].
Qed.

End Walking.

Section Discovery.

Context {lib : PyLib} {world : World} {tree : Tree}.

Lemma first_image_none dirs :
  Walk.first_image dirs = None
  <-> forall dir file, In dir dirs -> In file (snd dir) -> Walk.is_jpeg file = false.
Proof.
  induction dirs as [|d dirs IH]; simpl.
  - split; [intros _ dir file []|reflexivity].
  - destruct (find Walk.is_jpeg (sorted (snd d))) as [file|] eqn:E.
    + split; [discriminate|]. intros H. apply find_some in E. destruct E as [Hin Hj].
      apply (Permutation_in _ (sorted_perm (snd d))) in Hin.
      rewrite (H d file (or_introl eq_refl) Hin) in Hj. discriminate.
    + rewrite IH. rewrite find_none_all in E. split.
      * intros H dir file [Heq|Hdir] Hfile; [subst dir|now apply (H dir)].
        apply E. now apply (Permutation_in _ (Permutation_sym (sorted_perm (snd d)))).
      * intros H dir file Hdir. apply H. now right.
Qed.

Lemma first_image_some dirs p :
  Walk.first_image dirs = Some p ->
  exists before dir after file,
    dirs = before ++ dir :: after
    /\ (forall d f, In d before -> In f (snd d) -> Walk.is_jpeg f = false)
    /\ In file (snd dir) /\ Walk.is_jpeg file = true
    /\ p = path_join (fst dir) file
    /\ forall file', In file' (snd dir) -> Walk.is_jpeg file' = true -> name_le file file'.
Proof.
  induction dirs as [|d dirs IH]; simpl; [discriminate|].
  destruct (find Walk.is_jpeg (sorted (snd d))) as [file|] eqn:E.
  - intros H. injection H as <-.
    destruct (find_sorted_least name_le _ _ _ (fun a => or_intror eq_refl)
                (sorted_sorted (snd d)) E) as [Hin [Hj Hmin]].
    exists [], d, dirs, file. split; [reflexivity|].
    split; [intros d0 f []|].
    split; [now apply (Permutation_in _ (sorted_perm (snd d)))|].
    split; [exact Hj|]. split; [reflexivity|].
    intros file' Hin' Hj'. apply Hmin; [|exact Hj'].
    now apply (Permutation_in _ (Permutation_sym (sorted_perm (snd d)))).
  - intros H. destruct (IH H) as [before [dir [after [file [-> [Hb Hrest]]]]]].
    exists (d :: before), dir, after, file. split; [reflexivity|].
    split; [|exact Hrest].
    intros d0 f [Heq|Hd] Hf; [subst d0|now apply (Hb d0)].
    rewrite find_none_all in E. apply E.
    now apply (Permutation_in _ (Permutation_sym (sorted_perm (snd d)))).
Qed.

Lemma collect_image_entries_spec folder e :
  In e (Walk.collect_image_entries folder)
  <-> exists dir file,
        In dir (walk folder) /\ In file (snd dir) /\ Walk.is_jpeg file = true
        /\ path e = path_join (fst dir) file
        /\ stat_mtime (path e) = Some (entry_mtime e).
Proof.
  unfold Walk.collect_image_entries. rewrite in_flat_map. split.
  - intros [dir [Hdir H]]. apply in_flat_map in H. destruct H as [file [Hfile H]].
    exists dir, file. destruct (Walk.is_jpeg file); [|contradiction].
    cbn [negb] in H.
    destruct (stat_mtime (path_join (fst dir) file)) as [m|] eqn:Em; [|contradiction].
    destruct H as [<-|[]]. cbn [path entry_mtime]. auto.
  - intros [dir [file [Hdir [Hfile [Hj [Hp Hm]]]]]].
    exists dir. split; [exact Hdir|]. apply in_flat_map. exists file.
    split; [exact Hfile|]. rewrite Hj. cbn [negb]. rewrite <- Hp, Hm.
    left. destruct e as [p m]. cbn [path entry_mtime] in *. now subst.
Qed.

(** X21. [find_first_image_path] returns [None] exactly when no file of
    the walk has a JPEG name; otherwise it returns, from the first
    directory of the walk that holds such a file, the one of least name.
    [collect_image_entries] returns exactly the JPEG-named files whose
    [os.stat] succeeds, each with its path and modification time. So a
    folder with an image to collect is always one in which a first image
    is found: folder discovery never misses it. *)
Theorem image_discovery folder :
  (Walk.find_first_image_path folder = None
   <-> forall dir file, In dir (walk folder) -> In file (snd dir) ->
                        Walk.is_jpeg file = false)
  /\ (forall p,
        Walk.find_first_image_path folder = Some p ->
        exists before dir after file,
          walk folder = before ++ dir :: after
          /\ (forall d f, In d before -> In f (snd d) -> Walk.is_jpeg f = false)
          /\ In file (snd dir) /\ Walk.is_jpeg file = true
          /\ p = path_join (fst dir) file
          /\ forall file', In file' (snd dir) -> Walk.is_jpeg file' = true ->
                           name_le file file')
  /\ (forall e,
        In e (Walk.collect_image_entries folder)
        <-> exists dir file,
              In dir (walk folder) /\ In file (snd dir) /\ Walk.is_jpeg file = true
              /\ path e = path_join (fst dir) file
              /\ stat_mtime (path e) = Some (entry_mtime e))
  /\ (Walk.collect_image_entries folder <> [] ->
      exists p, Walk.find_first_image_path folder = Some p).
Proof.
  split; [apply first_image_none|].
  split; [intros p; apply first_image_some|].
  split; [intros e; apply collect_image_entries_spec|].
  intros Hne. unfold Walk.find_first_image_path.
  destruct (Walk.first_image (walk folder)) as [p|] eqn:E; [now exists p|].
  destruct (Walk.collect_image_entries folder) as [|e entries] eqn:Ec; [now contradiction Hne|].
  assert (Hin : In e (Walk.collect_image_entries folder)) by (rewrite Ec; now left).
  apply collect_image_entries_spec in Hin.
  destruct Hin as [dir [file [Hdir [Hfile [Hj _]]]]].
  rewrite first_image_none in E. rewrite (E dir file Hdir Hfile) in Hj. discriminate.
Qed.

(** X22. [scan_lidar_files] returns the absolute paths of the files of the
    walk whose lower-cased name ends in [.laz] or [.las], each as often as
    the walk shows it, in ascending order. *)
Theorem scan_lidar_files_sorted folder :
  StronglySorted name_le (Walk.scan_lidar_files folder)
  /\ Permutation (Walk.scan_lidar_files folder) (Walk.lidar_files folder)
  /\ forall p,
       In p (Walk.scan_lidar_files folder)
       <-> exists dir file,
             In dir (walk folder) /\ In file (snd dir) /\ Walk.is_lidar file = true
             /\ p = abspath (path_join (fst dir) file).
Proof.
  unfold Walk.scan_lidar_files.
  split; [apply sorted_sorted|]. split; [apply sorted_perm|].
  intros p. split.
  - intros H. apply (Permutation_in _ (sorted_perm _)) in H.
    apply in_flat_map in H. destruct H as [dir [Hdir H]].
    apply in_map_iff in H. destruct H as [file [<- H]].
    apply filter_In in H. destruct H as [Hfile Hl]. exists dir, file. auto.
  - intros [dir [file [Hdir [Hfile [Hl ->]]]]].
    apply (Permutation_in _ (Permutation_sym (sorted_perm _))).
    apply in_flat_map. exists dir. split; [exact Hdir|].
    apply in_map_iff. exists file. split; [reflexivity|].
    apply filter_In. now split.
Qed.

End Discovery.

(** ** The entry point *)

Section MainOutcome.

Context {lib : PyLib} {world : World} {fs : FileSystem}.

Variable gather_input_dir : option string -> bool -> exn + string.
Variable commonpath : string -> string -> option string.

Lemma only_prints_app a b : only_prints a -> only_prints b -> only_prints (a ++ b).
Proof. intros Ha Hb. apply Forall_app. now split. Qed.

Lemma only_prints_banner args :
  only_prints
    (if no_args args
     then [Print "NearAI Frame Manager (CLI).";
           Print ("Can directly run with arguments instead (see README or "
                  ++ "https://github.com/erw-1/nearai_frame_manager).")%string]
     else []).
Proof. destruct (no_args args); repeat constructor; eexists; left; reflexivity. Qed.

(** X23. Once the arguments are parsed, [main] refuses a sequence size
    that is not positive before it looks at anything else, so the
    renderer never divides by zero. Take a
    run in which the folder picker, the prompts, the pose loader and the
    LiDAR search raise only what their handlers name, the batch dialogue
    gives one entry per plan and the final prompt returns, in which the
    reads that the [World] takes to return do return
    ([find_pose_csv_path], and [extract_exif_metadata] and
    [extract_camera_model] on every image they are given), and in which no
    file operation fails. Then [main] returns 0 or 1 whatever the decoded
    metadata and the pose rows are; and when it returns 1 it has printed,
    but created, copied and written nothing. *)
Theorem main_returns args :
  (forall cli_dir allow_gui e,
     gather_input_dir cli_dir allow_gui = inl e -> is_not_found_or_value_error e = true) ->
  (forall e, resolve_region (arg_region (parsed args)) = inl e -> is_value_error e = true) ->
  (forall p epoch e, load_pose_csv p epoch = inl e -> is_os_or_value_error e = true) ->
  (forall e, collect_lidar_paths (arg_lidar_path (parsed args)) = inl e ->
             is_not_found_or_value_error e = true) ->
  (forall raw default_sensor allow_prompt e,
     resolve_sensor_id raw default_sensor allow_prompt = inl e ->
     is_value_error e = true) ->
  (forall plans,
     match collect_batch_region_sensor plans with
     | inl e => is_value_error e = true
     | inr entries => List.length entries = List.length plans
     end) ->
  let result := main gather_input_dir commonpath None args in
  (arg_max_per_seq (parsed args) <= 0 ->
   result = ([PrintErr "max-per-seq must be greater than zero."], Exit 1))
  /\ (snd result = Exit 0 \/ snd result = Exit 1)
  /\ (snd result = Exit 1 -> only_prints (fst result)).
Proof.
  intros Hgather Hregion Hpose Hlidar Hsensor Hbatch result.
  assert (Hprint : forall line, only_prints [PrintErr line])
    by (intros line; repeat constructor; eexists; right; reflexivity).
  assert (Hsingle : forall input_dir output_dir,
             arg_max_per_seq (parsed args) <> 0 ->
             snd (run_single_acquisition input_dir output_dir (parsed args)) = Exit 0
             \/ (snd (run_single_acquisition input_dir output_dir (parsed args)) = Exit 1
                 /\ only_prints (fst (run_single_acquisition input_dir output_dir
                                        (parsed args))))).
  { intros input_dir output_dir Hm. unfold run_single_acquisition.
    destruct (resolve_region (arg_region (parsed args))) as [exc|region] eqn:Er.
    { rewrite (Hregion _ eq_refl). right. split; [reflexivity|apply Hprint]. }
    assert (Hafter : forall poses,
               snd (single_after_pose input_dir output_dir (parsed args) region poses)
               = Exit 0
               \/ (snd (single_after_pose input_dir output_dir (parsed args) region poses)
                   = Exit 1
                   /\ only_prints (fst (single_after_pose input_dir output_dir
                                          (parsed args) region poses)))).
    { intros poses.
      destruct (single_after_pose input_dir output_dir (parsed args) region poses)
        as [events out] eqn:E.
      destruct (single_after_pose_returns _ _ _ _ _ _ _ Hm Hlidar Hsensor E)
        as [->|[-> [msg ->]]]; [now left|right; split; [reflexivity|apply Hprint]]. }
    unfold load_pose_lookup.
    destruct (if is_auto_value (arg_pose_csv (parsed args)) then _ else _) as [p|].
    2:{ specialize (Hafter []).
        destruct (single_after_pose input_dir output_dir (parsed args) region [])
          as [events out]. exact Hafter. }
    destruct (negb (truthy (VStr p))).
    { specialize (Hafter []).
      destruct (single_after_pose input_dir output_dir (parsed args) region [])
        as [events out]. exact Hafter. }
    destruct (load_pose_csv (abspath p) (arg_pose_epoch (parsed args)))
      as [exc|poses] eqn:Ep.
    { rewrite (Hpose _ _ _ Ep). cbn [negb]. rewrite (Hpose _ _ _ Ep).
      right. split; [reflexivity|apply Hprint]. }
    specialize (Hafter poses).
    destruct (single_after_pose input_dir output_dir (parsed args) region poses)
      as [events out]. exact Hafter. }
  assert (Hmulti : forall plans output_dir,
             arg_max_per_seq (parsed args) <> 0 ->
             snd (run_multi_acquisition plans (arg_pose_epoch (parsed args))
                    (arg_max_per_seq (parsed args)) output_dir) = Exit 0
             \/ (snd (run_multi_acquisition plans (arg_pose_epoch (parsed args))
                        (arg_max_per_seq (parsed args)) output_dir) = Exit 1
                 /\ only_prints (fst (run_multi_acquisition plans
                                        (arg_pose_epoch (parsed args))
                                        (arg_max_per_seq (parsed args)) output_dir)))).
  { intros plans output_dir Hm. unfold run_multi_acquisition.
    specialize (Hbatch plans).
    destruct (collect_batch_region_sensor plans) as [exc|entries].
    - rewrite Hbatch. right. split; [reflexivity|apply Hprint].
    - left. now apply multi_loop_returns. }
  subst result. unfold main.
  destruct (Z.leb_spec (arg_max_per_seq (parsed args)) 0) as [Hle|Hgt].
  { split; [reflexivity|]. split; [now right|]. intros _. apply Hprint. }
  split; [lia|].
  assert (Hm : arg_max_per_seq (parsed args) <> 0) by lia.
  pose proof (only_prints_banner args) as Hbanner.
  set (banner := if no_args args then _ else _) in *.
  assert (Hfinal : forall log status,
             (status = 0 \/ (status = 1 /\ only_prints log)) ->
             (snd (finalize None args log status) = Exit 0
              \/ snd (finalize None args log status) = Exit 1)
             /\ (snd (finalize None args log status) = Exit 1 ->
                 only_prints (fst (finalize None args log status)))).
  { intros log status Hs. unfold finalize.
    destruct (no_args args); cbn [fst snd];
      (destruct Hs as [->|[-> Hlog]];
       [split; [now left|discriminate]|split; [now right|now intros _]]). }
  destruct (gather_input_dir (arg_input_dir args) (negb (arg_no_gui args)))
    as [exc|input_dir] eqn:Eg.
  { rewrite (Hgather _ _ _ Eg). apply Hfinal. right. split; [reflexivity|].
    apply only_prints_app; [exact Hbanner|apply Hprint]. }
  destruct (match commonpath (abspath input_dir) (abspath (arg_output_dir args)) with
            | Some c => _
            | None => false
            end).
  { apply Hfinal. right. split; [reflexivity|].
    apply only_prints_app; [exact Hbanner|apply Hprint]. }
  destruct (no_args args) eqn:En.
  - destruct (IoUtils.find_acquisition_folders input_dir) as [|c cs].
    { apply Hfinal. now left. }
    specialize (Hmulti (build_plans (c :: cs)) (abspath (arg_output_dir args)) Hm).
    destruct (run_multi_acquisition (build_plans (c :: cs)) _ _ _) as [log out].
    cbn [fst snd] in Hmulti.
    destruct Hmulti as [->|[-> Hlog]]; apply Hfinal; [now left|].
    right. split; [reflexivity|now apply only_prints_app].
  - specialize (Hsingle input_dir (abspath (arg_output_dir args)) Hm).
    destruct (run_single_acquisition input_dir (abspath (arg_output_dir args)) (parsed args))
      as [log out].
    cbn [fst snd] in *.
    destruct Hsingle as [->|[-> Hlog]]; (split; [auto|]); [discriminate|].
    intros _. now apply only_prints_app.
Qed.

End MainOutcome.

Lemma main_returns_witness :
  snd (main (lib := example_lib) (world := steady_world) (fs := two_folder_fs)
         answer_in root_only None bare_args) = Exit 0
  \/ snd (main (lib := example_lib) (world := steady_world) (fs := two_folder_fs)
            answer_in root_only None bare_args) = Exit 1.
Proof.
  destruct (main_returns (lib := example_lib) (world := steady_world) (fs := two_folder_fs)
              answer_in root_only bare_args) as [_ [H _]].
  - intros [p|] allow_gui e H; discriminate H.
  - intros e H. injection H as <-. reflexivity.
  - intros p epoch e H. discriminate H.
  - intros e H. discriminate H.
  - intros [raw|] default_sensor allow_prompt e H; [discriminate H|].
    injection H as <-. reflexivity.
  - intros plans. simpl. apply length_map.
  - exact H.
Defined.
